(* ===== verification/_CoqProject ===== *)
-Q . S2P
Prelude.v
RustStr.v
Errors.v
Template.v
Catalog.v
Limit.v
BrokerConfig.v
BrokerCatalog.v
Certs.v
Keys.v
Kube.v
Issuer.v
Sign.v
Jwt.v
Tokens.v
Server.v
Client.v
Vault.v
BrokerProcess.v
BrokerTls.v
Rollout.v
Tarball.v
Fs.v
Publish.v
Volume.v
Oci.v
Contents.v
Registry.v
NodeStore.v
Rounding.v
FloatText.v
NodeConfig.v
Jitter.v
Policy.v
PolicyWait.v
Stream.v
Host.v
Mountinfo.v
Recover.v
Daemon.v
PolicyProcess.v
Node.v
Process.v
Exposition.v
BrokerMetrics.v
Startup.v
System.v
