(* ===== verification/Prelude.v ===== *)
(** * svidlet: a verification development

    svidlet gives every pod of a fleet of Kubernetes clusters an X.509 SPIFFE
    identity, optional JWT-SVIDs and a policy bundle, as files in a CSI volume.
    Three processes and two tools share three crates:

    - the node plugin (crate [svidlet]): a CSI driver the kubelet calls to
      publish and unpublish volumes; it generates a key, has a certificate
      signed by Vault or by the broker, writes both to a tmpfs, renews them,
      refreshes the trust bundle, and adopts what it finds after a restart;
    - the policy daemon (same crate): it pulls signed rollout manifests and
      bundles from an OCI registry, or follows a gRPC stream, and writes policy
      into the volumes of the identities it is for;
    - the broker (crate [svidlet-broker]): it holds the Vault credential of a
      cluster, attests the calling node and the pod through the API server,
      signs certificates and mints tokens within rate limits;
    - [oidc-publisher] and [svidlet-catalog], two command-line tools.

    The crate [svidlet-issue] has what they share: templates, the identity
    catalog, certificates, JWTs and the clients of Vault and of the broker.

    ** Conventions

    Pure functions are Gallina functions with the source's names; [Result] is
    [result], whose monad is the [?] operator; a panic is [None] of the option
    around a stateful operation.  State is passed explicitly: a file system in
    which every system call may fail ([Fs]), a host with mounts ([Host]), the
    node's shared state ([Node]), the broker's ([Server]), a Vault client's
    ([Vault]).  Errors keep their kind, not their message.  Integers are [Z]
    with the wrap-around, saturation or overflow panic of their width written
    out; floating point is [SpecFloat] at the width the code uses.  Third-party
    code (X.509 and JSON and TOML decoding, base64, SHA-256, Ed25519, regular
    expressions, HTTP, TLS) is a parameter or a class, and what is relied on of
    it is a class of its own, with an instance that satisfies it beside the
    theorems that use it.

    ** Files

    Shared: [Prelude] (results, integers, tactics), [RustStr] (what the code
    uses of [str]), [Fs] (the file system, its Hoare rules and footprints),
    [Errors] (issue/error.rs, broker/refusal.rs).

    Identities: [Template] (issue/template.rs), [Catalog] (issue/catalog.rs),
    [Certs] (issue/bundle.rs, broker/csr.rs), [Keys] (issue/key.rs: the node's
    keys and CSRs), [Jwt] (issue/jwt.rs), [Issuer] (issue/issuer.rs; the class
    [IssuerSound] is what a backend promises).

    Broker: [Limit], [BrokerConfig], [BrokerCatalog], [Kube], [Sign], [Tokens]
    (the files of those names under svidlet-broker/src), [Server] (server.rs
    and the state of lib.rs: handlers, housekeeping, counters), [BrokerTls]
    (server.rs's two TLS ports, from the listener to the handlers),
    [BrokerMetrics] (metrics.rs and the metrics port).

    Clients: [Vault] (issue/auth.rs and issue/vault/: token cache, logins,
    signing, minting), [Client] (issue/broker.rs); both give an [Issuer] and
    prove it sound.

    Policy: [Rollout] (policy/oci/rollout.rs and verify.rs), [Tarball], [Oci]
    (policy/oci/store.rs and mod.rs), [Registry] (policy/oci/registry.rs and
    the public key), [Policy] (policy/mod.rs and policy/grpc.rs's
    updates and subscriptions), [PolicyWait] (policy/mod.rs's [wait_for]), [Stream] (policy/grpc.rs's connections), [Daemon]
    (policy/daemon.rs).

    Node: [Volume] and [Host] (volume.rs: chains of generations; mounts and the
    farm), [Mountinfo] (volume.rs's reading of the mount table), [NodeStore]
    (store.rs, rand.rs), [NodeConfig] (config.rs), [Jitter] (the pauses of the
    poll and token loops, and bounds on all that is drawn; [Rounding] has the
    facts on binary64 rounding they rest on), [Recover] (recover.rs), [Node] (issue.rs, renew.rs, csi/node.rs, recover.rs), and
    [System], which plugs the node into the broker client, the client into the
    broker's handler and the broker into a sound Vault.

    Processes: [Process] (the node plugin from start-up on: the kubelet's calls
    and the passes of renew.rs as steps in any order), [Startup] (main.rs and
    server.rs up to the sockets, csi/identity.rs, csi/registration.rs),
    [PolicyProcess] (bin/svidlet-policy.rs, the poll loop, the daemon's loop),
    [BrokerProcess] (svidlet-broker's main.rs, lib.rs and ports).

    Observability: [Exposition] (metrics.rs and the pages of policy/daemon.rs),
    [FloatText] (how Rust prints an f64, and durations as seconds).

    Tools: [Publish] (broker/publish.rs and bin/oidc-publisher.rs), [Catalog]'s
    module [Cli] (bin/svidlet-catalog.rs).

    ** What the theorems show

    - Who gets which identity: [Sign.sign_sound], [Sign.issued_identity_is_the_tokens],
      [Node.published_identity_is_the_pods], [Client.sign_end_to_end],
      [System.publish_end_to_end], [Keys.generated_csr_accepted],
      [Template.render_injective]; tokens in
      [Tokens.token_grant_sound], [Tokens.token_subject_is_caller] and
      [Client.tokens_end_to_end], and who is heard on the token port in
      [BrokerTls.token_port_authenticates].
    - What a reader of a volume sees at every moment, whichever calls fail:
      [Volume.publish_identity_atomic], [Volume.publish_policy_atomic],
      [Volume.secrets_confined]; the same for the bucket in
      [Publish.publisher_last_good_copy].
    - Failures leave the last good state: [Node.renewal_fails_stale],
      [Oci.poll_fails_stale], [BrokerCatalog.catalog_fails_stale],
      [Node.failed_publish_keeps_store], [Vault.token_cache_fresh].
    - What is applied was verified: [Oci.poll_applies_verified], [Oci.no_replay],
      [Registry.single_layer_verified], [Tarball.extract_safe],
      [Daemon.policy_follows_identity].
    - Limits hold: [Limit.window_refines_spec], [Sign.node_rate_enforced],
      [Tokens.mint_rate_enforced], [Sign.refusal_spends_nothing].
    - What is drawn at random stays in its window, whatever is drawn and through
      every rounding: [Jitter.renewal_in_window], [Jitter.poll_pause_bounds],
      [Jitter.token_pause_bounds].
    - Round trips and equivalences: templates, volumes, archives, the mount
      table ([Mountinfo.mount_table_read]), the rendered Vault policy against
      the broker's lookup.
    - Whole processes: [Process.node_process_invariant] for the node plugin with
      any backend and [System.node_serves_attested_only] for it behind a broker,
      [PolicyProcess.policy_process_sound] for the policy daemon with signed
      bundles and [PolicyProcess.stream_process_sound] for it on a stream,
      [Startup.startup_sound] and [BrokerProcess.broker_start_sound]
      for what each is once it serves, [Startup.startup_survives_outage] and
      [Stream.stream_reconnects] for what an outage cannot stop;
      [PolicyWait.wait_for_misses_nothing] for a waiter among other tasks.
    - What is exported: [Exposition.histogram_cumulative],
      [Exposition.every_series_exported], [BrokerMetrics.broker_page_counts].

    ** Bounds and fuel

    Loops over data are structural.  [trim] walks with the length of its string
    as fuel, each round drops at least one byte; a path is resolved with its
    length and forty links, as the kernel bounds links, and no path of the
    program crosses more than two; the glob matcher's fuel is the length of its
    pattern, proved enough ([Rollout.glob_match_spec]); the tar reader's is one
    more than its 512-byte blocks, proved enough ([Tarball.extract_safe]); a version
    directory is read to the depth of the tree.
    [Vault.refresh_schedule] is decided for every lease up to an hour.
    [FloatText] finds a decimal exponent within 400 steps, where that of a
    binary64 is at most 324, and tries up to seventeen digits, which are enough
    to identify one.
    [Rounding] compares floats as integers scaled by 2^2200, which makes every
    finite binary64 and every product of two whole; the bounds of [Jitter] are
    for lifetimes up to 2^49 seconds and intervals up to 2^52.  What a listener
    returns is a finite list, and the accept loop runs for its length
    ([BrokerTls.accepted_all]: every connection in it is served).

    ** Not modelled

    Sockets, HTTP framing and the accept loops of the node's metrics and gRPC
    listeners; log output and the texts of messages; the inside of rcgen, rustls
    and the other third-party crates, which are parameters or classes; the
    sleeping of the periodic loops (their passes and the lengths of their pauses
    are modelled); signals; the benchmark and the generated protobuf code.
    In the steps of a process each call or pass runs alone.
    [Process.node_process_invariant] takes a removal that fails to have removed
    nothing; [Volume] and [Host] do not.  Where two threads may interleave inside
    one operation the model says so: [Limit.window_allow_race],
    [Policy.sync_lost_wakeup], [PolicyWait.wait_for_misses_nothing]. *)

From stdpp Require Export base tactics option list gmap strings sorting numbers pretty.
From Stdlib Require Export ZArith Lia Ascii.
From Stdlib Require String.

#[export] Set Default Goal Selector "!".

(** ** Results

    Rust's [Result<A, E>].  [result E] is a monad; [x ← e; k] is the [?]
    operator: an [Err] leaves the enclosing function unchanged. *)
Inductive result (E A : Type) : Type :=
| Ok (a : A)
| Err (e : E).
Arguments Ok {E A} a.
Arguments Err {E A} e.

#[export] Instance result_ret (E : Type) : MRet (result E) := fun A a => Ok a.
#[export] Instance result_bind (E : Type) : MBind (result E) :=
  fun A B k r => match r with Ok a => k a | Err e => Err e end.
#[export] Instance result_fmap (E : Type) : FMap (result E) :=
  fun A B f r => match r with Ok a => Ok (f a) | Err e => Err e end.

#[export] Instance result_eq_dec {E A : Type} `{EqDecision E, EqDecision A} :
  EqDecision (result E A).
Proof. solve_decision. Defined.

(** [Option::ok_or] and [Result::map_err]. *)
Definition ok_or {E A : Type} (e : E) (o : option A) : result E A :=
  match o with Some a => Ok a | None => Err e end.
Definition map_err {E F A : Type} (f : E -> F) (r : result E A) : result F A :=
  match r with Ok a => Ok a | Err e => Err (f e) end.
(** [Result::ok]. *)
Definition res_ok {E A : Type} (r : result E A) : option A :=
  match r with Ok a => Some a | Err _ => None end.

(** An early return: [guard_err b e] is [if b { return Err(e) }]. *)
Definition guard_err {E : Type} (b : bool) (e : E) : result E unit :=
  if b then Err e else Ok tt.

(** [for x in xs { f(x)?; }]. *)
Fixpoint for_each {E A : Type} (f : A -> result E unit) (xs : list A) : result E unit :=
  match xs with
  | [] => Ok tt
  | x :: xs => _ ← f x; for_each f xs
  end.

Section result_lemmas.
Context {E A B : Type}.

Lemma bind_Ok (r : result E A) (k : A -> result E B) (b : B) :
  (r ≫= k) = Ok b <-> exists a, r = Ok a /\ k a = Ok b.
Proof. destruct r; cbn; naive_solver. Qed.

Lemma bind_Err (r : result E A) (k : A -> result E B) (e : E) :
  (r ≫= k) = Err e <-> r = Err e \/ exists a, r = Ok a /\ k a = Err e.
Proof. destruct r; cbn; naive_solver. Qed.

Lemma ok_or_Ok (e : E) (o : option A) (a : A) : ok_or e o = Ok a <-> o = Some a.
Proof. destruct o; naive_solver. Qed.

Lemma ok_or_Err (e e' : E) (o : option A) :
  ok_or e o = Err e' <-> o = None /\ e' = e.
Proof. destruct o; naive_solver. Qed.

Lemma map_err_Ok {F : Type} (f : E -> F) (r : result E A) (a : A) :
  map_err f r = Ok a <-> r = Ok a.
Proof. destruct r; naive_solver. Qed.

Lemma map_err_Err {F : Type} (f : E -> F) (r : result E A) (e : F) :
  map_err f r = Err e <-> exists e0, r = Err e0 /\ e = f e0.
Proof. destruct r; naive_solver. Qed.

End result_lemmas.

Section loop_lemmas.
Context {E A : Type}.

Lemma guard_err_Ok (b : bool) (e : E) (u : unit) : guard_err b e = Ok u <-> b = false.
Proof. destruct b, u; naive_solver. Qed.

Lemma guard_err_Err (b : bool) (e e' : E) :
  guard_err b e = Err e' <-> b = true /\ e' = e.
Proof. destruct b; naive_solver. Qed.

Lemma for_each_Ok (f : A -> result E unit) (xs : list A) (u : unit) :
  for_each f xs = Ok u <-> Forall (fun x => f x = Ok tt) xs.
Proof.
  destruct u. induction xs as [|x xs IH]; simpl.
  { split; [constructor|done]. }
  rewrite bind_Ok, Forall_cons_iff, <- IH.
  split; [intros ([] & ? & ?)|intros []]; eauto.
Qed.

Lemma for_each_Err (f : A -> result E unit) (xs : list A) (e : E) :
  for_each f xs = Err e ->
  exists pre x post, xs = pre ++ x :: post /\
    Forall (fun y => f y = Ok tt) pre /\ f x = Err e.
Proof.
  induction xs as [|x xs IH]; simpl; [done|].
  rewrite bind_Err. intros [Hx|([] & Hx & Hr)].
  - exists [], x, xs; auto.
  - destruct (IH Hr) as (pre & y & post & -> & Hpre & Hy).
    exists (x :: pre), y, post; auto.
Qed.
End loop_lemmas.

(** The development's rewrite base: how each result combinator can have
    succeeded. *)
Create HintDb res discriminated.
#[export] Hint Rewrite @bind_Ok @ok_or_Ok @map_err_Ok @guard_err_Ok @for_each_Ok : res.

(** [inv_ok] takes a hypothesis that a chain of [?]s succeeded apart into the
    facts of each link. *)
Ltac destruct_exs :=
  repeat match goal with
         | [ H : exists _, _ |- _ ] => let x := fresh "x" in destruct H as [x H]
         | [ H : _ /\ _ |- _ ] => destruct H
         | [ u : unit |- _ ] => destruct u
         end.

Ltac inv_ok :=
  repeat (progress (autorewrite with res in *; destruct_exs; simplify_eq)).

(** Case analysis on the scrutinee of a [match] or [if] in a hypothesis or the
    goal, remembering the equation. *)
Ltac case_match_in H :=
  match type of H with
  | context [match ?x with _ => _ end] => destruct x eqn:?
  end.

(** ** Bounded integers

    [wrap w x] is the value of [x] in [w] bits, as the wrapping operations
    and the [as] casts of Rust compute it. *)
Definition wrap (w : Z) (x : Z) : Z := x mod 2 ^ w.
Definition u64_max : Z := 2 ^ 64 - 1.
Definition u32_max : Z := 2 ^ 32 - 1.
Definition i64_max : Z := 2 ^ 63 - 1.
Definition i64_min : Z := - 2 ^ 63.

(** Two's complement: what [i64] addition and subtraction compute in a release
    build. *)
Definition wrap_i64 (x : Z) : Z := ((x + 2 ^ 63) mod 2 ^ 64 - 2 ^ 63)%Z.

Definition in_u64 (x : Z) : Prop := (0 <= x <= u64_max)%Z.
Definition in_i64 (x : Z) : Prop := (i64_min <= x <= i64_max)%Z.

(** [u64::checked_mul]. *)
Definition checked_mul_u64 (a b : Z) : option Z :=
  if (a * b <=? u64_max)%Z then Some (a * b)%Z else None.

(** [i64::saturating_mul] and [saturating_sub]. *)
Definition clamp_i64 (x : Z) : Z := Z.max i64_min (Z.min i64_max x).
Definition saturating_mul_i64 (a b : Z) : Z := clamp_i64 (a * b).
Definition saturating_sub_i64 (a b : Z) : Z := clamp_i64 (a - b).
(** [u32::saturating_add]. *)
Definition saturating_add_u32 (a b : Z) : Z := Z.min u32_max (a + b).

Lemma wrap_range w x : (0 <= w)%Z -> (0 <= wrap w x < 2 ^ w)%Z.
Proof. intros. unfold wrap. apply Z.mod_pos_bound. lia. Qed.

Lemma wrap_small w x : (0 <= x < 2 ^ w)%Z -> wrap w x = x.
Proof. intros. unfold wrap. by apply Z.mod_small. Qed.

Lemma checked_mul_u64_Some a b c :
  checked_mul_u64 a b = Some c <-> (c = a * b /\ a * b <= u64_max)%Z.
Proof.
  unfold checked_mul_u64. destruct (Z.leb_spec (a * b) u64_max); split.
  - intros [= <-]; auto.
  - intros [-> _]; auto.
  - done.
  - lia.
Qed.

Lemma clamp_i64_id x : in_i64 x -> clamp_i64 x = x.
Proof. unfold in_i64, clamp_i64. lia. Qed.

Lemma wrap_i64_id x : in_i64 x -> wrap_i64 x = x.
Proof.
  unfold in_i64, wrap_i64, i64_min, i64_max. intros. rewrite Z.mod_small by lia. lia.
Qed.
