(* ===== verification/RustStr.v ===== *)
(** * The parts of Rust's [str] and [char] the sources use

    A Rust string is a sequence of UTF-8 bytes; it is modelled by
    [String.string], one [ascii] per byte.  Every separator and every
    character class of the sources is ASCII, and a UTF-8 continuation or
    leading byte is never ASCII, so scanning bytes and scanning [char]s find
    the same positions.  [trim] removes Unicode white space and is written out
    on the UTF-8 encodings. *)

From S2P Require Import Prelude.

Declare Scope rstr_scope.
Delimit Scope rstr_scope with rstr.
Open Scope string_scope.

#[global] Arguments String.append !s1 s2 : simpl nomatch.

(** ** Character classes *)

Definition byte_of (c : ascii) : N := N_of_ascii c.
Definition in_range (lo hi : ascii) (c : ascii) : bool :=
  (byte_of lo <=? byte_of c)%N && (byte_of c <=? byte_of hi)%N.
Definition is_ascii_digit (c : ascii) : bool := in_range "0" "9" c.
Definition is_ascii_lowercase (c : ascii) : bool := in_range "a" "z" c.
Definition is_ascii_uppercase (c : ascii) : bool := in_range "A" "Z" c.
Definition is_ascii_alphanumeric (c : ascii) : bool :=
  is_ascii_digit c || is_ascii_lowercase c || is_ascii_uppercase c.
Definition is_ascii_hexdigit (c : ascii) : bool :=
  is_ascii_digit c || in_range "a" "f" c || in_range "A" "F" c.

(** ** Queries *)

Definition is_empty (s : string) : bool :=
  match s with EmptyString => true | _ => false end.

(** [s.bytes().all(f)]. *)
Fixpoint all_chars (f : ascii -> bool) (s : string) : bool :=
  match s with
  | EmptyString => true
  | String c s => f c && all_chars f s
  end.

(** [s.contains(c)] for a character. *)
Definition has_char (c : ascii) (s : string) : bool :=
  negb (all_chars (fun d => negb (Ascii.eqb c d)) s).

(** [s.strip_prefix(p)]. *)
Fixpoint strip_prefix (p s : string) : option string :=
  match p, s with
  | EmptyString, _ => Some s
  | String a p, String b s => if Ascii.eqb a b then strip_prefix p s else None
  | String _ _, EmptyString => None
  end.

Definition starts_with (p s : string) : bool :=
  match strip_prefix p s with Some _ => true | None => false end.

Fixpoint srev (acc s : string) : string :=
  match s with
  | EmptyString => acc
  | String c s => srev (String c acc) s
  end.
Definition str_rev (s : string) : string := srev EmptyString s.

Definition ends_with (p s : string) : bool := starts_with (str_rev p) (str_rev s).

(** [s.contains(p)] for a string. *)
Fixpoint contains_str (p s : string) : bool :=
  starts_with p s ||
  match s with EmptyString => false | String _ s => contains_str p s end.

(** [s.split_once(c)]. *)
Fixpoint split_once (c : ascii) (s : string) : option (string * string) :=
  match s with
  | EmptyString => None
  | String d s =>
      if Ascii.eqb c d then Some (EmptyString, s)
      else match split_once c s with
           | Some (a, b) => Some (String d a, b)
           | None => None
           end
  end.

(** [s.split(c)]: never empty. *)
Fixpoint split_char (c : ascii) (s : string) : list string :=
  match s with
  | EmptyString => [EmptyString]
  | String d s =>
      if Ascii.eqb c d then EmptyString :: split_char c s
      else match split_char c s with
           | [] => [String d EmptyString]
           | w :: ws => String d w :: ws
           end
  end.

(** [s.replace(from, to)]: left to right, not overlapping.  [skip] counts the
    bytes of a match still to be dropped. *)
Fixpoint replace_go (from to : string) (skip : nat) (s : string) : string :=
  match s with
  | EmptyString => EmptyString
  | String c s' =>
      match skip with
      | S k => replace_go from to k s'
      | O => if starts_with from s
             then to +:+ replace_go from to (Nat.pred (String.length from)) s'
             else String c (replace_go from to O s')
      end
  end.
(** Only used with a non-empty [from]. *)
Definition replace (from to s : string) : string := replace_go from to O s.

(** [ws.join(sep)]. *)
Fixpoint join (sep : string) (ws : list string) : string :=
  match ws with
  | [] => EmptyString
  | [w] => w
  | w :: ws => w +:+ sep +:+ join sep ws
  end.

(** ** Trimming *)

(** Drop leading characters in a class. *)
Fixpoint trim_start_by (f : ascii -> bool) (s : string) : string :=
  match s with
  | String c s' => if f c then trim_start_by f s' else s
  | EmptyString => EmptyString
  end.
Definition trim_end_by (f : ascii -> bool) (s : string) : string :=
  str_rev (trim_start_by f (str_rev s)).
(** [s.trim_end_matches(c)], [s.trim_matches(c)]. *)
Definition trim_end_char (c : ascii) : string -> string := trim_end_by (Ascii.eqb c).
Definition trim_char (c : ascii) (s : string) : string :=
  trim_end_by (Ascii.eqb c) (trim_start_by (Ascii.eqb c) s).

Definition bytes (l : list N) : string := String.string_of_list_ascii (ascii_of_N <$> l).
Definition newline : string := bytes [10%N].

(** The encodings of the characters with Unicode's [White_Space] property. *)
Definition white_space : list string :=
  [bytes [9]; bytes [10]; bytes [11]; bytes [12]; bytes [13]; bytes [32];
   bytes [194; 133]; bytes [194; 160]; bytes [225; 154; 128];
   bytes [226; 128; 128]; bytes [226; 128; 129]; bytes [226; 128; 130];
   bytes [226; 128; 131]; bytes [226; 128; 132]; bytes [226; 128; 133];
   bytes [226; 128; 134]; bytes [226; 128; 135]; bytes [226; 128; 136];
   bytes [226; 128; 137]; bytes [226; 128; 138]; bytes [226; 128; 168];
   bytes [226; 128; 169]; bytes [226; 128; 175]; bytes [226; 129; 159];
   bytes [227; 128; 128]]%N.

(** The rest of [s] after one of the words of [ws], if it starts with one. *)
Fixpoint strip_any (ws : list string) (s : string) : option string :=
  match ws with
  | [] => None
  | w :: ws => match strip_prefix w s with
               | Some r => Some r
               | None => strip_any ws s
               end
  end.

Fixpoint trim_go (fuel : nat) (ws : list string) (s : string) : string :=
  match fuel with
  | O => s
  | S fuel => match strip_any ws s with
              | Some r => trim_go fuel ws r
              | None => s
              end
  end.
(** Every word of [white_space] has at least one byte, so [length s] rounds
    are enough. *)
Definition trim_start (s : string) : string := trim_go (String.length s) white_space s.
Definition trim_end (s : string) : string :=
  str_rev (trim_go (String.length s) (str_rev <$> white_space) (str_rev s)).
Definition trim (s : string) : string := trim_end (trim_start s).

(** ** Numbers *)

Definition digit_val (c : ascii) : Z := Z.of_N (byte_of c) - 48.

(** The value of a string of digits, [None] when a character is not one. *)
Fixpoint digits_val (base : Z) (ok : ascii -> bool) (acc : Z) (s : string) : option Z :=
  match s with
  | EmptyString => Some acc
  | String c s => if ok c then digits_val base ok (acc * base + digit_val c)%Z s else None
  end.

(** [s.parse::<uN>()] and [uN::from_str_radix(s, base)] for [base <= 10]: an
    optional ['+'], at least one digit, and no overflow. *)
Definition parse_uint (max base : Z) (s : string) : option Z :=
  let body := match s with String "+" r => r | _ => s end in
  let ok c := (in_range "0" "9" c && (digit_val c <? base)%Z)%bool in
  if is_empty body then None
  else match digits_val base ok 0 body with
       | Some n => if (n <=? max)%Z then Some n else None
       | None => None
       end.
Definition parse_u64 : string -> option Z := parse_uint u64_max 10.
Definition parse_u32 : string -> option Z := parse_uint u32_max 10.

(** [format!("{n}")] for an unsigned number. *)
Definition show_nat (n : nat) : string := pretty.pretty n.
Definition show_u64 (n : Z) : string := pretty.pretty (Z.to_N n).

(** [s.eq_ignore_ascii_case(t)]. *)
Definition to_ascii_lower (c : ascii) : ascii :=
  if is_ascii_uppercase c then ascii_of_N (byte_of c + 32) else c.
Fixpoint lower (s : string) : string :=
  match s with
  | EmptyString => EmptyString
  | String c s => String (to_ascii_lower c) (lower s)
  end.
Definition eq_ignore_ascii_case (s t : string) : bool := String.eqb (lower s) (lower t).

(** ** [str::from_utf8] *)

Definition between (lo hi : N) (c : ascii) : bool :=
  ((lo <=? byte_of c) && (byte_of c <=? hi))%N.
Definition cont : ascii -> bool := between 128 191.

Fixpoint valid_utf8 (s : string) : bool :=
  match s with
  | EmptyString => true
  | String b r =>
      if between 0 127 b then valid_utf8 r
      else if between 194 223 b then
        match r with String c r => cont c && valid_utf8 r | _ => false end
      else if between 224 239 b then
        match r with
        | String c (String d r) =>
            (if between 224 224 b then between 160 191 c
             else if between 237 237 b then between 128 159 c
             else cont c) && cont d && valid_utf8 r
        | _ => false
        end
      else if between 240 244 b then
        match r with
        | String c (String d (String e r)) =>
            (if between 240 240 b then between 144 191 c
             else if between 244 244 b then between 128 143 c
             else cont c) && cont d && cont e && valid_utf8 r
        | _ => false
        end
      else false
  end.

Example trim_example : trim (bytes [32; 97; 32; 98; 194; 160; 10]%N) = "a b".
Proof. reflexivity. Qed.
Example replace_example : replace "{a}" "x" "/{a}/{a{a}" = "/x/{ax".
Proof. reflexivity. Qed.

(** ** Lemmas *)

Lemma sapp_assoc (a b c : string) : (a +:+ b) +:+ c = a +:+ (b +:+ c).
Proof. induction a as [|x a IH]; simpl; congruence. Qed.

Lemma sapp_nil_r (a : string) : a +:+ "" = a.
Proof. induction a as [|x a IH]; simpl; congruence. Qed.

Lemma sapp_cons_shift (a b : string) (c : ascii) :
  (a +:+ String c "") +:+ b = a +:+ String c b.
Proof. by rewrite sapp_assoc. Qed.

Lemma sapp_inj_l (a b c : string) : a +:+ b = a +:+ c -> b = c.
Proof. induction a as [|x a IH]; simpl; [done|]. intros [= H]; auto. Qed.

Lemma sapp_length (a b : string) :
  String.length (a +:+ b) = (String.length a + String.length b)%nat.
Proof. induction a as [|x a IH]; simpl; congruence. Qed.

Lemma is_empty_true (s : string) : is_empty s = true <-> s = "".
Proof. destruct s; naive_solver. Qed.

Lemma is_empty_false (s : string) : is_empty s = false <-> s <> "".
Proof. destruct s; naive_solver. Qed.

Lemma all_chars_app f a b : all_chars f (a +:+ b) = all_chars f a && all_chars f b.
Proof. induction a as [|x a IH]; simpl; [done|]. by rewrite IH, andb_assoc. Qed.

Lemma all_chars_impl f g s :
  (forall c, f c = true -> g c = true) -> all_chars f s = true -> all_chars g s = true.
Proof.
  intros H. induction s as [|c s IH]; simpl; [done|].
  rewrite !andb_true_iff. intros []; auto.
Qed.

Lemma has_char_app c a b : has_char c (a +:+ b) = has_char c a || has_char c b.
Proof. unfold has_char. by rewrite all_chars_app, negb_andb. Qed.

Lemma has_char_cons c d s : has_char c (String d s) = Ascii.eqb c d || has_char c s.
Proof. unfold has_char; simpl. by rewrite negb_andb, negb_involutive. Qed.

Lemma has_char_nil c : has_char c "" = false.
Proof. done. Qed.

Lemma all_chars_no_char f c s :
  f c = false -> all_chars f s = true -> has_char c s = false.
Proof.
  intros Hf H. unfold has_char. apply negb_false_iff.
  apply (all_chars_impl f); [|done]. intros d Hd.
  apply negb_true_iff, Ascii.eqb_neq. congruence.
Qed.

Lemma strip_prefix_Some p s r : strip_prefix p s = Some r <-> s = p +:+ r.
Proof.
  revert s. induction p as [|a p IH]; intros s; simpl; [naive_solver|].
  destruct s as [|b s]; [naive_solver|].
  destruct (Ascii.eqb_spec a b) as [->|Hne].
  - rewrite IH. split; [by intros ->|by intros [= ->]].
  - split; [done|]. intros [= -> ->]. done.
Qed.

Lemma strip_prefix_app p r : strip_prefix p (p +:+ r) = Some r.
Proof. by apply strip_prefix_Some. Qed.

Lemma starts_with_true p s : starts_with p s = true <-> exists r, s = p +:+ r.
Proof.
  unfold starts_with. destruct (strip_prefix p s) as [r|] eqn:E.
  - apply strip_prefix_Some in E. naive_solver.
  - split; [done|]. intros [r ->]. by rewrite strip_prefix_app in E.
Qed.

Lemma starts_with_app p r : starts_with p (p +:+ r) = true.
Proof. apply starts_with_true. eauto. Qed.

Lemma split_once_Some c s a b :
  split_once c s = Some (a, b) <-> s = a +:+ String c b /\ has_char c a = false.
Proof.
  revert a b. induction s as [|d s IH]; intros a b; simpl.
  { split; [done|]. intros [H _]. by destruct a. }
  destruct (Ascii.eqb_spec c d) as [<-|Hne].
  - split; [intros [= <- <-]; done|]. intros [Hs Ha].
    destruct a as [|x a]; [by injection Hs as ->|].
    injection Hs as -> ->. rewrite has_char_cons, Ascii.eqb_refl in Ha. done.
  - destruct (split_once c s) as [[a' b']|] eqn:E.
    + destruct (IH a' b') as [IH' _]. destruct (IH' eq_refl) as [-> Ha'].
      split.
      * intros [= <- <-]. rewrite has_char_cons, Ha', orb_false_r.
        split; [done|]. by apply Ascii.eqb_neq.
      * intros [Hs Ha]. destruct a as [|x a]; [by injection Hs as ->|].
        injection Hs as <- Hs. rewrite has_char_cons in Ha. apply orb_false_iff in Ha as [_ Ha].
        assert (Some (a', b') = Some (a, b)) as [= -> ->] by (apply IH; auto).
        done.
    + split; [done|]. intros [Hs Ha].
      destruct a as [|x a]; [by injection Hs as ->|].
      injection Hs as -> ->. rewrite has_char_cons in Ha. apply orb_false_iff in Ha as [_ Ha].
      assert (None = Some (a, b)) by (apply IH; auto). done.
Qed.

Lemma split_once_None c s : split_once c s = None <-> has_char c s = false.
Proof.
  induction s as [|d s IH]; simpl; [done|].
  rewrite has_char_cons. destruct (Ascii.eqb_spec c d); simpl; [done|].
  rewrite <- IH. destruct (split_once c s) as [[]|]; naive_solver.
Qed.

Lemma split_char_nonempty c s : split_char c s <> [].
Proof. induction s as [|d s IH]; simpl; repeat case_match; done. Qed.

Lemma split_char_no c s : has_char c s = false -> split_char c s = [s].
Proof.
  induction s as [|d s IH]; simpl; [done|].
  rewrite has_char_cons, orb_false_iff. intros [-> H]. by rewrite IH.
Qed.

Lemma split_char_app c a b :
  has_char c a = false -> split_char c (a +:+ String c b) = a :: split_char c b.
Proof.
  induction a as [|d a IH]; simpl.
  { by rewrite Ascii.eqb_refl. }
  rewrite has_char_cons, orb_false_iff. intros [-> H]. by rewrite IH.
Qed.

(** [split] is inverted by joining on the separator, and no piece contains it. *)
Lemma split_char_join c s : join (String c "") (split_char c s) = s.
Proof.
  induction s as [|d s IH]; [done|].
  pose proof (split_char_nonempty c s) as Hn. simpl.
  destruct (split_char c s) as [|w ws] eqn:E; [done|].
  destruct (Ascii.eqb_spec c d) as [<-|]; simpl in *; [by rewrite IH|].
  destruct ws; simpl in *; congruence.
Qed.

Lemma split_char_pieces c s : Forall (fun w => has_char c w = false) (split_char c s).
Proof.
  induction s as [|d s IH]; simpl; [by repeat constructor|].
  destruct (Ascii.eqb_spec c d) as [|Hne]; [by constructor|].
  inversion IH as [|w ws Hw Hws]; [repeat constructor|constructor]; try done;
    rewrite has_char_cons; apply orb_false_iff; split; try done;
    by apply Ascii.eqb_neq.
Qed.

Lemma contains_str_app p a b : contains_str p (a +:+ p +:+ b) = true.
Proof.
  induction a as [|c a IH]; simpl.
  - pose proof (starts_with_app p b) as H.
    destruct (p +:+ b); simpl; by rewrite H.
  - rewrite IH. apply orb_true_r.
Qed.

Lemma string_eqb_false (a b : string) : String.eqb a b = false <-> a <> b.
Proof. apply String.eqb_neq. Qed.

#[export] Hint Rewrite is_empty_true is_empty_false String.eqb_eq String.eqb_neq
  andb_true_iff orb_false_iff negb_true_iff negb_false_iff : res.

Lemma srev_app acc s : srev acc s = str_rev s +:+ acc.
Proof.
  unfold str_rev. revert acc. induction s as [|c s IH]; intros acc; [done|].
  cbn [srev]. rewrite IH, (IH (String c "")), sapp_assoc. done.
Qed.

Lemma str_rev_app a b : str_rev (a +:+ b) = str_rev b +:+ str_rev a.
Proof.
  induction a as [|c a IH]; [by rewrite sapp_nil_r|].
  change (str_rev (String c a +:+ b)) with (srev (String c "") (a +:+ b)).
  change (str_rev (String c a)) with (srev (String c "") a).
  by rewrite !srev_app, IH, sapp_assoc.
Qed.

Lemma str_rev_rev s : str_rev (str_rev s) = s.
Proof.
  induction s as [|c s IH]; [done|].
  change (str_rev (String c s)) with (srev (String c "") s).
  rewrite srev_app, str_rev_app, IH. done.
Qed.

Lemma ends_with_true p s : ends_with p s = true <-> exists a, s = a +:+ p.
Proof.
  unfold ends_with. rewrite starts_with_true. split.
  - intros [r Hr]. exists (str_rev r).
    by rewrite <- (str_rev_rev s), Hr, str_rev_app, str_rev_rev.
  - intros [a ->]. exists (str_rev a). apply str_rev_app.
Qed.

Open Scope Z_scope.

Lemma digits_val_nonneg base ok acc s n :
  0 <= base -> 0 <= acc -> (forall c, ok c = true -> 0 <= digit_val c) ->
  digits_val base ok acc s = Some n -> 0 <= n.
Proof.
  intros Hb Ha Hok. revert acc Ha. induction s as [|c s IH]; simpl; intros acc Ha H.
  { by simplify_eq. }
  destruct (ok c) eqn:Hc; [|done]. eapply IH, H. specialize (Hok c Hc). nia.
Qed.

Lemma digit_val_nonneg c : is_ascii_digit c = true -> 0 <= digit_val c.
Proof. destruct c as [[] [] [] [] [] [] [] []]; vm_compute; by intros. Qed.

Lemma parse_uint_range max base s n :
  0 <= base -> parse_uint max base s = Some n -> 0 <= n <= max.
Proof.
  unfold parse_uint. intros Hb H.
  destruct (is_empty _); [done|].
  destruct (digits_val _ _ _ _) as [m|] eqn:Hd; [|done].
  destruct (Z.leb_spec m max); simplify_eq. split; [|done].
  eapply digits_val_nonneg, Hd; [done|done|].
  intros c [Hr _]%andb_prop. by apply digit_val_nonneg.
Qed.

(** *** Trimming only shortens *)

Lemma str_rev_length s : String.length (str_rev s) = String.length s.
Proof.
  induction s as [|c s IH]; [done|].
  change (str_rev (String c s)) with (srev (String c "") s).
  rewrite srev_app, sapp_length, IH. simpl. lia.
Qed.

Lemma strip_any_length ws s r :
  strip_any ws s = Some r -> (String.length r <= String.length s)%nat.
Proof.
  induction ws as [|w ws IH]; [done|]. cbn [strip_any].
  destruct (strip_prefix w s) as [r'|] eqn:E; [|done].
  intros [= <-]. apply strip_prefix_Some in E as ->. rewrite sapp_length. lia.
Qed.

Lemma trim_go_length fuel ws s : (String.length (trim_go fuel ws s) <= String.length s)%nat.
Proof.
  revert s. induction fuel as [|fuel IH]; intros s; cbn [trim_go]; [done|].
  destruct (strip_any ws s) as [r|] eqn:E; [|done].
  apply strip_any_length in E. specialize (IH r). lia.
Qed.

Lemma trim_length s : (String.length (trim s) <= String.length s)%nat.
Proof.
  unfold trim, trim_end, trim_start. rewrite str_rev_length.
  pose proof (trim_go_length (String.length s) white_space s) as H1.
  set (t := trim_go (String.length s) white_space s) in *.
  pose proof (trim_go_length (String.length t) (str_rev <$> white_space) (str_rev t)) as H2.
  rewrite str_rev_length in H2. lia.
Qed.

(** Trimming is idempotent. *)
Lemma strip_any_Some ws s r : strip_any ws s = Some r -> exists w, w ∈ ws /\ s = w +:+ r.
Proof.
  induction ws as [|w ws IH]; [done|]. cbn [strip_any]. destruct (strip_prefix w s) as [r'|] eqn:E.
  - intros [= ->]. apply strip_prefix_Some in E. exists w. split; [set_solver|done].
  - intros (w' & Hw & ->)%IH. exists w'. split; [set_solver|done].
Qed.
Lemma strip_any_None ws s w r : strip_any ws s = None -> w ∈ ws -> s <> w +:+ r.
Proof.
  induction ws as [|w' ws IH]; intros E Hin; [by apply elem_of_nil in Hin|]. cbn [strip_any] in E.
  destruct (strip_prefix w' s) as [r'|] eqn:Es; [done|].
  apply elem_of_cons in Hin as [->|Hin]; [|by apply IH]. intros ->. by rewrite strip_prefix_app in Es.
Qed.
Lemma trim_go_None fuel ws s :
  (forall w, w ∈ ws -> w <> "") -> (String.length s <= fuel)%nat -> strip_any ws (trim_go fuel ws s) = None.
Proof.
  intros Hw. revert s. induction fuel as [|fuel IH]; intros s Hl; cbn [trim_go].
  - destruct s; [|cbn in Hl; lia]. destruct (strip_any ws "") as [r|] eqn:E; [|done].
    apply strip_any_Some in E as (w & Hin & Heq). destruct w; [by apply Hw in Hin|done].
  - destruct (strip_any ws s) as [r|] eqn:E; [|done]. apply IH.
    apply strip_any_Some in E as (w & Hin & ->). rewrite sapp_length in Hl.
    destruct w; [by apply Hw in Hin|]. cbn in Hl. lia.
Qed.
Lemma trim_go_suffix fuel ws s : exists p, s = p +:+ trim_go fuel ws s.
Proof.
  revert s. induction fuel as [|fuel IH]; intros s; cbn [trim_go]; [by exists ""|].
  destruct (strip_any ws s) as [r|] eqn:E; [|by exists ""].
  apply strip_any_Some in E as (w & _ & ->). destruct (IH r) as [p Hp]. exists (w +:+ p). rewrite sapp_assoc. by f_equal.
Qed.
Lemma trim_go_id fuel ws s : strip_any ws s = None -> trim_go fuel ws s = s.
Proof. destruct fuel; cbn [trim_go]; [done|]. by intros ->. Qed.

Lemma white_space_nonempty w : w ∈ white_space -> w <> "".
Proof.
  intros Hw ->. assert (E : existsb (String.eqb "") white_space = false) by reflexivity.
  apply not_true_iff_false in E. apply E, existsb_exists. exists "". split; [by apply list_elem_of_In|done].
Qed.
Lemma rev_white_space_nonempty w : w ∈ str_rev <$> white_space -> w <> "".
Proof.
  intros (w' & -> & Hw)%list_elem_of_fmap. apply white_space_nonempty in Hw. intros E. apply Hw.
  rewrite <- (str_rev_rev w'), E. done.
Qed.

Lemma trim_idem s : trim (trim s) = trim s.
Proof.
  unfold trim, trim_start, trim_end. set (t := trim_go (String.length s) white_space s).
  assert (Ht : strip_any white_space t = None) by (apply trim_go_None; [apply white_space_nonempty|done]).
  set (u := trim_go (String.length t) (str_rev <$> white_space) (str_rev t)).
  assert (Hu : strip_any (str_rev <$> white_space) u = None).
  { apply trim_go_None; [apply rev_white_space_nonempty|]. by rewrite str_rev_length. }
  assert (Hs : strip_any white_space (str_rev u) = None).
  { destruct (strip_any white_space (str_rev u)) as [r|] eqn:E; [|done].
    apply strip_any_Some in E as (w & Hw & E). exfalso.
    destruct (trim_go_suffix (String.length t) (str_rev <$> white_space) (str_rev t)) as [p Hp]. fold u in Hp.
    eapply (strip_any_None _ t w (r +:+ str_rev p)); [done|done|].
    rewrite <- (str_rev_rev t), Hp, str_rev_app, E, sapp_assoc. done. }
  rewrite (trim_go_id _ _ _ Hs), str_rev_rev, (trim_go_id _ _ _ Hu). done.
Qed.

Lemma trim_by_length f s :
  (String.length (trim_end_by f (trim_start_by f s)) <= String.length s)%nat.
Proof.
  assert (forall s, String.length (trim_start_by f s) <= String.length s)%nat as H.
  { induction s0 as [|c s0 IH]; cbn [trim_start_by]; [done|].
    destruct (f c); simpl; lia. }
  unfold trim_end_by. rewrite str_rev_length.
  pose proof (H (str_rev (trim_start_by f s))) as H1. rewrite str_rev_length in H1.
  specialize (H s). lia.
Qed.

(** *** Printing a number and parsing it *)

Definition dec_ok (c : ascii) : bool := in_range "0" "9" c && (digit_val c <? 10).

Lemma pretty_char_ok (x : N) :
  (x < 10)%N -> dec_ok (pretty_N_char x) = true /\ digit_val (pretty_N_char x) = Z.of_N x.
Proof.
  intros Hx. assert (x = 0 \/ x = 1 \/ x = 2 \/ x = 3 \/ x = 4 \/ x = 5 \/ x = 6 \/ x = 7
    \/ x = 8 \/ x = 9)%N as H by lia.
  destruct_or! H; subst; vm_compute; done.
Qed.

Lemma digits_val_pretty_go (x : N) (s : string) :
  digits_val 10 dec_ok 0 (pretty_N_go x s) = digits_val 10 dec_ok (Z.of_N x) s.
Proof.
  revert s. induction (N.lt_wf_0 x) as [x _ IH]. intros s.
  destruct (decide (0 < x)%N) as [Hx|Hx].
  - rewrite pretty_N_go_step by done. rewrite IH by (apply N.div_lt; lia).
    destruct (pretty_char_ok (x `mod` 10)) as [Hok Hv]; [apply N.mod_lt; lia|].
    cbn [digits_val]. rewrite Hok, Hv. f_equal.
    pose proof (N.div_mod x 10 ltac:(lia)). lia.
  - assert (x = 0%N) as -> by lia. by rewrite pretty_N_go_0.
Qed.

Lemma pretty_go_chars (x : N) (s : string) :
  all_chars dec_ok s = true -> all_chars dec_ok (pretty_N_go x s) = true.
Proof.
  revert s. induction (N.lt_wf_0 x) as [x _ IH]. intros s Hs.
  destruct (decide (0 < x)%N) as [Hx|Hx].
  - rewrite pretty_N_go_step by done. apply IH; [apply N.div_lt; lia|].
    cbn [all_chars]. by rewrite (proj1 (pretty_char_ok _ (N.mod_lt x 10 ltac:(lia)))).
  - assert (x = 0%N) as -> by lia. by rewrite pretty_N_go_0.
Qed.

Lemma pretty_N_digits (x : N) :
  all_chars dec_ok (pretty x) = true /\ digits_val 10 dec_ok 0 (pretty x) = Some (Z.of_N x) /\
  pretty x <> "".
Proof.
  unfold pretty, pretty_N. case_decide as H; [subst; done|].
  split; [by apply pretty_go_chars|]. split; [by rewrite digits_val_pretty_go|].
  intros E. pose proof (digits_val_pretty_go x "") as Hd. rewrite E in Hd.
  injection Hd. lia.
Qed.

Lemma dec_ok_no c d : dec_ok c = true -> dec_ok d = false -> Ascii.eqb c d = false.
Proof. intros Hc Hd. apply Ascii.eqb_neq. intros ->. congruence. Qed.

Lemma parse_show_u64 n : 0 <= n <= u64_max -> parse_u64 (show_u64 n) = Some n.
Proof.
  intros Hn. unfold parse_u64, parse_uint, show_u64.
  destruct (pretty_N_digits (Z.to_N n)) as (Hc & Hv & Hne).
  rewrite Z2N.id in Hv by lia.
  destruct (pretty (Z.to_N n)) as [|c s]; [done|].
  assert ((match String c s with String "+" r => r | _ => String c s end) = String c s) as ->.
  { cbn [all_chars] in Hc. apply andb_prop in Hc as [Hc _].
    destruct c as [[] [] [] [] [] [] [] []]; try discriminate Hc; reflexivity. }
  cbn [is_empty]. unfold dec_ok in Hv. rewrite Hv.
  by rewrite (proj2 (Z.leb_le _ _)) by lia.
Qed.
