(* ===== verification/Errors.v ===== *)
(** * The error taxonomy and its journey from the broker to the kubelet

    - [svidlet-issue/src/error.rs]: [ErrorCode], [Error] and its
      classification ([Error_code], [is_retryable], [is_caller_error]);
    - [svidlet-broker/src/refusal.rs]: [Refusal], its HTTP status, and the
      conversions from Kubernetes and Vault failures;
    - [svidlet-issue/src/broker.rs]: [classify], the node's reading of a
      broker status;
    - [svidlet/src/csi/node.rs]: [status_for], the gRPC status the kubelet
      sees.

    Error messages are diagnostics no code branches on; they are left out.
    What callers branch on is kept: the variant, the HTTP status inside
    [Backend], and the rule named by a refusal. *)

From S2P Require Import Prelude RustStr.

(** ** svidlet-issue/src/error.rs *)

Inductive ErrorCode :=
| CConfig | CIdentity | CPolicy | CCrypto | CTransport
| CBackendStatus | CProtocol | CCertificate | CAuth | CIo.

#[export] Instance ErrorCode_eq_dec : EqDecision ErrorCode.
Proof. solve_decision. Defined.

Definition ErrorCode_as_str (c : ErrorCode) : string :=
  match c with
  | CConfig => "config"
  | CIdentity => "identity"
  | CPolicy => "policy"
  | CCrypto => "crypto"
  | CTransport => "transport"
  | CBackendStatus => "backend_status"
  | CProtocol => "protocol"
  | CCertificate => "certificate"
  | CAuth => "auth"
  | CIo => "io"
  end.

Definition ErrorCode_ALL : list ErrorCode :=
  [CConfig; CIdentity; CPolicy; CCrypto; CTransport;
   CBackendStatus; CProtocol; CCertificate; CAuth; CIo].

(** [self as usize]: the discriminant, in declaration order. *)
Definition ErrorCode_index (c : ErrorCode) : nat :=
  match c with
  | CConfig => 0 | CIdentity => 1 | CPolicy => 2 | CCrypto => 3 | CTransport => 4
  | CBackendStatus => 5 | CProtocol => 6 | CCertificate => 7 | CAuth => 8 | CIo => 9
  end.

Inductive Error :=
| Config | Identity | Policy | Crypto | Transport
| Backend (status : Z)
| Protocol | Certificate | Auth | Io.

#[export] Instance Error_eq_dec : EqDecision Error.
Proof. solve_decision. Defined.

Definition Error_code (e : Error) : ErrorCode :=
  match e with
  | Config => CConfig
  | Identity => CIdentity
  | Policy => CPolicy
  | Crypto => CCrypto
  | Transport => CTransport
  | Backend _ => CBackendStatus
  | Protocol => CProtocol
  | Certificate => CCertificate
  | Auth => CAuth
  | Io => CIo
  end.

Definition is_retryable (e : Error) : bool :=
  match e with
  | Transport | Io => true
  | Backend status => ((status =? 429) || (status >=? 500))%Z
  | Auth => true
  | Config | Identity | Policy | Crypto | Protocol | Certificate => false
  end.

Definition is_caller_error (e : Error) : bool :=
  match e with Identity | Policy => true | _ => false end.

(** ** svidlet-broker/src/refusal.rs *)

Inductive Refusal :=
| BadRequest (rule : string)
| Unauthenticated (rule : string)
| Forbidden (rule : string)
| TooMany (rule : string)
| Unavailable
| Internal.

#[export] Instance Refusal_eq_dec : EqDecision Refusal.
Proof. solve_decision. Defined.

Definition Refusal_status (r : Refusal) : Z :=
  match r with
  | BadRequest _ => 400
  | Unauthenticated _ => 401
  | Forbidden _ => 403
  | TooMany _ => 429
  | Unavailable => 503
  | Internal => 500
  end.

Definition Refusal_rule (r : Refusal) : string :=
  match r with
  | BadRequest rule | Unauthenticated rule | Forbidden rule | TooMany rule => rule
  | Unavailable | Internal => ""
  end.

Definition Refusal_outcome (r : Refusal) : string :=
  match r with
  | BadRequest _ => "bad_request"
  | Unauthenticated _ => "unauthenticated"
  | Forbidden _ => "forbidden"
  | TooMany _ => "rate_limited"
  | Unavailable => "unavailable"
  | Internal => "internal"
  end.

(** [svidlet-broker/src/kube.rs], [KubeError]. *)
Inductive KubeError := KUnavailable | KOther.

(** [impl From<KubeError> for Refusal]. *)
Definition from_kube (e : KubeError) : Refusal :=
  match e with KUnavailable => Unavailable | KOther => Internal end.

(** [status_error] of [kube.rs]: how a non-2xx API-server answer is read. *)
Definition status_error (status : Z) : KubeError :=
  if ((status >=? 500) || (status =? 429))%Z then KUnavailable else KOther.

Definition from_vault (e : Error) : Refusal :=
  match e with
  | Backend 403 => Forbidden "vault"
  | Backend 400 => BadRequest "vault"
  | e =>
      if is_retryable e then Unavailable
      else if bool_decide (Error_code e = CIdentity) || bool_decide (Error_code e = CPolicy)
           then Forbidden "I7"
           else Internal
  end.

(** ** svidlet-issue/src/broker.rs *)

Definition classify (status : Z) : Error :=
  match status with
  | 400 => Identity
  | 401 => Auth
  | 403 => Policy
  | _ => Backend status
  end%Z.

(** ** svidlet/src/csi/node.rs *)

Inductive Grpc :=
| InvalidArgument | PermissionDenied | GUnauthenticated | ResourceExhausted
| GUnavailable | GInternal | AlreadyExists.

#[export] Instance Grpc_eq_dec : EqDecision Grpc.
Proof. solve_decision. Defined.

Definition status_for (e : Error) : Grpc :=
  match Error_code e with
  | CIdentity => InvalidArgument
  | CPolicy => PermissionDenied
  | CAuth => GUnauthenticated
  | _ =>
      if bool_decide (e = Backend 429) then ResourceExhausted
      else if is_retryable e then GUnavailable
      else GInternal
  end.

(** ** Theorems *)

(** The labels, the discriminants and [ALL] agree: [ALL] lists every code
    once, at its own index, and no two codes share a label. *)
Lemma ErrorCode_ALL_complete (c : ErrorCode) :
  ErrorCode_ALL !! ErrorCode_index c = Some c.
Proof. by destruct c. Qed.

(** the per-code counters are indexed by [index] into an array built from
    [ALL]; each code finds its own slot and its own label. *)
Theorem error_code_slots (c d : ErrorCode) :
  ErrorCode_ALL !! ErrorCode_index c = Some c /\
  (ErrorCode_as_str c = ErrorCode_as_str d -> c = d) /\
  (ErrorCode_index c < length ErrorCode_ALL)%nat.
Proof.
  split; [apply ErrorCode_ALL_complete|].
  split; [by destruct c, d|]. destruct c; simpl; lia.
Qed.

(** What the design's table (docs/DESIGN.md section 13) promises for each kind
    of refusal.  [Internal] is the broker's own fault; the node must retry it. *)
Definition refusal_to_grpc (r : Refusal) : Grpc :=
  match r with
  | BadRequest _ => InvalidArgument
  | Unauthenticated _ => GUnauthenticated
  | Forbidden _ => PermissionDenied
  | TooMany _ => ResourceExhausted
  | Unavailable | Internal => GUnavailable
  end.

(** A broker refusal travels as an HTTP status, is classified by the node
    and reaches the kubelet as the gRPC status of the design's table. *)
Theorem refusal_reaches_kubelet (r : Refusal) :
  status_for (classify (Refusal_status r)) = refusal_to_grpc r.
Proof. by destruct r. Qed.

(** the node retries exactly the refusals that can go away by themselves:
    it never retries a malformed or a forbidden request. *)
Theorem refusal_retry (r : Refusal) :
  is_retryable (classify (Refusal_status r)) = true <->
  ~ (exists rule, r = BadRequest rule \/ r = Forbidden rule).
Proof.
  destruct r; simpl; split; try done; try (intros H; exfalso; apply H; eauto; fail);
    intros _ (? & [|]); done.
Qed.

Lemma from_vault_cases (e : Error) :
  from_vault e =
    match e with
    | Backend s => if (s =? 403)%Z then Forbidden "vault"
                   else if (s =? 400)%Z then BadRequest "vault"
                   else if ((s =? 429) || (s >=? 500))%Z then Unavailable else Internal
    | Transport | Io | Auth => Unavailable
    | Identity | Policy => Forbidden "I7"
    | _ => Internal
    end.
Proof.
  destruct e as [| | | | |s| | | |]; try done.
  destruct (Z.eqb_spec s 403) as [->|H1]; [done|].
  destruct (Z.eqb_spec s 400) as [->|H2]; [done|].
  transitivity (if is_retryable (Backend s) then Unavailable else Internal).
  - unfold from_vault. repeat (case_match; try done); lia.
  - done.
Qed.

(** a Vault failure turns into [Forbidden "vault"] exactly when Vault
    answered 403, which is the one case the token path may skip. *)
Lemma from_vault_Forbidden (e : Error) :
  from_vault e = Forbidden "vault" <-> e = Backend 403.
Proof.
  rewrite from_vault_cases. split.
  - destruct e as [| | | | |s| | | |]; try done.
    destruct (Z.eqb_spec s 403); [by intros; subst|]. by repeat case_match.
  - by intros ->.
Qed.

(** an outage of Vault (unreachable, sealed, rate limited, or a lost
    login) is always answered 503 and never as a refusal by a rule. *)
Theorem from_vault_outage (e : Error) :
  is_retryable e = true -> Refusal_status (from_vault e) = 503%Z.
Proof.
  rewrite from_vault_cases. destruct e as [| | | | |s| | | |]; try done.
  unfold is_retryable. intros H.
  destruct (Z.eqb_spec s 403); [subst; done|].
  destruct (Z.eqb_spec s 400); [subst; done|]. by rewrite H.
Qed.
