(* ===== verification/Template.v ===== *)
(** * SPIFFE ID templates  (svidlet-issue/src/template.rs)

    A template is split into literals and placeholders ([split]), compiled to
    a renderer and a matcher ([compile]), and used both ways: [render] builds
    an ID from attested attributes, [attributes_of] takes one apart again.

    The regular-expression engine is the [regex_lite] crate, which is not part
    of the sources: it is the parameter [RegexLite].  The theorems that need
    to know what the engine does use [RegexSpec], its documented leftmost,
    lazy semantics on the one family of patterns [compile] builds.  The module
    [MiniRegex] is a small engine that satisfies it. *)

From S2P Require Import Prelude RustStr Errors.
Open Scope list_scope.

Definition MAX_ID_LEN : nat := 2048.

(** ** Fields and attributes *)

Inductive Field :=
| TrustDomain | Cluster | Namespace | ServiceAccount | PodName | PodUid | NodeName.

#[export] Instance Field_eq_dec : EqDecision Field.
Proof. solve_decision. Defined.

Definition Field_ALL : list Field :=
  [TrustDomain; Cluster; Namespace; ServiceAccount; PodName; PodUid; NodeName].

Definition Field_as_str (f : Field) : string :=
  match f with
  | TrustDomain => "trust_domain"
  | Cluster => "cluster"
  | Namespace => "namespace"
  | ServiceAccount => "service_account"
  | PodName => "pod_name"
  | PodUid => "pod_uid"
  | NodeName => "node_name"
  end.

Definition Field_parse (name : string) : option Field :=
  List.find (fun f => String.eqb (Field_as_str f) name) Field_ALL.

Record WorkloadAttributes := mkAttrs {
  trust_domain : string;
  cluster : string;
  namespace : string;
  service_account : string;
  pod_name : string;
  pod_uid : string;
  node_name : string;
}.

#[export] Instance WorkloadAttributes_eq_dec : EqDecision WorkloadAttributes.
Proof. solve_decision. Defined.

Definition attrs_default : WorkloadAttributes := mkAttrs "" "" "" "" "" "" "".

Definition get (a : WorkloadAttributes) (f : Field) : string :=
  match f with
  | TrustDomain => trust_domain a
  | Cluster => cluster a
  | Namespace => namespace a
  | ServiceAccount => service_account a
  | PodName => pod_name a
  | PodUid => pod_uid a
  | NodeName => node_name a
  end.

Definition set (a : WorkloadAttributes) (f : Field) (v : string) : WorkloadAttributes :=
  let '(mkAttrs td cl ns sa pn pu nn) := a in
  match f with
  | TrustDomain => mkAttrs v cl ns sa pn pu nn
  | Cluster => mkAttrs td v ns sa pn pu nn
  | Namespace => mkAttrs td cl v sa pn pu nn
  | ServiceAccount => mkAttrs td cl ns v pn pu nn
  | PodName => mkAttrs td cl ns sa v pu nn
  | PodUid => mkAttrs td cl ns sa pn v nn
  | NodeName => mkAttrs td cl ns sa pn pu v
  end.

(** ** SPIFFE IDs *)

(** [SpiffeId] is the validated string itself. *)
Record SpiffeId := mkSpiffeId { SpiffeId_as_str : string }.

#[export] Instance SpiffeId_eq_dec : EqDecision SpiffeId.
Proof. solve_decision. Defined.

Definition SpiffeId_parse (raw : string) : result Error SpiffeId :=
  rest ← ok_or Identity (strip_prefix "spiffe://" raw);
  _ ← guard_err (MAX_ID_LEN <? String.length raw)%nat Identity;
  let '(authority, path) :=
    match split_once "/" rest with Some p => p | None => (rest, "") end in
  _ ← guard_err (is_empty authority) Identity;
  _ ← guard_err (existsb is_empty (split_char "/" path) && negb (is_empty path)) Identity;
  Ok (mkSpiffeId raw).

(** ** Splitting a template *)

Inductive Part :=
| Literal (text : string)
| PField (f : Field).

#[export] Instance Part_eq_dec : EqDecision Part.
Proof. solve_decision. Defined.

(** [if !literal.is_empty() { parts.push(Literal(take(literal))) }]. *)
Definition flush (literal : string) (parts : list Part) : list Part :=
  if is_empty literal then parts else Literal literal :: parts.

(** [split]'s loop.  [name] is [None] between placeholders and [Some n] inside
    one, after the characters [n]; [literal] is the literal collected so far. *)
Fixpoint split_go (literal : string) (name : option string) (s : string)
    : result Error (list Part) :=
  match name, s with
  | None, EmptyString => Ok (flush literal [])
  | None, String "{" (String "{" s) => split_go (literal +:+ "{") None s
  | None, String "}" (String "}" s) => split_go (literal +:+ "}") None s
  | None, String "{" s => split_go literal (Some "") s
  | None, String "}" _ => Err Config
  | None, String c s => split_go (literal +:+ String c "") None s
  | Some _, EmptyString => Err Config
  | Some n, String "}" s =>
      f ← ok_or Config (Field_parse (trim n));
      parts ← split_go "" None s;
      Ok (flush literal (PField f :: parts))
  | Some n, String c s => split_go literal (Some (n +:+ String c "")) s
  end.

Definition split (raw : string) : result Error (list Part) := split_go "" None raw.

(** ** Rendering *)

Definition segment_char (c : ascii) : bool :=
  is_ascii_alphanumeric c || Ascii.eqb c "-" || Ascii.eqb c "." || Ascii.eqb c "_".

Definition check_segment (value : string) : result Error unit :=
  _ ← guard_err (is_empty value) Identity;
  guard_err (negb (all_chars segment_char value)) Identity.

(** The string a list of parts stands for. *)
Fixpoint render_parts (parts : list Part) (a : WorkloadAttributes) : result Error string :=
  match parts with
  | [] => Ok ""
  | Literal t :: ps => r ← render_parts ps a; Ok (t +:+ r)
  | PField f :: ps =>
      _ ← check_segment (get a f);
      r ← render_parts ps a;
      Ok (get a f +:+ r)
  end.

(** ** The matcher's pattern *)

Definition is_special (c : ascii) : bool := has_char c "\.+*?()|[]{}^$#&-~".

Fixpoint escape (text : string) : string :=
  match text with
  | EmptyString => ""
  | String c t => (if is_special c then String "\" (String c "") else String c "") +:+ escape t
  end.

Fixpoint pattern_body (parts : list Part) : string :=
  match parts with
  | [] => ""
  | Literal t :: ps => escape t +:+ pattern_body ps
  | PField _ :: ps => "([^/]+?)" +:+ pattern_body ps
  end.

Definition pattern_of (parts : list Part) : string := "^" +:+ pattern_body parts +:+ "$".

(** [anchor]: the operator's own pattern, anchored unless it already is. *)
Definition anchor (pattern : string) : string :=
  (if starts_with "^" pattern then "" else "^")
    +:+ pattern
    +:+ (if ends_with "$" pattern && negb (ends_with "\$" pattern) then "" else "$").

(** ** The regular-expression engine *)

Class RegexLite := {
  Regex : Type;
  (** [Regex::new]: [None] for a pattern it does not accept. *)
  Regex_new : string -> option Regex;
  (** [captures(s)]: the text of groups 1, 2, ... of the match, if there is one. *)
  captures : Regex -> string -> option (list string);
  is_match : Regex -> string -> bool;
}.

(** A lazy run of one or more characters other than ['/'], then [k]. *)
Fixpoint grow (k : string -> option (list string)) (acc s : string) : option (list string) :=
  match s with
  | EmptyString => None
  | String c s' =>
      if Ascii.eqb c "/" then None
      else match k s' with
           | Some caps => Some ((acc +:+ String c "") :: caps)
           | None => grow k (acc +:+ String c "") s'
           end
  end.

(** What [^lit([^/]+?)lit...$] captures: each group takes the shortest run
    that lets the rest match. *)
Fixpoint lazy_match (parts : list Part) (s : string) : option (list string) :=
  match parts with
  | [] => if is_empty s then Some [] else None
  | Literal t :: ps => strip_prefix t s ≫= lazy_match ps
  | PField _ :: ps => grow (lazy_match ps) "" s
  end.

Class RegexSpec (R : RegexLite) : Prop := {
  captures_template : forall parts re s,
    Regex_new (pattern_of parts) = Some re -> captures re s = lazy_match parts s;
}.

(** ** Compiled templates *)

Section template.
Context {R : RegexLite}.

Record IdTemplate := mkTemplate {
  raw : string;
  parts : list Part;
  fields : list Field;
  matcher : Regex;
}.

(** The fields in order of appearance; a repeated one is an error. *)
Fixpoint collect_fields (seen : list Field) (ps : list Part) : result Error (list Field) :=
  match ps with
  | [] => Ok seen
  | Literal _ :: ps => collect_fields seen ps
  | PField f :: ps =>
      if bool_decide (f ∈ seen) then Err Config else collect_fields (seen ++ [f]) ps
  end.

(** [for (i, field) in fields { attrs.set(field, vals[i]) }], with [None]
    when a group is missing. *)
Fixpoint set_all (fs : list Field) (vals : list string) (a : WorkloadAttributes)
    : option WorkloadAttributes :=
  match fs, vals with
  | [], _ => Some a
  | f :: fs, v :: vals => set_all fs vals (set a f v)
  | _ :: _, [] => None
  end.

Fixpoint probe_go (i : nat) (fs : list Field) (a : WorkloadAttributes) : WorkloadAttributes :=
  match fs with
  | [] => a
  | f :: fs => probe_go (S i) fs (set a f ("probe" +:+ show_nat i))
  end.
Definition probe_attributes (t : IdTemplate) : WorkloadAttributes :=
  probe_go 0 (fields t) attrs_default.

Definition render (t : IdTemplate) (a : WorkloadAttributes) : result Error SpiffeId :=
  out ← render_parts (parts t) a;
  SpiffeId_parse out.

Definition attributes_of (t : IdTemplate) (id : string) : option WorkloadAttributes :=
  caps ← captures (matcher t) id;
  set_all (fields t) caps attrs_default.

Definition compile (raw : string) : result Error IdTemplate :=
  ps ← split raw;
  fs ← collect_fields [] ps;
  _ ← guard_err (negb (starts_with "spiffe://" raw)) Config;
  _ ← guard_err (bool_decide (fs = [])) Config;
  m ← ok_or Config (Regex_new (pattern_of ps));
  let t := mkTemplate raw ps fs m in
  let probe := probe_attributes t in
  rendered ← render t probe;
  _ ← guard_err (negb (bool_decide
        (attributes_of t (SpiffeId_as_str rendered) = Some probe))) Config;
  Ok t.

Definition required_fields (t : IdTemplate) : list Field := fields t.

Record IdPolicy := mkPolicy {
  template : IdTemplate;
  pattern : option Regex;
  pattern_src : option string;
}.

Definition IdPolicy_new (template : string) (pattern : option string) : result Error IdPolicy :=
  t ← compile template;
  match pattern with
  | None => Ok (mkPolicy t None None)
  | Some src =>
      compiled ← ok_or Config (Regex_new (anchor src));
      Ok (mkPolicy t (Some compiled) (Some src))
  end.

Definition IdPolicy_check (p : IdPolicy) (id : string) : result Error unit :=
  match pattern p with
  | Some re => guard_err (negb (is_match re id)) Policy
  | None => Ok tt
  end.

Definition IdPolicy_render (p : IdPolicy) (a : WorkloadAttributes) : result Error SpiffeId :=
  id ← render (template p) a;
  _ ← IdPolicy_check p (SpiffeId_as_str id);
  Ok id.

Definition IdPolicy_attributes_of (p : IdPolicy) (id : string) : option WorkloadAttributes :=
  attributes_of (template p) id.
End template.

Definition DEFAULT_TEMPLATE : string :=
  "spiffe://{trust_domain}/cluster/{cluster}/ns/{namespace}/sa/{service_account}".

Example split_default :
  split DEFAULT_TEMPLATE =
  Ok [Literal "spiffe://"; PField TrustDomain; Literal "/cluster/"; PField Cluster;
      Literal "/ns/"; PField Namespace; Literal "/sa/"; PField ServiceAccount].
Proof. reflexivity. Qed.

(** ** Fields *)

Lemma Field_parse_as_str (f : Field) : Field_parse (Field_as_str f) = Some f.
Proof. by destruct f. Qed.

Lemma get_set_eq a f v : get (set a f v) f = v.
Proof. by destruct a, f. Qed.

Lemma get_set_ne a f g v : f <> g -> get (set a f v) g = get a g.
Proof. by destruct a, f, g. Qed.

Lemma attrs_ext a b : (forall f, get a f = get b f) -> a = b.
Proof.
  intros H. destruct a, b.
  pose proof (H TrustDomain); pose proof (H Cluster); pose proof (H Namespace);
    pose proof (H ServiceAccount); pose proof (H PodName); pose proof (H PodUid);
    pose proof (H NodeName); simpl in *; congruence.
Qed.

Lemma get_default f : get attrs_default f = "".
Proof. by destruct f. Qed.

(** ** Parts as words with holes *)

Definition fields_of (ps : list Part) : list Field :=
  omap (fun p => match p with PField f => Some f | Literal _ => None end) ps.

(** The string of [ps] with its holes filled by [vals], in order. *)
Fixpoint splice (ps : list Part) (vals : list string) : string :=
  match ps, vals with
  | [], _ => ""
  | Literal t :: ps, _ => t +:+ splice ps vals
  | PField _ :: ps, v :: vals => v +:+ splice ps vals
  | PField _ :: ps, [] => splice ps []
  end.

(** A value a placeholder may take: what [check_segment] lets through. *)
Definition segment (v : string) : bool := negb (is_empty v) && all_chars segment_char v.

(** What a capture group can hold. *)
Definition capture (v : string) : bool := negb (is_empty v) && negb (has_char "/" v).

Lemma check_segment_Ok v u : check_segment v = Ok u <-> segment v = true.
Proof.
  unfold check_segment, segment. destruct u.
  destruct (is_empty v), (all_chars segment_char v); naive_solver.
Qed.

Lemma segment_capture v : segment v = true -> capture v = true.
Proof.
  unfold segment, capture. rewrite !andb_true_iff. intros [-> H]. split; [done|].
  by rewrite (all_chars_no_char segment_char).
Qed.

Lemma render_parts_Ok ps a s :
  render_parts ps a = Ok s <->
  Forall (fun f => segment (get a f) = true) (fields_of ps) /\
  s = splice ps (get a <$> fields_of ps).
Proof.
  revert s. induction ps as [|[t|f] ps IH]; intros s; simpl.
  - naive_solver.
  - rewrite bind_Ok. split.
    + intros (r & [? ->]%IH & [= <-]). eauto.
    + intros [? ->]. eexists; split; [by apply IH|done].
  - rewrite bind_Ok. rewrite Forall_cons_iff. split.
    + intros ([] & Hc%check_segment_Ok & (r & [? ->]%IH & [= <-])%bind_Ok). eauto.
    + intros [[Hc ?] ->]. exists tt. rewrite check_segment_Ok. split; [done|].
      apply bind_Ok. eexists; split; [by apply IH|done].
Qed.

(** ** The matcher is sound: it inverts [splice] *)

Lemma grow_Some k acc s caps :
  grow k acc s = Some caps ->
  exists v r caps', s = v +:+ r /\ capture v = true /\ k r = Some caps' /\
    caps = (acc +:+ v) :: caps'.
Proof.
  revert acc. induction s as [|c s IH]; intros acc; simpl; [done|].
  destruct (Ascii.eqb c "/") eqn:Hc; [done|].
  destruct (k s) as [caps'|] eqn:Hk.
  - intros [= <-]. exists (String c ""), s, caps'. split_and!; try done.
    unfold capture. rewrite has_char_cons, Ascii.eqb_sym, Hc. done.
  - intros (v & r & caps' & -> & Hv & Hr & ->)%IH.
    exists (String c v), r, caps'. split_and!; try done.
    + unfold capture in *. rewrite has_char_cons, Ascii.eqb_sym, Hc.
      apply andb_true_iff in Hv as [_ Hv]. done.
    + by rewrite sapp_cons_shift.
Qed.

Lemma lazy_match_sound ps s caps :
  lazy_match ps s = Some caps ->
  s = splice ps caps /\ length caps = length (fields_of ps) /\
  Forall (fun v => capture v = true) caps.
Proof.
  revert s caps. induction ps as [|[t|f] ps IH]; intros s caps; simpl.
  - destruct (is_empty s) eqn:E; [|done]. intros [= <-].
    apply is_empty_true in E. auto.
  - intros (r & Hr & H)%bind_Some. apply strip_prefix_Some in Hr as ->.
    destruct (IH _ _ H) as (-> & ? & ?). auto.
  - intros (v & r & caps' & -> & Hv & (-> & Hl & Hf)%IH & ->)%grow_Some.
    simpl. split_and!; [done|congruence|by constructor].
Qed.

(** ** The matcher is complete on slash-separated templates *)

(** After a placeholder comes the end of the template or a literal that starts
    with ['/']: what the documentation of the module recommends. *)
Fixpoint slash_separated (ps : list Part) : bool :=
  match ps with
  | [] => true
  | Literal _ :: ps => slash_separated ps
  | PField _ :: ps =>
      match ps with
      | [] => true
      | Literal t :: _ => starts_with "/" t
      | PField _ :: _ => false
      end && slash_separated ps
  end.

Lemma grow_skip k acc v r caps :
  has_char "/" v = false -> v <> "" ->
  (forall w, w <> "" -> has_char "/" w = false -> k (w +:+ r) = None) ->
  k r = Some caps ->
  grow k acc (v +:+ r) = Some ((acc +:+ v) :: caps).
Proof.
  intros Hv Hne Hshort Hk. revert acc Hv Hne.
  induction v as [|c v IH]; intros acc Hv Hne; [done|].
  rewrite has_char_cons in Hv. apply orb_false_iff in Hv as [Hc Hv].
  rewrite Ascii.eqb_sym in Hc. simpl. rewrite Hc.
  destruct v as [|d v].
  - simpl. by rewrite Hk.
  - rewrite Hshort by done. rewrite IH by done. by rewrite sapp_cons_shift.
Qed.

Lemma slash_literal_stops t ps w r :
  starts_with "/" t = true -> w <> "" -> has_char "/" w = false ->
  lazy_match (Literal t :: ps) (w +:+ r) = None.
Proof.
  intros [u ->]%starts_with_true Hw Hs. destruct w as [|c w]; [done|].
  rewrite has_char_cons in Hs. apply orb_false_iff in Hs as [Hc _].
  cbn [lazy_match String.append strip_prefix]. by rewrite Hc.
Qed.

Lemma lazy_match_complete ps vals :
  slash_separated ps = true ->
  length vals = length (fields_of ps) ->
  Forall (fun v => capture v = true) vals ->
  lazy_match ps (splice ps vals) = Some vals.
Proof.
  revert vals. induction ps as [|[t|f] ps IH]; intros vals Hs Hl Hf; simpl in *.
  - by destruct vals.
  - by rewrite strip_prefix_app; simpl; apply IH.
  - destruct vals as [|v vals]; [done|]. apply Forall_cons_iff in Hf as [Hv Hf].
    apply andb_true_iff in Hs as [Hsep Hs]. unfold capture in Hv.
    apply andb_true_iff in Hv as [Hne Hsl].
    apply negb_true_iff in Hne, Hsl. apply is_empty_false in Hne.
    injection Hl as Hl. apply (grow_skip _ ""); [done|done| |by apply IH].
    intros w Hw Hws. destruct ps as [|[t|g] ps]; [|by apply slash_literal_stops|done].
    by destruct w.
Qed.

(** ** Filling the attributes back in *)

Lemma set_all_Some fs vals a :
  length vals = length fs -> is_Some (set_all fs vals a).
Proof.
  revert vals a. induction fs as [|f fs IH]; intros vals a Hl; simpl; [by eexists|].
  destruct vals as [|v vals]; [done|]. apply IH. by injection Hl.
Qed.

Lemma set_all_other fs vals a b g :
  set_all fs vals a = Some b -> g ∉ fs -> get b g = get a g.
Proof.
  revert vals a. induction fs as [|f fs IH]; intros vals a; simpl; [by intros [= ->]|].
  destruct vals as [|v vals]; [done|]. rewrite not_elem_of_cons. intros H [Hne Hn].
  rewrite (IH _ _ H Hn). by rewrite get_set_ne.
Qed.

Lemma set_all_get fs vals a b :
  NoDup fs -> set_all fs vals a = Some b -> length vals = length fs -> get b <$> fs = vals.
Proof.
  revert vals a. induction fs as [|f fs IH]; intros vals a; simpl; [by destruct vals|].
  rewrite NoDup_cons. intros [Hn Hd]. destruct vals as [|v vals]; [done|].
  intros H [= Hl]. f_equal; [|eauto].
  rewrite (set_all_other _ _ _ _ _ H Hn). apply get_set_eq.
Qed.

Lemma collect_fields_Ok seen ps fs :
  NoDup seen -> collect_fields seen ps = Ok fs -> fs = seen ++ fields_of ps /\ NoDup fs.
Proof.
  revert seen. induction ps as [|[t|f] ps IH]; intros seen Hd; simpl.
  - intros [= <-]. by rewrite app_nil_r.
  - by apply IH.
  - case_bool_decide as Hin; [done|]. intros H. apply IH in H as [-> ?].
    + rewrite <- app_assoc in *. auto.
    + apply NoDup_app. split_and!; [done| |apply NoDup_singleton].
      intros x Hx ->%list_elem_of_singleton. done.
Qed.

(** ** What a compiled template is *)

Section compiled.
Context {R : RegexLite}.

(** The invariant [compile] establishes. *)
Record template_wf (t : IdTemplate) : Prop := {
  wf_split : split (raw t) = Ok (parts t);
  wf_fields : fields t = fields_of (parts t);
  wf_nodup : NoDup (fields t);
  wf_nonempty : fields t <> [];
  wf_prefix : starts_with "spiffe://" (raw t) = true;
  wf_matcher : Regex_new (pattern_of (parts t)) = Some (matcher t);
  wf_probe : exists id, render t (probe_attributes t) = Ok id /\
    attributes_of t (SpiffeId_as_str id) = Some (probe_attributes t);
}.

Lemma compile_wf s t : compile s = Ok t -> template_wf t /\ raw t = s.
Proof.
  unfold compile. intros H.
  apply bind_Ok in H as (ps & Hsplit & H).
  apply bind_Ok in H as (fs & [Hfs Hnd]%collect_fields_Ok & H); [|constructor].
  apply bind_Ok in H as ([] & Hpre & H). apply bind_Ok in H as ([] & Hne & H).
  apply bind_Ok in H as (m & Hm%ok_or_Ok & H).
  apply bind_Ok in H as (id & Hid & H). apply bind_Ok in H as ([] & Hprobe & [= <-]).
  apply guard_err_Ok in Hpre, Hne, Hprobe.
  apply negb_false_iff in Hpre, Hprobe.
  apply bool_decide_eq_false in Hne. apply bool_decide_eq_true in Hprobe.
  split; [|done]. split; simpl; eauto.
Qed.

Lemma render_Ok t a id :
  render t a = Ok id <->
  Forall (fun f => segment (get a f) = true) (fields_of (parts t)) /\
  id = mkSpiffeId (splice (parts t) (get a <$> fields_of (parts t))) /\
  SpiffeId_parse (SpiffeId_as_str id) = Ok id.
Proof.
  unfold render. rewrite bind_Ok. split.
  - intros (s & [Hf ->]%render_parts_Ok & Hp).
    assert (id = mkSpiffeId (splice (parts t) (get a <$> fields_of (parts t)))) as ->.
    { unfold SpiffeId_parse in Hp. inv_ok. case_match. inv_ok. done. }
    done.
  - intros (Hf & -> & Hp). eexists. split; [by apply render_parts_Ok|done].
Qed.

Context `{!RegexSpec R}.

Lemma attributes_of_Some t id a :
  template_wf t -> attributes_of t id = Some a ->
  exists vals, lazy_match (parts t) id = Some vals /\
    get a <$> fields t = vals /\ (forall g, g ∉ fields t -> get a g = "").
Proof.
  intros Hwf H. unfold attributes_of in H.
  apply bind_Some in H as (vals & Hc & Hs).
  rewrite (captures_template _ _ _ (wf_matcher _ Hwf)) in Hc.
  destruct (lazy_match_sound _ _ _ Hc) as (_ & Hl & _).
  rewrite <- (wf_fields _ Hwf) in Hl.
  exists vals. split_and!; [done| |].
  - by eapply set_all_get; [apply (wf_nodup _ Hwf)| |].
  - intros g Hg. rewrite (set_all_other _ _ _ _ _ Hs Hg). apply get_default.
Qed.

(** Attributes read from an ID determine it: the ID is the template with
    those attributes filled in. *)
Lemma attributes_of_splice t id a :
  template_wf t -> attributes_of t id = Some a ->
  id = splice (parts t) (get a <$> fields_of (parts t)) /\
  Forall (fun f => capture (get a f) = true) (fields t).
Proof.
  intros Hwf H. destruct (attributes_of_Some _ _ _ Hwf H) as (vals & Hl & Hv & _).
  destruct (lazy_match_sound _ _ _ Hl) as (-> & _ & Hf).
  rewrite <- (wf_fields _ Hwf), Hv. split; [done|].
  subst vals. by apply Forall_fmap in Hf.
Qed.
End compiled.

(** ** A small engine that satisfies [RegexSpec] *)

Module MiniRegex.
(** The fragment [compile] emits: [^], escaped or plain characters and the
    group [([^/]+?)], [$]. *)
Inductive tok := TLit (c : ascii) | TGroup.

Definition group : string := "([^/]+?)".

Fixpoint toks (fuel : nat) (s : string) : option (list tok) :=
  match fuel with
  | O => None
  | S fuel =>
      match strip_prefix group s with
      | Some r => (TGroup ::.) <$> toks fuel r
      | None =>
          match s with
          | String "\" (String c r) => (TLit c ::.) <$> toks fuel r
          | String "$" EmptyString => Some []
          | String c r => if is_special c then None else (TLit c ::.) <$> toks fuel r
          | EmptyString => None
          end
      end
  end.

Definition new (p : string) : option (list tok) :=
  match p with
  | String "^" r => toks (S (String.length r)) r
  | _ => None
  end.

Fixpoint run (ts : list tok) (s : string) : option (list string) :=
  match ts with
  | [] => if is_empty s then Some [] else None
  | TLit c :: ts => match s with
                    | String d s => if Ascii.eqb c d then run ts s else None
                    | EmptyString => None
                    end
  | TGroup :: ts => grow (run ts) "" s
  end.

Definition engine : RegexLite := {|
  Regex := list tok;
  Regex_new := new;
  captures := run;
  is_match re s := match run re s with Some _ => true | None => false end;
|}.

Fixpoint lits (t : string) : list tok :=
  match t with EmptyString => [] | String c t => TLit c :: lits t end.
Fixpoint tokens_of (ps : list Part) : list tok :=
  match ps with
  | [] => []
  | Literal t :: ps => lits t ++ tokens_of ps
  | PField _ :: ps => TGroup :: tokens_of ps
  end.

Lemma grow_ext k k' acc s : (forall r, k r = k' r) -> grow k acc s = grow k' acc s.
Proof.
  intros H. revert acc. induction s as [|c s IH]; intros acc; simpl; [done|].
  by rewrite H, IH.
Qed.

Lemma run_lits t ts s : run (lits t ++ ts) s = strip_prefix t s ≫= run ts.
Proof.
  revert s. induction t as [|c t IH]; intros s; simpl; [done|].
  destruct s as [|d s]; [done|]. by destruct (Ascii.eqb c d).
Qed.

Lemma run_tokens ps s : run (tokens_of ps) s = lazy_match ps s.
Proof.
  revert s. induction ps as [|[t|f] ps IH]; intros s; simpl; [done| |].
  - rewrite run_lits. destruct (strip_prefix t s); simpl; auto.
  - by apply grow_ext.
Qed.

Lemma toks_mono fuel fuel' s ts :
  toks fuel s = Some ts -> (fuel <= fuel')%nat -> toks fuel' s = Some ts.
Proof.
  revert fuel' s ts. induction fuel as [|fuel IH]; intros fuel' s ts; [done|].
  destruct fuel' as [|fuel']; [lia|]. intros H Hle. cbn [toks] in *.
  assert (forall c r, fmap (cons c) (toks fuel r) = Some ts ->
                      fmap (cons c) (toks fuel' r) = Some ts) as Hstep.
  { intros c r (l & Hl & ->)%fmap_Some. by rewrite (IH fuel' r l) by (done || lia). }
  destruct (strip_prefix group s); [by apply Hstep|].
  repeat (case_match; try done); by apply Hstep.
Qed.

Lemma toks_special c r fuel ts :
  toks fuel r = Some ts -> toks (S fuel) (String "\" (String c r)) = Some (TLit c :: ts).
Proof. intros H. simpl. by rewrite H. Qed.

Lemma toks_plain c r fuel ts :
  is_special c = false ->
  toks fuel r = Some ts -> toks (S fuel) (String c r) = Some (TLit c :: ts).
Proof.
  intros Hc H.
  assert (c <> "("%char /\ c <> "\"%char /\ c <> "$"%char) as (H1 & H2 & H3).
  { split_and!; intros ->; done. }
  cbn [toks]. assert (strip_prefix group (String c r) = None) as ->.
  { unfold group. cbn [strip_prefix]. destruct (Ascii.eqb_spec "(" c); [by subst|done]. }
  rewrite Hc, H.
  destruct c as [[] [] [] [] [] [] [] []]; done.
Qed.

Lemma toks_escape t r ts fuel :
  toks fuel r = Some ts ->
  toks (fuel + String.length t) (escape t +:+ r) = Some (lits t ++ ts).
Proof.
  revert fuel. induction t as [|c t IH]; intros fuel H; simpl.
  - by rewrite Nat.add_0_r.
  - replace (fuel + S (String.length t))%nat with (S (fuel + String.length t)) by lia.
    destruct (is_special c) eqn:Hc; simpl String.append.
    + by apply toks_special, IH.
    + by apply toks_plain; [|apply IH].
Qed.

Lemma toks_body ps : exists fuel,
  toks fuel (pattern_body ps +:+ "$") = Some (tokens_of ps).
Proof.
  induction ps as [|[t|f] ps [fuel IH]]; simpl.
  - by exists 1%nat.
  - exists (fuel + String.length t)%nat. rewrite sapp_assoc. by apply toks_escape.
  - exists (S fuel). cbn [toks]. unfold group. cbn -[toks].
    rewrite IH. done.
Qed.

Lemma toks_shape fuel s ts ts' :
  toks fuel s = Some ts -> forall fuel', toks fuel' s = Some ts' -> ts = ts'.
Proof.
  intros H fuel' H'. destruct (Nat.le_ge_cases fuel fuel') as [Hl|Hl].
  - by rewrite (toks_mono _ _ _ _ H Hl) in H'; injection H'.
  - by rewrite (toks_mono _ _ _ _ H' Hl) in H; injection H.
Qed.

#[export] Instance engine_spec : RegexSpec engine.
Proof.
  constructor. intros ps re s H. destruct (toks_body ps) as [fuel Hf].
  change (toks (S (String.length (pattern_body ps +:+ "$")))
            (pattern_body ps +:+ "$") = Some re) in H.
  rewrite (toks_shape _ _ _ _ H _ Hf). apply run_tokens.
Qed.
End MiniRegex.

(** ** Theorems *)

(** The shape the code accepts as a SPIFFE ID: a non-empty trust domain and
    non-empty path segments, or a bare trust domain with one trailing slash. *)
Definition spiffe_shape (s : string) : Prop :=
  exists td segs, td <> "" /\ has_char "/" td = false /\
    Forall (fun w => w <> "" /\ has_char "/" w = false) segs /\
    (s = "spiffe://" +:+ join "/" (td :: segs) \/ s = "spiffe://" +:+ td +:+ "/" /\ segs = []).

Lemma join_cons_slash w ws : ws <> [] -> join "/" (w :: ws) = w +:+ String "/" (join "/" ws).
Proof. by destruct ws. Qed.

Lemma existsb_empty_false ws :
  existsb is_empty ws = false <-> Forall (fun w => w <> "") ws.
Proof.
  induction ws as [|w ws IH]; simpl; [by split|].
  rewrite orb_false_iff, Forall_cons_iff, is_empty_false, IH. done.
Qed.

Lemma split_join_segs segs :
  Forall (fun w => w <> "" /\ has_char "/" w = false) segs -> segs <> [] ->
  split_char "/" (join "/" segs) = segs.
Proof.
  induction 1 as [|w ws [Hne Hw] Hws IH]; intros Hn; [done|].
  destruct ws as [|w' ws]; [by apply split_char_no|].
  rewrite join_cons_slash by done. rewrite split_char_app by done. by rewrite IH.
Qed.

(** C15: [SpiffeId::parse] accepts exactly the strings of [spiffe_shape] of at
    most 2048 bytes, and returns them unchanged. *)
Theorem spiffe_id_parse_spec (s : string) (id : SpiffeId) :
  SpiffeId_parse s = Ok id <->
  id = mkSpiffeId s /\ (String.length s <= MAX_ID_LEN)%nat /\ spiffe_shape s.
Proof.
  unfold SpiffeId_parse. split.
  - intros H. apply bind_Ok in H as (rest & Hr & H). apply ok_or_Ok, strip_prefix_Some in Hr.
    apply bind_Ok in H as ([] & Hlen & H). apply guard_err_Ok, Nat.ltb_ge in Hlen.
    destruct (split_once "/" rest) as [[td path]|] eqn:Hs;
      apply bind_Ok in H as ([] & Htd & H); apply bind_Ok in H as ([] & Hp & [= <-]);
      apply guard_err_Ok in Htd, Hp; apply is_empty_false in Htd; (split_and!; [done..|]).
    + apply split_once_Some in Hs as [-> Htd'].
      apply andb_false_iff in Hp as [Hp|Hp].
      * apply existsb_empty_false in Hp. exists td, (split_char "/" path).
        split_and!; [done|done| |left].
        -- apply Forall_and; split; [done|apply split_char_pieces].
        -- rewrite join_cons_slash by apply split_char_nonempty.
           by rewrite (split_char_join "/").
      * apply negb_false_iff, is_empty_true in Hp as ->. exists td, []. naive_solver.
    + apply split_once_None in Hs. exists rest, []. split_and!; [done..|]. left. done.
  - intros (-> & Hlen & td & segs & Hne & Htd & Hsegs & Hs).
    apply bind_Ok. destruct Hs as [->|[-> ->]].
    + exists (join "/" (td :: segs)). split; [apply ok_or_Ok, strip_prefix_app|].
      apply bind_Ok. exists tt. rewrite guard_err_Ok, Nat.ltb_ge. split; [done|].
      destruct segs as [|w ws].
      * simpl join. rewrite (proj2 (split_once_None _ _)) by done.
        apply is_empty_false in Hne. by rewrite Hne.
      * rewrite join_cons_slash by done.
        rewrite (proj2 (split_once_Some _ _ td (join "/" (w :: ws)))) by done.
        apply bind_Ok. exists tt. rewrite guard_err_Ok, is_empty_false. split; [done|].
        rewrite split_join_segs by done.
        rewrite (proj2 (existsb_empty_false (w :: ws))) by (apply Forall_and in Hsegs as []; done).
        done.
    + exists (td +:+ "/"). split; [apply ok_or_Ok, strip_prefix_app|].
      apply bind_Ok. exists tt. rewrite guard_err_Ok, Nat.ltb_ge. split; [done|].
      rewrite (proj2 (split_once_Some _ _ td "")) by done.
      apply is_empty_false in Hne. by rewrite Hne.
Qed.

Section template_theorems.
Context {R : RegexLite}.

(** C18: Rendering is injective on slash-separated templates: two workloads
    that receive the same ID agree on every attribute the template names, so
    no attribute value can forge another workload's identity.  The hypothesis
    is needed: a template that separates two placeholders by a dot, which the
    compiler accepts, can give one ID to workloads of two clusters
    ([dotted_template_collides] below). *)
Theorem render_injective (s : string) (t : IdTemplate) (a b : WorkloadAttributes)
    (id : SpiffeId) :
  compile s = Ok t -> slash_separated (parts t) = true ->
  render t a = Ok id -> render t b = Ok id ->
  Forall (fun f => get a f = get b f) (fields t).
Proof.
  intros [Hwf _]%compile_wf Hsl (Hfa & Ha & _)%render_Ok (Hfb & Hb & _)%render_Ok.
  rewrite Ha in Hb. injection Hb as Hb.
  assert (forall c, Forall (fun f => segment (get c f) = true) (fields_of (parts t)) ->
    lazy_match (parts t) (splice (parts t) (get c <$> fields_of (parts t))) =
      Some (get c <$> fields_of (parts t))) as Hm.
  { intros c Hc. apply lazy_match_complete; [done|by rewrite length_fmap|].
    apply Forall_fmap. eapply Forall_impl; [exact Hc|]. intros f. apply segment_capture. }
  pose proof (Hm a Hfa) as HA. rewrite Hb, (Hm b Hfb) in HA. injection HA as HA.
  rewrite (wf_fields _ Hwf). clear -HA.
  induction (fields_of (parts t)) as [|f fs IH]; simpl in *; constructor; naive_solver.
Qed.

Context `{!RegexSpec R}.

Lemma render_attributes_back (s : string) (t : IdTemplate)
    (a : WorkloadAttributes) (id : SpiffeId) :
  compile s = Ok t -> slash_separated (parts t) = true ->
  render t a = Ok id ->
  exists b, attributes_of t (SpiffeId_as_str id) = Some b /\
    forall f, get b f = if bool_decide (f ∈ fields t) then get a f else "".
Proof.
  intros [Hwf _]%compile_wf Hsl (Hf & -> & _)%render_Ok. simpl SpiffeId_as_str.
  set (vals := get a <$> fields_of (parts t)).
  assert (lazy_match (parts t) (splice (parts t) vals) = Some vals) as Hm.
  { apply lazy_match_complete; [done|by unfold vals; rewrite length_fmap|].
    apply Forall_fmap. eapply Forall_impl; [exact Hf|]. intros f. apply segment_capture. }
  destruct (set_all_Some (fields t) vals attrs_default) as [b Hb].
  { unfold vals. by rewrite length_fmap, (wf_fields _ Hwf). }
  assert (attributes_of t (splice (parts t) vals) = Some b) as Hof.
  { unfold attributes_of.
    by rewrite (captures_template _ _ _ (wf_matcher _ Hwf)), Hm. }
  exists b. split; [done|]. intros f.
  destruct (attributes_of_Some _ _ _ Hwf Hof) as (v & Hv & Hget & Hoth).
  case_bool_decide as Hin; [|by apply Hoth].
  rewrite Hm in Hv. injection Hv as <-. unfold vals in Hget.
  rewrite <- (wf_fields _ Hwf) in Hget.
  clear -Hget Hin. induction (fields t) as [|g fs IH]; [by apply not_elem_of_nil in Hin|].
  simpl in Hget. injection Hget as Hg Hrest.
  apply elem_of_cons in Hin as [->|Hin]; [done|by apply IH].
Qed.

(** Render then parse back.  On a slash-separated template the attributes
    read back from a rendered ID are the ones that went in, for every field
    of the template, and empty for every other field: this is what restart
    recovery relies on. *)
Theorem render_attributes_roundtrip (s : string) (t : IdTemplate)
    (a : WorkloadAttributes) (id : SpiffeId) :
  compile s = Ok t -> slash_separated (parts t) = true ->
  render t a = Ok id ->
  exists b, attributes_of t (SpiffeId_as_str id) = Some b /\
    forall f, get b f = if bool_decide (f ∈ fields t) then get a f else "".
Proof. apply render_attributes_back. Qed.

(** Parse back then render, for every template: whatever attributes the
    matcher reads from a well-formed ID, if they are legal segments then
    rendering them gives that same ID. *)
Theorem attributes_render_roundtrip (s : string) (t : IdTemplate)
    (a : WorkloadAttributes) (id : SpiffeId) :
  compile s = Ok t ->
  SpiffeId_parse (SpiffeId_as_str id) = Ok id ->
  attributes_of t (SpiffeId_as_str id) = Some a ->
  Forall (fun f => segment (get a f) = true) (fields t) ->
  render t a = Ok id.
Proof.
  intros [Hwf _]%compile_wf Hp Ha Hseg.
  destruct (attributes_of_splice _ _ _ Hwf Ha) as [Hid _].
  apply render_Ok. rewrite (wf_fields _ Hwf) in Hseg. split_and!; [done| |done].
  rewrite <- Hid. by destruct id.
Qed.
End template_theorems.

(** *** Witnesses, with [MiniRegex] as the engine *)

Module TemplateWitness.
#[local] Existing Instance MiniRegex.engine.
#[local] Existing Instance MiniRegex.engine_spec.

Definition attrs : WorkloadAttributes :=
  mkAttrs "example.org" "a" "payments" "api" "api-7d9f" "1111-2222" "node-1".
Definition id : SpiffeId := mkSpiffeId "spiffe://example.org/cluster/a/ns/payments/sa/api".
Definition default : IdTemplate := {|
  raw := DEFAULT_TEMPLATE;
  parts := [Literal "spiffe://"; PField TrustDomain; Literal "/cluster/"; PField Cluster;
            Literal "/ns/"; PField Namespace; Literal "/sa/"; PField ServiceAccount];
  fields := [TrustDomain; Cluster; Namespace; ServiceAccount];
  matcher := MiniRegex.tokens_of
    [Literal "spiffe://"; PField TrustDomain; Literal "/cluster/"; PField Cluster;
     Literal "/ns/"; PField Namespace; Literal "/sa/"; PField ServiceAccount] |}.

Lemma compile_default : compile DEFAULT_TEMPLATE = Ok default.
Proof. vm_compute. reflexivity. Qed.

Lemma render_default : render default attrs = Ok id.
Proof. vm_compute. reflexivity. Qed.

(** Another replica of the same workload: a different pod on another node. *)
Definition replica : WorkloadAttributes :=
  mkAttrs "example.org" "a" "payments" "api" "api-c4k2" "3333-4444" "node-2".

Lemma render_replica : render default replica = Ok id.
Proof. vm_compute. reflexivity. Qed.

Lemma render_injective_witness :
  pod_uid attrs <> pod_uid replica /\
  Forall (fun f => get attrs f = get replica f) (fields default).
Proof.
  split; [vm_compute; discriminate|].
  refine (render_injective DEFAULT_TEMPLATE default attrs replica id _ _ _ _).
  - exact compile_default.
  - reflexivity.
  - exact render_default.
  - exact render_replica.
Defined.

(** A template with a dot between two placeholders compiles, is not
    slash-separated, and gives the same ID to workloads of two clusters. *)
Example dotted_template_collides :
  match compile "spiffe://{cluster}.{trust_domain}/sa/{service_account}" with
  | Ok t =>
      slash_separated (parts t) = false /\
      render t (mkAttrs "b.c" "a" "ns" "api" "" "" "") =
        render t (mkAttrs "c" "a.b" "ns" "api" "" "" "") /\
      render t (mkAttrs "b.c" "a" "ns" "api" "" "" "") =
        Ok (mkSpiffeId "spiffe://a.b.c/sa/api")
  | Err _ => False
  end.
Proof. vm_compute. split_and!; reflexivity. Qed.

Lemma render_attributes_roundtrip_witness :
  exists b, attributes_of default (SpiffeId_as_str id) = Some b /\
    forall f, get b f = if bool_decide (f ∈ fields default) then get attrs f else "".
Proof.
  refine (render_attributes_roundtrip DEFAULT_TEMPLATE default attrs id _ _ _).
  - exact compile_default.
  - reflexivity.
  - exact render_default.
Defined.

Lemma attributes_render_roundtrip_witness :
  render default (mkAttrs "example.org" "a" "payments" "api" "" "" "") = Ok id.
Proof.
  refine (attributes_render_roundtrip DEFAULT_TEMPLATE default _ id _ _ _ _).
  - exact compile_default.
  - reflexivity.
  - vm_compute. reflexivity.
  - repeat constructor.
Defined.
End TemplateWitness.

(** ** Writing a template down *)

(** Literal braces are written doubled, placeholders between braces. *)
Fixpoint brace_escape (t : string) : string :=
  match t with
  | EmptyString => ""
  | String c t =>
      (if Ascii.eqb c "{" || Ascii.eqb c "}" then String c (String c "") else String c "")
        +:+ brace_escape t
  end.

Fixpoint print_parts (ps : list Part) : string :=
  match ps with
  | [] => ""
  | Literal t :: ps => brace_escape t +:+ print_parts ps
  | PField f :: ps => String "{" (Field_as_str f) +:+ "}" +:+ print_parts ps
  end.

(** What [split] returns: literals are not empty and never adjacent. *)
Fixpoint normal_parts (ps : list Part) : bool :=
  match ps with
  | [] => true
  | PField _ :: ps => normal_parts ps
  | Literal t :: ps =>
      negb (is_empty t)
      && match ps with Literal _ :: _ => false | _ => true end
      && normal_parts ps
  end.

Lemma split_go_plain lit c s :
  Ascii.eqb c "{" = false -> Ascii.eqb c "}" = false ->
  split_go lit None (String c s) = split_go (lit +:+ String c "") None s.
Proof.
  intros H1 H2. apply Ascii.eqb_neq in H1, H2.
  destruct c as [[] [] [] [] [] [] [] []]; done.
Qed.

Lemma split_go_literal t lit s :
  split_go lit None (brace_escape t +:+ s) = split_go (lit +:+ t) None s.
Proof.
  revert lit. induction t as [|c t IH]; intros lit; simpl brace_escape.
  { by rewrite sapp_nil_r. }
  rewrite <- sapp_cons_shift, <- IH.
  destruct (Ascii.eqb c "{" || Ascii.eqb c "}") eqn:E.
  - apply orb_true_iff in E as [E|E]; apply Ascii.eqb_eq in E as ->; done.
  - apply orb_false_iff in E as [E1 E2]. by apply split_go_plain.
Qed.

Lemma split_go_field f lit s :
  split_go lit None (String "{" (Field_as_str f) +:+ "}" +:+ s) =
  (parts ← split_go "" None s; Ok (flush lit (PField f :: parts))).
Proof. by destruct f. Qed.

Lemma split_go_print ps lit :
  normal_parts ps = true ->
  (match ps with Literal _ :: _ => lit = "" | _ => True end) ->
  split_go lit None (print_parts ps) = Ok (flush lit ps).
Proof.
  revert lit. induction ps as [|[t|f] ps IH]; intros lit Hn Hl.
  - done.
  - subst lit. simpl in Hn. apply andb_true_iff in Hn as [Ht Hn].
    apply andb_true_iff in Ht as [Ht Hadj]. apply negb_true_iff in Ht.
    simpl print_parts. rewrite split_go_literal. simpl String.append. rewrite IH; [|done|].
    + unfold flush. by rewrite Ht.
    + by destruct ps as [|[] ?].
  - cbn [print_parts]. rewrite split_go_field, IH; [done|done|by destruct ps as [|[] ?]].
Qed.

(** Writing a template down and splitting it again gives back its parts,
    literal braces included. *)
Theorem split_print_roundtrip (ps : list Part) :
  normal_parts ps = true -> split (print_parts ps) = Ok ps.
Proof. intros H. apply (split_go_print ps ""); [done|by destruct ps as [|[] ?]]. Qed.

Lemma split_print_roundtrip_witness :
  split "spiffe://{trust_domain}/{{literal}}/{namespace}" =
  Ok [Literal "spiffe://"; PField TrustDomain; Literal "/{literal}/"; PField Namespace].
Proof.
  exact (split_print_roundtrip
    [Literal "spiffe://"; PField TrustDomain; Literal "/{literal}/"; PField Namespace]
    eq_refl).
Defined.

(** ** The operator's pattern *)

Lemma SpiffeId_parse_str s id : SpiffeId_parse s = Ok id -> SpiffeId_as_str id = s.
Proof. unfold SpiffeId_parse. intros H. inv_ok. case_match. inv_ok. done. Qed.

Lemma SpiffeId_parse_Err s e : SpiffeId_parse s = Err e -> e = Identity.
Proof.
  unfold SpiffeId_parse. intros [H|(r & _ & H)]%bind_Err; [by apply ok_or_Err in H as []|].
  apply bind_Err in H as [H|([] & _ & H)]; [by apply guard_err_Err in H as []|].
  destruct (split_once "/" r) as [[td path]|];
    (apply bind_Err in H as [H|([] & _ & H)]; [by apply guard_err_Err in H as []|]);
    (apply bind_Err in H as [H|([] & _ & H)]; [by apply guard_err_Err in H as []|done]).
Qed.

Lemma check_segment_Err v e : check_segment v = Err e -> e = Identity.
Proof.
  unfold check_segment. intros [H|(_ & _ & H)]%bind_Err; by apply guard_err_Err in H as [].
Qed.

Lemma render_parts_Err ps a e : render_parts ps a = Err e -> e = Identity.
Proof.
  induction ps as [|[t|f] ps IH]; simpl; [done| |];
    intros [H|(u & _ & H)]%bind_Err; try done; eauto using check_segment_Err.
  apply bind_Err in H as [H|(? & _ & H)]; [auto|done].
Qed.

Section policy_theorems.
Context {R : RegexLite}.

Lemma render_Err (t : IdTemplate) a e : render t a = Err e -> e = Identity.
Proof.
  unfold render. intros [H|(s & _ & H)]%bind_Err;
    eauto using render_parts_Err, SpiffeId_parse_Err.
Qed.

(** An ID a policy renders is the template's ID and the operator's pattern
    accepts it; a pattern that rejects the ID turns the result into
    [Error::Policy] and nothing else does. *)
Theorem policy_render_gate (p : IdPolicy) (a : WorkloadAttributes) :
  match IdPolicy_render p a with
  | Ok id => render (template p) a = Ok id /\
             (forall re, pattern p = Some re -> is_match re (SpiffeId_as_str id) = true)
  | Err e =>
      (e = Policy <->
       exists id re, render (template p) a = Ok id /\ pattern p = Some re /\
                     is_match re (SpiffeId_as_str id) = false)
  end.
Proof.
  unfold IdPolicy_render, IdPolicy_check.
  destruct (render (template p) a) as [id|e] eqn:Hr; simpl.
  - destruct (pattern p) as [re|]; simpl; [|naive_solver].
    destruct (is_match re (SpiffeId_as_str id)) eqn:Hm; simpl; naive_solver.
  - apply render_Err in Hr as ->. naive_solver.
Qed.
End policy_theorems.
