(* ===== verification/Catalog.v ===== *)
(** * The identity catalog  (svidlet-issue/src/catalog.rs)

    Which identities may hold JWT-SVIDs, for which audiences, and which are
    sensitive.  The broker looks identities up ([lookup], rules T3, I8, I9) and
    CI renders the same file into Vault policies ([render_policy]) and roles
    ([render_roles]).

    [basic_toml] is not part of the sources: the deserialiser is an argument of
    [Catalog_parse].  The quoting of [{:?}] and of [serde_json] is an argument
    of the renderers. *)

From S2P Require Import Prelude RustStr Errors Template.
Open Scope list_scope.

Definition DEFAULT_PATH_TEMPLATE : string :=
  "/cluster/{cluster}/ns/{namespace}/sa/{service_account}".
(** Durations are whole seconds. *)
Definition DEFAULT_TOKEN_TTL : Z := 12 * 3600.
Definition MIN_TOKEN_TTL : Z := 6 * 3600.
Definition MAX_TOKEN_TTL : Z := 12 * 3600.

Record Audience := mkAudience {
  alias : string;
  audience : string;
}.

Record CatIdentity := mkIdentity {
  i_cluster : string;
  i_namespace : string;
  i_service_account : string;
  i_token_ttl : option string;
  i_sensitive : bool;
  i_audiences : list Audience;
}.

Record Catalog := mkCatalog {
  schema : Z;
  c_trust_domain : string;
  path_template : string;
  allowlist : bool;
  identity : list CatIdentity;
  registries : list string;
}.

#[export] Instance Audience_eq_dec : EqDecision Audience.
Proof. solve_decision. Defined.
#[export] Instance CatIdentity_eq_dec : EqDecision CatIdentity.
Proof. solve_decision. Defined.

(** ** Durations and names *)

(** The longest prefix of digits, and the rest. *)
Fixpoint span_digits (s : string) : string * string :=
  match s with
  | String c r =>
      if is_ascii_digit c then let '(a, b) := span_digits r in (String c a, b) else ("", s)
  | EmptyString => ("", "")
  end.

Definition parse_duration (text : string) : option Z :=
  let text := trim text in
  let '(number, rest) := span_digits text in
  (** [find] of a non-digit: without one the unit is seconds. *)
  let unit := if is_empty rest then "s" else rest in
  n ← parse_u64 number;
  if String.eqb unit "s" then Some n
  else if String.eqb unit "m" then checked_mul_u64 n 60
  else if String.eqb unit "h" then checked_mul_u64 n 3600
  else if String.eqb unit "d" then checked_mul_u64 n 86400
  else None.

Lemma parse_duration_range text n : parse_duration text = Some n -> (0 <= n <= u64_max)%Z.
Proof.
  unfold parse_duration. destruct (span_digits (trim text)) as [number rest].
  intros (m & Hm & H)%bind_Some. apply parse_uint_range in Hm; [|done].
  repeat case_match; simplify_eq; try done;
    apply checked_mul_u64_Some in H as [-> ?]; lia.
Qed.

Definition name_char (c : ascii) : bool :=
  is_ascii_lowercase c || is_ascii_digit c || Ascii.eqb c "-" || Ascii.eqb c ".".

Definition is_name (s : string) : bool :=
  negb (is_empty s)
  && (String.length s <=? 253)%nat
  && all_chars name_char s
  && negb (starts_with "-" s || starts_with "." s)
  && negb (ends_with "-" s || ends_with "." s).

Definition token_ttl (i : CatIdentity) : Z :=
  default DEFAULT_TOKEN_TTL (i_token_ttl i ≫= parse_duration).

Definition find_audience (i : CatIdentity) (aud : string) : option Audience :=
  List.find (fun a => String.eqb (audience a) aud) (i_audiences i).

Definition role_name (cluster namespace service_account : string) : string :=
  cluster +:+ "__" +:+ namespace +:+ "__" +:+ service_account.

(** ** Validation *)

Definition alias_char (c : ascii) : bool :=
  is_ascii_lowercase c || is_ascii_digit c || Ascii.eqb c "-".

(** The loop over one identity's audiences, with the aliases and audiences
    already seen. *)
Fixpoint validate_audiences (aliases auds : list string) (l : list Audience)
    : result Error unit :=
  match l with
  | [] => Ok tt
  | a :: l =>
      _ ← guard_err (is_empty (alias a) || (63 <? String.length (alias a))%nat
                     || negb (all_chars alias_char (alias a))) Config;
      _ ← guard_err (is_empty (audience a) || has_char "," (audience a)) Config;
      _ ← guard_err (bool_decide (alias a ∈ aliases)) Config;
      _ ← guard_err (bool_decide (audience a ∈ auds)) Config;
      validate_audiences (alias a :: aliases) (audience a :: auds) l
  end.

Definition validate_ttl (i : CatIdentity) : result Error unit :=
  match i_token_ttl i with
  | None => Ok tt
  | Some ttl =>
      match parse_duration ttl with
      | Some d => guard_err (negb ((MIN_TOKEN_TTL <=? d) && (d <=? MAX_TOKEN_TTL))%Z) Config
      | None => Err Config
      end
  end.

Definition id_key (i : CatIdentity) : string * string * string :=
  (i_cluster i, i_namespace i, i_service_account i).

Fixpoint validate_identities (seen : list (string * string * string)) (l : list CatIdentity)
    : result Error unit :=
  match l with
  | [] => Ok tt
  | i :: l =>
      _ ← guard_err (negb (String.eqb (i_cluster i) "*") && negb (is_name (i_cluster i))) Config;
      _ ← guard_err (negb (is_name (i_namespace i)) || negb (is_name (i_service_account i))) Config;
      _ ← guard_err (bool_decide (id_key i ∈ seen)) Config;
      _ ← validate_ttl i;
      _ ← validate_audiences [] [] (i_audiences i);
      validate_identities (id_key i :: seen) l
  end.

Definition validate (c : Catalog) : result Error unit :=
  _ ← guard_err (negb (schema c =? 1)%Z) Config;
  _ ← guard_err (is_empty (c_trust_domain c) || has_char "/" (c_trust_domain c)) Config;
  _ ← for_each (fun p => guard_err (negb (contains_str p (path_template c))) Config)
        ["{cluster}"; "{namespace}"; "{service_account}"];
  _ ← guard_err (negb (starts_with "/" (path_template c))) Config;
  _ ← for_each (fun prefix => guard_err (negb (ends_with "/" prefix)) Config) (registries c);
  validate_identities [] (identity c).

(** [Catalog::parse]; [toml] is the deserialiser. *)
Definition Catalog_parse (toml : string -> option Catalog) (text : string)
    : result Error Catalog :=
  c ← ok_or Config (toml text);
  _ ← validate c;
  Ok c.

(** ** Lookup *)

Definition matches_entry (cl ns sa : string) (i : CatIdentity) : Prop :=
  i_cluster i = cl /\ i_namespace i = ns /\ i_service_account i = sa.
#[export] Instance matches_entry_dec cl ns sa i : Decision (matches_entry cl ns sa i).
Proof. unfold matches_entry. apply _. Defined.

(** The position matters because [for_cluster] compares entries by address. *)
Definition lookup_at (c : Catalog) (cl ns sa : string) : option (nat * CatIdentity) :=
  match list_find (matches_entry cl ns sa) (identity c) with
  | Some p => Some p
  | None => list_find (matches_entry "*" ns sa) (identity c)
  end.

Definition lookup (c : Catalog) (cl ns sa : string) : option CatIdentity :=
  snd <$> lookup_at c cl ns sa.

(** ** Rendering for Vault *)

(** [sort_by] on (namespace, service_account): a stable sort. *)
Definition key_leb (a b : CatIdentity) : bool :=
  match String.compare (i_namespace a) (i_namespace b) with
  | Lt => true
  | Gt => false
  | Eq => String.leb (i_service_account a) (i_service_account b)
  end.

Fixpoint sort_insert (x : CatIdentity) (l : list CatIdentity) : list CatIdentity :=
  match l with
  | [] => [x]
  | y :: l' => if key_leb x y then x :: l else y :: sort_insert x l'
  end.
Definition sort_by_key (l : list CatIdentity) : list CatIdentity := foldr sort_insert [] l.

(** The entries that are their own lookup result, in catalog order. *)
Definition applies (c : Catalog) (cl : string) (p : nat * CatIdentity) : bool :=
  (String.eqb (i_cluster p.2) cl || String.eqb (i_cluster p.2) "*")
  && match lookup_at c cl (i_namespace p.2) (i_service_account p.2) with
     | Some (j, _) => Nat.eqb j p.1
     | None => false
     end.

Definition for_cluster_unsorted (c : Catalog) (cl : string) : list CatIdentity :=
  snd <$> List.filter (applies c cl) (imap pair (identity c)).

Definition for_cluster (c : Catalog) (cl : string) : list CatIdentity :=
  sort_by_key (for_cluster_unsorted c cl).

Definition subject_path (c : Catalog) (cl ns sa : string) : string :=
  replace "{service_account}" sa
    (replace "{namespace}" ns (replace "{cluster}" cl (path_template c))).

Definition catalog_spiffe_id (c : Catalog) (cl ns sa : string) : string :=
  "spiffe://" +:+ c_trust_domain c +:+ subject_path c cl ns sa.

Definition nl : string := bytes [10]%N.
Definition quote : string := bytes [34]%N.
Definition quoted (s : string) : string := quote +:+ s +:+ quote.

(** One [path "..." { }] block of a broker policy. *)
Definition policy_block (fmt_debug : string -> string) (cl spiffe_mount : string)
    (i : CatIdentity) : string :=
  if bool_decide (i_audiences i = []) then ""
  else nl
    +:+ "path " +:+ quoted (trim_char "/" spiffe_mount +:+ "/role/"
          +:+ role_name cl (i_namespace i) (i_service_account i) +:+ "/mintjwt")
    +:+ " {" +:+ nl
    +:+ "  capabilities       = [" +:+ quoted "update" +:+ "]" +:+ nl
    +:+ "  allowed_parameters = { " +:+ quoted "audience" +:+ " = ["
    +:+ join ", " ((fun a => fmt_debug (audience a)) <$> i_audiences i)
    +:+ "] }" +:+ nl
    +:+ "}" +:+ nl.

Definition render_policy (fmt_debug : string -> string) (c : Catalog)
    (cl pki_mount pki_role spiffe_mount : string) : string :=
  "# svidlet-broker-" +:+ cl +:+ " " +:+ bytes [226; 128; 148]%N
    +:+ " generated from the catalog; do not edit" +:+ nl
  +:+ "path " +:+ quoted (trim_char "/" pki_mount +:+ "/sign/" +:+ pki_role)
    +:+ " { capabilities = [" +:+ quoted "update" +:+ "] }" +:+ nl
  +:+ String.concat "" (policy_block fmt_debug cl spiffe_mount <$> for_cluster c cl).

(** [json_sub s] is the text of [{"sub": s}]. *)
Definition role_line (json_sub : string -> string) (c : Catalog) (cl spiffe_mount : string)
    (i : CatIdentity) : string :=
  if bool_decide (i_audiences i = []) then ""
  else "vault write " +:+ trim_char "/" spiffe_mount +:+ "/role/"
    +:+ role_name cl (i_namespace i) (i_service_account i)
    +:+ " template='" +:+ json_sub (subject_path c cl (i_namespace i) (i_service_account i))
    +:+ "' ttl=" +:+ pretty (token_ttl i) +:+ "s use_jti_claim=true" +:+ nl.

Definition render_roles (json_sub : string -> string) (c : Catalog)
    (cl spiffe_mount : string) : string :=
  String.concat "" (role_line json_sub c cl spiffe_mount <$> for_cluster c cl).

(** ** What validation establishes *)

Record audience_wf (a : Audience) : Prop := {
  alias_chars : all_chars alias_char (alias a) = true;
  alias_len : (0 < String.length (alias a) <= 63)%nat;
  aud_nonempty : audience a <> "";
  aud_no_comma : has_char "," (audience a) = false;
}.

Record identity_wf (i : CatIdentity) : Prop := {
  cluster_name : i_cluster i = "*" \/ is_name (i_cluster i) = true;
  namespace_name : is_name (i_namespace i) = true;
  sa_name : is_name (i_service_account i) = true;
  ttl_bounds : (MIN_TOKEN_TTL <= token_ttl i <= MAX_TOKEN_TTL)%Z;
  aliases_nodup : NoDup (alias <$> i_audiences i);
  audiences_nodup : NoDup (audience <$> i_audiences i);
  audiences_wf : Forall audience_wf (i_audiences i);
}.

Record catalog_wf (c : Catalog) : Prop := {
  schema_one : schema c = 1%Z;
  registries_slash : Forall (fun p => ends_with "/" p = true) (registries c);
  identities_wf : Forall identity_wf (identity c);
  keys_nodup : NoDup (id_key <$> identity c);
}.

Lemma validate_audiences_Ok aliases auds l :
  validate_audiences aliases auds l = Ok tt ->
  Forall audience_wf l /\ NoDup (alias <$> l) /\ NoDup (audience <$> l) /\
  Forall (fun a => alias a ∉ aliases /\ audience a ∉ auds) l.
Proof.
  revert aliases auds. induction l as [|a l IH]; intros aliases auds; simpl.
  { repeat split; constructor. }
  intros H.
  apply bind_Ok in H as ([] & H1%guard_err_Ok & H). apply bind_Ok in H as ([] & H2%guard_err_Ok & H).
  apply bind_Ok in H as ([] & H3%guard_err_Ok & H). apply bind_Ok in H as ([] & H4%guard_err_Ok & H).
  apply IH in H as (Hw & Hn1 & Hn2 & Hf).
  apply bool_decide_eq_false in H3, H4.
  apply orb_false_iff in H1 as [H1 Hc]. apply orb_false_iff in H1 as [Hne Hlen].
  apply orb_false_iff in H2 as [Hae Hac].
  apply negb_false_iff in Hc. apply Nat.ltb_ge in Hlen.
  apply is_empty_false in Hne, Hae.
  rewrite !NoDup_cons, !list_elem_of_fmap, !Forall_cons_iff.
  assert (forall b, b ∈ l -> alias b <> alias a /\ audience b <> audience a) as Hother.
  { intros b Hb. rewrite Forall_forall in Hf.
    apply Hf in Hb as [Hb1 Hb2]. by rewrite not_elem_of_cons in Hb1, Hb2; destruct Hb1, Hb2. }
  split_and!; try done.
  - constructor; try done. destruct (alias a); [done|simpl in *; lia].
  - intros (b & Hb & [? ?]%Hother). done.
  - intros (b & Hb & [? ?]%Hother). done.
  - eapply Forall_impl; [exact Hf|]. simpl. intros b. rewrite !not_elem_of_cons. by intros [[] []].
Qed.

Lemma validate_ttl_Ok i :
  validate_ttl i = Ok tt -> (MIN_TOKEN_TTL <= token_ttl i <= MAX_TOKEN_TTL)%Z.
Proof.
  unfold validate_ttl, token_ttl. destruct (i_token_ttl i) as [t|]; simpl.
  - destruct (parse_duration t) as [d|]; [|done]. simpl.
    rewrite guard_err_Ok. intros [H1 H2]%negb_false_iff%andb_true_iff. lia.
  - intros _. unfold MIN_TOKEN_TTL, DEFAULT_TOKEN_TTL, MAX_TOKEN_TTL. lia.
Qed.

Lemma validate_identities_Ok seen l :
  validate_identities seen l = Ok tt ->
  Forall identity_wf l /\ NoDup (id_key <$> l) /\ Forall (fun i => id_key i ∉ seen) l.
Proof.
  revert seen. induction l as [|i l IH]; intros seen; simpl.
  { repeat split; constructor. }
  intros H.
  apply bind_Ok in H as ([] & H1%guard_err_Ok & H). apply bind_Ok in H as ([] & H2%guard_err_Ok & H).
  apply bind_Ok in H as ([] & H3%guard_err_Ok & H). apply bind_Ok in H as ([] & H4 & H).
  apply bind_Ok in H as ([] & H5 & H).
  apply IH in H as (Hw & Hn & Hf). apply bool_decide_eq_false in H3.
  apply validate_ttl_Ok in H4. apply validate_audiences_Ok in H5 as (Ha1 & Ha2 & Ha3 & _).
  apply orb_false_iff in H2 as [Hns Hsa]. apply negb_false_iff in Hns, Hsa.
  assert (forall j, j ∈ l -> id_key j <> id_key i) as Hother.
  { intros j Hj. rewrite Forall_forall in Hf.
    apply Hf in Hj. by rewrite not_elem_of_cons in Hj; destruct Hj. }
  rewrite NoDup_cons, list_elem_of_fmap, !Forall_cons_iff. split_and!; try done.
  - constructor; try done. apply andb_false_iff in H1 as [H1|H1].
    + left. by apply String.eqb_eq, negb_false_iff.
    + right. by apply negb_false_iff.
  - intros (j & Hj & ?%Hother). done.
  - eapply Forall_impl; [exact Hf|]. simpl. intros j. rewrite not_elem_of_cons. by intros [].
Qed.

Lemma validate_wf c : validate c = Ok tt -> catalog_wf c.
Proof.
  unfold validate. intros H.
  apply bind_Ok in H as ([] & H1%guard_err_Ok & H). apply bind_Ok in H as ([] & _ & H).
  apply bind_Ok in H as ([] & _ & H). apply bind_Ok in H as ([] & _ & H).
  apply bind_Ok in H as ([] & H5 & H). apply for_each_Ok in H5.
  apply validate_identities_Ok in H as (Hw & Hn & _).
  constructor; try done.
  - apply negb_false_iff, Z.eqb_eq in H1. done.
  - eapply Forall_impl; [exact H5|]. simpl. intros p.
    by rewrite guard_err_Ok, negb_false_iff.
Qed.

(** ** Names *)

Lemma is_name_no_char c s : name_char c = false -> is_name s = true -> has_char c s = false.
Proof.
  intros Hc H. unfold is_name in H. rewrite !andb_true_iff in H.
  destruct H as [[[_ H] _] _]. by eapply all_chars_no_char.
Qed.

Lemma sapp_split_unique c a b x y :
  has_char c a = false -> has_char c x = false ->
  a +:+ String c b = x +:+ String c y -> a = x /\ b = y.
Proof.
  intros Ha Hx H.
  assert (split_once c (a +:+ String c b) = Some (a, b)) as E by (by apply split_once_Some).
  rewrite H in E.
  rewrite (proj2 (split_once_Some c _ x y)) in E by done. by injection E.
Qed.

Lemma role_name_inj_cluster cl ns sa ns' sa' :
  is_name ns = true -> is_name ns' = true ->
  role_name cl ns sa = role_name cl ns' sa' -> ns = ns' /\ sa = sa'.
Proof.
  intros Hn Hn' H. unfold role_name in H. apply sapp_inj_l, (sapp_inj_l "__") in H.
  apply (sapp_split_unique "_") in H as [-> H]; [|by apply is_name_no_char..].
  by injection H.
Qed.

(** ** Lookup *)

Lemma lookup_at_Some c cl ns sa j i :
  lookup_at c cl ns sa = Some (j, i) ->
  identity c !! j = Some i /\ i_namespace i = ns /\ i_service_account i = sa /\
  (i_cluster i = cl \/
   i_cluster i = "*" /\ forall k, k ∈ identity c -> ~ matches_entry cl ns sa k).
Proof.
  unfold lookup_at. destruct (list_find (matches_entry cl ns sa) (identity c)) as [[j' i']|] eqn:E.
  - intros [= <- <-]. apply list_find_Some in E as (? & (? & ? & ?) & _). auto.
  - intros H. apply list_find_Some in H as (? & (? & ? & ?) & _).
    apply list_find_None in E. rewrite Forall_forall in E.
    split_and!; try done. right. split; [done|].
    intros k Hk. by apply E.
Qed.

Lemma lookup_at_None c cl ns sa :
  lookup_at c cl ns sa = None <->
  forall k, k ∈ identity c -> ~ matches_entry cl ns sa k /\ ~ matches_entry "*" ns sa k.
Proof.
  unfold lookup_at. split.
  - destruct (list_find (matches_entry cl ns sa) _) eqn:E; [done|].
    intros H. apply list_find_None in E, H. rewrite Forall_forall in E, H.
    intros k Hk. auto.
  - intros H.
    assert (forall d, (forall k, k ∈ identity c -> ~ matches_entry d ns sa k) ->
      list_find (matches_entry d ns sa) (identity c) = None) as Hn.
    { intros d Hd. apply list_find_None, Forall_forall. intros k Hk. auto. }
    rewrite Hn by apply H. apply Hn. intros k Hk. by apply H.
Qed.

(** With distinct keys a lookup finds the entry itself. *)
Lemma key_position c i j k l :
  NoDup (id_key <$> identity c) -> identity c !! j = Some i -> identity c !! k = Some l ->
  id_key i = id_key l -> j = k.
Proof.
  intros Hn Hj Hk Hkey. apply (NoDup_lookup _ _ _ (id_key i) Hn);
    by rewrite list_lookup_fmap, ?Hj, ?Hk; simpl; rewrite ?Hkey.
Qed.

(** ** The entries that apply to a cluster *)

Lemma sort_insert_perm x l : sort_insert x l ≡ₚ x :: l.
Proof.
  induction l as [|y l IH]; simpl; [done|].
  destruct (key_leb x y); [done|]. rewrite IH. constructor.
Qed.

Lemma sort_by_key_perm l : sort_by_key l ≡ₚ l.
Proof.
  induction l as [|x l IH]; simpl; [done|]. by rewrite sort_insert_perm, IH.
Qed.

Lemma string_compare_trans_leb a b c :
  String.leb a b = true -> String.leb b c = true -> String.leb a c = true.
Proof.
  unfold String.leb. revert b c. induction a as [|x a IH]; intros b c.
  { by destruct b, c. }
  destruct b as [|y b]; [done|]. destruct c as [|z c]; [by destruct (Ascii.compare x y)|].
  simpl. unfold Ascii.compare. intros H1 H2.
  destruct (N.compare_spec (N_of_ascii x) (N_of_ascii y)) as [E1|E1|E1];
    destruct (N.compare_spec (N_of_ascii y) (N_of_ascii z)) as [E2|E2|E2]; try done;
    destruct (N.compare_spec (N_of_ascii x) (N_of_ascii z)) as [E3|E3|E3];
    try done; try lia. all: by apply (IH b c).
Qed.

(** The order of [for_cluster]: lexicographic on (namespace, service account). *)
Definition key_le (a b : CatIdentity) : Prop := key_leb a b = true.

Lemma key_leb_total a b : key_leb a b = false -> key_leb b a = true.
Proof.
  unfold key_leb. rewrite (String.compare_antisym (i_namespace b)).
  destruct (String.compare (i_namespace a) (i_namespace b)); simpl; try done.
  intros H. destruct (String.leb_total (i_service_account a) (i_service_account b)); congruence.
Qed.

Lemma sort_insert_hd x y l :
  HdRel key_le y l -> key_le y x -> HdRel key_le y (sort_insert x l).
Proof.
  intros H Hx. destruct l as [|z l]; simpl; [by constructor|].
  inversion H; subst. by destruct (key_leb x z); constructor.
Qed.

Lemma sort_insert_sorted x l : Sorted key_le l -> Sorted key_le (sort_insert x l).
Proof.
  induction 1 as [|y l Hs IH Hd]; simpl; [by repeat constructor|].
  destruct (key_leb x y) eqn:E; [by repeat constructor|].
  constructor; [done|]. apply sort_insert_hd; [done|]. by apply key_leb_total.
Qed.

Lemma sort_by_key_sorted l : Sorted key_le (sort_by_key l).
Proof. induction l; simpl; [constructor|by apply sort_insert_sorted]. Qed.

Lemma elem_for_cluster c cl i :
  i ∈ for_cluster c cl <->
  exists j, identity c !! j = Some i /\ applies c cl (j, i) = true.
Proof.
  unfold for_cluster, for_cluster_unsorted. rewrite sort_by_key_perm, list_elem_of_fmap. split.
  - intros ([j k] & -> & H). apply list_elem_of_In, filter_In in H as [H Ha].
    apply list_elem_of_In, elem_of_lookup_imap in H as (n & y & [= -> ->] & Hy). eauto.
  - intros (j & Hj & Ha). exists (j, i). split; [done|].
    apply list_elem_of_In, filter_In. split; [|done].
    apply list_elem_of_In, elem_of_lookup_imap. eauto.
Qed.

Lemma applies_lookup c cl j i :
  catalog_wf c -> identity c !! j = Some i ->
  applies c cl (j, i) = true <->
  lookup c cl (i_namespace i) (i_service_account i) = Some i.
Proof.
  intros Hwf Hj. unfold applies, lookup; simpl.
  destruct (lookup_at c cl (i_namespace i) (i_service_account i)) as [[k l]|] eqn:E; simpl.
  - pose proof (lookup_at_Some _ _ _ _ _ _ E) as (Hk & Hns & Hsa & Hcl).
    rewrite andb_true_iff, orb_true_iff, !String.eqb_eq, Nat.eqb_eq. split.
    + intros [_ ->]. by rewrite Hj in Hk.
    + intros [= ->]. assert (j = k) as ->; [|naive_solver].
      by eapply key_position; [apply (keys_nodup _ Hwf)|..].
  - rewrite andb_false_r. done.
Qed.

Lemma elem_for_cluster_lookup c cl i :
  catalog_wf c ->
  i ∈ for_cluster c cl <->
    i ∈ identity c /\ lookup c cl (i_namespace i) (i_service_account i) = Some i.
Proof.
  intros Hwf. rewrite elem_for_cluster. split.
  - intros (j & Hj & Ha). split; [by eapply list_elem_of_lookup_2|].
    by apply (applies_lookup c cl j).
  - intros [[j Hj]%list_elem_of_lookup_1 Hl]. exists j. split; [done|].
    by apply applies_lookup.
Qed.

(** C20: [for_cluster] lists exactly the entries a lookup in that cluster can
    return, sorted, so the Vault policy generated from it and the broker's own
    lookups see the same catalog. *)
Theorem for_cluster_spec (c : Catalog) (cl : string) :
  validate c = Ok tt ->
  Sorted key_le (for_cluster c cl) /\
  forall i, i ∈ for_cluster c cl <->
    i ∈ identity c /\ lookup c cl (i_namespace i) (i_service_account i) = Some i.
Proof.
  intros Hwf%validate_wf. split; [apply sort_by_key_sorted|].
  intros i. by apply elem_for_cluster_lookup.
Qed.

(** An exact cluster entry wins over a ["*"] entry, and a ["*"] entry is
    used only when no exact one exists. *)
Theorem lookup_exact_wins (c : Catalog) (cl ns sa : string) :
  match lookup c cl ns sa with
  | Some i => i ∈ identity c /\ i_namespace i = ns /\ i_service_account i = sa /\
      (i_cluster i = cl \/
       i_cluster i = "*" /\ forall k, k ∈ identity c -> ~ matches_entry cl ns sa k)
  | None => forall k, k ∈ identity c -> ~ matches_entry cl ns sa k /\ ~ matches_entry "*" ns sa k
  end.
Proof.
  unfold lookup. destruct (lookup_at c cl ns sa) as [[j i]|] eqn:E; simpl.
  - apply lookup_at_Some in E as (Hj & H). split; [by eapply list_elem_of_lookup_2|done].
  - by apply lookup_at_None.
Qed.

(** Vault role names split back unambiguously: two identities with
    Kubernetes names share a role name only if they are the same identity. *)
Theorem role_name_injective (cl ns sa cl' ns' sa' : string) :
  is_name cl = true -> is_name cl' = true -> is_name ns = true -> is_name ns' = true ->
  role_name cl ns sa = role_name cl' ns' sa' ->
  cl = cl' /\ ns = ns' /\ sa = sa'.
Proof.
  intros Hc Hc' Hn Hn' H. unfold role_name in H.
  apply (sapp_split_unique "_") in H as [-> H]; [|by apply is_name_no_char..].
  injection H as H. apply (sapp_split_unique "_") in H as [-> H]; [|by apply is_name_no_char..].
  injection H as ->. done.
Qed.

Lemma role_name_injective_witness :
  "gpu-a" = "gpu-a" /\ "payments" = "payments" /\ "api" = "api".
Proof.
  refine (role_name_injective "gpu-a" "payments" "api" "gpu-a" "payments" "api" _ _ _ _ _);
    reflexivity.
Defined.

(** After validation every token lifetime is within 6 to 12 hours, and no
    identity lists an alias or an audience twice. *)
Theorem validated_identities (c : Catalog) (i : CatIdentity) :
  validate c = Ok tt -> i ∈ identity c ->
  (MIN_TOKEN_TTL <= token_ttl i <= MAX_TOKEN_TTL)%Z /\
  NoDup (alias <$> i_audiences i) /\ NoDup (audience <$> i_audiences i) /\
  forall a, a ∈ i_audiences i -> find_audience i (audience a) = Some a.
Proof.
  intros Hwf%validate_wf Hi. pose proof (identities_wf _ Hwf) as Hf.
  rewrite Forall_forall in Hf. destruct (Hf i Hi) as [_ _ _ Ht Ha Hd _].
  split; [exact Ht|]. split; [exact Ha|]. split; [exact Hd|]. clear -Hd. unfold find_audience.
  induction (i_audiences i) as [|b l IH]; simpl; intros a Hin; [by apply not_elem_of_nil in Hin|].
  simpl in Hd. apply NoDup_cons in Hd as [Hn Hd].
  apply elem_of_cons in Hin as [->|Hin]; [by rewrite String.eqb_refl|].
  destruct (String.eqb_spec (audience b) (audience a)) as [E|E]; [|by apply IH].
  exfalso. apply Hn. rewrite E. by apply list_elem_of_fmap_2.
Qed.

Lemma find_audience_Some i aud a :
  find_audience i aud = Some a -> a ∈ i_audiences i /\ audience a = aud.
Proof.
  unfold find_audience. intros H. apply find_some in H as [H E].
  apply list_elem_of_In in H. apply String.eqb_eq in E. done.
Qed.

Lemma find_audience_is_Some i aud :
  (exists a, a ∈ i_audiences i /\ audience a = aud) <-> is_Some (find_audience i aud).
Proof.
  split.
  - intros (a & Ha & <-). unfold find_audience.
    destruct (List.find _ (i_audiences i)) eqn:E; [done|].
    apply list_elem_of_In in Ha. apply (find_none _ _ E) in Ha.
    by rewrite String.eqb_refl in Ha.
  - intros [a [? ?]%find_audience_Some]. eauto.
Qed.

(** ** Reading a policy

    What a Vault policy grants, read from its text: the roles of a SPIFFE mount
    whose [mintjwt] it may update, and for each the audiences it lists. *)

Definition strip_suffix (p s : string) : option string := str_rev <$> strip_prefix (str_rev p) (str_rev s).

(** [path "<mount>/role/<role>/mintjwt" {]. *)
Definition read_role (mount line : string) : option string :=
  r ← strip_prefix ("path " +:+ quote +:+ mount +:+ "/role/") line; strip_suffix ("/mintjwt" +:+ quote +:+ " {") r.
(** ["..."], after at most a space. *)
Definition read_quoted (s : string) : option string :=
  let s := match strip_prefix " " s with Some s => s | None => s end in
  r ← strip_prefix quote s; strip_suffix quote r.
(** [allowed_parameters = { "audience" = [..] }]. *)
Definition read_audiences (line : string) : option (list string) :=
  r ← strip_prefix ("  allowed_parameters = { " +:+ quoted "audience" +:+ " = [") line;
  r ← strip_suffix "] }" r;
  mapM read_quoted (split_char "," r).
Definition is_update (line : string) : bool := String.eqb line ("  capabilities       = [" +:+ quoted "update" +:+ "]").

(** Line by line; [block]: the role of the block, and whether it may be updated. *)
Fixpoint read_lines (mount : string) (block : option (string * bool)) (ls : list string) : list (string * string) :=
  match ls with
  | [] => []
  | l :: ls =>
      match read_role mount l, block with
      | Some role, _ => read_lines mount (Some (role, false)) ls
      | None, None => read_lines mount None ls
      | None, Some (role, can) =>
          if String.eqb l "}" then read_lines mount None ls
          else if is_update l then read_lines mount (Some (role, true)) ls
          else match read_audiences l with
               | Some auds => (if can then (fun aud => (role, aud)) <$> auds else []) ++ read_lines mount block ls
               | None => read_lines mount block ls
               end
      end
  end.
Definition policy_grants (mount text : string) : list (string * string) := read_lines mount None (split_char "010" text).

(** The same, from the catalog. *)
Definition grants_of (cl : string) (i : CatIdentity) : list (string * string) :=
  (fun a => (role_name cl (i_namespace i) (i_service_account i), audience a)) <$> i_audiences i.

Lemma strip_suffix_app a p : strip_suffix p (a +:+ p) = Some a.
Proof. unfold strip_suffix. rewrite str_rev_app, strip_prefix_app. cbn. by rewrite str_rev_rev. Qed.

(** Printable ASCII with nothing to escape in it. *)
Definition plain_char (c : ascii) : bool :=
  between 32 126 c && negb (Ascii.eqb c "034") && negb (Ascii.eqb c "\").
Definition plain_text (s : string) : bool := all_chars plain_char s.
Definition one_line (s : string) : bool := negb (has_char "010" s).

Section reading.
Context (fmt_debug : string -> string).
(** [{:?}] puts text with nothing to escape between quotes. *)
Context (debug_plain : forall s, plain_text s = true -> fmt_debug s = quoted s).
Context (cl mount : string) (Hcl : one_line cl = true) (Hmount : one_line mount = true).

Definition role_line1 (i : CatIdentity) : string :=
  "path " +:+ quoted (mount +:+ "/role/" +:+ role_name cl (i_namespace i) (i_service_account i) +:+ "/mintjwt") +:+ " {".
Definition audience_line (i : CatIdentity) : string :=
  "  allowed_parameters = { " +:+ quoted "audience" +:+ " = [" +:+ join ", " ((fun a => fmt_debug (audience a)) <$> i_audiences i) +:+ "] }".
Definition update_line : string := "  capabilities       = [" +:+ quoted "update" +:+ "]".

Lemma read_role_line i : read_role mount (role_line1 i) = Some (role_name cl (i_namespace i) (i_service_account i)).
Proof.
  unfold read_role, role_line1. set (r := role_name _ _ _).
  assert (E : "path " +:+ quoted (mount +:+ "/role/" +:+ r +:+ "/mintjwt") +:+ " {" =
    ("path " +:+ quote +:+ mount +:+ "/role/") +:+ (r +:+ "/mintjwt" +:+ quote +:+ " {")).
  { unfold quoted. by rewrite !sapp_assoc. }
  rewrite E, strip_prefix_app. cbn [mbind option_bind]. apply strip_suffix_app.
Qed.
Lemma not_role_line l : starts_with "path " l = false -> read_role mount l = None.
Proof.
  unfold read_role, starts_with. intros H. destruct (strip_prefix ("path " +:+ _) l) as [r|] eqn:E; [|done].
  apply strip_prefix_Some in E as ->. rewrite sapp_assoc, strip_prefix_app in H. done.
Qed.

Lemma read_quoted_plain s : read_quoted (quoted s) = Some s /\ read_quoted (" " +:+ quoted s) = Some s.
Proof.
  assert (E : strip_prefix quote (quoted s) ≫= strip_suffix quote = Some s).
  { unfold quoted. rewrite strip_prefix_app. apply strip_suffix_app. }
  split; exact E.
Qed.
Lemma quoted_no_comma s : has_char "," s = false -> has_char "," (quoted s) = false.
Proof. intros H. unfold quoted. by rewrite !has_char_app, H. Qed.

Lemma read_list auds :
  auds <> [] -> Forall (fun a => has_char "," a = false) auds ->
  mapM read_quoted (split_char "," (join ", " (quoted <$> auds))) = Some auds /\
  mapM read_quoted (split_char "," (" " +:+ join ", " (quoted <$> auds))) = Some auds.
Proof.
  induction auds as [|x auds IH]; [done|]. intros _ [Hx%quoted_no_comma Ha]%Forall_cons_iff.
  destruct (read_quoted_plain x) as [E1 E2]. destruct auds as [|y auds].
  - cbn [fmap list_fmap join]. rewrite !split_char_no by (rewrite ?has_char_app, ?Hx; done). cbn [mapM]. by rewrite E1, E2.
  - destruct IH as [_ IH]; [done|done|]. cbn [fmap list_fmap] in *. change (join ", " (quoted x :: quoted y :: (quoted <$> auds)))
      with (quoted x +:+ String "," (" " +:+ join ", " (quoted y :: (quoted <$> auds)))).
    rewrite split_char_app by done. change (" " +:+ (quoted x +:+ ?r)) with ((" " +:+ quoted x) +:+ r).
    rewrite split_char_app by (by rewrite has_char_app, Hx). cbn [mapM]. by rewrite E1, E2, IH.
Qed.

(** An identity the reader can follow. *)
Record readable (i : CatIdentity) : Prop := {
  rd_namespace : is_name (i_namespace i) = true;
  rd_account : is_name (i_service_account i) = true;
  rd_no_comma : Forall (fun a => has_char "," (audience a) = false) (i_audiences i);
  rd_plain : Forall (fun a => plain_text (audience a) = true) (i_audiences i);
}.

Lemma one_line_spec s : one_line s = true <-> has_char "010" s = false.
Proof. unfold one_line. by rewrite negb_true_iff. Qed.
Lemma debug_list i : readable i -> ((fun a => fmt_debug (audience a)) <$> i_audiences i) = quoted <$> (audience <$> i_audiences i).
Proof using debug_plain.
  intros [_ _ _ Hp]. rewrite <- list_fmap_compose. apply list_fmap_ext. intros j a Ha%list_elem_of_lookup_2.
  rewrite Forall_forall in Hp. by apply debug_plain, Hp.
Qed.
Lemma join_one_line ws : Forall (fun w => has_char "010" w = false) ws -> has_char "010" (join ", " ws) = false.
Proof.
  induction 1 as [|w ws Hw _ IH]; [done|]. destruct ws as [|w' ws]; [done|].
  change (join ", " (w :: w' :: ws)) with (w +:+ ", " +:+ join ", " (w' :: ws)). by rewrite !has_char_app, Hw, IH.
Qed.
Lemma lines_one i : readable i -> has_char "010" (role_line1 i) = false /\ has_char "010" (audience_line i) = false.
Proof using debug_plain Hcl Hmount.
  intros Hi. pose proof Hi as [Hn Hs _ Hp]. apply one_line_spec in Hcl, Hmount. split.
  - unfold role_line1, quoted, role_name. rewrite !has_char_app, Hcl, Hmount.
    by rewrite (is_name_no_char "010" (i_namespace i)), (is_name_no_char "010" (i_service_account i)).
  - unfold audience_line. rewrite debug_list by done. rewrite !has_char_app, join_one_line; [done|].
    rewrite Forall_fmap, Forall_fmap. eapply Forall_impl; [exact Hp|]. intros a Ha. unfold compose, quoted. rewrite !has_char_app.
    rewrite (all_chars_no_char plain_char "010" (audience a) eq_refl Ha). reflexivity.
Qed.

Lemma read_audience_line i : readable i -> i_audiences i <> [] -> read_audiences (audience_line i) = Some (audience <$> i_audiences i).
Proof using debug_plain.
  intros Hi Hne. unfold read_audiences, audience_line. rewrite debug_list by done. set (J := join ", " _).
  assert (E : "  allowed_parameters = { " +:+ quoted "audience" +:+ " = [" +:+ J +:+ "] }" =
    ("  allowed_parameters = { " +:+ quoted "audience" +:+ " = [") +:+ (J +:+ "] }")) by (by rewrite !sapp_assoc).
  rewrite E, strip_prefix_app. cbn [mbind option_bind]. rewrite strip_suffix_app. cbn [mbind option_bind].
  apply read_list; [by destruct (i_audiences i)|]. rewrite Forall_fmap. apply Hi.
Qed.

(** A block of the policy grants what its identity is to have. *)
Lemma read_block i ls :
  readable i -> i_audiences i <> [] ->
  read_lines mount None ("" :: role_line1 i :: update_line :: audience_line i :: "}" :: ls) = grants_of cl i ++ read_lines mount None ls.
Proof using debug_plain.
  intros Hi Hne. cbn [read_lines]. rewrite (not_role_line ""), read_role_line by done. cbn [read_lines].
  rewrite (not_role_line update_line) by done. change (String.eqb update_line "}") with false. change (is_update update_line) with true.
  cbn iota. rewrite (not_role_line (audience_line i)) by done. change (String.eqb (audience_line i) "}") with false.
  change (is_update (audience_line i)) with false. cbn iota. rewrite read_audience_line by done. rewrite (not_role_line "}") by done.
  cbn iota. f_equal. unfold grants_of. by rewrite <- list_fmap_compose.
Qed.

Lemma split_block spiffe_mount i rest :
  trim_char "/" spiffe_mount = mount -> readable i -> i_audiences i <> [] ->
  split_char "010" (policy_block fmt_debug cl spiffe_mount i +:+ rest) =
    "" :: role_line1 i :: update_line :: audience_line i :: "}" :: split_char "010" rest.
Proof using debug_plain Hcl Hmount.
  intros Em Hi Hne. unfold policy_block. rewrite bool_decide_false by done. rewrite Em.
  destruct (lines_one i Hi) as [H1 H2].
  transitivity (split_char "010" ("" +:+ String "010" (role_line1 i +:+ String "010" (update_line +:+ String "010"
    (audience_line i +:+ String "010" ("}" +:+ String "010" rest)))))).
  - f_equal. unfold role_line1, audience_line, update_line. by rewrite !sapp_assoc.
  - by rewrite !split_char_app by done.
Qed.

Lemma read_blocks spiffe_mount ids :
  trim_char "/" spiffe_mount = mount -> Forall readable ids ->
  read_lines mount None (split_char "010" (String.concat "" (policy_block fmt_debug cl spiffe_mount <$> ids))) = mjoin (grants_of cl <$> ids).
Proof using debug_plain Hcl Hmount.
  intros Em His. assert (Hcat : forall x l, String.concat "" (x :: l) = x +:+ String.concat "" l).
  { intros x [|y l]; [by rewrite sapp_nil_r|done]. }
  induction His as [|i ids Hi _ IH]; [done|]. cbn [fmap list_fmap]. rewrite Hcat. cbn [mjoin list_join].
  destruct (decide (i_audiences i = [])) as [En|Hne].
  - unfold policy_block at 1. rewrite bool_decide_true by done. unfold grants_of at 1. rewrite En. exact IH.
  - rewrite split_block, read_block by done. f_equal. exact IH.
Qed.
End reading.

Lemma trim_one_line c s : one_line s = true -> one_line (trim_char c s) = true.
Proof.
  assert (Hs : forall f t, has_char "010" t = false -> has_char "010" (trim_start_by f t) = false).
  { intros f t. induction t as [|x t IH]; [done|]. rewrite has_char_cons. intros [Hx Ht]%orb_false_iff. cbn. destruct (f x); [auto|].
    by rewrite has_char_cons, Hx, Ht. }
  assert (Hr : forall t, has_char "010" t = false -> has_char "010" (str_rev t) = false).
  { intros t. induction t as [|x t IH]; [done|]. rewrite has_char_cons. intros [Hx Ht]%orb_false_iff.
    change (str_rev (String x t)) with (srev (String x "") t). by rewrite srev_app, has_char_app, IH, has_char_cons, Hx. }
  rewrite !one_line_spec. intros H. unfold trim_char. repeat first [apply Hs|apply Hr]; done.
Qed.
Lemma role_line_end mount x : read_role mount (x +:+ "}") = None.
Proof.
  unfold read_role. destruct (strip_prefix _ _) as [r|] eqn:E; [|done]. apply strip_prefix_Some in E. cbn [mbind option_bind].
  destruct (strip_suffix _ r) as [r'|] eqn:Es; [|done]. exfalso. unfold strip_suffix in Es.
  destruct (strip_prefix _ (str_rev r)) as [q|] eqn:Eq; [|done]. apply strip_prefix_Some in Eq.
  apply (f_equal str_rev) in E. rewrite !str_rev_app, Eq in E. cbn in E. discriminate E.
Qed.

(** What the catalog gives a cluster, as grants. *)
Lemma rendered_grants fmt_debug c cl pki_mount pki_role spiffe_mount :
  (forall s, plain_text s = true -> fmt_debug s = quoted s) -> Forall readable (for_cluster c cl) ->
  one_line cl = true -> one_line pki_mount = true -> one_line pki_role = true -> one_line spiffe_mount = true ->
  policy_grants (trim_char "/" spiffe_mount) (render_policy fmt_debug c cl pki_mount pki_role spiffe_mount) = mjoin (grants_of cl <$> for_cluster c cl).
Proof.
  intros Hd His Hc Hp Hr Hm. unfold policy_grants, render_policy. set (blocks := String.concat _ _).
  transitivity (read_lines (trim_char "/" spiffe_mount) None (split_char "010"
    (("# svidlet-broker-" +:+ cl +:+ " " +:+ bytes [226; 128; 148]%N +:+ " generated from the catalog; do not edit") +:+ String "010"
     ((("path " +:+ quoted (trim_char "/" pki_mount +:+ "/sign/" +:+ pki_role) +:+ " { capabilities = [" +:+ quoted "update" +:+ "] ") +:+ "}") +:+ String "010" blocks)))).
  { do 2 f_equal. by rewrite !sapp_assoc. }
  pose proof (trim_one_line "/" _ Hp) as Hp'. apply one_line_spec in Hc, Hp', Hr.
  rewrite !split_char_app; [| |].
  - cbn [read_lines]. rewrite not_role_line, role_line_end by done. unfold blocks. apply read_blocks; try done; [by apply one_line_spec|by apply trim_one_line].
  - unfold quoted. by rewrite !has_char_app, Hp', Hr.
  - by rewrite !has_char_app, Hc.
Qed.

Definition plain_audiences (c : Catalog) : bool :=
  forallb (fun i => forallb (fun a => plain_text (audience a)) (i_audiences i)) (identity c).
Lemma for_cluster_readable c cl : catalog_wf c -> plain_audiences c = true -> Forall readable (for_cluster c cl).
Proof.
  intros Hwf Hp. apply Forall_forall. intros i [Hi _]%(elem_for_cluster_lookup c cl i Hwf).
  pose proof (identities_wf _ Hwf) as Hid. rewrite Forall_forall in Hid. destruct (Hid i Hi) as [_ Hn Hs _ _ _ Ha].
  unfold plain_audiences in Hp. rewrite forallb_forall in Hp. apply list_elem_of_In in Hi. specialize (Hp i Hi). rewrite forallb_forall in Hp.
  split; [done|done| |].
  - eapply Forall_impl; [exact Ha|]. by intros a [_ _ _ ?].
  - apply Forall_forall. intros a Hin. by apply Hp, list_elem_of_In.
Qed.

(** C38: The broker and Vault agree on the catalog: read back from the text of the
    policy rendered for the broker's cluster, an audience is granted on an
    identity's role exactly when the broker's own lookup approves it for that
    identity (rule T3), and no other role is granted anything - for names and
    mounts without line breaks and audiences of printable ASCII without quotes
    and backslashes. *)
Theorem policy_grants_agree (fmt_debug : string -> string) (c : Catalog) (cl pki_mount pki_role spiffe_mount : string) :
  (forall s, plain_text s = true -> fmt_debug s = quoted s) ->
  validate c = Ok tt -> plain_audiences c = true ->
  one_line cl = true -> one_line pki_mount = true -> one_line pki_role = true -> one_line spiffe_mount = true ->
  let grants := policy_grants (trim_char "/" spiffe_mount) (render_policy fmt_debug c cl pki_mount pki_role spiffe_mount) in
  (forall ns sa aud, is_name ns = true ->
     (role_name cl ns sa, aud) ∈ grants <-> exists i, lookup c cl ns sa = Some i /\ is_Some (find_audience i aud)) /\
  (forall role aud, (role, aud) ∈ grants ->
     exists ns sa i, role = role_name cl ns sa /\ is_name ns = true /\ lookup c cl ns sa = Some i).
Proof.
  intros Hd Hwf%validate_wf Hp Hc H1 H2 H3. cbn zeta. rewrite rendered_grants by (try done; by apply for_cluster_readable).
  pose proof (fun i => elem_for_cluster_lookup c cl i Hwf) as Hfc.
  pose proof (identities_wf _ Hwf) as Hid. rewrite Forall_forall in Hid.
  assert (Hin : forall role aud, (role, aud) ∈ mjoin (grants_of cl <$> for_cluster c cl) <->
    exists i a, i ∈ for_cluster c cl /\ a ∈ i_audiences i /\ role = role_name cl (i_namespace i) (i_service_account i) /\ aud = audience a).
  { intros role aud. rewrite list_elem_of_join. split.
    - intros (l & Hl & (i & -> & Hi)%list_elem_of_fmap). unfold grants_of in Hl. apply list_elem_of_fmap in Hl as (a & [= -> ->] & Ha). by exists i, a.
    - intros (i & a & Hi & Ha & -> & ->). exists (grants_of cl i). split; [|by apply list_elem_of_fmap_2].
      apply list_elem_of_fmap. by exists a. }
  split.
  - intros ns sa aud Hns. rewrite Hin. split.
    + intros (i & a & [Hi Hl]%Hfc & Ha & Hr & ->). apply role_name_inj_cluster in Hr as [-> ->]; [|done|by apply namespace_name, Hid].
      exists i. split; [done|]. apply find_audience_is_Some. eauto.
    + intros (i & Hl & [a [Ha Haud]%find_audience_Some]). pose proof Hl as Hl'. unfold lookup in Hl'.
      destruct (lookup_at c cl ns sa) as [[j k]|] eqn:E; [|done]. injection Hl' as ->.
      apply lookup_at_Some in E as (Hj & <- & <- & _). exists i, a. split; [|by subst aud].
      apply Hfc. split; [by eapply list_elem_of_lookup_2|done].
  - intros role aud (i & a & [Hi Hl]%Hfc & _ & -> & _)%Hin. exists (i_namespace i), (i_service_account i), i.
    split; [done|]. split; [|done]. by apply namespace_name, Hid.
Qed.

(** ** Agreement with the SPIFFE ID template *)

Lemma replace_skip from to a b :
  starts_with "{" from = true -> has_char "{" a = false ->
  replace from to (a +:+ b) = a +:+ replace from to b.
Proof.
  intros Hf. unfold replace.
  assert (forall c s, Ascii.eqb "{" c = false -> starts_with from (String c s) = false) as Hmiss.
  { apply starts_with_true in Hf as [f ->]. intros c s Hc.
    unfold starts_with. cbn [String.append strip_prefix]. by rewrite Hc. }
  induction a as [|c a IH]; [done|].
  rewrite has_char_cons, orb_false_iff. intros [Hc Ha].
  cbn [String.append replace_go]. by rewrite Hmiss, IH.
Qed.

Lemma replace_go_skip from to k b :
  replace_go from to (String.length k) (k +:+ b) = replace_go from to 0 b.
Proof. induction k as [|c k IH]; simpl; [by destruct b|done]. Qed.

Lemma replace_hit from to b :
  from <> "" -> replace from to (from +:+ b) = to +:+ replace from to b.
Proof.
  unfold replace. destruct from as [|c f] eqn:E; [done|]. intros _.
  cbn [String.append replace_go].
  pose proof (starts_with_app from b) as H. rewrite E in H. cbn [String.append] in H.
  rewrite H. f_equal. simpl Nat.pred. apply replace_go_skip.
Qed.

Lemma replace_end from to a :
  starts_with "{" from = true -> has_char "{" a = false -> replace from to a = a.
Proof.
  intros H Ha. rewrite <- (sapp_nil_r a) at 1. rewrite replace_skip by done.
  apply sapp_nil_r.
Qed.

Lemma subject_path_default c cl ns sa :
  path_template c = DEFAULT_PATH_TEMPLATE ->
  has_char "{" cl = false -> has_char "{" ns = false ->
  subject_path c cl ns sa = "/cluster/" +:+ cl +:+ "/ns/" +:+ ns +:+ "/sa/" +:+ sa.
Proof.
  intros Hp Hcl Hns. unfold subject_path. rewrite Hp.
  change DEFAULT_PATH_TEMPLATE with
    ("/cluster/" +:+ "{cluster}" +:+ "/ns/" +:+ "{namespace}" +:+ "/sa/" +:+ "{service_account}").
  rewrite (replace_skip "{cluster}" cl "/cluster/") by done.
  rewrite (replace_hit "{cluster}") by done.
  change (replace "{cluster}" cl ("/ns/" +:+ "{namespace}" +:+ "/sa/" +:+ "{service_account}"))
    with ("/ns/" +:+ "{namespace}" +:+ "/sa/" +:+ "{service_account}").
  rewrite (replace_skip "{namespace}" ns "/cluster/") by done.
  rewrite (replace_skip "{namespace}" ns cl) by done.
  rewrite (replace_skip "{namespace}" ns "/ns/") by done.
  rewrite (replace_hit "{namespace}") by done.
  change (replace "{namespace}" ns ("/sa/" +:+ "{service_account}"))
    with ("/sa/" +:+ "{service_account}").
  rewrite (replace_skip "{service_account}" sa "/cluster/") by done.
  rewrite (replace_skip "{service_account}" sa cl) by done.
  rewrite (replace_skip "{service_account}" sa "/ns/") by done.
  rewrite (replace_skip "{service_account}" sa ns) by done.
  rewrite (replace_skip "{service_account}" sa "/sa/") by done.
  rewrite <- (sapp_nil_r "{service_account}") at 2.
  rewrite (replace_hit "{service_account}") by done.
  unfold replace. simpl replace_go. by rewrite sapp_nil_r.
Qed.

(** The subject Vault is told to mint for an identity is the SPIFFE ID the
    broker issues certificates for: with the default path template and the
    default ID template, the catalog's ID of an attested pod is the rendered
    ID. *)
Theorem catalog_id_is_rendered_id {R : RegexLite} (c : Catalog) (t : IdTemplate)
    (a : WorkloadAttributes) (id : SpiffeId) :
  path_template c = DEFAULT_PATH_TEMPLATE -> c_trust_domain c = trust_domain a ->
  compile DEFAULT_TEMPLATE = Ok t -> render t a = Ok id ->
  catalog_spiffe_id c (cluster a) (namespace a) (service_account a) = SpiffeId_as_str id.
Proof.
  intros Hp Htd [Hwf Hraw]%compile_wf (Hf & -> & _)%render_Ok.
  pose proof (wf_split _ Hwf) as Hs. rewrite Hraw, split_default in Hs.
  injection Hs as Hs. rewrite <- Hs in Hf |- *. simpl in Hf.
  rewrite !Forall_cons_iff in Hf. destruct Hf as (_ & Hcl & Hns & _).
  assert (forall v, segment v = true -> has_char "{" v = false) as Hseg.
  { intros v Hv. unfold segment in Hv. apply andb_true_iff in Hv as [_ Hv].
    by apply (all_chars_no_char segment_char). }
  unfold catalog_spiffe_id. rewrite Htd, subject_path_default by auto.
  simpl SpiffeId_as_str. simpl splice. by rewrite !sapp_nil_r.
Qed.

Module CatalogWitness.
Definition catalog : Catalog := {|
  schema := 1; c_trust_domain := "example.org"; path_template := DEFAULT_PATH_TEMPLATE;
  allowlist := false; registries := ["registry.corp.example/"];
  identity :=
    [mkIdentity "*" "payments" "api" None false [mkAudience "vault" "vault"];
     mkIdentity "a" "payments" "api" (Some "12h") true
       [mkAudience "aws" "sts.amazonaws.com"; mkAudience "vault" "vault"];
     mkIdentity "a" "batch" "runner" None false [mkAudience "vault" "vault"]] |}.

Lemma valid : validate catalog = Ok tt.
Proof. reflexivity. Qed.

Lemma catalog_id_is_rendered_id_witness :
  catalog_spiffe_id catalog "a" "payments" "api" =
  "spiffe://example.org/cluster/a/ns/payments/sa/api".
Proof.
  refine (catalog_id_is_rendered_id (R := MiniRegex.engine) catalog
            TemplateWitness.default TemplateWitness.attrs TemplateWitness.id _ _ _ _).
  - reflexivity.
  - reflexivity.
  - exact TemplateWitness.compile_default.
  - exact TemplateWitness.render_default.
Defined.

Lemma for_cluster_spec_witness :
  Sorted key_le (for_cluster catalog "a") /\
  forall i, i ∈ for_cluster catalog "a" <->
    i ∈ identity catalog /\
    lookup catalog "a" (i_namespace i) (i_service_account i) = Some i.
Proof. exact (for_cluster_spec catalog "a" eq_refl). Defined.

Lemma validated_identities_witness :
  find_audience (mkIdentity "a" "batch" "runner" None false [mkAudience "vault" "vault"])
    "vault" = Some (mkAudience "vault" "vault").
Proof.
  assert (mkIdentity "a" "batch" "runner" None false [mkAudience "vault" "vault"]
            ∈ identity catalog) as Hin by (do 2 apply list_elem_of_further; apply list_elem_of_here).
  destruct (validated_identities catalog _ eq_refl Hin) as (_ & _ & _ & H).
  apply (H (mkAudience "vault" "vault")). apply list_elem_of_here.
Defined.

Example policy_read :
  policy_grants "spiffe" (render_policy quoted catalog "a" "pki_int" "spiffe-a" "/spiffe/") =
    [("a__batch__runner", "vault"); ("a__payments__api", "sts.amazonaws.com"); ("a__payments__api", "vault")].
Proof. vm_compute. reflexivity. Qed.

Lemma policy_grants_agree_witness :
  ("a__payments__api", "sts.amazonaws.com") ∈ policy_grants (trim_char "/" "/spiffe/") (render_policy quoted catalog "a" "pki_int" "spiffe-a" "/spiffe/") /\
  ("a__batch__runner", "sts.amazonaws.com") ∉ policy_grants (trim_char "/" "/spiffe/") (render_policy quoted catalog "a" "pki_int" "spiffe-a" "/spiffe/").
Proof.
  destruct (policy_grants_agree quoted catalog "a" "pki_int" "spiffe-a" "/spiffe/" (fun s _ => eq_refl) eq_refl eq_refl eq_refl eq_refl eq_refl eq_refl)
    as [H _]. split.
  - apply (H "payments" "api" "sts.amazonaws.com" eq_refl). eexists. split; [reflexivity|]. eexists. reflexivity.
  - intros (i & Hl & [a Ha])%(H "batch" "runner" "sts.amazonaws.com" eq_refl). vm_compute in Hl. injection Hl as <-. vm_compute in Ha. discriminate Ha.
Defined.
End CatalogWitness.

(** ** The [svidlet-catalog] command  (svidlet-broker/src/bin/svidlet-catalog.rs)

    Its exit code and what it prints on standard output; [load] is the catalog
    at a path, read and validated. *)

Module Cli.
Definition USAGE_ERROR : Z := 2.

Definition arg (args : list string) (n : nat) (d : string) : string := default d (args !! n).

Definition main (load : string -> result Error Catalog) (fmt_debug json_sub : string -> string) (args : list string) : Z * string :=
  match args with
  | cmd :: path :: _ =>
      match load path with
      | Err _ => (1, "")
      | Ok catalog =>
          if String.eqb cmd "lint" then (0, "ok: " +:+ pretty (length (identity catalog)) +:+ " identities" +:+ nl)
          else match args !! 2%nat with
               | Some c =>
                   if String.eqb cmd "policy" then
                     (0, render_policy fmt_debug catalog c (arg args 3 "pki_int") ("spiffe-" +:+ c) (arg args 4 "spiffe"))
                   else if String.eqb cmd "roles" then (0, render_roles json_sub catalog c (arg args 3 "spiffe"))
                   else (USAGE_ERROR, "")
               | None => (USAGE_ERROR, "")
               end
      end
  | _ => (USAGE_ERROR, "")
  end%Z.

(** A pipeline that writes what the command prints and checks its exit code
    never installs anything from a catalog that does not validate, nor from a
    command it does not know: output comes with success, and success only from
    a catalog that loads. *)
Lemma cli_output load fmt_debug json_sub args :
  let '(code, out) := main load fmt_debug json_sub args in
  (code = 0%Z -> exists cmd path rest c, args = cmd :: path :: rest /\ load path = Ok c) /\ (code <> 0%Z -> out = "").
Proof.
  unfold main. destruct args as [|cmd [|path rest]]; [by split..|]. destruct (load path) as [c|] eqn:E; [|by split].
  repeat case_match; simplify_eq; (split; [intros Hcode; first [discriminate Hcode|exists cmd, path, rest, c; done]|intros Hcode; first [done|by destruct Hcode]]).
Qed.
End Cli.
