(* ===== verification/Limit.v ===== *)
(** * Rate limits  (svidlet-broker/src/limit.rs)

    [Window] is the sliding-window counter of I10 and T7, [Distinct] the cap
    on distinct identities per node.  Both keep a map behind a mutex; each
    method below is one critical section, except [Window_allow], which takes
    the lock twice.

    Times are unix seconds.  Differences of such times are far from the ends
    of [i64], so they are plain integers here; the casts of lengths to [u32]
    are written out. *)

From S2P Require Import Prelude RustStr.
Open Scope list_scope.
Open Scope Z_scope.

(** ** The sliding window *)

Record Window := mkWindow {
  limit : Z;
  window : Z;
  events : gmap string (list Z);
}.

Definition Window_new (limit window_secs : Z) : Window := mkWindow limit window_secs ∅.

Definition as_u32 (n : nat) : Z := wrap 32 (Z.of_nat n).

(** [while q.front() <= bound { q.pop_front() }]. *)
Fixpoint drop_expired (bound : Z) (q : list Z) : list Z :=
  match q with
  | t :: q' => if t <=? bound then drop_expired bound q' else q
  | [] => []
  end.

Definition Window_check (w : Window) (key : string) (now : Z) : bool * Window :=
  if limit w =? 0 then (true, w)
  else match events w !! key with
       | None => (true, w)
       | Some q =>
           let q := drop_expired (now - window w) q in
           (as_u32 (length q) <? limit w, mkWindow (limit w) (window w) (<[key := q]> (events w)))
       end.

Definition Window_record (w : Window) (key : string) (now : Z) : Window :=
  if limit w =? 0 then w
  else mkWindow (limit w) (window w)
         (<[key := default [] (events w !! key) ++ [now]]> (events w)).

Definition Window_allow (w : Window) (key : string) (now : Z) : bool * Window :=
  match Window_check w key now with
  | (false, w) => (false, w)
  | (true, w) => (true, Window_record w key now)
  end.

(** [q.back().is_some_and(|&t| t > bound)]. *)
Definition back_after (bound : Z) (q : list Z) : bool :=
  match last q with Some t => bound <? t | None => false end.

Definition Window_sweep (w : Window) (now : Z) : Window :=
  mkWindow (limit w) (window w)
    (filter (fun p => back_after (now - window w) p.2 = true) (events w)).

(** ** Distinct identities *)

Record Distinct := mkDistinct {
  d_limit : Z;
  d_window : Z;
  seen : gmap string (Z * gset string);
}.

Definition Distinct_new (limit window_secs : Z) : Distinct := mkDistinct limit window_secs ∅.

Definition Distinct_allow (d : Distinct) (node identity : string) (now : Z) : bool * Distinct :=
  if d_limit d =? 0 then (true, d)
  else
    let '(start, ids) := default (now, ∅) (seen d !! node) in
    let '(start, ids) := if now - start >=? d_window d then (now, ∅) else (start, ids) in
    let put ids := mkDistinct (d_limit d) (d_window d) (<[node := (start, ids)]> (seen d)) in
    if bool_decide (identity ∈ ids) then (true, put ids)
    else if as_u32 (size ids) >=? d_limit d then (false, put ids)
    else (true, put ({[identity]} ∪ ids)).

Definition Distinct_sweep (d : Distinct) (now : Z) : Distinct :=
  mkDistinct (d_limit d) (d_window d)
    (filter (fun p => now - p.2.1 < d_window d) (seen d)).

(** ** The specification of a sliding window

    Forget the queues: keep every recorded event.  An event at [now] fits when
    fewer than [limit] events of its key lie in [(now - window, now]]. *)

Module WindowSpec.
Definition history := string -> list Z.

Definition recent (win now : Z) (ts : list Z) : list Z :=
  List.filter (fun t => now - win <? t) ts.

Definition fits (lim win : Z) (h : history) (key : string) (now : Z) : bool :=
  (lim =? 0) || (as_u32 (length (recent win now (h key))) <? lim).

Definition record (lim : Z) (h : history) (key : string) (now : Z) : history :=
  if lim =? 0 then h else fun k => if decide (k = key) then h k ++ [now] else h k.
End WindowSpec.

(** The operations a client can perform, in the order they take the lock. *)
Inductive window_op :=
| OpCheck (key : string) (now : Z)
| OpRecord (key : string) (now : Z)
| OpAllow (key : string) (now : Z)
| OpSweep (now : Z).

Definition op_time (o : window_op) : Z :=
  match o with OpCheck _ t | OpRecord _ t | OpAllow _ t | OpSweep t => t end.

Definition window_step (w : Window) (o : window_op) : bool * Window :=
  match o with
  | OpCheck k t => Window_check w k t
  | OpRecord k t => (true, Window_record w k t)
  | OpAllow k t => Window_allow w k t
  | OpSweep t => (true, Window_sweep w t)
  end.

Definition spec_step (lim win : Z) (h : WindowSpec.history) (o : window_op)
    : bool * WindowSpec.history :=
  match o with
  | OpCheck k t => (WindowSpec.fits lim win h k t, h)
  | OpRecord k t => (true, WindowSpec.record lim h k t)
  | OpAllow k t =>
      if WindowSpec.fits lim win h k t then (true, WindowSpec.record lim h k t) else (false, h)
  | OpSweep _ => (true, h)
  end.

Fixpoint window_run (w : Window) (ops : list window_op) : list bool * Window :=
  match ops with
  | [] => ([], w)
  | o :: ops => let '(b, w) := window_step w o in
                let '(bs, w) := window_run w ops in (b :: bs, w)
  end.

Fixpoint spec_run (lim win : Z) (h : WindowSpec.history) (ops : list window_op)
    : list bool * WindowSpec.history :=
  match ops with
  | [] => ([], h)
  | o :: ops => let '(b, h) := spec_step lim win h o in
                let '(bs, h) := spec_run lim win h ops in (b :: bs, h)
  end.

(** The clock does not go backwards. *)
Fixpoint monotone_from (now : Z) (ops : list window_op) : Prop :=
  match ops with
  | [] => True
  | o :: ops => now <= op_time o /\ monotone_from (op_time o) ops
  end.

(** ** Queues and histories *)

Definition nondecreasing : list Z -> Prop := Sorted Z.le.

(** The queue [q] holds all of [h] but events that expired by [now]. *)
Definition queue_of (win now : Z) (h q : list Z) : Prop :=
  exists old, h = old ++ q /\ Forall (fun t => t <= now - win) old.

Record window_rel (now : Z) (w : Window) (h : WindowSpec.history) : Prop := {
  rel_limit : 0 <= limit w;
  rel_queue : forall k, queue_of (window w) now (h k) (default [] (events w !! k));
  rel_sorted : forall k, StronglySorted Z.le (h k);
  rel_past : forall k, Forall (fun t => t <= now) (h k);
}.

Lemma recent_app win now a b :
  WindowSpec.recent win now (a ++ b) = WindowSpec.recent win now a ++ WindowSpec.recent win now b.
Proof. apply List.filter_app. Qed.

Lemma recent_old win now l :
  Forall (fun t => t <= now - win) l -> WindowSpec.recent win now l = [].
Proof.
  induction 1 as [|t l Ht Hl IH]; simpl; [done|].
  destruct (Z.ltb_spec (now - win) t); [lia|done].
Qed.

Lemma recent_all win now l :
  Forall (fun t => now - win < t) l -> WindowSpec.recent win now l = l.
Proof.
  induction 1 as [|t l Ht Hl IH]; simpl; [done|].
  destruct (Z.ltb_spec (now - win) t); [by rewrite IH|lia].
Qed.

Lemma drop_expired_spec bound q :
  StronglySorted Z.le q ->
  exists old, q = old ++ drop_expired bound q /\ Forall (fun t => t <= bound) old /\
    Forall (fun t => bound < t) (drop_expired bound q).
Proof.
  induction 1 as [|t q Hs IH Hf]; simpl; [by exists []|].
  destruct (Z.leb_spec t bound).
  - destruct IH as (old & Hq & Ho & Hn). exists (t :: old). simpl. split_and!; auto.
    by rewrite <- Hq.
  - exists []. split_and!; auto. constructor; [done|].
    eapply Forall_impl; [exact Hf|]. simpl. lia.
Qed.

Lemma StronglySorted_app_r {A} (R : relation A) (a b : list A) :
  StronglySorted R (a ++ b) -> StronglySorted R b.
Proof. induction a; simpl; [done|]. by inversion 1; subst; auto. Qed.

Lemma StronglySorted_snoc (l : list Z) (t : Z) :
  StronglySorted Z.le l -> Forall (fun x => x <= t) l -> StronglySorted Z.le (l ++ [t]).
Proof.
  induction 1 as [|x l Hs IH Hf]; simpl; intros H; [by repeat constructor|].
  apply Forall_cons_iff in H as [Hx H]. constructor; [auto|].
  apply Forall_app. split; [done|by constructor].
Qed.

(** ** Each operation refines its specification *)

Lemma window_rel_mono now now' w h :
  now <= now' -> window_rel now w h -> window_rel now' w h.
Proof.
  intros Hle [Hl Hq Hs Hp]. constructor; [done| |done|].
  - intros k. destruct (Hq k) as (old & -> & Ho). exists old. split; [done|].
    eapply Forall_impl; [exact Ho|]. simpl. lia.
  - intros k. eapply Forall_impl; [apply (Hp k)|]. simpl. lia.
Qed.

Lemma window_check_refines w h k now :
  window_rel now w h ->
  let '(b, w') := Window_check w k now in
  b = WindowSpec.fits (limit w) (window w) h k now /\
  window_rel now w' h /\ limit w' = limit w /\ window w' = window w.
Proof.
  intros Hr. unfold Window_check, WindowSpec.fits.
  destruct (limit w =? 0) eqn:E0; [done|].
  pose proof (rel_queue _ _ _ Hr k) as (old & Hh & Ho).
  destruct (events w !! k) as [q|] eqn:Eq; simpl in Hh.
  - assert (StronglySorted Z.le q) as Hsq.
    { pose proof (rel_sorted _ _ _ Hr k) as Hs. rewrite Hh in Hs.
      by apply StronglySorted_app_r in Hs. }
    destruct (drop_expired_spec (now - window w) q Hsq) as (old' & Hq & Ho' & Hn).
    split_and!; try done.
    + rewrite Hh, recent_app, (recent_old _ _ old) by done. rewrite Hq at 2.
      by rewrite recent_app, (recent_old _ _ old'), (recent_all _ _ (drop_expired _ q)).
    + constructor; simpl; [apply Hr| |apply Hr..]. intros k'. destruct (decide (k' = k)) as [->|].
      * rewrite lookup_insert_eq. simpl. exists (old ++ old'). rewrite <- app_assoc, <- Hq.
        split; [done|]. by apply Forall_app.
      * rewrite lookup_insert_ne by done. apply Hr.
  - split_and!; try done. rewrite Hh, app_nil_r, recent_old by done.
    pose proof (rel_limit _ _ _ Hr). apply Z.eqb_neq in E0.
    symmetry. apply Z.ltb_lt. unfold as_u32. rewrite wrap_small by (simpl; lia). simpl. lia.
Qed.

Lemma window_record_refines w h k now :
  window_rel now w h ->
  window_rel now (Window_record w k now) (WindowSpec.record (limit w) h k now).
Proof.
  intros Hr. unfold Window_record, WindowSpec.record.
  destruct (limit w =? 0); [done|]. constructor; simpl; [apply Hr|..]; intros k'.
  - destruct (decide (k' = k)) as [->|]; [|rewrite lookup_insert_ne by done; apply Hr].
    rewrite lookup_insert_eq. simpl. destruct (rel_queue _ _ _ Hr k) as (old & -> & Ho).
    exists old. by rewrite app_assoc.
  - destruct (decide (k' = k)) as [->|]; [|apply Hr].
    apply StronglySorted_snoc; apply Hr.
  - destruct (decide (k' = k)) as [->|]; [|apply Hr].
    apply Forall_app. split; [apply Hr|]. by constructor.
Qed.

Lemma back_after_false_old q bound :
  StronglySorted Z.le q -> back_after bound q = false -> Forall (fun t => t <= bound) q.
Proof.
  unfold back_after. intros Hs. destruct (last q) as [t|] eqn:E.
  - intros Ht%Z.ltb_ge. apply last_Some in E as [q' ->].
    clear -Hs Ht. induction q' as [|x q' IH]; simpl in *; [by repeat constructor|].
    inversion Hs as [|? ? Hs' Hf]; subst. constructor; [|auto].
    apply Forall_app in Hf as [_ Hf]. inversion Hf; subst. lia.
  - intros _. apply last_None in E as ->. constructor.
Qed.

Lemma window_sweep_refines w h now :
  window_rel now w h -> window_rel now (Window_sweep w now) h.
Proof.
  intros Hr. constructor; simpl; [apply Hr| |apply Hr..]. intros k.
  pose proof (rel_queue _ _ _ Hr k) as Hq. rewrite map_lookup_filter.
  destruct (events w !! k) as [q|] eqn:E; simpl in *; [|done].
  case_guard as Hg; simpl; [done|].
  destruct Hq as (old & Hh & Ho). exists (old ++ q). rewrite app_nil_r. split; [done|].
  apply Forall_app. split; [done|]. apply back_after_false_old.
  - pose proof (rel_sorted _ _ _ Hr k) as Hs. rewrite Hh in Hs. by apply StronglySorted_app_r in Hs.
  - by apply not_true_is_false.
Qed.

Lemma window_step_refines w h o now :
  window_rel now w h -> now <= op_time o ->
  let '(b, w') := window_step w o in
  let '(b', h') := spec_step (limit w) (window w) h o in
  b = b' /\ window_rel (op_time o) w' h' /\ limit w' = limit w /\ window w' = window w.
Proof.
  intros Hr Hle. apply (window_rel_mono _ (op_time o)) in Hr; [|done].
  destruct o as [k t|k t|k t|t]; simpl in *.
  - pose proof (window_check_refines w h k t Hr) as H.
    destruct (Window_check w k t). naive_solver.
  - split_and!; [done|by apply window_record_refines|..];
      unfold Window_record; by case_match.
  - pose proof (window_check_refines w h k t Hr) as H. unfold Window_allow.
    destruct (Window_check w k t) as [b w']. destruct H as (Hb & Hr' & Hl & Hw).
    rewrite <- Hb. destruct b; [|done]. rewrite <- Hl.
    split_and!; [done|by apply window_record_refines|..];
      unfold Window_record; by case_match.
  - split_and!; try done. by apply window_sweep_refines.
Qed.

Lemma window_run_refines ops now w h :
  window_rel now w h -> monotone_from now ops ->
  fst (window_run w ops) = fst (spec_run (limit w) (window w) h ops).
Proof.
  revert now w h. induction ops as [|o ops IH]; intros now w h Hr Hm; simpl; [done|].
  destruct Hm as [Hle Hm]. pose proof (window_step_refines w h o now Hr Hle) as H.
  destruct (window_step w o) as [b w'], (spec_step (limit w) (window w) h o) as [b' h'].
  destruct H as (-> & Hr' & Hl & Hw). specialize (IH _ _ _ Hr' Hm). rewrite Hl, Hw in IH.
  destruct (window_run w' ops), (spec_run _ _ h' ops). simpl in *. by rewrite IH.
Qed.

Lemma window_rel_new lim win now :
  0 <= lim -> window_rel now (Window_new lim win) (fun _ => []).
Proof.
  intros. constructor; simpl; [done|..]; intros k; [|constructor..].
  rewrite lookup_empty. by exists [].
Qed.

(** C35: The sliding window is exact: under a clock that does not go backwards,
    every decision of a fresh [Window], with any interleaving of checks,
    records, allows and sweeps on any keys, is the decision of the
    specification that remembers every event.  In particular neither dropping
    expired events nor sweeping idle keys can be observed. *)
Theorem window_refines_spec (lim win now : Z) (ops : list window_op) :
  0 <= lim -> monotone_from now ops ->
  fst (window_run (Window_new lim win) ops) = fst (spec_run lim win (fun _ => []) ops).
Proof.
  intros Hl Hm. apply (window_run_refines ops now (Window_new lim win)); [|done].
  by apply window_rel_new.
Qed.

Lemma window_refines_spec_witness :
  fst (window_run (Window_new 2 60)
    [OpAllow "n" 0; OpAllow "n" 10; OpAllow "n" 20; OpSweep 30; OpAllow "n" 60]) =
  fst (spec_run 2 60 (fun _ => [])
    [OpAllow "n" 0; OpAllow "n" 10; OpAllow "n" 20; OpSweep 30; OpAllow "n" 60]).
Proof. apply (window_refines_spec 2 60 0); simpl; lia. Defined.

(** ** The limit holds when events are recorded through [allow] *)

(** The events of a history inside [(T - win, T]]. *)
Definition in_window (win T : Z) (ts : list Z) : list Z :=
  List.filter (fun t => (T - win <? t) && (t <=? T)) ts.

Definition respects (lim win : Z) (h : WindowSpec.history) : Prop :=
  forall k T, Z.of_nat (length (in_window win T (h k))) <= lim.

Definition no_bare_record (ops : list window_op) : Prop :=
  Forall (fun o => match o with OpRecord _ _ => False | _ => True end) ops.

Lemma in_window_app win T a b : in_window win T (a ++ b) = in_window win T a ++ in_window win T b.
Proof. apply List.filter_app. Qed.

Lemma in_window_now win now ts :
  Forall (fun t => t <= now) ts -> in_window win now ts = WindowSpec.recent win now ts.
Proof.
  induction 1 as [|t ts Ht Hts IH]; simpl; [done|]. rewrite IH.
  destruct (Z.leb_spec t now); [|lia]. by rewrite andb_true_r.
Qed.

Lemma in_window_later win now T ts :
  now <= T -> Forall (fun t => t <= now) ts ->
  (length (in_window win T ts) <= length (WindowSpec.recent win now ts))%nat.
Proof.
  intros HT. induction 1 as [|t ts Ht Hts IH]; simpl; [lia|].
  destruct (Z.ltb_spec (T - win) t), (Z.ltb_spec (now - win) t), (Z.leb_spec t T);
    simpl; lia.
Qed.

Lemma spec_allow_respects lim win h k now :
  0 < lim < 2 ^ 32 -> respects lim win h ->
  (forall k, Forall (fun t => t <= now) (h k)) ->
  WindowSpec.fits lim win h k now = true ->
  respects lim win (WindowSpec.record lim h k now).
Proof.
  intros Hl Hr Hp Hf k' T. unfold WindowSpec.record, WindowSpec.fits in *.
  destruct (Z.eqb_spec lim 0); [lia|]. simpl in Hf.
  destruct (decide (k' = k)) as [->|]; [|apply Hr].
  rewrite in_window_app, length_app, Nat2Z.inj_add. unfold in_window at 2. simpl.
  destruct (Z.ltb_spec (T - win) now), (Z.leb_spec now T); simpl;
    try (specialize (Hr k T); lia).
  pose proof (Hr k now) as Hn. rewrite (in_window_now win now (h k)) in Hn by done.
  apply Z.ltb_lt in Hf. unfold as_u32 in Hf. rewrite wrap_small in Hf by lia.
  pose proof (in_window_later win now T (h k) ltac:(done) (Hp k)). lia.
Qed.

Lemma spec_step_respects lim win h o now :
  0 < lim < 2 ^ 32 -> respects lim win h ->
  (forall k, Forall (fun t => t <= now) (h k)) -> now <= op_time o ->
  match o with OpRecord _ _ => False | _ => True end ->
  respects lim win (snd (spec_step lim win h o)) /\
  (forall k, Forall (fun t => t <= op_time o) (snd (spec_step lim win h o) k)).
Proof.
  intros Hl Hr Hp Hle Ho.
  assert (forall k, Forall (fun t => t <= op_time o) (h k)) as Hp'.
  { intros k. eapply Forall_impl; [apply (Hp k)|]. simpl. lia. }
  destruct o as [k t|k t|k t|t]; simpl in *; try done.
  destruct (WindowSpec.fits lim win h k t) eqn:Hf; simpl; [|done].
  split; [by apply spec_allow_respects|]. intros k'. unfold WindowSpec.record.
  destruct (lim =? 0); [apply Hp'|]. case_decide; [|apply Hp'].
  apply Forall_app. split; [apply Hp'|by constructor].
Qed.

Lemma spec_run_respects lim win now ops h :
  0 < lim < 2 ^ 32 -> monotone_from now ops -> no_bare_record ops ->
  respects lim win h -> (forall k, Forall (fun t => t <= now) (h k)) ->
  respects lim win (snd (spec_run lim win h ops)).
Proof.
  intros Hl. revert now h. induction ops as [|o ops IH]; intros now h Hm Hn Hr Hp; [done|].
  destruct Hm as [Hle Hm]. apply Forall_cons_iff in Hn as [Ho Hn].
  pose proof (spec_step_respects lim win h o now Hl Hr Hp Hle Ho) as [Hr' Hp'].
  simpl. destruct (spec_step lim win h o) as [b h']. simpl in *.
  specialize (IH _ h' Hm Hn Hr' Hp'). by destruct (spec_run lim win h' ops).
Qed.

(** The times at which [allow] on [k] answered yes. *)
Fixpoint accepted (k : string) (ops : list window_op) (bs : list bool) : list Z :=
  match ops, bs with
  | OpAllow k' t :: ops, true :: bs =>
      if decide (k' = k) then t :: accepted k ops bs else accepted k ops bs
  | _ :: ops, _ :: bs => accepted k ops bs
  | _, _ => []
  end.

Lemma spec_run_accepted lim win ops h k :
  lim <> 0 -> no_bare_record ops ->
  snd (spec_run lim win h ops) k = h k ++ accepted k ops (fst (spec_run lim win h ops)).
Proof.
  intros Hl%Z.eqb_neq. revert h. induction ops as [|o ops IH]; intros h Hn; simpl.
  { by rewrite app_nil_r. }
  apply Forall_cons_iff in Hn as [Ho Hn].
  destruct o as [k' t|k' t|k' t|t]; try done; simpl;
    try (specialize (IH h Hn); by destruct (spec_run lim win h ops)).
  destruct (WindowSpec.fits lim win h k' t); simpl;
    [|specialize (IH h Hn); by destruct (spec_run lim win h ops)].
  specialize (IH (WindowSpec.record lim h k' t) Hn).
  destruct (spec_run lim win (WindowSpec.record lim h k' t) ops). simpl in *.
  rewrite IH. unfold WindowSpec.record. rewrite Hl.
  destruct (decide (k = k')), (decide (k' = k)); try congruence; by rewrite <- app_assoc.
Qed.

Lemma window_run_app w a b :
  window_run w (a ++ b) =
  let '(bs, w') := window_run w a in
  let '(cs, w'') := window_run w' b in (bs ++ cs, w'').
Proof.
  revert w. induction a as [|o a IH]; intros w; simpl.
  { by destruct (window_run w b). }
  destruct (window_step w o) as [b0 w1]. rewrite IH.
  destruct (window_run w1 a) as [bs w']. by destruct (window_run w' b).
Qed.

Lemma window_run_length w ops : length (fst (window_run w ops)) = length ops.
Proof.
  revert w. induction ops as [|o ops IH]; intros w; simpl; [done|].
  destruct (window_step w o) as [b w']. specialize (IH w').
  destruct (window_run w' ops). simpl in *. by f_equal.
Qed.

Lemma accepted_app k a b bs cs :
  length a = length bs -> accepted k (a ++ b) (bs ++ cs) = accepted k a bs ++ accepted k b cs.
Proof.
  revert bs. induction a as [|o a IH]; intros [|c bs] Hl; try done. simpl in Hl.
  injection Hl as Hl. specialize (IH bs Hl).
  destruct o, c; simpl; try case_decide; by rewrite IH.
Qed.

Lemma window_run_limit lim win now ops k T :
  0 < lim < 2 ^ 32 -> monotone_from now ops -> no_bare_record ops ->
  Z.of_nat (length (in_window win T
    (accepted k ops (fst (window_run (Window_new lim win) ops))))) <= lim.
Proof.
  intros Hl Hm Hn.
  rewrite (window_run_refines ops now _ (fun _ => [])) by (done || apply window_rel_new; lia).
  simpl limit. simpl window.
  pose proof (spec_run_accepted lim win ops (fun _ => []) k ltac:(lia) Hn) as Ha.
  simpl in Ha. rewrite <- Ha. apply (spec_run_respects lim win now); try done.
  intros k' T'. unfold in_window. simpl. lia.
Qed.

(** at most [limit] events per key in any window of [window] seconds: for
    every sequence of checks, allows and sweeps under a monotone clock, the
    times at which the implementation allowed a key never number more than
    [limit] in any window. *)
Theorem window_limit_holds (lim win now : Z) (ops : list window_op) (k : string) (T : Z) :
  0 < lim < 2 ^ 32 -> monotone_from now ops -> no_bare_record ops ->
  Z.of_nat (length (in_window win T
    (accepted k ops (fst (window_run (Window_new lim win) ops))))) <= lim.
Proof. apply window_run_limit. Qed.

Lemma window_limit_holds_witness :
  Z.of_nat (length (in_window 60 60
    (accepted "n" [OpAllow "n" 0; OpAllow "n" 10; OpAllow "n" 20; OpAllow "n" 60]
      (fst (window_run (Window_new 2 60)
         [OpAllow "n" 0; OpAllow "n" 10; OpAllow "n" 20; OpAllow "n" 60]))))) <= 2.
Proof. apply (window_limit_holds 2 60 0); [lia|simpl; lia|repeat constructor]. Defined.

(** [Window::allow] takes the lock twice, so the limit is exact only when
    calls do not overlap: two calls whose checks both run before either records
    are both allowed, and a window with limit one then holds two events. *)
Theorem window_allow_race (win : Z) (k : string) (now : Z) :
  let ops := [OpCheck k now; OpCheck k now; OpRecord k now; OpRecord k now] in
  fst (window_run (Window_new 1 win) ops) = [true; true; true; true] /\
  events (snd (window_run (Window_new 1 win) ops)) !! k = Some [now; now].
Proof.
  simpl. unfold Window_check, Window_record; simpl. rewrite lookup_empty; simpl.
  rewrite !lookup_empty. simpl. split; [done|].
  by rewrite lookup_insert_eq, lookup_insert_eq.
Qed.

(** ** Distinct identities *)

(** [node] already obtained [id] in the window that is open at [now]. *)
Definition obtained (d : Distinct) (node id : string) (now : Z) : Prop :=
  exists start ids, seen d !! node = Some (start, ids) /\ id ∈ ids /\ now - start < d_window d.

Definition distinct_ok (d : Distinct) : Prop :=
  forall node start ids, seen d !! node = Some (start, ids) -> Z.of_nat (size ids) <= d_limit d.

Definition distinct_step (d : Distinct) (o : string * string * Z) : Distinct :=
  snd (Distinct_allow d o.1.1 o.1.2 o.2).

Lemma distinct_allow_params d n id now :
  d_limit (snd (Distinct_allow d n id now)) = d_limit d /\
  d_window (snd (Distinct_allow d n id now)) = d_window d.
Proof. unfold Distinct_allow. repeat case_match; done. Qed.

Lemma distinct_allow_other d n m id now :
  n <> m -> seen (snd (Distinct_allow d m id now)) !! n = seen d !! n.
Proof.
  intros. unfold Distinct_allow. repeat case_match; simpl; by rewrite ?lookup_insert_ne.
Qed.

Lemma obtained_preserved d n m id id' t now :
  t <= now -> d_limit d <> 0 -> obtained d n id now ->
  obtained (snd (Distinct_allow d m id' t)) n id now.
Proof.
  intros Ht Hl (start & ids & Hs & Hin & Hw).
  destruct (distinct_allow_params d m id' t) as [_ Hwin].
  destruct (decide (n = m)) as [<-|Hne].
  - unfold Distinct_allow, obtained. apply Z.eqb_neq in Hl. rewrite Hl, Hs. simpl.
    destruct (Z.geb_spec (t - start) (d_window d)); [lia|].
    repeat case_match; simpl; rewrite lookup_insert_eq; do 2 eexists; split_and!;
      try reflexivity; try lia; set_solver.
  - exists start, ids. rewrite Hwin, distinct_allow_other by done. done.
Qed.

Lemma obtained_allowed d n id now :
  obtained d n id now -> fst (Distinct_allow d n id now) = true.
Proof.
  intros (start & ids & Hs & Hin & Hw). unfold Distinct_allow.
  destruct (d_limit d =? 0); [done|]. rewrite Hs. simpl.
  destruct (Z.geb_spec (now - start) (d_window d)); [lia|].
  by rewrite bool_decide_eq_true_2.
Qed.

(** Renewals are never blocked by the cap: an identity a node already
    obtained is allowed again while its window is open, whatever the node and
    other nodes asked for in between. *)
Theorem distinct_renewal_allowed (d : Distinct) (n id : string) (now : Z)
    (ops : list (string * string * Z)) :
  d_limit d <> 0 -> obtained d n id now -> Forall (fun o => o.2 <= now) ops ->
  fst (Distinct_allow (foldl distinct_step d ops) n id now) = true.
Proof.
  intros Hl Ho Hops. revert d Hl Ho. induction Hops as [|o ops Ht Hops IH]; intros d Hl Ho; simpl.
  - by apply obtained_allowed.
  - unfold distinct_step at 2. apply IH.
    + by rewrite (proj1 (distinct_allow_params _ _ _ _)).
    + by apply obtained_preserved.
Qed.

Lemma distinct_renewal_allowed_witness :
  fst (Distinct_allow
    (foldl distinct_step
       (snd (Distinct_allow (Distinct_new 1 3600) "n1" "spiffe://a/x" 0))
       [("n1", "spiffe://a/y", 5); ("n2", "spiffe://a/z", 7)]) "n1" "spiffe://a/x" 9) = true.
Proof.
  apply distinct_renewal_allowed.
  - discriminate.
  - exists 0, {["spiffe://a/x"]}. vm_compute. split_and!; [reflexivity|reflexivity|reflexivity].
  - repeat constructor; simpl; lia.
Defined.

Definition distinct_put (lim : Z) (id : string) (ids : gset string) : gset string :=
  if bool_decide (id ∈ ids) then ids
  else if as_u32 (size ids) >=? lim then ids else {[id]} ∪ ids.

Lemma distinct_put_size lim id ids :
  0 < lim < 2 ^ 32 -> Z.of_nat (size ids) <= lim ->
  Z.of_nat (size (distinct_put lim id ids)) <= lim.
Proof.
  intros Hl Hs. unfold distinct_put. case_bool_decide as Hin; [done|].
  unfold as_u32. rewrite wrap_small by lia. destruct (Z.geb_spec (Z.of_nat (size ids)) lim); [done|].
  rewrite size_union by set_solver. rewrite size_singleton. lia.
Qed.

(** What a request leaves for its node: the open window's identities, or none
    when a window opens, with the new identity put in if it fits. *)
Lemma distinct_allow_entry d n id now :
  d_limit d <> 0 ->
  exists start ids, (ids = ∅ \/ exists s, seen d !! n = Some (s, ids)) /\
    seen (snd (Distinct_allow d n id now)) !! n = Some (start, distinct_put (d_limit d) id ids).
Proof.
  intros Hl%Z.eqb_neq. unfold Distinct_allow, distinct_put. rewrite Hl.
  destruct (default (now, ∅) (seen d !! n)) as [s0 i0] eqn:E.
  destruct (if now - s0 >=? d_window d then (now, ∅) else (s0, i0)) as [s1 i1] eqn:E1.
  exists s1, i1. split.
  - destruct (now - s0 >=? d_window d); injection E1 as <- <-; [by left|].
    destruct (seen d !! n) as [[]|]; simpl in E; injection E as <- <-; eauto.
  - destruct (bool_decide (id ∈ i1)), (as_u32 (size i1) >=? d_limit d); simpl;
      by rewrite lookup_insert_eq.
Qed.

Lemma distinct_allow_ok d n id now :
  0 < d_limit d < 2 ^ 32 -> distinct_ok d -> distinct_ok (snd (Distinct_allow d n id now)).
Proof.
  intros Hl Hok m start ids H.
  destruct (distinct_allow_params d n id now) as [Hlim _]. rewrite Hlim.
  destruct (decide (m = n)) as [->|Hne]; [|rewrite distinct_allow_other in H by done; by eapply Hok].
  destruct (distinct_allow_entry d n id now) as (s & i & Hi & Hs); [lia|].
  rewrite Hs in H. injection H as <- <-. apply distinct_put_size; [done|].
  destruct Hi as [->|[s' Hi]]; [rewrite size_empty; lia|by eapply Hok].
Qed.

(** A node never holds more than [limit] identities in one window, for any
    sequence of requests. *)
Theorem distinct_cap (lim win : Z) (ops : list (string * string * Z))
    (n : string) (start : Z) (ids : gset string) :
  0 < lim < 2 ^ 32 ->
  seen (foldl distinct_step (Distinct_new lim win) ops) !! n = Some (start, ids) ->
  Z.of_nat (size ids) <= lim.
Proof.
  intros Hl.
  assert (forall d, d_limit d = lim -> distinct_ok d ->
            d_limit (foldl distinct_step d ops) = lim /\ distinct_ok (foldl distinct_step d ops)) as Hgen.
  { induction ops as [|o ops IH]; intros d Hd Hok; simpl; [done|]. apply IH.
    - unfold distinct_step. by rewrite (proj1 (distinct_allow_params _ _ _ _)).
    - apply distinct_allow_ok; [by rewrite Hd|done]. }
  destruct (Hgen (Distinct_new lim win) eq_refl) as [Hd Hok].
  { intros m s i. unfold Distinct_new; simpl. by rewrite lookup_empty. }
  intros H. rewrite <- Hd. by eapply Hok.
Qed.

Lemma distinct_cap_witness : Z.of_nat (size ({["x"]} : gset string)) <= 1.
Proof.
  apply (distinct_cap 1 3600 [("n", "x", 0); ("n", "y", 1)] "n" 0); [lia|].
  vm_compute. reflexivity.
Defined.

(** sweeping is unobservable: a swept limiter answers every later request
    as the unswept one does. *)
Theorem distinct_sweep_unobservable (d : Distinct) (n id : string) (swept now : Z) :
  0 < d_window d -> swept <= now ->
  fst (Distinct_allow (Distinct_sweep d swept) n id now) = fst (Distinct_allow d n id now).
Proof.
  intros Hw Hle. unfold Distinct_allow, Distinct_sweep. simpl.
  destruct (d_limit d =? 0); [done|]. rewrite map_lookup_filter.
  destruct (seen d !! n) as [[s i]|] eqn:E; simpl; [|by repeat case_match].
  case_guard as Hg; simpl in *; [by repeat case_match|].
  destruct (Z.geb_spec (now - s) (d_window d)); [|lia].
  destruct (Z.geb_spec (now - now) (d_window d)); [lia|]. by repeat case_match.
Qed.

Lemma distinct_sweep_unobservable_witness :
  fst (Distinct_allow (Distinct_sweep
         (snd (Distinct_allow (Distinct_new 1 3600) "n" "x" 0)) 3600) "n" "y" 3600) =
  fst (Distinct_allow (snd (Distinct_allow (Distinct_new 1 3600) "n" "x" 0)) "n" "y" 3600).
Proof. apply distinct_sweep_unobservable; vm_compute; congruence. Defined.

(** The cap counts within windows that open at a node's first request, not
    over "the last hour": with a limit of two, three identities can be obtained
    within two seconds, across the end of a window. *)
Theorem distinct_window_is_not_sliding :
  let step := fun '(bs, d) '(id, t) =>
    let '(b, d) := Distinct_allow d "n" id t in (bs ++ [b], d) in
  fst (foldl step ([], Distinct_new 2 3600)
    [("a", 0); ("b", 3599); ("c", 3600); ("d", 3600)]) = [true; true; true; true].
Proof. vm_compute. reflexivity. Qed.

(** ** Refusals spend nothing *)

Lemma drop_expired_twice b b' q :
  b <= b' -> drop_expired b' (drop_expired b q) = drop_expired b' q.
Proof.
  intros Hb. induction q as [|t q IH]; simpl; [done|].
  destruct (Z.leb_spec t b); simpl; [|done]. by destruct (Z.leb_spec t b'); [|lia].
Qed.

(** A check only forgets what every later check would forget as well. *)
Lemma window_check_free w k k' now t :
  now <= t ->
  fst (Window_check (snd (Window_check w k now)) k' t) = fst (Window_check w k' t).
Proof.
  intros Ht. unfold Window_check at 2. destruct (limit w =? 0) eqn:Hl; simpl; [done|].
  destruct (events w !! k) as [q|] eqn:Hk; simpl; [|done].
  unfold Window_check. simpl. rewrite Hl.
  destruct (decide (k = k')) as [<-|Hne].
  - rewrite lookup_insert_eq, Hk. simpl. rewrite drop_expired_twice by lia. done.
  - rewrite lookup_insert_ne by done. by destruct (events w !! k').
Qed.

Lemma distinct_refused_free d n id now :
  0 <= d_limit d -> fst (Distinct_allow d n id now) = false -> snd (Distinct_allow d n id now) = d.
Proof.
  intros Hl. unfold Distinct_allow. destruct (Z.eqb_spec (d_limit d) 0) as [|Hne]; [done|].
  assert ((as_u32 (size (∅ : gset string)) >=? d_limit d) = false) as Hz.
  { rewrite size_empty. change (as_u32 0) with 0. lia. }
  destruct (seen d !! n) as [[start ids]|] eqn:Hn; cbn.
  - destruct (now - start >=? d_window d); case_bool_decide; try done.
    + by rewrite Hz.
    + destruct (as_u32 (size ids) >=? d_limit d); [|done].
      intros _. destruct d as [l w s]. simpl in *. f_equal. by apply insert_id.
  - destruct (now - now >=? d_window d); case_bool_decide; try done; by rewrite Hz.
Qed.
