(* ===== verification/BrokerConfig.v ===== *)
(** * Broker configuration  (svidlet-broker/src/config.rs)

    [from_source] reads the environment, given as a function from names to
    values; [id_policy] compiles the SPIFFE ID template and insists on
    [{cluster}].  Paths are strings, durations are whole seconds. *)

From S2P Require Import Prelude RustStr Errors Template Catalog.
Open Scope list_scope.
Open Scope Z_scope.

(** [ConfigError] carries a message only. *)
Inductive ConfigError := CfgError.

Record KubeSettings := mkKubeSettings {
  api_url : string;
  kube_ca_cert_path : string;
  kube_token_path : string;
  kube_timeout : Z;
}.

Inductive VaultAuth :=
| AuthJwt (mount role token_path : string)
| AuthAppRole (mount role_id secret_id_path : string)
| AuthToken (path : string).

Definition VaultAuth_method (a : VaultAuth) : string :=
  match a with
  | AuthJwt _ _ _ => "jwt"
  | AuthAppRole _ _ _ => "approle"
  | AuthToken _ => "token"
  end.

Record VaultSettings := mkVaultSettings {
  vault_address : string;
  vault_namespace : option string;
  vault_ca_cert_path : option string;
  vault_timeout : Z;
  pki_mount : string;
  pki_role : string;
  spiffe_mount : string;
  auth : VaultAuth;
}.

Record Config := mkConfig {
  cfg_cluster : string;
  cfg_trust_domain : string;
  spiffe_id_template : string;
  spiffe_id_pattern : option string;
  sign_addr : string;
  token_addr : string;
  metrics_addr : string;
  tls_cert_path : string;
  tls_key_path : string;
  client_ca_path : string;
  bundle_path : string;
  catalog_path : string;
  cfg_audience : string;
  node_namespace : string;
  node_service_account : string;
  node_daemonset : string;
  denied_namespaces : list string;
  cert_ttl : Z;
  cert_max_ttl : Z;
  node_rate_per_minute : Z;
  node_identities_per_hour : Z;
  mint_rate_per_minute : Z;
  kube : KubeSettings;
  vault : VaultSettings;
  jwks_url : option string;
  jwks_refresh : Z;
}.

(** ** [Env] *)

Section env.
Context (get : string -> option string).

Definition env_opt (key : string) : option string :=
  v ← get key;
  let v := trim v in
  if is_empty v then None else Some v.

Definition env_or (key default : string) : string :=
  match env_opt key with Some v => v | None => default end.

Definition env_req (key : string) : result ConfigError string := ok_or CfgError (env_opt key).

Definition env_duration (key : string) (default : Z) : result ConfigError Z :=
  match env_opt key with
  | None => Ok default
  | Some v => ok_or CfgError (parse_duration v)
  end.

Definition env_count (key : string) (default : Z) : result ConfigError Z :=
  match env_opt key with
  | None => Ok default
  | Some v => ok_or CfgError (parse_u32 v)
  end.
End env.

(** ** [Config] *)

Definition effective_ttl (cfg : Config) : Z := Z.min (cert_ttl cfg) (cert_max_ttl cfg).

Definition node_username (cfg : Config) : string :=
  "system:serviceaccount:" +:+ node_namespace cfg +:+ ":" +:+ node_service_account cfg.

Section config.
Context {R : RegexLite}.

Definition id_policy (cfg : Config) : result ConfigError IdPolicy :=
  policy ← map_err (fun _ => CfgError)
             (IdPolicy_new (spiffe_id_template cfg) (spiffe_id_pattern cfg));
  _ ← guard_err (negb (bool_decide (Cluster ∈ required_fields (template policy)))) CfgError;
  Ok policy.

(** The API server's URL; an IPv6 service host is bracketed. *)
Definition kube_api_url (get : string -> option string) : string :=
  let kube_host := env_opt get "KUBERNETES_SERVICE_HOST" in
  let kube_port := env_or get "KUBERNETES_SERVICE_PORT" "443" in
  match env_opt get "SVIDLET_KUBE_API" with
  | Some u => u
  | None =>
      match kube_host with
      | Some h =>
          if has_char ":" h then "https://[" +:+ h +:+ "]:" +:+ kube_port
          else "https://" +:+ h +:+ ":" +:+ kube_port
      | None => "https://kubernetes.default.svc"
      end
  end.

Definition vault_auth (get : string -> option string) (cluster : string)
    : result ConfigError VaultAuth :=
  let m := env_or get "SVIDLET_BROKER_VAULT_AUTH" "jwt" in
  if String.eqb m "jwt" then
    Ok (AuthJwt (env_or get "SVIDLET_BROKER_VAULT_JWT_MOUNT" ("k8s-" +:+ cluster))
                (env_or get "SVIDLET_BROKER_VAULT_JWT_ROLE" "svidlet-broker")
                (env_or get "SVIDLET_BROKER_VAULT_TOKEN_FILE"
                   "/var/run/secrets/svidlet/vault/token"))
  else if String.eqb m "approle" then
    role_id ← env_req get "SVIDLET_BROKER_ROLE_ID";
    Ok (AuthAppRole (env_or get "SVIDLET_BROKER_APPROLE_MOUNT" "approle")
                    role_id
                    (env_or get "SVIDLET_BROKER_SECRET_ID_FILE" "/etc/svidlet/vault/secret-id"))
  else if String.eqb m "token" then
    Ok (AuthToken (env_or get "VAULT_TOKEN_FILE" "/etc/svidlet/vault/token"))
  else Err CfgError.

(** [split(',').map(trim).filter(non-empty)]. *)
Definition comma_list (v : string) : list string :=
  List.filter (fun s => negb (is_empty s)) (trim <$> split_char "," v).

Definition from_source (get : string -> option string) : result ConfigError Config :=
  cluster ← env_req get "SVIDLET_CLUSTER";
  let client_ca_path := env_or get "SVIDLET_BROKER_CLIENT_CA" "/etc/svidlet/trust/ca.crt" in
  let sa_dir := "/var/run/secrets/kubernetes.io/serviceaccount" in
  auth ← vault_auth get cluster;
  cert_ttl ← env_duration get "SVIDLET_CERT_TTL" (48 * 3600);
  cert_max_ttl ← env_duration get "SVIDLET_CERT_MAX_TTL" (48 * 3600);
  _ ← guard_err ((cert_ttl =? 0) || (cert_max_ttl =? 0)) CfgError;
  trust_domain ← env_req get "SVIDLET_TRUST_DOMAIN";
  node_rate ← env_count get "SVIDLET_NODE_RATE_PER_MINUTE" 120;
  node_ids ← env_count get "SVIDLET_NODE_IDENTITIES_PER_HOUR" 500;
  mint_rate ← env_count get "SVIDLET_MINT_RATE_PER_MINUTE" 60;
  kube_timeout ← env_duration get "SVIDLET_KUBE_TIMEOUT" 5;
  address ← env_req get "VAULT_ADDR";
  vault_timeout ← env_duration get "SVIDLET_VAULT_TIMEOUT" 10;
  jwks_refresh ← env_duration get "SVIDLET_JWKS_REFRESH" 60;
  let cfg := {|
    cfg_cluster := cluster;
    cfg_trust_domain := trust_domain;
    spiffe_id_template := env_or get "SVIDLET_SPIFFE_ID_TEMPLATE" DEFAULT_TEMPLATE;
    spiffe_id_pattern := env_opt get "SVIDLET_SPIFFE_ID_PATTERN";
    sign_addr := env_or get "SVIDLET_BROKER_SIGN_ADDR" "0.0.0.0:8443";
    token_addr := env_or get "SVIDLET_BROKER_TOKEN_ADDR" "0.0.0.0:8444";
    metrics_addr := env_or get "SVIDLET_BROKER_METRICS_ADDR" "0.0.0.0:9466";
    tls_cert_path := env_or get "SVIDLET_BROKER_TLS_CERT" "/etc/svidlet/tls/tls.crt";
    tls_key_path := env_or get "SVIDLET_BROKER_TLS_KEY" "/etc/svidlet/tls/tls.key";
    client_ca_path := client_ca_path;
    bundle_path := match env_opt get "SVIDLET_BROKER_BUNDLE" with
                   | Some p => p | None => client_ca_path end;
    catalog_path := env_or get "SVIDLET_CATALOG" "/etc/svidlet/catalog/catalog.toml";
    cfg_audience := env_or get "SVIDLET_BROKER_AUDIENCE" "svidlet-broker";
    node_namespace := env_or get "SVIDLET_NODE_NAMESPACE" "svidlet-system";
    node_service_account := env_or get "SVIDLET_NODE_SERVICE_ACCOUNT" "svidlet-node";
    node_daemonset := env_or get "SVIDLET_NODE_DAEMONSET" "svidlet-node";
    denied_namespaces := comma_list
      (env_or get "SVIDLET_DENIED_NAMESPACES"
         "kube-system,kube-public,kube-node-lease,svidlet-system");
    cert_ttl := cert_ttl;
    cert_max_ttl := cert_max_ttl;
    node_rate_per_minute := node_rate;
    node_identities_per_hour := node_ids;
    mint_rate_per_minute := mint_rate;
    kube := {|
      api_url := kube_api_url get;
      kube_ca_cert_path := env_or get "SVIDLET_KUBE_CACERT" (sa_dir +:+ "/ca.crt");
      kube_token_path := env_or get "SVIDLET_KUBE_TOKEN_FILE" (sa_dir +:+ "/token");
      kube_timeout := kube_timeout |};
    vault := {|
      vault_address := address;
      vault_namespace := env_opt get "VAULT_NAMESPACE";
      vault_ca_cert_path := env_opt get "VAULT_CACERT";
      vault_timeout := vault_timeout;
      pki_mount := env_or get "SVIDLET_PKI_MOUNT" "pki_int";
      pki_role := env_or get "SVIDLET_PKI_ROLE" ("spiffe-" +:+ cluster);
      spiffe_mount := env_or get "SVIDLET_SPIFFE_MOUNT" "spiffe";
      auth := auth |};
    jwks_url := env_opt get "SVIDLET_JWKS_URL";
    jwks_refresh := jwks_refresh |} in
  _ ← id_policy cfg;
  Ok cfg.

(** ** What a loaded configuration guarantees *)

Lemma env_opt_nonempty get k v : env_opt get k = Some v -> v <> "".
Proof.
  unfold env_opt. destruct (get k) as [w|]; simpl; [|done].
  destruct (is_empty (trim w)) eqn:He; [done|]. intros [= <-]. by apply is_empty_false.
Qed.

Lemma env_req_Ok get k v : env_req get k = Ok v -> v <> "".
Proof. intros H%ok_or_Ok. by eapply env_opt_nonempty. Qed.

Lemma env_duration_range get k d n :
  0 <= d <= u64_max -> env_duration get k d = Ok n -> 0 <= n <= u64_max.
Proof.
  unfold env_duration. intros Hd H. destruct (env_opt get k); simplify_eq; [|done].
  apply ok_or_Ok in H. by eapply parse_duration_range.
Qed.

Lemma env_count_range get k d n :
  0 <= d <= u32_max -> env_count get k d = Ok n -> 0 <= n <= u32_max.
Proof.
  unfold env_count. intros Hd H. destruct (env_opt get k); simplify_eq; [|done].
  apply ok_or_Ok in H. by eapply parse_uint_range, H.
Qed.

Lemma comma_list_nonempty v : Forall (fun s => s <> "") (comma_list v).
Proof.
  apply Forall_forall. intros s [_ Hs]%list_elem_of_In%List.filter_In.
  by apply is_empty_false, negb_true_iff.
Qed.

Lemma id_policy_Ok cfg p :
  id_policy cfg = Ok p ->
  template_wf (template p) /\ raw (template p) = spiffe_id_template cfg /\
  Cluster ∈ fields (template p) /\
  (pattern p = None <-> spiffe_id_pattern cfg = None).
Proof.
  unfold id_policy, IdPolicy_new.
  intros (p' & (t & [Hwf Hraw]%compile_wf & Hpat)%map_err_Ok%bind_Ok & H)%bind_Ok.
  apply bind_Ok in H as ([] & Hc%guard_err_Ok & [= <-]).
  apply negb_false_iff, bool_decide_eq_true in Hc.
  assert (template p' = t /\ (pattern p' = None <-> spiffe_id_pattern cfg = None)) as [<- ?].
  { destruct (spiffe_id_pattern cfg); [|by injection Hpat as <-].
    apply bind_Ok in Hpat as (re & _ & [= <-]). done. }
  unfold required_fields in Hc. auto.
Qed.

(** What the rest of the broker relies on in its configuration. *)
Record config_wf (cfg : Config) : Prop := {
  cwf_cluster : cfg_cluster cfg <> "";
  cwf_trust_domain : cfg_trust_domain cfg <> "";
  cwf_ttl : 0 < effective_ttl cfg <= cert_max_ttl cfg;
  cwf_ttl_u64 : effective_ttl cfg <= u64_max;
  cwf_node_rate : 0 <= node_rate_per_minute cfg < 2 ^ 32;
  cwf_node_ids : 0 <= node_identities_per_hour cfg < 2 ^ 32;
  cwf_mint_rate : 0 <= mint_rate_per_minute cfg < 2 ^ 32;
  cwf_denied : Forall (fun ns => ns <> "") (denied_namespaces cfg);
  cwf_policy : exists p, id_policy cfg = Ok p /\
    template_wf (template p) /\ Cluster ∈ fields (template p);
}.

(** A broker that starts has a configuration in which the cluster and the
    trust domain are set, the TTL it requests is positive and never above the
    configured maximum (I11), the three rates fit their 32-bit counters, no
    denied namespace is the empty string, and the SPIFFE ID template compiles
    and carries [{cluster}] (I2, T2). *)
Theorem from_source_wf (get : string -> option string) (cfg : Config) :
  from_source get = Ok cfg -> config_wf cfg.
Proof.
  unfold from_source. intros H.
  repeat match type of H with
    | (_ ≫= _) = Ok _ => apply bind_Ok in H as (? & ? & H)
    end.
  simplify_eq. set (cfg := mkConfig _ _ _ _ _ _ _ _ _ _ _ _ _ _ _ _ _ _ _ _ _ _ _ _ _ _) in *.
  repeat match goal with
    | Hd : env_duration _ _ _ = Ok _ |- _ =>
        apply env_duration_range in Hd; [|unfold u64_max; lia]
    | Hd : env_count _ _ _ = Ok _ |- _ =>
        apply env_count_range in Hd; [|unfold u32_max; lia]
    | Hd : env_req _ _ = Ok _ |- _ => apply env_req_Ok in Hd
    | Hd : guard_err _ _ = Ok _ |- _ =>
        apply guard_err_Ok, orb_false_elim in Hd as [?%Z.eqb_neq ?%Z.eqb_neq]
    | Hd : id_policy _ = Ok _ |- _ =>
        pose proof (id_policy_Ok _ _ Hd); revert Hd
    end.
  intros Hp. unfold u32_max, u64_max in *.
  split; try apply comma_list_nonempty; unfold effective_ttl; cbn -[Z.pow]; try done; try lia.
  - unfold u64_max. lia.
  - exists x12. naive_solver.
Qed.
End config.

Module BrokerConfigWitness.
#[local] Existing Instance MiniRegex.engine.

Definition env (k : string) : option string :=
  if String.eqb k "SVIDLET_CLUSTER" then Some "a"
  else if String.eqb k "SVIDLET_TRUST_DOMAIN" then Some " example.org "
  else if String.eqb k "VAULT_ADDR" then Some "https://vault:8200"
  else if String.eqb k "SVIDLET_CERT_TTL" then Some "7d"
  else None.

Definition cfg : Config :=
  Eval vm_compute in
  match from_source env with
  | Ok c => c
  | Err _ => mkConfig "" "" "" None "" "" "" "" "" "" "" "" "" "" "" "" [] 0 0 0 0 0
               (mkKubeSettings "" "" "" 0)
               (mkVaultSettings "" None None 0 "" "" "" (AuthToken "")) None 0
  end.

Lemma from_source_wf_witness :
  from_source env = Ok cfg /\ config_wf cfg /\ effective_ttl cfg = 48 * 3600.
Proof.
  assert (from_source env = Ok cfg) as H by (vm_compute; reflexivity).
  split; [exact H|]. split; [exact (from_source_wf env cfg H)|reflexivity].
Defined.
End BrokerConfigWitness.
