(* ===== verification/BrokerCatalog.v ===== *)
(** * The catalog as the broker holds it  (svidlet-broker/src/catalog.rs)

    [reload] runs every thirty seconds; the file and the TOML decoder are
    parameters ([read] is [read_to_string] of the configured path at that
    moment). *)

From S2P Require Import Prelude RustStr Errors Template Catalog.
Open Scope list_scope.

Record CatalogHandle := mkHandle {
  h_path : option string;
  h_catalog : Catalog;
  h_text : string;
}.

Section handle.
Context (toml : string -> option Catalog).

Definition Handle_load (read : string -> option string) (path : string)
    : result Error CatalogHandle :=
  text ← ok_or Io (read path);
  catalog ← Catalog_parse toml text;
  Ok (mkHandle (Some path) catalog text).

Definition Handle_fixed (c : Catalog) : CatalogHandle := mkHandle None c "".

Definition Handle_current (h : CatalogHandle) : Catalog := h_catalog h.

(** [Ok true] when a new version was applied. *)
Definition Handle_reload (read : string -> option string) (h : CatalogHandle)
    : result Error bool * CatalogHandle :=
  match h_path h with
  | None => (Ok false, h)
  | Some path =>
      match read path with
      | None => (Err Io, h)
      | Some text =>
          if String.eqb (h_text h) text then (Ok false, h)
          else match Catalog_parse toml text with
               | Err e => (Err e, h)
               | Ok catalog => (Ok true, mkHandle (h_path h) catalog text)
               end
      end
  end.

(** The catalog in force is the decoded, validated text. *)
Definition handle_ok (h : CatalogHandle) : Prop :=
  Catalog_parse toml (h_text h) = Ok (h_catalog h).

Fixpoint reloads (reads : list (string -> option string)) (h : CatalogHandle) : CatalogHandle :=
  match reads with
  | [] => h
  | r :: rs => reloads rs (snd (Handle_reload r h))
  end.

Lemma Catalog_parse_wf text c : Catalog_parse toml text = Ok c -> catalog_wf c.
Proof.
  unfold Catalog_parse. intros (c' & _ & H)%bind_Ok.
  apply bind_Ok in H as ([] & Hv & [= <-]). by apply validate_wf.
Qed.

Lemma reload_ok read h : handle_ok h -> handle_ok (snd (Handle_reload read h)).
Proof.
  unfold Handle_reload, handle_ok. intros Hh.
  destruct (h_path h); [|done]. destruct (read _) as [text|]; [|done].
  destruct (String.eqb _ _); [done|]. by destruct (Catalog_parse toml text) eqn:Hp.
Qed.

Lemma reload_outcome read h :
  match Handle_reload read h with
  | (Err _, h') => h' = h
  | (Ok false, h') => h' = h
  | (Ok true, h') => exists path text, h_path h = Some path /\ read path = Some text /\
      text <> h_text h /\ Catalog_parse toml text = Ok (h_catalog h') /\ h_text h' = text /\
      h_path h' = h_path h
  end.
Proof.
  unfold Handle_reload. destruct (h_path h) as [path|] eqn:Hp; [|done].
  destruct (read path) as [text|] eqn:Hr; [|done].
  destruct (String.eqb_spec (h_text h) text) as [|Hne]; [done|].
  destruct (Catalog_parse toml text) eqn:Hc; [|done]. naive_solver.
Qed.

(** The catalog fails stale.  From a successful load, through any sequence
    of reloads - the file missing, unreadable, malformed or valid at each -
    the catalog in force is always the validated content of the text the
    handle remembers; a reload that reports an error, or no change, leaves
    the handle as it was, and one that reports a change has applied exactly
    the file's new content. *)
Theorem catalog_fails_stale (read0 : string -> option string) (path : string)
    (h0 : CatalogHandle) (reads : list (string -> option string))
    (read : string -> option string) :
  Handle_load read0 path = Ok h0 ->
  let h := reloads reads h0 in
  (handle_ok h /\ catalog_wf (Handle_current h)) /\
  match Handle_reload read h with
  | (Err _, h') | (Ok false, h') => h' = h
  | (Ok true, h') => exists text, read path = Some text /\ text <> h_text h /\
      Catalog_parse toml text = Ok (Handle_current h') /\ h_text h' = text
  end.
Proof.
  intros Hl. apply bind_Ok in Hl as (text & Ht & Hl).
  apply bind_Ok in Hl as (c & Hc & [= <-]).
  assert (forall rs h, handle_ok h -> h_path h = Some path ->
    handle_ok (reloads rs h) /\ h_path (reloads rs h) = Some path) as Hinv.
  { induction rs as [|r rs IH]; intros h Hh Hp; simpl; [done|]. apply IH.
    - by apply reload_ok.
    - pose proof (reload_outcome r h) as Ho.
      destruct (Handle_reload r h) as [[[]|] h']; simpl in *; [|by subst..].
      destruct Ho as (p & t & _ & _ & _ & _ & _ & ->). done. }
  destruct (Hinv reads (mkHandle (Some path) c text) Hc eq_refl) as [Hok Hpath].
  simpl. set (h := reloads reads _) in *.
  split; [split; [done|by eapply Catalog_parse_wf]|].
  pose proof (reload_outcome read h) as Ho.
  destruct (Handle_reload read h) as [[[]|] h']; [|done|done].
  destruct Ho as (p & t & Hp & Ho). rewrite Hpath in Hp. injection Hp as <-. naive_solver.
Qed.
End handle.

Module BrokerCatalogWitness.
Definition cat : Catalog :=
  mkCatalog 1 "example.org" DEFAULT_PATH_TEMPLATE false [] [].
Definition toml (t : string) : option Catalog := if String.eqb t "good" then Some cat else None.
Definition good (_ : string) : option string := Some "good".
Definition bad (_ : string) : option string := Some "bad".

Lemma catalog_fails_stale_witness :
  Handle_current (reloads toml [bad; fun _ => None] (mkHandle (Some "p") cat "good")) = cat /\
  catalog_wf cat.
Proof.
  pose proof (catalog_fails_stale toml good "p" (mkHandle (Some "p") cat "good")
                [bad; fun _ => None] good eq_refl) as [[_ H] _].
  split; [reflexivity|exact H].
Defined.
End BrokerCatalogWitness.
