(* ===== verification/Certs.v ===== *)
(** * Certificates and CSRs  (svidlet-issue/src/bundle.rs, svidlet-broker/src/csr.rs)

    PEM and DER decoding and signature checking are the [x509-parser] crate's:
    [X509Parser] gives what it returns, as records of the parts the code
    reads.  What the code does with them - the leaf's identity, its validity
    window, the CSR rules of I6 - is defined here. *)

From S2P Require Import Prelude RustStr Errors Template.
Open Scope list_scope.
Open Scope Z_scope.

Inductive GeneralName :=
| URI (uri : string)
| OtherName.

(** A parsed certificate.  [x_san] is [subject_alternative_name()]: malformed,
    absent, or the list of names. *)
Record X509Certificate := mkX509 {
  x_is_ca : bool;
  x_not_before : Z;
  x_not_after : Z;
  x_san : result unit (option (list GeneralName));
  x_serial : string;
  x_public_key : string;
}.

Inductive ParsedExtension :=
| BasicConstraints (ca : bool)
| SubjectAlternativeName (names : list GeneralName)
| OtherExtension.

(** A parsed certification request: the SPKI's algorithm and parameters as
    dotted OIDs, the requested extensions, the subject's attributes and the
    SPKI's bit string.  The broker reads neither of the last two. *)
Record CertRequest := mkCertRequest {
  csr_signature_ok : bool;
  csr_algorithm : string;
  csr_curve : option string;
  csr_extensions : option (list ParsedExtension);
  csr_subject : list (string * string);
  csr_public_key : string;
}.

Class X509Parser := {
  (** The first PEM block: its label and contents. *)
  parse_x509_pem : string -> option (string * string);
  cert_from_der : string -> option X509Certificate;
  csr_from_der : string -> option CertRequest;
}.

(** ** svidlet-issue/src/bundle.rs *)

Record IssuedBundle := mkBundle {
  cert_chain_pem : string;
  ca_pem : string;
  b_not_after : Z;
  b_not_before : Z;
}.

Definition lifetime_secs (b : IssuedBundle) : Z := Z.max (wrap_i64 (b_not_after b - b_not_before b)) 0.

Record CertFacts := mkFacts {
  f_spiffe_id : SpiffeId;
  f_not_before : Z;
  f_not_after : Z;
}.

#[export] Instance CertFacts_eq_dec : EqDecision CertFacts.
Proof. solve_decision. Defined.

(** The URI names, in order. *)
Fixpoint uris (names : list GeneralName) : list string :=
  match names with
  | [] => []
  | URI u :: ns => u :: uris ns
  | OtherName :: ns => uris ns
  end.

Section certs.
Context {X : X509Parser}.

(** Both decoders, as [inspect] and [leaf_public_key] run them. *)
Definition parse_leaf (pem : string) : result Error X509Certificate :=
  block ← ok_or Certificate (parse_x509_pem pem);
  ok_or Certificate (cert_from_der (snd block)).

Definition inspect (cert_chain_pem : string) : result Error CertFacts :=
  cert ← parse_leaf cert_chain_pem;
  san ← map_err (fun _ => Certificate) (x_san cert);
  names ← ok_or Certificate san;
  raw ← ok_or Certificate (List.find (starts_with "spiffe://") (uris names));
  spiffe_id ← SpiffeId_parse raw;
  Ok (mkFacts spiffe_id (x_not_before cert) (x_not_after cert)).

Definition assert_identity (cert_chain_pem : string) (expected : SpiffeId)
    : result Error CertFacts :=
  facts ← inspect cert_chain_pem;
  _ ← guard_err (negb (bool_decide (f_spiffe_id facts = expected))) Certificate;
  Ok facts.

Definition leaf_public_key (cert_chain_pem : string) : result Error string :=
  cert ← parse_leaf cert_chain_pem;
  Ok (x_public_key cert).

(** ** svidlet-broker/src/csr.rs *)

Definition ec_public_key : string := "1.2.840.10045.2.1".
Definition p256 : string := "1.2.840.10045.3.1.7".

Definition asks_for_ca (e : ParsedExtension) : bool :=
  match e with BasicConstraints ca => ca | _ => false end.

(** [csr::check]: [Err] is the reason, a message. *)
Definition csr_check (pem : string) : result unit unit :=
  block ← ok_or tt (parse_x509_pem pem);
  _ ← guard_err (negb (String.eqb (fst block) "CERTIFICATE REQUEST")) tt;
  csr ← ok_or tt (csr_from_der (snd block));
  _ ← guard_err (negb (csr_signature_ok csr)) tt;
  _ ← guard_err (negb (String.eqb (csr_algorithm csr) ec_public_key)) tt;
  _ ← guard_err (negb (bool_decide (csr_curve csr = Some p256))) tt;
  match csr_extensions csr with
  | Some extensions => for_each (fun ext => guard_err (asks_for_ca ext) tt) extensions
  | None => Ok tt
  end.

Lemma assert_identity_Ok pem expected facts :
  assert_identity pem expected = Ok facts <->
  inspect pem = Ok facts /\ f_spiffe_id facts = expected.
Proof.
  unfold assert_identity. rewrite bind_Ok. split.
  - intros (f & Hf & H). apply bind_Ok in H as ([] & Hg%guard_err_Ok & [= <-]).
    apply negb_false_iff, bool_decide_eq_true in Hg. done.
  - intros [Hf <-]. exists facts. rewrite bool_decide_eq_true_2 by done. done.
Qed.

(** Reading a certificate fails for the certificate's sake only. *)
Lemma inspect_Err pem e : inspect pem = Err e -> e = Certificate \/ e = Identity.
Proof.
  unfold inspect, parse_leaf. destruct (parse_x509_pem pem) as [[l der]|]; cbn; [|naive_solver].
  destruct (cert_from_der der) as [cert|]; cbn; [|naive_solver].
  destruct (x_san cert) as [[names|]|]; cbn; [|naive_solver..].
  destruct (List.find _ _) as [raw|]; cbn; [|naive_solver].
  destruct (SpiffeId_parse raw) eqn:E; cbn; [done|]. apply SpiffeId_parse_Err in E as ->. naive_solver.
Qed.
Lemma assert_identity_Err pem id e : assert_identity pem id = Err e -> e = Certificate \/ e = Identity.
Proof.
  unfold assert_identity. destruct (inspect pem) as [facts|] eqn:E; cbn.
  - unfold guard_err. case_match; cbn; naive_solver.
  - intros [= <-]. by apply inspect_Err in E.
Qed.

(** What an accepted CSR is (I6). *)
Definition csr_acceptable (pem : string) : Prop :=
  exists der csr, parse_x509_pem pem = Some ("CERTIFICATE REQUEST", der) /\
    csr_from_der der = Some csr /\ csr_signature_ok csr = true /\
    csr_algorithm csr = ec_public_key /\ csr_curve csr = Some p256 /\
    BasicConstraints true ∉ default [] (csr_extensions csr).

Lemma for_each_no_ca (l : list ParsedExtension) :
  for_each (fun ext => guard_err (asks_for_ca ext) tt) l = Ok tt <-> BasicConstraints true ∉ l.
Proof.
  rewrite for_each_Ok, Forall_forall. split.
  - intros H Hin. by specialize (H _ Hin).
  - intros H x Hx. destruct x as [[]| |]; done.
Qed.

Lemma csr_check_Ok pem : csr_check pem = Ok tt <-> csr_acceptable pem.
Proof.
  unfold csr_check, csr_acceptable. split.
  - intros ([lab der] & Hp%ok_or_Ok & H)%bind_Ok. cbn [fst snd] in H.
    apply bind_Ok in H as ([] & Hl%guard_err_Ok%negb_false_iff%String.eqb_eq & H).
    apply bind_Ok in H as (csr & Hc%ok_or_Ok & H).
    apply bind_Ok in H as ([] & Hs%guard_err_Ok%negb_false_iff & H).
    apply bind_Ok in H as ([] & Ha%guard_err_Ok%negb_false_iff%String.eqb_eq & H).
    apply bind_Ok in H as ([] & Hcu%guard_err_Ok%negb_false_iff%bool_decide_eq_true & H).
    subst lab. exists der, csr. split_and!; try done.
    destruct (csr_extensions csr); simpl; [by apply for_each_no_ca|apply not_elem_of_nil].
  - intros (der & csr & Hp & Hc & Hs & Ha & Hcu & Hno). rewrite Hp. simpl.
    rewrite Hc. simpl. rewrite Hs, Ha, Hcu. simpl.
    destruct (csr_extensions csr); [by apply for_each_no_ca|done].
Qed.
End certs.
