(* ===== verification/Keys.v ===== *)
(** * Keys and CSRs  (svidlet-issue/src/key.rs)

    Key generation, CSR encoding and PEM are the [rcgen] crate's: [Rcgen] gives
    what it returns, and [RcgenSpec] what its documentation promises of a CSR,
    in terms of what [x509-parser] reads back from it.  What [generate] asks of
    it is defined here: the key's algorithm, the one name, the empty subject. *)

From S2P Require Import Prelude RustStr Errors Template Certs.
Open Scope list_scope.
Open Scope Z_scope.

(** A freshly generated key with the CSR that asks for its certificate. *)
Record KeyAndCsr := mkKeyAndCsr {
  kc_key_pem : string;
  kc_csr_pem : string;
  kc_public_key : string;
}.

(** ** What the crate offers *)

Inductive SignatureAlgorithm := PKCS_ECDSA_P256_SHA256 | PKCS_ED25519.
Inductive SanType := SanURI (name : string) | SanDNS (name : string).
Inductive IsCa := NoCa | ExplicitNoCa | Ca.

(** The parameters of a request, as far as a CSR carries them. *)
Record CertificateParams := mkParams {
  distinguished_name : list (string * string);
  subject_alt_names : list SanType;
  is_ca : IsCa;
}.
(** [CertificateParams::default]: a placeholder name, which the code replaces. *)
Definition CertificateParams_default : CertificateParams :=
  mkParams [("CN", "rcgen self signed cert")] [] NoCa.
Definition set_distinguished_name (dn : list (string * string)) (p : CertificateParams) : CertificateParams :=
  mkParams dn (subject_alt_names p) (is_ca p).
Definition set_subject_alt_names (names : list SanType) (p : CertificateParams) : CertificateParams :=
  mkParams (distinguished_name p) names (is_ca p).

Class Rcgen := {
  KeyPair : Type;
  (** The [n]-th draw of the process's random source. *)
  generate_for : SignatureAlgorithm -> nat -> option KeyPair;
  public_key_raw : KeyPair -> string;
  serialize_pem : KeyPair -> string;
  (** The DER of the request, and its PEM. *)
  serialize_request : CertificateParams -> KeyPair -> option string;
  request_pem : string -> option string;
}.

(** [Ia5String::try_from]: seven-bit characters only. *)
Definition is_ascii (s : string) : bool := all_chars (fun c => (Ascii.N_of_ascii c <? 128)%N) s.
Definition Ia5String_try_from (s : string) : option string := if is_ascii s then Some s else None.

(** ** key.rs *)

Section keys.
Context {G : Rcgen}.

Definition params_for (san : string) : CertificateParams :=
  set_subject_alt_names [SanURI san] (set_distinguished_name [] CertificateParams_default).

Definition generate (draw : nat) (spiffe_id : SpiffeId) : result Error KeyAndCsr :=
  san ← ok_or Crypto (Ia5String_try_from (SpiffeId_as_str spiffe_id));
  key_pair ← ok_or Crypto (generate_for PKCS_ECDSA_P256_SHA256 draw);
  csr ← ok_or Crypto (serialize_request (params_for san) key_pair);
  pem ← ok_or Crypto (request_pem csr);
  Ok (mkKeyAndCsr (serialize_pem key_pair) pem (public_key_raw key_pair)).

(** ** What the crate promises *)

Definition general_name (n : SanType) : GeneralName := match n with SanURI u => URI u | SanDNS _ => OtherName end.
(** The algorithm and curve identifiers of a key's SPKI. *)
Definition algorithm_oid (a : SignatureAlgorithm) : string :=
  match a with PKCS_ECDSA_P256_SHA256 => ec_public_key | PKCS_ED25519 => "1.3.101.112" end.
Definition curve_oid (a : SignatureAlgorithm) : option string :=
  match a with PKCS_ECDSA_P256_SHA256 => Some p256 | PKCS_ED25519 => None end.
(** The extensions a request carries: its names if it has any, and basic
    constraints if it says anything about being a CA. *)
Definition requested (p : CertificateParams) : list ParsedExtension :=
  (match subject_alt_names p with [] => [] | names => [SubjectAlternativeName (general_name <$> names)] end) ++
  (match is_ca p with NoCa => [] | ExplicitNoCa => [BasicConstraints false] | Ca => [BasicConstraints true] end).

(** A request is a PEM block of its kind around the DER, which reads back as
    what went in, signed by the key it names. *)
Class RcgenSpec (X : X509Parser) : Prop := {
  request_reads_back : forall a draw pair p der pem,
    generate_for a draw = Some pair -> serialize_request p pair = Some der -> request_pem der = Some pem ->
    parse_x509_pem pem = Some ("CERTIFICATE REQUEST", der) /\
    exists csr, csr_from_der der = Some csr /\ csr_signature_ok csr = true /\
      csr_algorithm csr = algorithm_oid a /\ csr_curve csr = curve_oid a /\
      default [] (csr_extensions csr) ≡ₚ requested p /\
      csr_subject csr = distinguished_name p /\ csr_public_key csr = public_key_raw pair;
}.

(** What the CSR of a key says. *)
Definition asks_for {X : X509Parser} (csr_pem key : string) (names : list GeneralName) : Prop :=
  exists der csr, parse_x509_pem csr_pem = Some ("CERTIFICATE REQUEST", der) /\ csr_from_der der = Some csr /\
    csr_subject csr = [] /\ csr_public_key csr = key /\
    default [] (csr_extensions csr) = [SubjectAlternativeName names].

Lemma generate_Ok draw id g :
  generate draw id = Ok g <->
  is_ascii (SpiffeId_as_str id) = true /\
  exists pair der, generate_for PKCS_ECDSA_P256_SHA256 draw = Some pair /\
    serialize_request (params_for (SpiffeId_as_str id)) pair = Some der /\
    request_pem der = Some (kc_csr_pem g) /\ kc_key_pem g = serialize_pem pair /\ kc_public_key g = public_key_raw pair.
Proof.
  unfold generate, Ia5String_try_from. split.
  - intros (san & Hs%ok_or_Ok & (pair & Hp%ok_or_Ok & (der & Hd%ok_or_Ok & (pem & Hm%ok_or_Ok & [= <-])%bind_Ok)%bind_Ok)%bind_Ok)%bind_Ok.
    destruct (is_ascii _); [|done]. injection Hs as <-. eauto 10.
  - intros (-> & pair & der & Hp & Hd & Hm & Hk & Hpub). cbn. rewrite Hp. cbn. rewrite Hd. cbn. rewrite Hm. cbn.
    destruct g; cbn in *; by subst.
Qed.

Lemma generate_Err draw id e : generate draw id = Err e -> e = Crypto.
Proof. unfold generate. intros H. by repeat (apply bind_Err in H as [H|(? & _ & H)]; [by apply ok_or_Err in H as []|]). Qed.

Context {X : X509Parser} `{!RcgenSpec X}.

Lemma generated_asks draw id g :
  generate draw id = Ok g ->
  csr_acceptable (kc_csr_pem g) /\ asks_for (kc_csr_pem g) (kc_public_key g) [URI (SpiffeId_as_str id)].
Proof.
  intros (_ & pair & der & Hp & Hd & Hm & _ & ->)%generate_Ok.
  destruct (request_reads_back _ _ _ _ _ _ Hp Hd Hm) as (Hpem & csr & Hc & Hs & Ha & Hcu & He & Hsub & Hk).
  cbn in Ha, Hcu, He, Hsub. apply Permutation_singleton_r in He. split; exists der, csr.
  - split_and!; try done. rewrite He. by intros ?%list_elem_of_singleton.
  - done.
Qed.

(** C23: The CSR a node makes is one the broker accepts: it is self-signed with a
    P-256 key that is the one in [tls.key], asks for no CA certificate, has an
    empty subject, and its one name is the SPIFFE ID asked for.  An ID
    that is not ASCII is refused; for any other, generation fails only when the
    random source or the encoding of the request does. *)
Theorem generated_csr_accepted (draw : nat) (id : SpiffeId) :
  match generate draw id with
  | Ok g => csr_check (kc_csr_pem g) = Ok tt /\
      asks_for (kc_csr_pem g) (kc_public_key g) [URI (SpiffeId_as_str id)] /\
      is_ascii (SpiffeId_as_str id) = true /\
      exists pair, generate_for PKCS_ECDSA_P256_SHA256 draw = Some pair /\
        kc_key_pem g = serialize_pem pair /\ kc_public_key g = public_key_raw pair
  | Err e => e = Crypto /\ (is_ascii (SpiffeId_as_str id) = true ->
      generate_for PKCS_ECDSA_P256_SHA256 draw = None \/
      exists pair, generate_for PKCS_ECDSA_P256_SHA256 draw = Some pair /\
        (serialize_request (params_for (SpiffeId_as_str id)) pair ≫= request_pem) = None)
  end.
Proof.
  destruct (generate draw id) as [g|e] eqn:E.
  - apply generated_asks in E as HE. destruct HE as [Hc%csr_check_Ok Ha]. apply generate_Ok in E as (Hi & pair & der & Hp & _ & _ & Hk & Hpub).
    do 3 (split; [done|]). by exists pair.
  - split; [by apply generate_Err in E|]. intros Hi. unfold generate, Ia5String_try_from in E. rewrite Hi in E. cbn in E.
    destruct (generate_for _ draw) as [pair|]; [|by left]. right. exists pair. split; [done|]. cbn in E.
    destruct (serialize_request _ pair) as [der|]; [|done]. cbn in E |- *. by destruct (request_pem der).
Qed.
End keys.

(** ** Witness: a crate that writes its requests in the open *)

Module KeysWitness.
(** A request's DER is the draw and its name; no other parameters are encoded. *)
#[local] Instance crate : Rcgen := {|
  KeyPair := unit;
  generate_for := fun a _ => match a with PKCS_ECDSA_P256_SHA256 => Some tt | PKCS_ED25519 => None end;
  public_key_raw := fun _ => "k";
  serialize_pem := fun _ => "KEY";
  serialize_request := fun p _ =>
    match p with
    | mkParams [] [SanURI u] NoCa => Some u
    | _ => None
    end;
  request_pem := fun der => Some der |}.
#[local] Instance parser : X509Parser := {|
  parse_x509_pem := fun pem => Some ("CERTIFICATE REQUEST", pem);
  cert_from_der := fun _ => None;
  csr_from_der := fun der =>
    Some (mkCertRequest true ec_public_key (Some p256) (Some [SubjectAlternativeName [URI der]]) [] "k") |}.
#[local] Instance crate_spec : RcgenSpec parser.
Proof.
  split. intros a draw pair p der pem Hp Hd [= <-]. split; [done|]. destruct a; [|done].
  cbn in Hd. destruct p as [[|] [|[u|] [|]] []]; try done. injection Hd as ->. eexists. split_and!; done.
Defined.

Definition id : SpiffeId := mkSpiffeId "spiffe://example.org/web".
Example generates : generate 0 id = Ok (mkKeyAndCsr "KEY" "spiffe://example.org/web" "k").
Proof. reflexivity. Qed.
(** One that is not ASCII is not asked for. *)
Example turned_away : generate 0 (mkSpiffeId ("spiffe://example.org/" +:+ String (Ascii.ascii_of_N 195) (String (Ascii.ascii_of_N 169) ""))) = Err Crypto.
Proof. reflexivity. Qed.

Lemma generated_csr_accepted_witness :
  csr_check "spiffe://example.org/web" = Ok tt /\ asks_for "spiffe://example.org/web" "k" [URI "spiffe://example.org/web"].
Proof. destruct (generated_csr_accepted 0 id) as (Hc & Ha & _). exact (conj Hc Ha). Defined.
End KeysWitness.
