(* ===== verification/Kube.v ===== *)
(** * The Kubernetes seam  (svidlet-broker/src/kube.rs)

    [Kube] is the trait the attestation rules use; [HttpKube] implements it
    over HTTP.  The HTTP client and the JSON decoder are third-party code:
    [KubeHttp] gives what they return.  A decoded answer is a record with the
    fields of the [Raw*] structs, absent ones already at their [serde]
    defaults. *)

From S2P Require Import Prelude RustStr Errors BrokerConfig.
Open Scope list_scope.
Open Scope Z_scope.

Record Review := mkReview {
  username : string;
  r_pod_name : option string;
  r_pod_uid : option string;
  r_node_name : option string;
}.

Definition review_service_account (r : Review) : option (string * string) :=
  rest ← strip_prefix "system:serviceaccount:" (username r);
  '(ns, name) ← split_once ":" rest;
  if negb (is_empty ns) && negb (is_empty name) && negb (has_char ":" name)
  then Some (ns, name) else None.

Record Pod := mkPod {
  p_namespace : string;
  p_name : string;
  p_uid : string;
  p_node_name : string;
  p_service_account : string;
  terminating : bool;
  images : list string;
  owners : list (string * string);
}.

(** The trait.  An instance is the API server's answers at one moment: the
    attestation of the node and of the pod may see different ones. *)
Class Kube := {
  token_review : string -> string -> result KubeError (option Review);
  kube_pod : string -> string -> result KubeError (option Pod);
}.

(** ** Decoded answers *)

Record RawUser := mkRawUser {
  ru_username : string;
  ru_extra : gmap string (list string);
}.
Record RawReview := mkRawReview {
  authenticated : bool;
  rr_user : RawUser;
  rr_audiences : list string;
}.
Record RawPod := mkRawPod {
  rp_name : string;
  rp_namespace : string;
  rp_uid : string;
  rp_deletion_timestamp : option string;
  rp_owner_references : list (string * string);
  rp_node_name : string;
  rp_service_account_name : string;
  rp_containers : list string;
  rp_init_containers : list string;
  rp_ephemeral_containers : list string;
}.

(** One value of the [extra] map: the first, when it is not empty. *)
Definition extra_one (u : RawUser) (key : string) : option string :=
  v ← ru_extra u !! key;
  s ← head v;
  if is_empty s then None else Some s.

Definition review_of (st : RawReview) (audience : string) : option Review :=
  if negb (authenticated st) || is_empty (ru_username (rr_user st)) then None
  else if negb (existsb (fun a => String.eqb a audience) (rr_audiences st)) then None
  else Some {|
    r_pod_name := extra_one (rr_user st) "authentication.kubernetes.io/pod-name";
    r_pod_uid := extra_one (rr_user st) "authentication.kubernetes.io/pod-uid";
    r_node_name := extra_one (rr_user st) "authentication.kubernetes.io/node-name";
    username := ru_username (rr_user st) |}.

Definition pod_of (raw : RawPod) : Pod := {|
  p_namespace := rp_namespace raw;
  p_name := rp_name raw;
  p_uid := rp_uid raw;
  p_node_name := rp_node_name raw;
  p_service_account := if is_empty (rp_service_account_name raw) then "default"
                       else rp_service_account_name raw;
  terminating := match rp_deletion_timestamp raw with Some _ => true | None => false end;
  images := rp_init_containers raw ++ rp_containers raw ++ rp_ephemeral_containers raw;
  owners := rp_owner_references raw |}.

(** A name that is safe to put in a URL path. *)
Definition safe_char (c : ascii) : bool :=
  is_ascii_lowercase c || is_ascii_digit c || Ascii.eqb c "-" || Ascii.eqb c ".".
Definition safe_segment (s : string) : bool :=
  negb (is_empty s) && (String.length s <=? 253)%nat && all_chars safe_char s.

Definition is_success (status : Z) : bool := (200 <=? status) && (status <? 300).

Class KubeHttp := {
  (** [read_to_string] of our own token; [None] when it cannot be read. *)
  own_token : option string;
  (** POST of a TokenReview for a token and an audience, with a bearer. *)
  http_post_review : string -> string -> string -> string -> option (Z * string);
  (** GET of a URL with a bearer: status and body. *)
  http_get : string -> string -> option (Z * string);
  json_review : string -> option RawReview;
  json_pod : string -> option RawPod;
}.

Section http_kube.
Context {H : KubeHttp} (base : string).

Definition parse_review (json audience : string) : result unit (option Review) :=
  st ← ok_or tt (json_review json);
  Ok (review_of st audience).

Definition parse_pod (json : string) : result unit Pod :=
  raw ← ok_or tt (json_pod json);
  Ok (pod_of raw).

Definition bearer : result KubeError string :=
  t ← ok_or KOther own_token;
  Ok (trim t).

Definition http_token_review (token audience : string) : result KubeError (option Review) :=
  let url := base +:+ "/apis/authentication.k8s.io/v1/tokenreviews" in
  b ← bearer;
  resp ← ok_or KUnavailable (http_post_review url b token audience);
  let '(status, text) := resp in
  if negb (is_success status) then Err (status_error status)
  else map_err (fun _ => KOther) (parse_review text audience).

Definition http_pod (namespace name : string) : result KubeError (option Pod) :=
  if negb (safe_segment namespace) || negb (safe_segment name) then Ok None
  else
    let url := base +:+ "/api/v1/namespaces/" +:+ namespace +:+ "/pods/" +:+ name in
    b ← bearer;
    resp ← ok_or KUnavailable (http_get url b);
    let '(status, text) := resp in
    if status =? 404 then Ok None
    else if negb (is_success status) then Err (status_error status)
    else p ← map_err (fun _ => KOther) (parse_pod text); Ok (Some p).

#[export] Instance HttpKube : Kube := {
  token_review := http_token_review;
  kube_pod := http_pod;
}.
End http_kube.

(** [HttpKube::new] keeps the API URL without trailing slashes. *)
Definition HttpKube_base (settings : KubeSettings) : string := trim_end_char "/" (api_url settings).

(** ** Properties *)

Lemma review_service_account_Some r ns sa :
  review_service_account r = Some (ns, sa) <->
  username r = "system:serviceaccount:" +:+ ns +:+ ":" +:+ sa /\
  ns <> "" /\ sa <> "" /\ has_char ":" ns = false /\ has_char ":" sa = false.
Proof.
  unfold review_service_account. rewrite bind_Some. split.
  - intros (rest & Hp%strip_prefix_Some & H).
    apply bind_Some in H as ([n s] & [-> Hn]%split_once_Some & H).
    destruct (negb (is_empty n) && negb (is_empty s) && negb (has_char ":" s)) eqn:Hc; [|done].
    injection H as <- <-. apply andb_prop in Hc as [[H1 H2]%andb_prop H3].
    apply negb_true_iff in H1, H2, H3. apply is_empty_false in H1, H2. done.
  - intros (Hu & Hns & Hsa & Hcn & Hcs). exists (ns +:+ ":" +:+ sa).
    split; [by apply strip_prefix_Some|].
    assert (split_once ":" (ns +:+ ":" +:+ sa) = Some (ns, sa)) as ->
      by by apply split_once_Some.
    cbn [mbind option_bind]. apply is_empty_false in Hns, Hsa. by rewrite Hns, Hsa, Hcs.
Qed.

(** A ServiceAccount is read from a token's username exactly when that name
    is [system:serviceaccount:<ns>:<name>] with both parts non-empty and free
    of colons, so the pair determines the username and the username the pair. *)
Theorem service_account_spec (r : Review) (ns sa : string) :
  review_service_account r = Some (ns, sa) <->
  username r = "system:serviceaccount:" +:+ ns +:+ ":" +:+ sa /\
  ns <> "" /\ sa <> "" /\ has_char ":" ns = false /\ has_char ":" sa = false.
Proof. apply review_service_account_Some. Qed.

(** The HTTP client reports a token as authenticated only when the API
    server answered 2xx, said so, named a user, and echoed the audience that
    was asked for; every 5xx, 429 and transport failure is [Unavailable], so it
    is retried and never taken for a refusal. *)
Theorem http_token_review_sound (H : KubeHttp) (base token aud : string) :
  match http_token_review base token aud with
  | Ok (Some r) =>
      exists t status text st, own_token = Some t /\
        http_post_review (base +:+ "/apis/authentication.k8s.io/v1/tokenreviews") (trim t) token aud
          = Some (status, text) /\
        200 <= status < 300 /\ json_review text = Some st /\
        authenticated st = true /\ aud ∈ rr_audiences st /\
        username r = ru_username (rr_user st) /\ username r <> ""
  | Ok None | Err KOther => True
  | Err KUnavailable =>
      exists t, own_token = Some t /\
                match http_post_review
                  (base +:+ "/apis/authentication.k8s.io/v1/tokenreviews") (trim t) token aud with
                | None => True
                | Some (status, _) => 500 <= status \/ status = 429
                end
  end.
Proof.
  unfold http_token_review, bearer.
  destruct own_token as [t|]; simpl; [|done].
  destruct (http_post_review _ _ _ _) as [[status text]|] eqn:Hpost; simpl; last first.
  { exists t. by rewrite Hpost. }
  unfold is_success. destruct (Z.leb_spec 200 status), (Z.ltb_spec status 300); simpl.
  2-4: unfold status_error; destruct (status >=? 500) eqn:Hs, (status =? 429) eqn:Hq; simpl;
       try done; (exists t; rewrite Hpost; split; (done || lia)).
  unfold parse_review. destruct (json_review text) as [st|] eqn:Hj; simpl; [|done].
  unfold review_of.
  destruct (authenticated st) eqn:Ha; simpl; [|done].
  destruct (is_empty (ru_username (rr_user st))) eqn:He; simpl; [done|].
  destruct (existsb _ _) eqn:Hex; simpl; [|done].
  apply existsb_exists in Hex as (a & Hin & ->%String.eqb_eq).
  exists t, status, text, st. apply is_empty_false in He.
  split_and!; try done. by apply list_elem_of_In.
Qed.
