(* ===== verification/Issuer.v ===== *)
(** * The signing seam  (svidlet-issue/src/issuer.rs)

    [Issuer] is the trait both sides sign through: the node through the
    broker, the broker through Vault.  [IssuerSound] is the promise the trait's
    documentation makes - the returned certificate carries the requested
    identity, and the validity dates are the leaf's own - against which the
    callers' theorems are stated. *)

From S2P Require Import Prelude RustStr Errors Template Certs.
Open Scope list_scope.
Open Scope Z_scope.

Record PodContext := mkPodContext {
  pc_namespace : string;
  pc_name : string;
  pc_uid : string;
  pc_service_account : string;
  pc_token : option string;
}.

Record SignRequest := mkSignRequest {
  sr_spiffe_id : SpiffeId;
  sr_csr_pem : string;
  sr_ttl : Z;
  sr_node_name : string;
  sr_pod : option PodContext;
}.

Class Issuer := {
  issuer_sign : SignRequest -> result Error IssuedBundle;
  issuer_ca_chain : result Error string;
}.

Class IssuerSound {X : X509Parser} (I : Issuer) : Prop := {
  issuer_sign_identity : forall req b, issuer_sign req = Ok b ->
    inspect (cert_chain_pem b) =
      Ok (mkFacts (sr_spiffe_id req) (b_not_before b) (b_not_after b));
}.

(** How both implementations finish: the chain is inspected before it is
    handed back. *)
Definition checked_bundle {X : X509Parser} (req : SignRequest) (chain ca : string)
    : result Error IssuedBundle :=
  facts ← assert_identity chain (sr_spiffe_id req);
  Ok (mkBundle chain ca (f_not_after facts) (f_not_before facts)).

Lemma checked_bundle_sound {X : X509Parser} req chain ca b :
  checked_bundle req chain ca = Ok b ->
  inspect (cert_chain_pem b) = Ok (mkFacts (sr_spiffe_id req) (b_not_before b) (b_not_after b)).
Proof.
  unfold checked_bundle. intros (facts & [Hi <-]%assert_identity_Ok & [= <-])%bind_Ok.
  simpl. rewrite Hi. by destruct facts.
Qed.
