(* ===== verification/Sign.v ===== *)
(** * The certificate path  (svidlet-broker/src/sign.rs)

    [sign] attests the calling node and the pod, applies I1-I11 and asks Vault
    to sign.  The signer's state is its two limiters; [vault_calls] records, for
    the theorems, every request handed to Vault and when.

    The API server is asked four times during one request.  [Kn] is what it
    answers while the node is attested and [Kp] while the pod is: the two may
    differ in any way. *)

From S2P Require Import Prelude RustStr Errors Template Catalog Limit BrokerConfig BrokerCatalog.
From S2P Require Import Certs Kube Issuer.
Open Scope list_scope.
Open Scope Z_scope.

(** The broker's request body (svidlet-issue/src/broker.rs). *)
Record SignBody := mkSignBody {
  pod_token : string;
  sb_namespace : string;
  sb_pod_name : string;
  sb_pod_uid : string;
  sb_service_account : string;
  csr : string;
  sb_spiffe_id : string;
}.

Record Signed := mkSigned {
  s_spiffe_id : SpiffeId;
  s_node : string;
  s_namespace : string;
  s_pod : string;
  s_pod_uid : string;
  s_bundle : IssuedBundle;
}.

Record SignerState := mkSigner {
  node_rate : Window;
  node_identities : Distinct;
  vault_calls : list (Z * SignRequest);
}.

Definition Signer_new (cfg : Config) : SignerState :=
  mkSigner (Window_new (node_rate_per_minute cfg) 60)
           (Distinct_new (node_identities_per_hour cfg) 3600) [].

Definition Signer_sweep (st : SignerState) (now : Z) : SignerState :=
  mkSigner (Window_sweep (node_rate st) now) (Distinct_sweep (node_identities st) now)
           (vault_calls st).

Section attest.
Context (cfg : Config).

Definition is_daemonset_pod (pod : Pod) : bool :=
  existsb (fun o => String.eqb (fst o) "DaemonSet" && String.eqb (snd o) (node_daemonset cfg))
          (owners pod).

(** The token's own node claim, where the API server provides one, must
    agree with the node. *)
Definition check_node_claim (claim : option string) (node : string) : result Refusal unit :=
  match claim with
  | Some n => guard_err (negb (String.eqb n node)) (Forbidden "I3")
  | None => Ok tt
  end.

Definition attest_node (K : Kube) (node_token : string) : result Refusal string :=
  _ ← guard_err (is_empty node_token) (Unauthenticated "I1");
  o ← map_err from_kube (token_review node_token (cfg_audience cfg));
  review ← ok_or (Unauthenticated "I1") o;
  _ ← guard_err (negb (String.eqb (username review) (node_username cfg))) (Forbidden "I1");
  match r_pod_name review, r_pod_uid review with
  | Some pod_name, Some pod_uid =>
      o ← map_err from_kube (kube_pod (node_namespace cfg) pod_name);
      pod ← ok_or (Forbidden "I1") o;
      _ ← guard_err (negb (String.eqb (p_uid pod) pod_uid) || terminating pod) (Forbidden "I1");
      _ ← guard_err (negb (is_daemonset_pod pod)) (Forbidden "I1");
      _ ← guard_err (is_empty (p_node_name pod)) (Forbidden "I1");
      _ ← check_node_claim (r_node_name review) (p_node_name pod);
      Ok (p_node_name pod)
  | _, _ => Err (Forbidden "I1")
  end.

Definition attest_pod (K : Kube) (pod_token node : string) : result Refusal Pod :=
  _ ← guard_err (is_empty pod_token) (Unauthenticated "I5");
  o ← map_err from_kube (token_review pod_token (cfg_audience cfg));
  review ← ok_or (Unauthenticated "I5") o;
  match review_service_account review with
  | None => Err (Forbidden "I1")
  | Some (ns, sa) =>
      match r_pod_name review, r_pod_uid review with
      | Some pod_name, Some pod_uid =>
          o ← map_err from_kube (kube_pod ns pod_name);
          pod ← ok_or (Forbidden "I4") o;
          _ ← guard_err (negb (String.eqb (p_uid pod) pod_uid)) (Forbidden "I4");
          _ ← guard_err (terminating pod) (Forbidden "I4");
          _ ← guard_err (negb (String.eqb (p_service_account pod) sa)) (Forbidden "I4");
          _ ← guard_err (negb (String.eqb (p_node_name pod) node)) (Forbidden "I3");
          _ ← check_node_claim (r_node_name review) node;
          Ok pod
      | _, _ => Err (Forbidden "I1")
      end
  end.

(** I9 for one image. *)
Definition check_image (catalog : Catalog) (image : string) : result Refusal unit :=
  _ ← guard_err (negb (contains_str "@sha256:" image)) (Forbidden "I9");
  guard_err (negb (existsb (fun r => starts_with r image) (registries catalog))) (Forbidden "I9").

Definition admit_pod (catalog : Catalog) (pod : Pod) : result Refusal unit :=
  _ ← guard_err (bool_decide (p_namespace pod ∈ denied_namespaces cfg)) (Forbidden "I8");
  _ ← guard_err (String.eqb (p_service_account pod) "default") (Forbidden "I8");
  let entry := lookup catalog (cfg_cluster cfg) (p_namespace pod) (p_service_account pod) in
  _ ← guard_err (allowlist catalog && bool_decide (entry = None)) (Forbidden "I8");
  if match entry with Some e => i_sensitive e | None => false end
  then for_each (check_image catalog) (images pod)
  else Ok tt.

(** The hints of the request, each with the attested value. *)
Definition hints (body : SignBody) (pod : Pod) : list (string * string) :=
  [(sb_namespace body, p_namespace pod); (sb_pod_name body, p_name pod);
   (sb_pod_uid body, p_uid pod); (sb_service_account body, p_service_account pod)].

Definition check_hint (h : string * string) : result Refusal unit :=
  guard_err (negb (is_empty (fst h)) && negb (String.eqb (fst h) (snd h))) (BadRequest "I1").

Definition attested_attrs (node : string) (pod : Pod) : WorkloadAttributes := {|
  trust_domain := cfg_trust_domain cfg;
  cluster := cfg_cluster cfg;
  namespace := p_namespace pod;
  service_account := p_service_account pod;
  pod_name := p_name pod;
  pod_uid := p_uid pod;
  node_name := node |}.
End attest.

Section sign.
Context {R : RegexLite} {X : X509Parser}.
Context (cfg : Config) (policy : IdPolicy) (catalog : Catalog).

(** Everything [sign] does before the limits: no state is touched. *)
Definition authorize (Kn Kp : Kube) (node_token : string) (body : SignBody)
    : result Refusal (string * Pod * SpiffeId) :=
  node ← attest_node cfg Kn node_token;
  pod ← attest_pod cfg Kp (pod_token body) node;
  _ ← for_each check_hint (hints body pod);
  _ ← admit_pod cfg catalog pod;
  _ ← map_err (fun _ => BadRequest "I6") (csr_check (csr body));
  spiffe_id ← map_err (fun _ => Forbidden "I7")
                (IdPolicy_render policy (attested_attrs cfg node pod));
  _ ← guard_err (negb (is_empty (sb_spiffe_id body))
                 && negb (String.eqb (sb_spiffe_id body) (SpiffeId_as_str spiffe_id)))
        (BadRequest "I7");
  Ok (node, pod, spiffe_id).

Definition sign_request (node : string) (id : SpiffeId) (csr : string) : SignRequest :=
  mkSignRequest id csr (effective_ttl cfg) node None.

Definition sign (Kn Kp : Kube) (I : Issuer) (node_token : string) (body : SignBody) (now : Z)
    (st : SignerState) : result Refusal Signed * SignerState :=
  match authorize Kn Kp node_token body with
  | Err r => (Err r, st)
  | Ok (node, pod, spiffe_id) =>
      let '(fits, rate) := Window_check (node_rate st) node now in
      if negb fits
      then (Err (TooMany "I10"), mkSigner rate (node_identities st) (vault_calls st))
      else
        let '(allowed, ids) :=
          Distinct_allow (node_identities st) node (SpiffeId_as_str spiffe_id) now in
        if negb allowed
        then (Err (TooMany "I10"), mkSigner rate ids (vault_calls st))
        else
          let rate := Window_record rate node now in
          let req := sign_request node spiffe_id (csr body) in
          let st := mkSigner rate ids (vault_calls st ++ [(now, req)]) in
          match issuer_sign req with
          | Err e => (Err (from_vault e), st)
          | Ok bundle =>
              (Ok (mkSigned spiffe_id node (p_namespace pod) (p_name pod) (p_uid pod) bundle), st)
          end
  end.
End sign.

(** ** What attestation establishes *)

Section attestation.
Context (cfg : Config).

Record node_attested (K : Kube) (token node : string) : Prop := {
  na_facts : exists review pod, token <> "" /\
    token_review token (cfg_audience cfg) = Ok (Some review) /\
    username review = node_username cfg /\
    (exists name, r_pod_name review = Some name /\
                  kube_pod (node_namespace cfg) name = Ok (Some pod)) /\
    r_pod_uid review = Some (p_uid pod) /\ terminating pod = false /\
    ("DaemonSet", node_daemonset cfg) ∈ owners pod /\
    p_node_name pod = node /\ node <> "" /\
    (forall n, r_node_name review = Some n -> n = node)
}.

Record pod_attested (K : Kube) (token node : string) (pod : Pod) : Prop := {
  pa_facts : exists review ns, token <> "" /\
    token_review token (cfg_audience cfg) = Ok (Some review) /\
    review_service_account review = Some (ns, p_service_account pod) /\
    (exists name, r_pod_name review = Some name /\ kube_pod ns name = Ok (Some pod)) /\
    r_pod_uid review = Some (p_uid pod) /\ terminating pod = false /\
    p_node_name pod = node /\
    (forall n, r_node_name review = Some n -> n = node)
}.

Lemma is_daemonset_pod_true pod :
  is_daemonset_pod cfg pod = true <-> ("DaemonSet", node_daemonset cfg) ∈ owners pod.
Proof.
  unfold is_daemonset_pod. rewrite existsb_exists. split.
  - intros ([k n] & Hin & [Hk%String.eqb_eq Hn%String.eqb_eq]%andb_prop).
    simpl in Hk, Hn. subst. by apply list_elem_of_In.
  - intros Hin. eexists. split; [by apply list_elem_of_In|]. simpl. by rewrite String.eqb_refl.
Qed.

Lemma node_claim_Ok (o : option string) (node : string) :
  check_node_claim o node = Ok tt <-> (forall n, o = Some n -> n = node).
Proof.
  unfold check_node_claim. destruct o as [n|]; [|naive_solver].
  rewrite guard_err_Ok, negb_false_iff, String.eqb_eq. naive_solver.
Qed.

Lemma attest_node_Ok K token node :
  attest_node cfg K token = Ok node <-> node_attested K token node.
Proof.
  unfold attest_node. split.
  - intros ([] & Ht%guard_err_Ok%is_empty_false & H)%bind_Ok.
    apply bind_Ok in H as (o & Hr%map_err_Ok & H).
    apply bind_Ok in H as (review & ->%ok_or_Ok & H).
    apply bind_Ok in H as ([] & Hu%guard_err_Ok%negb_false_iff%String.eqb_eq & H).
    destruct (r_pod_name review) as [name|] eqn:Hn; [|done].
    destruct (r_pod_uid review) as [uid|] eqn:Hi; [|done].
    apply bind_Ok in H as (o & Hp%map_err_Ok & H).
    apply bind_Ok in H as (pod & ->%ok_or_Ok & H).
    apply bind_Ok in H as ([] & [Hui%negb_false_iff%String.eqb_eq Hte]%guard_err_Ok%orb_false_iff & H).
    apply bind_Ok in H as ([] & Hd%guard_err_Ok%negb_false_iff%is_daemonset_pod_true & H).
    apply bind_Ok in H as ([] & He%guard_err_Ok%is_empty_false & H).
    apply bind_Ok in H as ([] & Hc & [= <-]). rewrite node_claim_Ok in Hc.
    split. exists review, pod. naive_solver.
  - intros [(review & pod & Ht & Hr & Hu & (name & Hn & Hp) & Hi & Hte & Hd & <- & He & Hc)].
    apply is_empty_false in Ht, He. apply String.eqb_eq in Hu.
    apply is_daemonset_pod_true in Hd. rewrite <- node_claim_Ok in Hc.
    rewrite Ht, Hr. simpl. rewrite Hu. simpl. rewrite Hn, Hi, Hp. simpl.
    rewrite String.eqb_refl, Hte. simpl. rewrite Hd. simpl. rewrite He. simpl.
    by rewrite Hc.
Qed.

Lemma attest_pod_Ok K token node pod :
  attest_pod cfg K token node = Ok pod <-> pod_attested K token node pod.
Proof.
  unfold attest_pod. split.
  - intros ([] & Ht%guard_err_Ok%is_empty_false & H)%bind_Ok.
    apply bind_Ok in H as (o & Hr%map_err_Ok & H).
    apply bind_Ok in H as (review & ->%ok_or_Ok & H).
    destruct (review_service_account review) as [[ns sa]|] eqn:Hsa; [|done].
    destruct (r_pod_name review) as [name|] eqn:Hn; [|done].
    destruct (r_pod_uid review) as [uid|] eqn:Hi; [|done].
    apply bind_Ok in H as (o & Hp%map_err_Ok & H).
    apply bind_Ok in H as (pod' & ->%ok_or_Ok & H).
    apply bind_Ok in H as ([] & Hui%guard_err_Ok%negb_false_iff%String.eqb_eq & H).
    apply bind_Ok in H as ([] & Hte%guard_err_Ok & H).
    apply bind_Ok in H as ([] & Hs%guard_err_Ok%negb_false_iff%String.eqb_eq & H).
    apply bind_Ok in H as ([] & Hno%guard_err_Ok%negb_false_iff%String.eqb_eq & H).
    apply bind_Ok in H as ([] & Hc & [= <-]). rewrite node_claim_Ok in Hc.
    split. exists review, ns. naive_solver.
  - intros [(review & ns & Ht & Hr & Hsa & (name & Hn & Hp) & Hi & Hte & <- & Hc)].
    apply is_empty_false in Ht. rewrite <- node_claim_Ok in Hc.
    rewrite Ht, Hr. simpl. rewrite Hsa, Hn, Hi, Hp. simpl.
    rewrite String.eqb_refl, Hte. simpl. rewrite !String.eqb_refl. simpl. by rewrite Hc.
Qed.

(** ** Admission *)

(** I8 and I9, as the design states them. *)
Record admitted (catalog : Catalog) (pod : Pod) : Prop := {
  ad_namespace : p_namespace pod ∉ denied_namespaces cfg;
  ad_account : p_service_account pod <> "default";
  ad_allowlist : allowlist catalog = true ->
    is_Some (lookup catalog (cfg_cluster cfg) (p_namespace pod) (p_service_account pod));
  ad_sensitive : forall e,
    lookup catalog (cfg_cluster cfg) (p_namespace pod) (p_service_account pod) = Some e ->
    i_sensitive e = true ->
    Forall (fun image => contains_str "@sha256:" image = true /\
      exists r, r ∈ registries catalog /\ starts_with r image = true) (images pod);
}.

Lemma check_image_Ok catalog image :
  check_image catalog image = Ok tt <->
  contains_str "@sha256:" image = true /\
  exists r, r ∈ registries catalog /\ starts_with r image = true.
Proof.
  unfold check_image. rewrite bind_Ok.
  setoid_rewrite guard_err_Ok. setoid_rewrite negb_false_iff.
  setoid_rewrite existsb_exists. setoid_rewrite list_elem_of_In.
  split; [intros (_ & H); done|intros H; by exists tt].
Qed.

Lemma admit_Ok catalog pod : admit_pod cfg catalog pod = Ok tt <-> admitted catalog pod.
Proof.
  unfold admit_pod. set (entry := lookup _ _ _ _). split.
  - intros ([] & Hns%guard_err_Ok%bool_decide_eq_false & H)%bind_Ok.
    apply bind_Ok in H as ([] & Hsa%guard_err_Ok%string_eqb_false & H).
    apply bind_Ok in H as ([] & Hal%guard_err_Ok & H).
    split; [done|done| |].
    + intros Ha. rewrite Ha in Hal. apply bool_decide_eq_false in Hal.
      by apply not_eq_None_Some.
    + fold entry. intros e He Hse. rewrite He, Hse in H. apply for_each_Ok in H.
      eapply Forall_impl; [exact H|]. intros image. apply check_image_Ok.
  - intros [Hns Hsa Hal Hse]. fold entry in Hal, Hse.
    rewrite (bool_decide_eq_false_2 _ Hns). simpl.
    apply string_eqb_false in Hsa. rewrite Hsa. simpl.
    assert (allowlist catalog && bool_decide (entry = None) = false) as ->.
    { destruct (allowlist catalog); [|done]. simpl. apply bool_decide_eq_false.
      by apply not_eq_None_Some, Hal. }
    simpl. destruct entry as [e|]; [|done]. destruct (i_sensitive e) eqn:Hs; [|done].
    apply for_each_Ok. eapply Forall_impl; [by apply (Hse e)|].
    intros image. apply check_image_Ok.
Qed.

Lemma hints_Ok body pod :
  for_each check_hint (hints body pod) = Ok tt <->
  Forall (fun h => fst h = "" \/ fst h = snd h) (hints body pod).
Proof.
  rewrite for_each_Ok. apply Forall_proper; [|done]. intros [h a]. unfold check_hint. simpl.
  rewrite guard_err_Ok, andb_false_iff, !negb_false_iff, is_empty_true, String.eqb_eq.
  done.
Qed.
End attestation.

(** ** The whole path *)

Section sign_theorems.
Context {R : RegexLite} {X : X509Parser}.
Context (cfg : Config) (policy : IdPolicy) (catalog : Catalog).

(** What the broker must have established before Vault is asked. *)
Record authorized (Kn Kp : Kube) (node_token : string) (body : SignBody)
    (node : string) (pod : Pod) (id : SpiffeId) : Prop := {
  au_node : node_attested cfg Kn node_token node;
  au_pod : pod_attested cfg Kp (pod_token body) node pod;
  au_hints : Forall (fun h => fst h = "" \/ fst h = snd h) (hints body pod);
  au_admitted : admitted cfg catalog pod;
  au_csr : csr_acceptable (csr body);
  au_id : IdPolicy_render policy (attested_attrs cfg node pod) = Ok id;
  au_expected : sb_spiffe_id body = "" \/ sb_spiffe_id body = SpiffeId_as_str id;
}.

Lemma expected_Ok (hint id : string) (r : Refusal) :
  guard_err (negb (is_empty hint) && negb (String.eqb hint id)) r = Ok tt <->
  hint = "" \/ hint = id.
Proof.
  by rewrite guard_err_Ok, andb_false_iff, !negb_false_iff, is_empty_true, String.eqb_eq.
Qed.

Lemma authorize_Ok Kn Kp node_token body node pod id :
  authorize cfg policy catalog Kn Kp node_token body = Ok (node, pod, id) <->
  authorized Kn Kp node_token body node pod id.
Proof.
  unfold authorize. split.
  - intros (n & Hn%attest_node_Ok & H)%bind_Ok.
    apply bind_Ok in H as (p & Hp%attest_pod_Ok & H).
    apply bind_Ok in H as ([] & Hh%hints_Ok & H).
    apply bind_Ok in H as ([] & Ha%admit_Ok & H).
    apply bind_Ok in H as ([] & Hc%map_err_Ok%csr_check_Ok & H).
    apply bind_Ok in H as (i & Hi%map_err_Ok & H).
    apply bind_Ok in H as ([] & He%expected_Ok & [= <- <- <-]). by split.
  - intros [Hn Hp Hh Ha Hc Hi He].
    apply attest_node_Ok in Hn. apply attest_pod_Ok in Hp. apply hints_Ok in Hh.
    apply admit_Ok in Ha. apply csr_check_Ok in Hc.
    apply (expected_Ok _ _ (BadRequest "I7")) in He.
    rewrite Hn. cbn [mbind result_bind]. rewrite Hp. cbn [mbind result_bind].
    rewrite Hh. cbn [mbind result_bind]. rewrite Ha. cbn [mbind result_bind].
    rewrite Hc. cbn [mbind result_bind map_err]. rewrite Hi. cbn [mbind result_bind map_err].
    by rewrite He.
Qed.

(** What [sign] does, by its answer. *)
Lemma sign_run (Kn Kp : Kube) (I : Issuer) (node_token : string) (body : SignBody)
    (now : Z) (st : SignerState) `{!IssuerSound I} :
  match sign cfg policy catalog Kn Kp I node_token body now st with
  | (Ok s, st') => exists pod req,
      authorized Kn Kp node_token body (s_node s) pod (s_spiffe_id s) /\
      s_namespace s = p_namespace pod /\ s_pod s = p_name pod /\ s_pod_uid s = p_uid pod /\
      req = sign_request cfg (s_node s) (s_spiffe_id s) (csr body) /\
      vault_calls st' = vault_calls st ++ [(now, req)] /\
      issuer_sign req = Ok (s_bundle s) /\
      inspect (cert_chain_pem (s_bundle s)) =
        Ok (mkFacts (s_spiffe_id s) (b_not_before (s_bundle s)) (b_not_after (s_bundle s)))
  | (Err r, st') =>
      vault_calls st' = vault_calls st \/
      exists node pod id e, authorized Kn Kp node_token body node pod id /\
        vault_calls st' = vault_calls st ++ [(now, sign_request cfg node id (csr body))] /\
        issuer_sign (sign_request cfg node id (csr body)) = Err e /\ r = from_vault e
  end.
Proof.
  unfold sign. destruct (authorize _ _ _ _ _ _ _) as [[[node pod] id]|r] eqn:Ha; [|by left].
  apply authorize_Ok in Ha.
  destruct (Window_check _ _ _) as [[] rate]; simpl; [|by left].
  destruct (Distinct_allow _ _ _ _) as [[] ids]; simpl; [|by left].
  destruct (issuer_sign _) as [b|e] eqn:Hs; simpl.
  - exists pod, (sign_request cfg node id (csr body)).
    split_and!; try done. by apply issuer_sign_identity in Hs.
  - right. by exists node, pod, id, e.
Qed.

(** C1: No certificate without attestation.  [sign] returns a certificate only
    for a pod the API server vouches for - live, bound to the presented token,
    running on the node whose own token was presented (I1, I3, I4, I5) -
    admitted by the catalog rules (I8, I9), with an acceptable CSR (I6) and an
    ID rendered from the attested attributes and this broker's own cluster
    (I2, I7).  Vault has then been asked exactly once, for that ID, that CSR
    and the clamped TTL (I11), and the certificate returned carries that ID.
    A refusal either never reached Vault or reports Vault's own answer to such
    a request. *)
Theorem sign_sound (Kn Kp : Kube) (I : Issuer) (node_token : string) (body : SignBody)
    (now : Z) (st : SignerState) `{!IssuerSound I} :
  match sign cfg policy catalog Kn Kp I node_token body now st with
  | (Ok s, st') => exists pod req,
      authorized Kn Kp node_token body (s_node s) pod (s_spiffe_id s) /\
      s_namespace s = p_namespace pod /\ s_pod s = p_name pod /\ s_pod_uid s = p_uid pod /\
      req = sign_request cfg (s_node s) (s_spiffe_id s) (csr body) /\
      vault_calls st' = vault_calls st ++ [(now, req)] /\
      issuer_sign req = Ok (s_bundle s) /\
      inspect (cert_chain_pem (s_bundle s)) =
        Ok (mkFacts (s_spiffe_id s) (b_not_before (s_bundle s)) (b_not_after (s_bundle s)))
  | (Err r, st') =>
      vault_calls st' = vault_calls st \/
      exists node pod id e, authorized Kn Kp node_token body node pod id /\
        vault_calls st' = vault_calls st ++ [(now, sign_request cfg node id (csr body))] /\
        issuer_sign (sign_request cfg node id (csr body)) = Err e /\ r = from_vault e
  end.
Proof. by apply sign_run. Qed.

(** C33: And conversely, an authorised request within both limits that Vault
    signs is answered with that certificate: the checks refuse nothing else. *)
Theorem sign_complete (Kn Kp : Kube) (I : Issuer) (node_token : string) (body : SignBody)
    (now : Z) (st : SignerState) (node : string) (pod : Pod) (id : SpiffeId)
    (b : IssuedBundle) :
  authorized Kn Kp node_token body node pod id ->
  fst (Window_check (node_rate st) node now) = true ->
  fst (Distinct_allow (node_identities st) node (SpiffeId_as_str id) now) = true ->
  issuer_sign (sign_request cfg node id (csr body)) = Ok b ->
  fst (sign cfg policy catalog Kn Kp I node_token body now st) =
    Ok (mkSigned id node (p_namespace pod) (p_name pod) (p_uid pod) b).
Proof.
  intros Ha%authorize_Ok Hr Hd Hs. unfold sign. rewrite Ha.
  destruct (Window_check _ _ _) as [[] rate]; [|done]. simpl.
  destruct (Distinct_allow _ _ _ _) as [[] ids]; [|done]. simpl. by rewrite Hs.
Qed.

(** The request's names are hints (I1).  Two requests that carry the same
    tokens and CSR, whatever else they say, are issued the same certificate
    for the same identity and leave the same state when both are answered: a
    hint can only cause a refusal. *)
Theorem sign_hints_never_used (Kn Kp : Kube) (I : Issuer) (node_token : string)
    (body body' : SignBody) (now : Z) (st : SignerState) (s s' : Signed) :
  pod_token body = pod_token body' -> csr body = csr body' ->
  fst (sign cfg policy catalog Kn Kp I node_token body now st) = Ok s ->
  fst (sign cfg policy catalog Kn Kp I node_token body' now st) = Ok s' ->
  sign cfg policy catalog Kn Kp I node_token body now st =
  sign cfg policy catalog Kn Kp I node_token body' now st.
Proof.
  intros Ht Hc H H'.
  unfold sign in *.
  destruct (authorize _ _ _ _ _ _ body) as [[[n p] i]|] eqn:Ha; [|done].
  destruct (authorize _ _ _ _ _ _ body') as [[[n' p'] i']|] eqn:Ha'; [|done].
  apply authorize_Ok in Ha as [Hn Hp _ _ _ Hi _]. apply authorize_Ok in Ha' as [Hn' Hp' _ _ _ Hi' _].
  apply attest_node_Ok in Hn, Hn'. rewrite Hn in Hn'. injection Hn' as <-.
  rewrite <- Ht in Hp'.
  apply attest_pod_Ok in Hp, Hp'. rewrite Hp in Hp'. injection Hp' as <-.
  rewrite Hi in Hi'. injection Hi' as <-. by rewrite Hc.
Qed.
End sign_theorems.

(** ** Limits over a whole run *)

Inductive signer_event :=
| EvSign (Kn Kp : Kube) (I : Issuer) (node_token : string) (body : SignBody) (now : Z)
| EvSweep (now : Z).

Definition event_time (e : signer_event) : Z :=
  match e with EvSign _ _ _ _ _ now | EvSweep now => now end.

(** When Vault was asked on behalf of a node. *)
Definition calls_for (node : string) (calls : list (Z * SignRequest)) : list Z :=
  fst <$> List.filter (fun c => String.eqb (sr_node_name (snd c)) node) calls.

Lemma calls_for_app node a b : calls_for node (a ++ b) = calls_for node a ++ calls_for node b.
Proof. unfold calls_for. by rewrite List.filter_app, fmap_app. Qed.

Section sign_runs.
Context {R : RegexLite} {X : X509Parser}.
Context (cfg : Config) (policy : IdPolicy) (catalog : Catalog).

Definition signer_step (st : SignerState) (e : signer_event) : SignerState :=
  match e with
  | EvSign Kn Kp Iss token body now =>
      snd (sign cfg policy catalog Kn Kp Iss token body now st)
  | EvSweep now => Signer_sweep st now
  end.

Fixpoint events_from (now : Z) (es : list signer_event) : Prop :=
  match es with
  | [] => True
  | e :: es => now <= event_time e /\ events_from (event_time e) es
  end.

(** What one event does to the rate window, as operations of it. *)
Definition rate_ops (st : SignerState) (e : signer_event) : list window_op :=
  match e with
  | EvSweep now => [OpSweep now]
  | EvSign Kn Kp Iss token body now =>
      match authorize cfg policy catalog Kn Kp token body with
      | Err _ => []
      | Ok (node, _, id) =>
          if fst (Window_check (node_rate st) node now)
             && negb (fst (Distinct_allow (node_identities st) node (SpiffeId_as_str id) now))
          then [OpCheck node now]
          else [OpAllow node now]
      end
  end.

Fixpoint run_ops (st : SignerState) (es : list signer_event) : list window_op :=
  match es with
  | [] => []
  | e :: es => rate_ops st e ++ run_ops (signer_step st e) es
  end.

Lemma signer_step_ops st e k :
  node_rate (signer_step st e) = snd (window_run (node_rate st) (rate_ops st e)) /\
  calls_for k (vault_calls (signer_step st e)) =
    calls_for k (vault_calls st)
      ++ accepted k (rate_ops st e) (fst (window_run (node_rate st) (rate_ops st e))).
Proof.
  destruct e as [Kn Kp Iss token body now|now]; simpl; [|by rewrite app_nil_r].
  unfold sign. destruct (authorize _ _ _ _ _ _ _) as [[[node pod] id]|r];
    simpl; [|by rewrite app_nil_r].
  unfold rate_ops.
  destruct (Window_check (node_rate st) node now) as [[] w] eqn:Hw; simpl; last first.
  { unfold Window_allow. rewrite Hw. simpl. by rewrite app_nil_r. }
  destruct (Distinct_allow _ _ _ _) as [[] ids]; simpl; last first.
  { rewrite Hw. simpl. by rewrite app_nil_r. }
  unfold Window_allow. rewrite Hw. simpl.
  destruct (issuer_sign _); simpl; rewrite calls_for_app;
    unfold calls_for at 2; simpl;
    destruct (String.eqb_spec node k), (decide (node = k)); try done.
Qed.

Lemma run_ops_accepted k es st :
  calls_for k (vault_calls (foldl signer_step st es)) =
  calls_for k (vault_calls st)
    ++ accepted k (run_ops st es) (fst (window_run (node_rate st) (run_ops st es))).
Proof.
  revert st. induction es as [|e es IH]; intros st; simpl; [by rewrite app_nil_r|].
  destruct (signer_step_ops st e k) as [Hr Hc]. rewrite IH, Hc, Hr, window_run_app.
  pose proof (window_run_length (node_rate st) (rate_ops st e)) as Hl.
  destruct (window_run (node_rate st) (rate_ops st e)) as [bs w]. simpl in *.
  destruct (window_run w _) as [cs w'] eqn:Hw. simpl.
  rewrite accepted_app by done. by rewrite app_assoc.
Qed.

Lemma run_ops_ok es now st :
  events_from now es -> monotone_from now (run_ops st es) /\ no_bare_record (run_ops st es).
Proof.
  revert now st. induction es as [|e es IH]; intros now st Hm; simpl; [split; [done|constructor]|].
  destruct Hm as [Hle Hm].
  destruct (IH _ (signer_step st e) Hm) as [IH1 IH2].
  assert (forall n, n <= event_time e -> monotone_from n (run_ops (signer_step st e) es)) as Hd.
  { intros n Hn. destruct (run_ops _ es); simpl in *; [done|]. split; [lia|tauto]. }
  destruct e as [Kn Kp Iss token body t|t]; simpl in *.
  - destruct (authorize _ _ _ _ _ _ _) as [[[node pod] id]|r]; simpl; [|by split; [apply Hd|]].
    destruct (_ && _); simpl; (split; [done|by constructor]).
  - split; [done|by constructor].
Qed.

(** C34: I10 end to end, for requests handled one after the other.  With a
    limit above zero and a clock that does not go back, whatever sequence of
    requests and sweeps the broker serves, with whatever tokens, bodies,
    API-server and Vault answers, Vault is asked to sign for a node at most
    [node_rate_per_minute] times in any 60 seconds.  Requests that overlap are
    not covered: the check and the record take the lock separately, and two
    that both check before either records exceed the limit
    ([Limit.window_allow_race]). *)
Theorem node_rate_enforced (es : list signer_event) (now : Z) (node : string) (T : Z) :
  0 < node_rate_per_minute cfg < 2 ^ 32 -> events_from now es ->
  Z.of_nat (length (in_window 60 T
    (calls_for node (vault_calls (foldl signer_step (Signer_new cfg) es)))))
  <= node_rate_per_minute cfg.
Proof.
  intros Hr He. destruct (run_ops_ok es now (Signer_new cfg) He) as [Hm Hn].
  rewrite run_ops_accepted. simpl. by apply (window_run_limit _ _ now).
Qed.

(** A refusal spends no budget.  A request that is turned away before
    Vault is asked leaves the distinct-identity sets as they were and changes
    no later answer of the rate limit, for any node: a flood of bad requests
    cannot lock a node out of its renewals. *)
Theorem refusal_spends_nothing (Kn Kp : Kube) (I : Issuer) (node_token : string)
    (body : SignBody) (now : Z) (st st' : SignerState) (r : Refusal) :
  0 <= d_limit (node_identities st) ->
  sign cfg policy catalog Kn Kp I node_token body now st = (Err r, st') ->
  vault_calls st' = vault_calls st ->
  node_identities st' = node_identities st /\
  forall k t, now <= t ->
    fst (Window_check (node_rate st') k t) = fst (Window_check (node_rate st) k t).
Proof.
  intros Hd Hs Hv. unfold sign in Hs.
  destruct (authorize _ _ _ _ _ _ _) as [[[node pod] id]|]; [|by simplify_eq].
  pose proof (fun k t => window_check_free (node_rate st) node k now t) as Hf.
  pose proof (distinct_refused_free (node_identities st) node (SpiffeId_as_str id) now Hd) as Hq.
  destruct (Window_check (node_rate st) node now) as [[] w]; simpl in *; [|by simplify_eq].
  destruct (Distinct_allow _ _ _ _) as [[] ids]; simpl in *; [|simplify_eq/=; by rewrite Hq].
  exfalso. destruct (issuer_sign _); simplify_eq/=.
  apply (f_equal length) in Hv. rewrite length_app in Hv. simpl in Hv. lia.
Qed.
End sign_runs.

(** ** The identity that is issued *)

Section identity.
Context {R : RegexLite} `{!RegexSpec R} {X : X509Parser}.
Context (cfg : Config) (policy : IdPolicy) (catalog : Catalog).

(** C15: The identity issued is the pod token's, in this broker's cluster.
    With a slash-separated template, and an API server that returns pods from
    the namespace it was asked for, the attributes that recovery and the token
    port read back from an issued ID name this broker's cluster and, when the
    template names both the namespace and the ServiceAccount, these two are the
    ones the pod token authenticated as. *)
Theorem issued_identity_is_the_tokens (Kn Kp : Kube) (I : Issuer) (node_token : string)
    (body : SignBody) (now : Z) (st : SignerState) (s : Signed) :
  id_policy cfg = Ok policy ->
  slash_separated (parts (template policy)) = true ->
  (forall ns name pod, kube_pod (Kube := Kp) ns name = Ok (Some pod) -> p_namespace pod = ns) ->
  fst (sign cfg policy catalog Kn Kp I node_token body now st) = Ok s ->
  exists attrs review,
    IdPolicy_attributes_of policy (SpiffeId_as_str (s_spiffe_id s)) = Some attrs /\
    cluster attrs = cfg_cluster cfg /\
    token_review (Kube := Kp) (pod_token body) (cfg_audience cfg) = Ok (Some review) /\
    (Namespace ∈ fields (template policy) -> ServiceAccount ∈ fields (template policy) ->
     review_service_account review = Some (namespace attrs, service_account attrs)).
Proof.
  intros Hpol Hsl Hk Hs. unfold sign in Hs.
  destruct (authorize _ _ _ _ _ _ _) as [[[node pod] id]|] eqn:Ha; [|done].
  assert (s_spiffe_id s = id) as ->.
  { repeat (case_match; simplify_eq/=; try done). }
  apply authorize_Ok in Ha as [_ [(review & ns & _ & Hr & Hsa & (name & _ & Hp) & _)] _ _ _ Hid _].
  apply bind_Ok in Hid as (id' & Hren & Hid). apply bind_Ok in Hid as (_ & _ & [= ->]).
  apply bind_Ok in Hpol as (p' & Hnew%map_err_Ok & Hpol).
  apply bind_Ok in Hpol as ([] & Hcl%guard_err_Ok%negb_false_iff%bool_decide_eq_true & [= ->]).
  apply bind_Ok in Hnew as (t & Hcomp & Hpat).
  assert (template policy = t) as <-.
  { destruct (spiffe_id_pattern cfg); [|by injection Hpat as <-].
    by apply bind_Ok in Hpat as (? & _ & [= <-]). }
  destruct (render_attributes_back _ _ _ _ Hcomp Hsl Hren) as (attrs & Hat & Hget).
  exists attrs, review. split; [done|].
  pose proof (Hget Cluster) as Hc. rewrite bool_decide_eq_true_2 in Hc by done.
  split; [done|]. split; [done|]. intros Hn Hsv.
  pose proof (Hget Namespace) as H1. rewrite bool_decide_eq_true_2 in H1 by done.
  pose proof (Hget ServiceAccount) as H2. rewrite bool_decide_eq_true_2 in H2 by done.
  simpl in H1, H2. rewrite H1, H2, Hsa. by rewrite (Hk _ _ _ Hp).
Qed.
End identity.

(** ** Witnesses: one node, one pod *)

Module SignWitness.
#[local] Existing Instance MiniRegex.engine.
#[local] Existing Instance MiniRegex.engine_spec.

Definition cfg : Config := BrokerConfigWitness.cfg.

Definition policy : IdPolicy := mkPolicy TemplateWitness.default None None.

Definition catalog : Catalog :=
  mkCatalog 1 "example.org" DEFAULT_PATH_TEMPLATE true
    [mkIdentity "*" "payments" "api" None true []] ["registry.example/"].

Definition node_pod : Pod :=
  mkPod "svidlet-system" "svidlet-node-x" "u-node" "node-1" "svidlet-node" false []
    [("DaemonSet", "svidlet-node")].
Definition pod : Pod :=
  mkPod "payments" "api-7d9f" "u-pod" "node-1" "api" false
    ["registry.example/api@sha256:00"] [].

Definition kube : Kube := {|
  token_review := fun token aud =>
    if String.eqb token "nt" then
      Ok (Some (mkReview "system:serviceaccount:svidlet-system:svidlet-node"
                  (Some "svidlet-node-x") (Some "u-node") (Some "node-1")))
    else if String.eqb token "pt" then
      Ok (Some (mkReview "system:serviceaccount:payments:api" (Some "api-7d9f") (Some "u-pod") None))
    else Ok None;
  kube_pod := fun ns name =>
    if String.eqb ns "svidlet-system" && String.eqb name "svidlet-node-x"
    then Ok (Some node_pod)
    else if String.eqb ns "payments" && String.eqb name "api-7d9f" then Ok (Some pod)
    else Ok None |}.

Definition id : SpiffeId := mkSpiffeId "spiffe://example.org/cluster/a/ns/payments/sa/api".

(** A parser that knows one CSR and one certificate. *)
#[local] Instance parser : X509Parser := {|
  parse_x509_pem := fun pem =>
    if String.eqb pem "csr" then Some ("CERTIFICATE REQUEST", "csr")
    else if String.eqb pem "chain" then Some ("CERTIFICATE", "chain") else None;
  cert_from_der := fun der =>
    if String.eqb der "chain"
    then Some (mkX509 false 100 200 (Ok (Some [URI (SpiffeId_as_str id)])) "01" "k") else None;
  csr_from_der := fun der =>
    if String.eqb der "csr"
    then Some (mkCertRequest true ec_public_key (Some p256)
      (Some [SubjectAlternativeName [URI (SpiffeId_as_str id)]]) [] "k") else None |}.

Definition bundle : IssuedBundle := mkBundle "chain" "ca" 200 100.

(** A backend that signs that one identity. *)
Definition issuer : Issuer := {|
  issuer_sign := fun req => checked_bundle req "chain" "ca";
  issuer_ca_chain := Ok "ca" |}.

#[local] Instance issuer_sound : IssuerSound issuer.
Proof. split. intros req b. apply checked_bundle_sound. Defined.

Definition body : SignBody := mkSignBody "pt" "payments" "" "" "api" "csr" "".
Definition body' : SignBody := mkSignBody "pt" "" "api-7d9f" "" "" "csr" (SpiffeId_as_str id).
Definition signed : Signed := mkSigned id "node-1" "payments" "api-7d9f" "u-pod" bundle.

Lemma authorized_body : authorized cfg policy catalog kube kube "nt" body "node-1" pod id.
Proof. apply authorize_Ok. vm_compute. reflexivity. Qed.

Lemma sign_sound_witness :
  fst (sign cfg policy catalog kube kube issuer "nt" body 150 (Signer_new cfg)) = Ok signed /\
  exists pod req, authorized cfg policy catalog kube kube "nt" body "node-1" pod id /\
    req = sign_request cfg "node-1" id "csr" /\ issuer_sign (Issuer := issuer) req = Ok bundle.
Proof.
  split; [vm_compute; reflexivity|].
  pose proof (sign_sound cfg policy catalog kube kube issuer "nt" body 150 (Signer_new cfg)) as H.
  vm_compute sign in H. cbn [s_node s_spiffe_id s_namespace] in H.
  destruct H as (p & req & H1 & _ & _ & _ & H2 & _ & H3 & _).
  exists p, req. split; [exact H1|]. split; [exact H2|exact H3].
Defined.

Lemma sign_complete_witness :
  fst (sign cfg policy catalog kube kube issuer "nt" body 150 (Signer_new cfg)) = Ok signed.
Proof.
  apply (sign_complete cfg policy catalog kube kube issuer "nt" body 150 (Signer_new cfg)
           "node-1" pod id bundle).
  - exact authorized_body.
  - reflexivity.
  - vm_compute. reflexivity.
  - vm_compute. reflexivity.
Defined.

Lemma sign_hints_never_used_witness :
  sign cfg policy catalog kube kube issuer "nt" body 150 (Signer_new cfg) =
  sign cfg policy catalog kube kube issuer "nt" body' 150 (Signer_new cfg).
Proof.
  apply (sign_hints_never_used cfg policy catalog kube kube issuer "nt" body body' 150
           (Signer_new cfg) signed signed); vm_compute; reflexivity.
Defined.

Lemma node_rate_enforced_witness :
  Z.of_nat (length (in_window 60 150 (calls_for "node-1" (vault_calls
    (foldl (signer_step cfg policy catalog) (Signer_new cfg)
       [EvSign kube kube issuer "nt" body 100; EvSweep 120;
        EvSign kube kube issuer "nt" body' 150]))))) <= 120.
Proof.
  apply (node_rate_enforced cfg policy catalog _ 0 "node-1" 150); simpl; lia.
Defined.

(** A second identity on a node limited to one. *)
Definition full : SignerState :=
  mkSigner (Window_new 120 60) (mkDistinct 1 3600 {[ "node-1" := (100, {[ "other" ]}) ]}) [].

Lemma refusal_spends_nothing_witness :
  fst (sign cfg policy catalog kube kube issuer "nt" body 150 full) = Err (TooMany "I10") /\
  node_identities (snd (sign cfg policy catalog kube kube issuer "nt" body 150 full)) =
    node_identities full.
Proof.
  split; [vm_compute; reflexivity|].
  refine (proj1 (refusal_spends_nothing cfg policy catalog kube kube issuer "nt" body 150 full
           _ (TooMany "I10") _ _ _)).
  - simpl. lia.
  - vm_compute. reflexivity.
  - vm_compute. reflexivity.
Defined.

Lemma issued_identity_is_the_tokens_witness :
  exists attrs review,
    IdPolicy_attributes_of policy (SpiffeId_as_str id) = Some attrs /\
    cluster attrs = "a" /\
    token_review (Kube := kube) "pt" (cfg_audience cfg) = Ok (Some review) /\
    (Namespace ∈ fields (template policy) -> ServiceAccount ∈ fields (template policy) ->
     review_service_account review = Some (namespace attrs, service_account attrs)).
Proof.
  refine (issued_identity_is_the_tokens cfg policy catalog kube kube issuer "nt" body 150
            (Signer_new cfg) signed _ _ _ _).
  - vm_compute. reflexivity.
  - reflexivity.
  - intros ns name p. simpl.
    destruct (String.eqb_spec ns "svidlet-system"), (String.eqb_spec name "svidlet-node-x");
      simpl; try (intros [= <-]; simpl; congruence);
      destruct (String.eqb_spec ns "payments"), (String.eqb_spec name "api-7d9f"); simpl;
      try (intros [= <-]; simpl; congruence); congruence.
  - vm_compute. reflexivity.
Defined.
End SignWitness.
