(* ===== verification/Jwt.v ===== *)
(** * Reading JWT-SVIDs and JWKS documents  (svidlet-issue/src/jwt.rs)

    Base64 and JSON decoding are third-party code ([JwtCodec]); the checks on
    what they return are defined here.  Claim times are [i64] and their
    arithmetic wraps, as in a release build. *)

From S2P Require Import Prelude RustStr Errors.
Open Scope list_scope.
Open Scope Z_scope.

Record Header := mkHeader { alg : string; kid : string }.

Record Claims := mkClaims {
  sub : string;
  aud : list string;
  iss : string;
  exp : Z;
  iat : Z;
  jti : string;
}.

(** [aud] is a string, an array of strings, or absent. *)
Inductive JwtAudience :=
| One (a : string)
| Many (l : list string)
| NoAudience.

Record RawClaims := mkRawClaims {
  rc_sub : string;
  rc_aud : JwtAudience;
  rc_iss : string;
  rc_exp : Z;
  rc_iat : Z;
  rc_jti : string;
}.

Record Unverified := mkUnverified { header : Header; claims : Claims }.

Definition lifetime (t : Unverified) : Z := Z.max (wrap_i64 (exp (claims t) - iat (claims t))) 0.

Definition past_half_life (t : Unverified) (now : Z) : bool :=
  let half := wrap_i64 (iat (claims t) + lifetime t / 2) in
  half <=? now.

Record RawJwk := mkRawJwk {
  k_kid : string; kty : string; crv : string;
  k_x : string; k_y : string; k_n : string; k_e : string;
}.

Record Jwks := mkJwks { kids : gset string }.

Definition Jwks_contains (j : Jwks) (k : string) : bool := bool_decide (k ∈ kids j).
Definition Jwks_len (j : Jwks) : nat := size (kids j).
Definition Jwks_is_empty (j : Jwks) : bool := bool_decide (kids j = ∅).

Class JwtCodec := {
  (** [URL_SAFE_NO_PAD.decode]. *)
  b64_decode : string -> option string;
  json_header : string -> option Header;
  json_claims : string -> option RawClaims;
  json_jwks : string -> option (list RawJwk);
}.

Section jwt.
Context {C : JwtCodec}.

Definition b64 (part : string) : result Error string :=
  ok_or Protocol (b64_decode (trim_end_char "=" part)).

Definition audience_list (a : JwtAudience) : list string :=
  match a with One a => [a] | Many l => l | NoAudience => [] end.

Definition decode_unverified (token : string) : result Error Unverified :=
  match split_char "." token with
  | [h; c; sig] =>
      _ ← guard_err (is_empty sig) Protocol;
      hb ← b64 h;
      header ← ok_or Protocol (json_header hb);
      _ ← guard_err (eq_ignore_ascii_case (alg header) "none") Protocol;
      cb ← b64 c;
      raw ← ok_or Protocol (json_claims cb);
      Ok (mkUnverified header
            (mkClaims (rc_sub raw) (audience_list (rc_aud raw)) (rc_iss raw)
                      (rc_exp raw) (rc_iat raw) (rc_jti raw)))
  | _ => Err Protocol
  end.

(** One key of the set. *)
Definition check_key (key : RawJwk) : result Error unit :=
  _ ← guard_err (is_empty (k_kid key)) Protocol;
  if String.eqb (kty key) "EC" then
    _ ← guard_err (negb (existsb (String.eqb (crv key)) ["P-256"; "P-384"; "P-521"])) Protocol;
    _ ← b64 (k_x key);
    _ ← b64 (k_y key);
    Ok tt
  else if String.eqb (kty key) "RSA" then
    n ← b64 (k_n key);
    _ ← guard_err (String.length n <? 256)%nat Protocol;
    _ ← b64 (k_e key);
    Ok tt
  else Err Protocol.

Fixpoint collect_kids (acc : gset string) (keys : list RawJwk) : result Error (gset string) :=
  match keys with
  | [] => Ok acc
  | key :: keys =>
      _ ← check_key key;
      _ ← guard_err (bool_decide (k_kid key ∈ acc)) Protocol;
      collect_kids ({[ k_kid key ]} ∪ acc) keys
  end.

Definition Jwks_parse (json : string) : result Error Jwks :=
  keys ← ok_or Protocol (json_jwks json);
  kids ← collect_kids ∅ keys;
  Ok (mkJwks kids).

(** ** Properties *)

(** The point at which a cached token stops being served.  For a token
    whose times are ordinary dates, [past_half_life] is false exactly while
    strictly more than half of its life (rounded up) remains, so a token
    served from the cache always has at least half its lifetime left; a token
    that expires no later than it was issued is never served. *)
Theorem half_life_spec (t : Unverified) (now : Z) :
  0 <= iat (claims t) < 2 ^ 62 -> 0 <= exp (claims t) < 2 ^ 62 ->
  (past_half_life t now = false ->
     lifetime t <= 2 * (exp (claims t) - now) \/ lifetime t = 0 /\ now < iat (claims t)) /\
  (past_half_life t now = true -> 2 * (exp (claims t) - now) <= lifetime t + 1 \/
     exp (claims t) <= iat (claims t)).
Proof.
  intros Hi He. unfold past_half_life, lifetime.
  rewrite (wrap_i64_id (exp _ - iat _)) by (unfold in_i64, i64_min, i64_max; lia).
  set (L := Z.max (exp (claims t) - iat (claims t)) 0).
  assert (0 <= L < 2 ^ 62) by lia.
  pose proof (Z.div_mod L 2 ltac:(lia)) as Hd. pose proof (Z.mod_pos_bound L 2 ltac:(lia)).
  rewrite wrap_i64_id by (unfold in_i64, i64_min, i64_max; lia).
  destruct (Z.leb_spec (iat (claims t) + L / 2) now); split; try done; intros _; lia.
Qed.

Lemma decode_Ok token u :
  decode_unverified token = Ok u ->
  exists h c sig, split_char "." token = [h; c; sig] /\ sig <> "" /\
    eq_ignore_ascii_case (alg (header u)) "none" = false.
Proof.
  unfold decode_unverified. intros H.
  destruct (split_char "." token) as [|h [|c [|sig []]]]; try done.
  apply bind_Ok in H as ([] & Hs%guard_err_Ok%is_empty_false & H).
  apply bind_Ok in H as (hb & _ & H). apply bind_Ok in H as (hd & _ & H).
  apply bind_Ok in H as ([] & Ha%guard_err_Ok & H).
  apply bind_Ok in H as (cb & _ & H). apply bind_Ok in H as (rc & _ & [= <-]). eauto 10.
Qed.

Lemma collect_kids_Ok acc keys ks :
  collect_kids acc keys = Ok ks ->
  Forall (fun key => check_key key = Ok tt) keys /\ NoDup (k_kid <$> keys) /\
  Forall (fun key => k_kid key ∉ acc) keys /\
  ks = list_to_set (k_kid <$> keys) ∪ acc.
Proof.
  revert acc. induction keys as [|key keys IH]; simpl; intros acc H.
  { injection H as <-. split_and!; try constructor. set_solver. }
  apply bind_Ok in H as ([] & Hk & H).
  apply bind_Ok in H as ([] & Hn%guard_err_Ok%bool_decide_eq_false & H).
  destruct (IH _ H) as (Hf & Hnd & Hacc & ->). split_and!.
  - by constructor.
  - constructor; [|done]. intros (k' & He & Hin)%list_elem_of_fmap.
    rewrite Forall_forall in Hacc. specialize (Hacc _ Hin). set_solver.
  - constructor; [done|]. eapply Forall_impl; [exact Hacc|]. intros k' ?. set_solver.
  - set_solver.
Qed.

(** A JWKS that is accepted is one relying parties can use: every key has
    a [kid] and passed the key checks, no [kid] appears twice, and the set
    answers [contains] exactly for the [kid]s in the document. *)
Theorem jwks_parse_sound (json : string) (j : Jwks) :
  Jwks_parse json = Ok j ->
  exists keys, json_jwks json = Some keys /\
    Forall (fun key => k_kid key <> "" /\ check_key key = Ok tt) keys /\
    NoDup (k_kid <$> keys) /\ Jwks_len j = length keys /\
    forall k, Jwks_contains j k = true <-> exists key, key ∈ keys /\ k_kid key = k.
Proof.
  unfold Jwks_parse. intros (keys & Hj%ok_or_Ok & H)%bind_Ok.
  apply bind_Ok in H as (ks & (Hf & Hnd & _ & ->)%collect_kids_Ok & [= <-]).
  exists keys. rewrite union_empty_r_L. split_and!; [done| |done| |].
  - eapply Forall_impl; [exact Hf|]. intros key Hk. split; [|done].
    unfold check_key in Hk. apply bind_Ok in Hk as ([] & He%guard_err_Ok & _).
    by apply is_empty_false.
  - unfold Jwks_len. cbn [kids]. rewrite size_list_to_set by done. apply length_fmap.
  - intros k. unfold Jwks_contains. cbn [kids]. rewrite bool_decide_eq_true.
    set_unfold. naive_solver.
Qed.
End jwt.

(** ** Witnesses: a codec that reads one token and one key set *)

Module JwtWitness.
#[export] Instance codec : JwtCodec := {|
  b64_decode := fun s => Some s;
  json_header := fun s => if String.eqb s "h" then Some (mkHeader "ES256" "k1") else None;
  json_claims := fun s =>
    if String.eqb s "c"
    then Some (mkRawClaims "spiffe://example.org/cluster/a/ns/payments/sa/api"
                 (One "db") "https://oidc.example" 1000 0 "j1")
    else None;
  json_jwks := fun s =>
    if String.eqb s "jwks" then Some [mkRawJwk "k1" "EC" "P-256" "x" "y" "" ""] else None |}.

Definition token : string := "h.c.s".
Definition parsed : Unverified :=
  mkUnverified (mkHeader "ES256" "k1")
    (mkClaims "spiffe://example.org/cluster/a/ns/payments/sa/api" ["db"]
       "https://oidc.example" 1000 0 "j1").

Lemma half_life_spec_witness :
  past_half_life parsed 499 = false /\ 1000 <= 2 * (1000 - 499).
Proof.
  split; [reflexivity|].
  destruct (half_life_spec parsed 499 ltac:(simpl; lia) ltac:(simpl; lia)) as [H _].
  destruct (H eq_refl) as [H1|[H1 _]]; [exact H1|discriminate H1].
Defined.

Lemma jwks_parse_sound_witness :
  Jwks_parse "jwks" = Ok (mkJwks {[ "k1" ]}) /\
  exists keys, json_jwks "jwks" = Some keys /\ NoDup (k_kid <$> keys).
Proof.
  assert (Jwks_parse "jwks" = Ok (mkJwks {[ "k1" ]})) as H by (vm_compute; reflexivity).
  split; [exact H|].
  destruct (jwks_parse_sound "jwks" _ H) as (keys & H1 & _ & H2 & _).
  exists keys. split; [exact H1|exact H2].
Defined.
End JwtWitness.
