(* ===== verification/Tokens.v ===== *)
(** * The token path  (svidlet-broker/src/tokens.rs)

    A caller's identity comes from its certificate ([caller_of], T1 and T2); a
    token comes from the cache or from Vault ([one], T3-T7).  [mints] records,
    for the theorems, every role and audience Vault was asked to mint.

    [mint] is Vault's SPIFFE engine and [fetch] the JWKS document, as they
    answer during one request: each is consulted at most once per audience and
    at most once per request, respectively. *)

From S2P Require Import Prelude RustStr Errors Template Catalog Limit BrokerConfig.
From S2P Require Import Certs Jwt.
Open Scope list_scope.
Open Scope Z_scope.

Record Caller := mkCaller {
  cl_spiffe_id : SpiffeId;
  cl_namespace : string;
  cl_service_account : string;
  cl_not_after : Z;
  cl_serial : string;
}.

Record Grant := mkGrant {
  g_alias : string;
  g_audience : string;
  g_token : string;
  g_exp : Z;
  g_jti : string;
  g_minted : bool;
}.

Record Cached := mkCached { c_token : string; c_parsed : Unverified }.

(** ** The JWKS as relying parties see it *)

Record JwksState := mkJwksState { js_jwks : option Jwks; forced_at : Z }.

Definition JwksSource_new : JwksState := mkJwksState None i64_min.

Definition jwks_has (js : JwksState) (kid : string) : option bool :=
  match js_jwks js with Some j => Some (Jwks_contains j kid) | None => None end.

Section jwks_source.
Context {C : JwtCodec}.

(** Fetch and replace; on failure the last good set stays. *)
Definition jwks_refresh (fetch : option string) (js : JwksState)
    : result Error nat * JwksState :=
  match fetch with
  | None => (Err Transport, js)
  | Some text =>
      match Jwks_parse text with
      | Err e => (Err e, js)
      | Ok jwks =>
          if Jwks_is_empty jwks then (Err Protocol, js)
          else (Ok (Jwks_len jwks), mkJwksState (Some jwks) (forced_at js))
      end
  end.

(** Refresh unless one ran in the last ten seconds. *)
Definition refresh_if_stale (fetch : option string) (now : Z) (js : JwksState) : JwksState :=
  if saturating_sub_i64 now (forced_at js) <? 10 then js
  else snd (jwks_refresh fetch (mkJwksState (js_jwks js) now)).
End jwks_source.

(** ** Tokens *)

Record TokensState := mkTokens {
  jwks : JwksState;
  cache : gmap (string * string) Cached;
  mint_rate : Window;
  mints : list (Z * (string * string));
}.

Definition Tokens_new (cfg : Config) : TokensState :=
  mkTokens JwksSource_new ∅ (Window_new (mint_rate_per_minute cfg) 60) [].

Section caller.
Context {R : RegexLite} {X : X509Parser}.
Context (cfg : Config) (policy : IdPolicy).

(** [Tokens::caller] on a leaf the TLS layer already verified. *)
Definition caller_of (leaf_der : string) (now : Z) : result Refusal Caller :=
  cert ← ok_or (Unauthenticated "T1") (cert_from_der leaf_der);
  _ ← guard_err (x_is_ca cert) (Unauthenticated "T1");
  _ ← guard_err ((now <? x_not_before cert) || (x_not_after cert <=? now))
        (Unauthenticated "T1");
  o ← map_err (fun _ => Unauthenticated "T1") (x_san cert);
  names ← ok_or (Unauthenticated "T1") o;
  match uris names with
  | [uri] =>
      spiffe_id ← map_err (fun _ => Unauthenticated "T1") (SpiffeId_parse uri);
      _ ← map_err (fun _ => Forbidden "T1") (IdPolicy_check policy (SpiffeId_as_str spiffe_id));
      attrs ← ok_or (Forbidden "T1")
                (IdPolicy_attributes_of policy (SpiffeId_as_str spiffe_id));
      _ ← guard_err (negb (String.eqb (trust_domain attrs) (cfg_trust_domain cfg))
                     && negb (is_empty (trust_domain attrs))) (Forbidden "T1");
      _ ← guard_err (negb (String.eqb (cluster attrs) (cfg_cluster cfg))) (Forbidden "T2");
      _ ← guard_err (is_empty (namespace attrs) || is_empty (service_account attrs))
            (Forbidden "T1");
      Ok (mkCaller spiffe_id (namespace attrs) (service_account attrs)
            (x_not_after cert) (x_serial cert))
  | _ => Err (Unauthenticated "T1")
  end.
End caller.

Section tokens.
Context {C : JwtCodec}.
Context (cfg : Config).

Definition entry_of (catalog : Catalog) (caller : Caller) : result Refusal CatIdentity :=
  ok_or (Forbidden "T3")
    (lookup catalog (cfg_cluster cfg) (cl_namespace caller) (cl_service_account caller)).

(** T5 and T6 for a cached token. *)
Definition servable (js : JwksState) (t : Unverified) (caller : Caller) (now : Z)
    : result Refusal bool :=
  if past_half_life t now || (cl_not_after caller <? exp (claims t)) then Ok false
  else match jwks_has js (kid (header t)) with
       | Some true => Ok true
       | Some false => Ok false
       | None => Err Unavailable
       end.

Definition grant (alias audience : string) (c : Cached) (minted : bool) : Grant :=
  mkGrant alias audience (c_token c) (exp (claims (c_parsed c))) (jti (claims (c_parsed c))) minted.

Definition role_of (caller : Caller) : string :=
  role_name (cfg_cluster cfg) (cl_namespace caller) (cl_service_account caller).

(** What a freshly minted token must pass before it is handed out: the
    subject and audience, T6 (refreshing the JWKS once), and T5. *)
Definition vet (fetch : option string) (caller : Caller) (audience : string) (now : Z)
    (parsed : Unverified) (js : JwksState) : result Refusal unit * JwksState :=
  if negb (String.eqb (sub (claims parsed)) (SpiffeId_as_str (cl_spiffe_id caller)))
     || negb (existsb (fun a => String.eqb a audience) (aud (claims parsed)))
  then (Err Internal, js)
  else
    let js' := if bool_decide (jwks_has js (kid (header parsed)) = Some true) then js
               else refresh_if_stale fetch now js in
    if negb (bool_decide (jwks_has js' (kid (header parsed)) = Some true))
    then (Err Unavailable, js')
    else if cl_not_after caller <? exp (claims parsed) then (Err Unavailable, js')
    else (Ok tt, js').

(** The Vault half of [one]. *)
Definition mint_one (mint : string -> string -> result Error string) (fetch : option string)
    (caller : Caller) (alias audience : string) (now : Z) (st : TokensState)
    : result Refusal Grant * TokensState :=
  let role := role_of caller in
  let '(allowed, rate) := Window_allow (mint_rate st) role now in
  if negb allowed
  then (Err (TooMany "T7"), mkTokens (jwks st) (cache st) rate (mints st))
  else
    let st := mkTokens (jwks st) (cache st) rate (mints st ++ [(now, (role, audience))]) in
    match mint role audience with
    | Err e => (Err (from_vault e), st)
    | Ok token =>
        match decode_unverified token with
        | Err _ => (Err Internal, st)
        | Ok parsed =>
            match vet fetch caller audience now parsed (jwks st) with
            | (Err r, js) => (Err r, mkTokens js (cache st) rate (mints st))
            | (Ok _, js) =>
                let fresh := mkCached token parsed in
                (Ok (grant alias audience fresh true),
                 mkTokens js (<[(role, audience) := fresh]> (cache st)) rate (mints st))
            end
        end
    end.

Definition one (mint : string -> string -> result Error string) (fetch : option string)
    (caller : Caller) (entry : CatIdentity) (audience : string) (now : Z) (st : TokensState)
    : result Refusal Grant * TokensState :=
  match find_audience entry audience with
  | None => (Err (Forbidden "T3"), st)
  | Some approved =>
      match cache st !! (role_of caller, audience) with
      | Some c =>
          match servable (jwks st) (c_parsed c) caller now with
          | Err r => (Err r, st)
          | Ok true => (Ok (grant (alias approved) audience c false), st)
          | Ok false => mint_one mint fetch caller (alias approved) audience now st
          end
      | None => mint_one mint fetch caller (alias approved) audience now st
      end
  end.

Definition single (mint : string -> string -> result Error string) (fetch : option string)
    (catalog : Catalog) (caller : Caller) (audience : string) (now : Z) (st : TokensState)
    : result Refusal Grant * TokensState :=
  match entry_of catalog caller with
  | Err r => (Err r, st)
  | Ok entry => one mint fetch caller entry audience now st
  end.

(** The loop of [all]: an audience Vault refuses outright is left out. *)
Fixpoint all_go (mint : string -> string -> result Error string) (fetch : option string)
    (caller : Caller) (entry : CatIdentity) (now : Z) (auds : list Audience)
    (st : TokensState) : result Refusal (list Grant) * TokensState :=
  match auds with
  | [] => (Ok [], st)
  | aud :: auds =>
      match one mint fetch caller entry (audience aud) now st with
      | (Ok g, st) =>
          match all_go mint fetch caller entry now auds st with
          | (Ok gs, st) => (Ok (g :: gs), st)
          | (Err r, st) => (Err r, st)
          end
      | (Err r, st) =>
          if bool_decide (r = Forbidden "vault")
          then all_go mint fetch caller entry now auds st
          else (Err r, st)
      end
  end.

Definition all (mint : string -> string -> result Error string) (fetch : option string)
    (catalog : Catalog) (caller : Caller) (now : Z) (st : TokensState)
    : result Refusal (list Grant) * TokensState :=
  match entry_of catalog caller with
  | Err r => (Err r, st)
  | Ok entry => all_go mint fetch caller entry now (i_audiences entry) st
  end.

(** Drop cached tokens past half-life or whose key is retired. *)
Definition keep_cached (js : JwksState) (now : Z) (c : Cached) : bool :=
  negb (past_half_life (c_parsed c) now)
  && negb (bool_decide (jwks_has js (kid (header (c_parsed c))) = Some false)).

Definition Tokens_sweep (now : Z) (st : TokensState) : TokensState :=
  mkTokens (jwks st) (filter (fun p => keep_cached (jwks st) now p.2 = true) (cache st))
    (mint_rate st) (mints st).

Definition Tokens_cached (st : TokensState) : nat := size (cache st).
End tokens.

(** ** Who the caller is *)

Section callers.
Context {R : RegexLite} {X : X509Parser}.
Context (cfg : Config) (policy : IdPolicy).

(** A caller's namespace and ServiceAccount are read from its own ID, and that
    ID belongs to this broker. *)
Record caller_ok (caller : Caller) : Prop := {
  co_attrs : exists attrs,
    IdPolicy_attributes_of policy (SpiffeId_as_str (cl_spiffe_id caller)) = Some attrs /\
    (trust_domain attrs = cfg_trust_domain cfg \/ trust_domain attrs = "") /\
    cluster attrs = cfg_cluster cfg /\
    namespace attrs = cl_namespace caller /\ service_account attrs = cl_service_account caller;
  co_namespace : cl_namespace caller <> "";
  co_account : cl_service_account caller <> "";
}.

Lemma caller_of_Ok leaf now caller :
  caller_of cfg policy leaf now = Ok caller ->
  caller_ok caller /\
  exists cert names, cert_from_der leaf = Some cert /\ x_is_ca cert = false /\
    x_not_before cert <= now < x_not_after cert /\ x_san cert = Ok (Some names) /\
    uris names = [SpiffeId_as_str (cl_spiffe_id caller)] /\
    SpiffeId_parse (SpiffeId_as_str (cl_spiffe_id caller)) = Ok (cl_spiffe_id caller) /\
    (forall re, pattern policy = Some re ->
       is_match re (SpiffeId_as_str (cl_spiffe_id caller)) = true) /\
    cl_not_after caller = x_not_after cert.
Proof.
  unfold caller_of. intros (cert & Hd%ok_or_Ok & H)%bind_Ok.
  apply bind_Ok in H as ([] & Hca%guard_err_Ok & H).
  apply bind_Ok in H as ([] & [Hb%Z.ltb_ge Ha%Z.leb_gt]%guard_err_Ok%orb_false_iff & H).
  apply bind_Ok in H as (o & Hsan%map_err_Ok & H).
  apply bind_Ok in H as (names & ->%ok_or_Ok & H).
  destruct (uris names) as [|uri [|]] eqn:Hu; try done.
  apply bind_Ok in H as (id & Hp%map_err_Ok & H).
  apply bind_Ok in H as ([] & Hpat%map_err_Ok & H).
  apply bind_Ok in H as (attrs & Hat%ok_or_Ok & H).
  apply bind_Ok in H as ([] & Htd%guard_err_Ok & H).
  apply bind_Ok in H as ([] & Hcl%guard_err_Ok%negb_false_iff%String.eqb_eq & H).
  apply bind_Ok in H as ([] & [Hn%is_empty_false Hs%is_empty_false]%guard_err_Ok%orb_false_iff
                         & [= <-]).
  apply andb_false_iff in Htd. rewrite !negb_false_iff, String.eqb_eq, is_empty_true in Htd.
  assert (SpiffeId_as_str id = uri) as <- by by apply SpiffeId_parse_str.
  split; [by split; eauto 10|].
  exists cert, names. split_and!; try done.
  intros re Hre. unfold IdPolicy_check in Hpat. rewrite Hre in Hpat.
  by apply guard_err_Ok, negb_false_iff in Hpat.
Qed.

Context `{!RegexSpec R}.

(** A template that names nothing but the four attributes of an identity. *)
Definition identity_shaped : Prop :=
  Forall (fun f => f ∈ [TrustDomain; Cluster; Namespace; ServiceAccount])
    (fields (template policy)).

Lemma caller_id_unique a b :
  template_wf (template policy) -> identity_shaped -> caller_ok a -> caller_ok b ->
  cl_namespace a = cl_namespace b -> cl_service_account a = cl_service_account b ->
  cl_spiffe_id a = cl_spiffe_id b.
Proof.
  intros Hwf Hsh [(x & Hx & Tx & Cx & Nx & Sx) _ _] [(y & Hy & Ty & Cy & Ny & Sy) _ _] Hn Hs.
  destruct (attributes_of_splice _ _ _ Hwf Hx) as [Ex Fx].
  destruct (attributes_of_splice _ _ _ Hwf Hy) as [Ey Fy].
  assert (get x <$> fields_of (parts (template policy)) =
          get y <$> fields_of (parts (template policy))) as Hg.
  { rewrite <- (wf_fields _ Hwf). apply list_fmap_ext. intros i f Hf.
    apply list_elem_of_lookup_2 in Hf.
    unfold identity_shaped in Hsh. rewrite Forall_forall in Hsh, Fx, Fy.
    specialize (Hsh f Hf). specialize (Fx f Hf). specialize (Fy f Hf).
    set_unfold in Hsh. destruct Hsh as [->|[->|[->|[->|[]]]]]; simpl in *; try congruence.
    destruct Tx as [->|Tx]; [|by rewrite Tx in Fx].
    destruct Ty as [->|Ty]; [done|by rewrite Ty in Fy]. }
  rewrite Hg, <- Ey in Ex.
  destruct (cl_spiffe_id a), (cl_spiffe_id b). simpl in Ex. by subst.
Qed.
End callers.

(** ** The cache invariant *)

Section token_theorems.
Context {R : RegexLite} {X : X509Parser} {C : JwtCodec}.
Context (cfg : Config) (policy : IdPolicy).

(** A caller the catalog names. *)
Definition known (caller : Caller) : Prop :=
  caller_ok cfg policy caller /\
  is_name (cl_namespace caller) = true /\ is_name (cl_service_account caller) = true.

(** A cached token was minted for its audience, and its subject is an ID that
    maps to the role it is filed under. *)
Definition cached_ok (key : string * string) (c : Cached) : Prop :=
  decode_unverified (c_token c) = Ok (c_parsed c) /\
  key.2 ∈ aud (claims (c_parsed c)) /\
  exists caller, known caller /\ role_of cfg caller = key.1 /\
    sub (claims (c_parsed c)) = SpiffeId_as_str (cl_spiffe_id caller).

Definition cache_ok (st : TokensState) : Prop := map_Forall cached_ok (cache st).

(** The state the JWKS can be in during one request. *)
Definition jwks_during (fetch : option string) (now : Z) (js js' : JwksState) : Prop :=
  js' = js \/ js' = refresh_if_stale fetch now js.

(** What every token handed out satisfies: approved (T3), for its audience,
    not outliving the certificate (T5), verifiable (T6), with a subject filed
    under the caller's own role (T4). *)
Record grant_ok (entry : CatIdentity) (caller : Caller) (now : Z) (js : JwksState)
    (audience : string) (g : Grant) : Prop := {
  go_approved : exists a, a ∈ i_audiences entry /\ alias a = g_alias g /\
    Catalog.audience a = audience /\ g_audience g = audience;
  go_token : exists u, decode_unverified (g_token g) = Ok u /\
    g_exp g = exp (claims u) /\ g_exp g <= cl_not_after caller /\
    audience ∈ aud (claims u) /\
    jwks_has js (kid (header u)) = Some true /\
    (g_minted g = false -> past_half_life u now = false) /\
    exists owner, known owner /\ role_of cfg owner = role_of cfg caller /\
      sub (claims u) = SpiffeId_as_str (cl_spiffe_id owner);
}.

Lemma jwks_refresh_forced fetch js : forced_at (snd (jwks_refresh fetch js)) = forced_at js.
Proof.
  unfold jwks_refresh. destruct fetch; [|done]. destruct (Jwks_parse s); [|done].
  by destruct (Jwks_is_empty a).
Qed.

Lemma refresh_if_stale_idem fetch now js :
  refresh_if_stale fetch now (refresh_if_stale fetch now js) = refresh_if_stale fetch now js.
Proof.
  unfold refresh_if_stale at 2 3.
  destruct (saturating_sub_i64 now (forced_at js) <? 10) eqn:E.
  { unfold refresh_if_stale. by rewrite E. }
  unfold refresh_if_stale. rewrite jwks_refresh_forced. simpl.
  unfold saturating_sub_i64. rewrite Z.sub_diag. by change (clamp_i64 0 <? 10) with true.
Qed.

Lemma vet_spec fetch caller audience now u js r js' :
  vet fetch caller audience now u js = (r, js') ->
  jwks_during fetch now js js' /\
  (r = Ok tt -> sub (claims u) = SpiffeId_as_str (cl_spiffe_id caller) /\
    audience ∈ aud (claims u) /\ jwks_has js' (kid (header u)) = Some true /\
    exp (claims u) <= cl_not_after caller).
Proof.
  unfold vet, jwks_during. intros H.
  destruct (String.eqb_spec (sub (claims u)) (SpiffeId_as_str (cl_spiffe_id caller)));
    simpl in H; [|simplify_eq; split; [by left|done]].
  destruct (existsb _ _) eqn:He; simpl in H; [|simplify_eq; split; [by left|done]].
  apply existsb_exists in He as (a & Ha%list_elem_of_In & ->%String.eqb_eq).
  set (j := if bool_decide (jwks_has js (kid (header u)) = Some true) then js
            else refresh_if_stale fetch now js) in *.
  assert (j = js \/ j = refresh_if_stale fetch now js) as Hj
    by (unfold j; destruct (bool_decide _); [by left|by right]).
  destruct (bool_decide (jwks_has j _ = Some true)) eqn:Hk; simpl in H; [|by simplify_eq].
  apply bool_decide_eq_true in Hk.
  destruct (Z.ltb_spec (cl_not_after caller) (exp (claims u))); by simplify_eq.
Qed.

Lemma mint_one_spec mint fetch caller alias' audience now st r st' :
  known caller -> cache_ok st ->
  mint_one cfg mint fetch caller alias' audience now st = (r, st') ->
  cache_ok st' /\ jwks_during fetch now (jwks st) (jwks st') /\
  match r with
  | Ok g => exists token u, mint (role_of cfg caller) audience = Ok token /\
      decode_unverified token = Ok u /\ g = grant alias' audience (mkCached token u) true /\
      sub (claims u) = SpiffeId_as_str (cl_spiffe_id caller) /\
      audience ∈ aud (claims u) /\ jwks_has (jwks st') (kid (header u)) = Some true /\
      exp (claims u) <= cl_not_after caller
  | Err e => e = Forbidden "vault" <-> mint (role_of cfg caller) audience = Err (Backend 403)
               /\ fst (Window_allow (mint_rate st) (role_of cfg caller) now) = true
  end.
Proof.
  intros Hk Hc H. unfold mint_one in H.
  destruct (Window_allow _ _ _) as [[] rate]; simpl in H; last first.
  { simplify_eq/=. split_and!; [done|by left|naive_solver]. }
  destruct (mint (role_of cfg caller) audience) as [token|e] eqn:Hm; last first.
  { simplify_eq/=. split_and!; [done|by left|]. rewrite from_vault_Forbidden. naive_solver. }
  destruct (decode_unverified token) as [u|] eqn:Hd; last first.
  { simplify_eq/=. split_and!; [done|by left|naive_solver]. }
  destruct (vet fetch caller audience now u (jwks st)) as [v js] eqn:Hv.
  pose proof (vet_spec _ _ _ _ _ _ _ _ Hv) as [Hj Hok].
  destruct v as [[]|e]; simplify_eq/=.
  - destruct (Hok eq_refl) as (Hs & Ha & Hh & He). split_and!; [|done|by exists token, u].
    apply map_Forall_insert_2; [|done]. split_and!; [done|done|]. by exists caller.
  - split_and!; [done|done|].
    unfold vet in Hv. repeat case_match; naive_solver.
Qed.

Lemma lookup_names catalog cl ns sa e :
  catalog_wf catalog -> lookup catalog cl ns sa = Some e ->
  is_name ns = true /\ is_name sa = true.
Proof.
  intros Hwf H. unfold lookup in H. apply fmap_Some in H as ([j i] & Hl & ->).
  apply lookup_at_Some in Hl as (Hi & <- & <- & _).
  apply list_elem_of_lookup_2 in Hi.
  pose proof (identities_wf _ Hwf) as Hf. rewrite Forall_forall in Hf.
  destruct (Hf _ Hi). done.
Qed.

Lemma entry_of_known catalog caller e :
  catalog_wf catalog -> caller_ok cfg policy caller -> entry_of cfg catalog caller = Ok e ->
  known caller.
Proof. intros Hw Hc He%ok_or_Ok. split; [done|]. by eapply lookup_names. Qed.

Lemma one_spec mint fetch caller entry audience now st r st' :
  known caller -> cache_ok st ->
  one cfg mint fetch caller entry audience now st = (r, st') ->
  cache_ok st' /\ jwks_during fetch now (jwks st) (jwks st') /\
  match r with
  | Ok g => grant_ok entry caller now (jwks st') audience g
  | Err e => e = Forbidden "vault" -> mint (role_of cfg caller) audience = Err (Backend 403)
  end.
Proof.
  intros Hk Hc H. unfold one in H.
  destruct (find_audience entry audience) as [a|] eqn:Hf; last first.
  { simplify_eq. split_and!; [done|by left|done]. }
  apply find_audience_Some in Hf as [Hin Ha].
  assert (mint_one cfg mint fetch caller (alias a) audience now st = (r, st') ->
    cache_ok st' /\ jwks_during fetch now (jwks st) (jwks st') /\
    match r with
    | Ok g => grant_ok entry caller now (jwks st') audience g
    | Err e => e = Forbidden "vault" -> mint (role_of cfg caller) audience = Err (Backend 403)
    end) as Hmint.
  { intros Hm. destruct (mint_one_spec _ _ _ _ _ _ _ _ _ Hk Hc Hm) as (? & ? & Hr).
    split_and!; [done|done|]. destruct r as [g|e]; [|naive_solver].
    destruct Hr as (token & u & _ & Hd & -> & Hs & Hau & Hh & He).
    split; simpl; [by exists a|]. exists u. split_and!; try done. by exists caller. }
  destruct (cache st !! (role_of cfg caller, audience)) as [c|] eqn:Hl; [|by apply Hmint].
  destruct (servable _ _ _ _) as [[]|e] eqn:Hs; [|by apply Hmint|].
  - simplify_eq. split_and!; [done|by left|].
    destruct (map_Forall_lookup_1 _ _ _ _ Hc Hl) as (Hd & Hau & Hown).
    unfold servable in Hs.
    destruct (past_half_life (c_parsed c) now) eqn:Hp; [done|].
    destruct (Z.ltb_spec (cl_not_after caller) (exp (claims (c_parsed c)))); [done|]. simpl in Hs.
    destruct (jwks_has (jwks st') (kid (header (c_parsed c)))) as [[]|] eqn:Hh; try done.
    split; simpl; [by exists a|]. by exists (c_parsed c).
  - simplify_eq. split_and!; [done|by left|]. intros ->.
    unfold servable in Hs. repeat case_match; done.
Qed.
End token_theorems.

(** ** Whole requests and whole runs *)

Section token_runs.
Context {R : RegexLite} {X : X509Parser} {C : JwtCodec}.
Context (cfg : Config) (policy : IdPolicy).

Lemma jwks_during_trans fetch now a b c :
  jwks_during fetch now a b -> jwks_during fetch now b c -> jwks_during fetch now a c.
Proof.
  unfold jwks_during. intros [->| ->] [->| ->]; auto. right. apply refresh_if_stale_idem.
Qed.

(** [gs] are the grants for [auds], in order, less the audiences in
    [skipped]. *)
Inductive served (P : string -> Grant -> Prop) (skip : string -> Prop)
    : list Audience -> list Grant -> Prop :=
| served_nil : served P skip [] []
| served_take a g auds gs :
    P (audience a) g -> served P skip auds gs -> served P skip (a :: auds) (g :: gs)
| served_skip a auds gs :
    skip (audience a) -> served P skip auds gs -> served P skip (a :: auds) gs.

Lemma served_impl (P Q : string -> Grant -> Prop) skip auds gs :
  (forall a g, P a g -> Q a g) -> served P skip auds gs -> served Q skip auds gs.
Proof. intros H. induction 1; constructor; auto. Qed.

Lemma all_go_spec mint fetch caller entry now auds st r st' :
  known cfg policy caller -> cache_ok cfg policy st ->
  all_go cfg mint fetch caller entry now auds st = (r, st') ->
  cache_ok cfg policy st' /\ jwks_during fetch now (jwks st) (jwks st') /\
  match r with
  | Ok gs => served
      (fun a g => exists js, jwks_during fetch now (jwks st) js /\
                             grant_ok cfg policy entry caller now js a g)
      (fun a => mint (role_of cfg caller) a = Err (Backend 403)) auds gs
  | Err e => e <> Forbidden "vault"
  end.
Proof.
  intros Hk. revert st r st'. induction auds as [|a auds IH]; simpl; intros st r st' Hc H.
  { simplify_eq. split_and!; [done|by left|constructor]. }
  destruct (one _ _ _ _ _ _ _ _) as [[g|e] s1] eqn:Ho;
    destruct (one_spec _ _ _ _ _ _ _ _ _ _ _ Hk Hc Ho) as (Hc1 & Hj1 & Hr1).
  - destruct (all_go _ _ _ _ _ _ _ s1) as [r2 s2] eqn:Hg.
    destruct (IH _ _ _ Hc1 Hg) as (Hc2 & Hj2 & Hr2).
    destruct r2 as [gs|e]; simplify_eq/=;
      (split_and!; [done|by eapply jwks_during_trans|]); [|done].
    constructor; [by exists (jwks s1)|]. eapply served_impl, Hr2.
    intros x y (js & Hjs & Hgr). exists js. split; [|done]. by eapply jwks_during_trans.
  - case_bool_decide as He.
    + destruct (IH _ _ _ Hc1 H) as (Hc2 & Hj2 & Hr2).
      split_and!; [done|by eapply jwks_during_trans|]. destruct r as [gs|]; [|done].
      apply served_skip; [by apply Hr1|]. eapply served_impl, Hr2.
      intros x y (js & Hjs & Hgr). exists js. split; [|done]. by eapply jwks_during_trans.
    + simplify_eq. split_and!; done.
Qed.

Lemma sweep_ok now st : cache_ok cfg policy st -> cache_ok cfg policy (Tokens_sweep now st).
Proof.
  intros H k c Hk. unfold Tokens_sweep in Hk. simpl in Hk.
  apply map_lookup_filter_Some in Hk as [Hk _]. by apply H.
Qed.

(** What the token port and the housekeeping loop do. *)
Inductive token_event :=
| TSingle (mint : string -> string -> result Error string) (fetch : option string)
    (catalog : Catalog) (leaf audience : string) (now : Z)
| TAll (mint : string -> string -> result Error string) (fetch : option string)
    (catalog : Catalog) (leaf : string) (now : Z)
| TRefresh (fetch : option string)
| TSweep (now : Z).

Definition event_catalog_ok (e : token_event) : Prop :=
  match e with TSingle _ _ c _ _ _ | TAll _ _ c _ _ => catalog_wf c | _ => True end.

Definition token_step (st : TokensState) (e : token_event) : TokensState :=
  match e with
  | TSingle mint fetch catalog leaf audience now =>
      match caller_of cfg policy leaf now with
      | Ok caller => snd (single cfg mint fetch catalog caller audience now st)
      | Err _ => st
      end
  | TAll mint fetch catalog leaf now =>
      match caller_of cfg policy leaf now with
      | Ok caller => snd (all cfg mint fetch catalog caller now st)
      | Err _ => st
      end
  | TRefresh fetch =>
      mkTokens (snd (jwks_refresh fetch (jwks st))) (cache st) (mint_rate st) (mints st)
  | TSweep now => Tokens_sweep now st
  end.

Lemma single_spec mint fetch catalog caller audience now st r st' :
  catalog_wf catalog -> caller_ok cfg policy caller -> cache_ok cfg policy st ->
  single cfg mint fetch catalog caller audience now st = (r, st') ->
  cache_ok cfg policy st' /\
  match r with
  | Ok g => exists entry, entry_of cfg catalog caller = Ok entry /\ known cfg policy caller /\
      jwks_during fetch now (jwks st) (jwks st') /\
      grant_ok cfg policy entry caller now (jwks st') audience g
  | Err _ => True
  end.
Proof.
  unfold single. intros Hw Hco Hc H.
  destruct (entry_of cfg catalog caller) as [entry|] eqn:He; [|by simplify_eq].
  pose proof (entry_of_known _ _ _ _ _ Hw Hco He) as Hk.
  destruct (one_spec _ _ _ _ _ _ _ _ _ _ _ Hk Hc H) as (? & ? & Hr).
  split; [done|]. destruct r; [|done]. by exists entry.
Qed.

Lemma all_spec mint fetch catalog caller now st r st' :
  catalog_wf catalog -> caller_ok cfg policy caller -> cache_ok cfg policy st ->
  all cfg mint fetch catalog caller now st = (r, st') ->
  cache_ok cfg policy st' /\
  match r with
  | Ok gs => exists entry, entry_of cfg catalog caller = Ok entry /\ known cfg policy caller /\
      served (fun a g => exists js, jwks_during fetch now (jwks st) js /\
                                    grant_ok cfg policy entry caller now js a g)
             (fun a => mint (role_of cfg caller) a = Err (Backend 403))
             (i_audiences entry) gs
  | Err e => e <> Forbidden "vault"
  end.
Proof.
  unfold all. intros Hw Hco Hc H.
  destruct (entry_of cfg catalog caller) as [entry|r'] eqn:He; last first.
  { unfold entry_of in He. apply ok_or_Err in He as [_ ->]. by simplify_eq. }
  pose proof (entry_of_known _ _ _ _ _ Hw Hco He) as Hk.
  destruct (all_go_spec _ _ _ _ _ _ _ _ _ Hk Hc H) as (? & _ & Hr).
  split; [done|]. destruct r; [|done]. by exists entry.
Qed.

Lemma run_cache_ok es :
  Forall event_catalog_ok es ->
  cache_ok cfg policy (foldl token_step (Tokens_new cfg) es).
Proof.
  assert (forall st, cache_ok cfg policy st -> Forall event_catalog_ok es ->
    cache_ok cfg policy (foldl token_step st es)) as Hgen.
  { induction es as [|e es IH]; intros st Hst Hf; simpl; [done|].
    apply Forall_cons_iff in Hf as [He Hf]. apply IH; [|done].
    destruct e as [mint fetch catalog leaf aud' now|mint fetch catalog leaf now|fetch|now];
      simpl in *.
    - destruct (caller_of cfg policy leaf now) as [caller|] eqn:Hca; [|done].
      apply caller_of_Ok in Hca as [Hca _].
      destruct (single _ _ _ _ _ _ _ _) as [r st'] eqn:Hs. simpl.
      by destruct (single_spec _ _ _ _ _ _ _ _ _ He Hca Hst Hs).
    - destruct (caller_of cfg policy leaf now) as [caller|] eqn:Hca; [|done].
      apply caller_of_Ok in Hca as [Hca _].
      destruct (all _ _ _ _ _ _ _) as [r st'] eqn:Hs. simpl.
      by destruct (all_spec _ _ _ _ _ _ _ _ He Hca Hst Hs).
    - exact Hst.
    - by apply sweep_ok. }
  apply Hgen. apply map_Forall_empty.
Qed.

(** C10: Every token handed out on the direct port is sound, after any history
    of the broker (requests, JWKS refreshes, sweeps, catalogs changing in
    between): the caller's own catalog entry approves that audience (T3); the
    token is for it; it expires no later than the certificate that obtained it
    (T5); its key is in the JWKS as relying parties see it (T6); a token from
    the cache is before its half-life; and its subject is an ID whose role is
    the caller's (T4). *)
Theorem token_grant_sound (es : list token_event)
    (mint : string -> string -> result Error string) (fetch : option string)
    (catalog : Catalog) (leaf audience : string) (now : Z) (caller : Caller) (g : Grant)
    (st' : TokensState) :
  Forall event_catalog_ok es -> catalog_wf catalog ->
  caller_of cfg policy leaf now = Ok caller ->
  single cfg mint fetch catalog caller audience now (foldl token_step (Tokens_new cfg) es)
    = (Ok g, st') ->
  exists entry,
    lookup catalog (cfg_cluster cfg) (cl_namespace caller) (cl_service_account caller)
      = Some entry /\
    grant_ok cfg policy entry caller now (jwks st') audience g.
Proof.
  intros Hes Hw [Hca _]%caller_of_Ok Hs.
  destruct (single_spec _ _ _ _ _ _ _ _ _ Hw Hca (run_cache_ok es Hes) Hs)
    as (_ & entry & He%ok_or_Ok & _ & _ & Hg).
  by exists entry.
Qed.

(** File mode is all or nothing.  [all] answers with a sound token for
    every approved audience, in the catalog's order, leaving out only those
    Vault itself refused with 403; any other failure fails the whole request,
    so a node never replaces a good set of tokens by a partial one. *)
Theorem token_all_or_nothing (es : list token_event)
    (mint : string -> string -> result Error string) (fetch : option string)
    (catalog : Catalog) (leaf : string) (now : Z) (caller : Caller) :
  Forall event_catalog_ok es -> catalog_wf catalog ->
  caller_of cfg policy leaf now = Ok caller ->
  let st := foldl token_step (Tokens_new cfg) es in
  match fst (all cfg mint fetch catalog caller now st) with
  | Ok gs => exists entry,
      lookup catalog (cfg_cluster cfg) (cl_namespace caller) (cl_service_account caller)
        = Some entry /\
      served (fun a g => exists js, jwks_during fetch now (jwks st) js /\
                                    grant_ok cfg policy entry caller now js a g)
             (fun a => mint (role_of cfg caller) a = Err (Backend 403))
             (i_audiences entry) gs
  | Err e => e <> Forbidden "vault"
  end.
Proof.
  intros Hes Hw [Hca _]%caller_of_Ok st.
  destruct (all cfg mint fetch catalog caller now st) as [r st'] eqn:Hs. simpl.
  destruct (all_spec _ _ _ _ _ _ _ _ Hw Hca (run_cache_ok es Hes) Hs) as (_ & Hr).
  destruct r as [gs|]; [|done].
  destruct Hr as (entry & He%ok_or_Ok & _ & Hg). by exists entry.
Qed.

Context `{!RegexSpec R}.

(** C24: The subject is the caller.  When the SPIFFE ID template names only the
    trust domain, the cluster, the namespace and the ServiceAccount, every
    token handed out - also one from the cache that was minted for another
    replica - has exactly the caller's SPIFFE ID as its subject. *)
Theorem token_subject_is_caller (es : list token_event)
    (mint : string -> string -> result Error string) (fetch : option string)
    (catalog : Catalog) (leaf audience : string) (now : Z) (caller : Caller) (g : Grant)
    (st' : TokensState) :
  id_policy cfg = Ok policy -> identity_shaped policy ->
  Forall event_catalog_ok es -> catalog_wf catalog ->
  caller_of cfg policy leaf now = Ok caller ->
  single cfg mint fetch catalog caller audience now (foldl token_step (Tokens_new cfg) es)
    = (Ok g, st') ->
  exists u, decode_unverified (g_token g) = Ok u /\
    sub (claims u) = SpiffeId_as_str (cl_spiffe_id caller).
Proof.
  intros (Hwf & _ & _ & _)%id_policy_Ok Hsh Hes Hw [Hca _]%caller_of_Ok Hs.
  destruct (single_spec _ _ _ _ _ _ _ _ _ Hw Hca (run_cache_ok es Hes) Hs)
    as (_ & entry & _ & Hk & _ & [_ (u & Hd & _ & _ & _ & _ & _ & owner & Ho & Hr & Hsub)]).
  exists u. split; [done|]. rewrite Hsub. f_equal.
  destruct Ho as (Ho & Hn & _), Hk as (_ & Hn' & _).
  destruct (role_name_inj_cluster _ _ _ _ _ Hn Hn' Hr).
  by eapply caller_id_unique.
Qed.
End token_runs.

(** ** T7: the mint rate over a run *)

Section mint_rate.
Context {R : RegexLite} {X : X509Parser} {C : JwtCodec}.
Context (cfg : Config) (policy : IdPolicy).

(** When Vault was asked to mint for a role. *)
Definition mints_for (role : string) (l : list (Z * (string * string))) : list Z :=
  fst <$> List.filter (fun m => String.eqb (fst (snd m)) role) l.

Lemma monotone_snoc lo ops o t :
  monotone_from lo ops -> Forall (fun o => op_time o <= t) ops -> lo <= t -> t <= op_time o ->
  monotone_from lo (ops ++ [o]).
Proof.
  revert lo. induction ops as [|p ops IH]; intros lo Hm Hf Hlo Ht; simpl in *; [lia|].
  apply Forall_cons_iff in Hf as [Hp Hf]. destruct Hm as [Hle Hm]. split; [done|]. by apply IH.
Qed.

(** The limiter is where a sequence of its own operations leaves it, and the
    mints are the ones that sequence allowed. *)
Definition mint_trace (lo t : Z) (st : TokensState) : Prop :=
  exists ops, monotone_from lo ops /\ Forall (fun o => op_time o <= t) ops /\ lo <= t /\
    no_bare_record ops /\
    mint_rate st = snd (window_run (Window_new (mint_rate_per_minute cfg) 60) ops) /\
    forall k, mints_for k (mints st) =
      accepted k ops (fst (window_run (Window_new (mint_rate_per_minute cfg) 60) ops)).

Lemma mint_trace_same lo t t' st st' :
  mint_trace lo t st -> t <= t' -> mint_rate st' = mint_rate st -> mints st' = mints st ->
  mint_trace lo t' st'.
Proof.
  intros (ops & Hm & Hf & Hlo & Hn & Hr & Ha) Ht Er Em. exists ops. rewrite Er, Em.
  split_and!; try done; [|lia]. eapply Forall_impl; [exact Hf|]. simpl. intros o ?. lia.
Qed.

Lemma mint_trace_allow lo t now role audience st st' :
  mint_trace lo t st -> t <= now ->
  mint_rate st' = snd (Window_allow (mint_rate st) role now) ->
  mints st' = mints st ++
    (if fst (Window_allow (mint_rate st) role now) then [(now, (role, audience))] else []) ->
  mint_trace lo now st'.
Proof.
  intros (ops & Hm & Hf & Hlo & Hn & Hr & Ha) Ht Er Em.
  exists (ops ++ [OpAllow role now]). split_and!.
  - by apply (monotone_snoc _ _ _ t).
  - apply Forall_app. split; [|by repeat constructor].
    eapply Forall_impl; [exact Hf|]. simpl. intros o ?. lia.
  - lia.
  - apply Forall_app. by split; [|repeat constructor].
  - rewrite Er, Hr, window_run_app.
    destruct (window_run (Window_new _ 60) ops) as [bs w]. simpl.
    by destruct (Window_allow w role now).
  - intros k. rewrite Em, window_run_app.
    unfold mints_for. rewrite List.filter_app, fmap_app. fold (mints_for k (mints st)).
    rewrite Ha, Hr.
    pose proof (window_run_length (Window_new (mint_rate_per_minute cfg) 60) ops) as Hl.
    destruct (window_run (Window_new _ 60) ops) as [bs w]. simpl in *.
    destruct (Window_allow w role now) as [b w']. simpl.
    rewrite accepted_app by done. f_equal.
    destruct b; simpl; [|done].
    destruct (String.eqb_spec role k), (decide (role = k)); done.
Qed.

Lemma one_mint_trace lo t mint fetch caller entry audience now st :
  mint_trace lo t st -> t <= now ->
  mint_trace lo now (snd (one cfg mint fetch caller entry audience now st)).
Proof.
  intros Hi Ht. pose proof (mint_trace_same _ _ _ _ _ Hi Ht eq_refl eq_refl) as Hsame.
  assert (forall al, mint_trace lo now
    (snd (mint_one cfg mint fetch caller al audience now st))) as Hmint.
  { intros al. eapply (mint_trace_allow lo t now (role_of cfg caller) audience st _ Hi Ht);
      unfold mint_one;
      destruct (Window_allow (mint_rate st) (role_of cfg caller) now) as [[] w]; simpl;
      rewrite ?app_nil_r; try done;
      (destruct (mint _ _); simpl; [|done]); (destruct (decode_unverified _); simpl; [|done]);
      by destruct (vet _ _ _ _ _ _) as [[] js]. }
  unfold one. destruct (find_audience entry audience); [|done].
  destruct (cache st !! _); [|done]. by destruct (servable _ _ _ _) as [[]|].
Qed.

Lemma all_mint_trace lo t mint fetch caller entry now auds st :
  mint_trace lo t st -> t <= now ->
  mint_trace lo now (snd (all_go cfg mint fetch caller entry now auds st)).
Proof.
  intros Hi Ht.
  assert (mint_trace lo now st) as H0 by (by eapply mint_trace_same).
  clear Hi. revert st H0. induction auds as [|a auds IH]; intros st H0; simpl; [done|].
  pose proof (one_mint_trace lo now mint fetch caller entry (audience a) now st H0
                ltac:(lia)) as H1.
  destruct (one _ _ _ _ _ _ _ _) as [[g|e] s1]; simpl in *.
  - specialize (IH s1 H1). by destruct (all_go _ _ _ _ _ _ _ s1) as [[]].
  - case_bool_decide; [by apply IH|done].
Qed.

(** The clock of an event; a JWKS refresh does not read it. *)
Definition token_event_time (t : Z) (e : token_event) : Z :=
  match e with
  | TSingle _ _ _ _ _ now | TAll _ _ _ _ now | TSweep now => now
  | TRefresh _ => t
  end.

Fixpoint token_events_from (t : Z) (es : list token_event) : Prop :=
  match es with
  | [] => True
  | e :: es => t <= token_event_time t e /\ token_events_from (token_event_time t e) es
  end.

Lemma step_mint_trace lo t st e :
  mint_trace lo t st -> t <= token_event_time t e ->
  mint_trace lo (token_event_time t e) (token_step cfg policy st e).
Proof.
  intros Hi Ht. pose proof (mint_trace_same _ _ _ _ _ Hi Ht eq_refl eq_refl) as Hs.
  destruct e as [mint fetch catalog leaf a now|mint fetch catalog leaf now|fetch|now]; simpl in *.
  - destruct (caller_of _ _ _ _); [|done]. unfold single.
    destruct (entry_of _ _ _); [|done]. by eapply one_mint_trace.
  - destruct (caller_of _ _ _ _); [|done]. unfold all.
    destruct (entry_of _ _ _); [|done]. by eapply all_mint_trace.
  - by eapply mint_trace_same.
  - by eapply mint_trace_same.
Qed.

(** T7 end to end.  In any run of the token port under a monotone clock,
    whatever callers, catalogs and answers, Vault is asked to mint for one
    identity at most [mint_rate_per_minute] times in any 60 seconds. *)
Theorem mint_rate_enforced (es : list token_event) (t0 : Z) (role : string) (T : Z) :
  0 < mint_rate_per_minute cfg < 2 ^ 32 -> token_events_from t0 es ->
  Z.of_nat (length (in_window 60 T
    (mints_for role (mints (foldl (token_step cfg policy) (Tokens_new cfg) es)))))
  <= mint_rate_per_minute cfg.
Proof.
  intros Hr Hes.
  assert (forall t st, mint_trace t0 t st -> token_events_from t es ->
    exists t', mint_trace t0 t' (foldl (token_step cfg policy) st es)) as Hgen.
  { clear Hes. induction es as [|e es IH]; intros t st Hi He; simpl; [by exists t|].
    destruct He as [Hle He]. eapply IH, He. by apply step_mint_trace. }
  destruct (Hgen t0 (Tokens_new cfg)) as (t' & ops & Hm & _ & _ & Hn & _ & Ha); [|done|].
  { exists []. split_and!; try done; try constructor. }
  rewrite Ha. by apply (window_run_limit _ _ t0).
Qed.
End mint_rate.

(** ** Witnesses: one identity, one audience *)

Module TokensWitness.
#[local] Existing Instance MiniRegex.engine.
#[local] Existing Instance MiniRegex.engine_spec.
#[local] Existing Instance JwtWitness.codec.

Definition cfg : Config := BrokerConfigWitness.cfg.
Definition policy : IdPolicy := mkPolicy TemplateWitness.default None None.
Definition id : SpiffeId := TemplateWitness.id.

#[local] Instance parser : X509Parser := {|
  parse_x509_pem := fun _ => None;
  cert_from_der := fun der =>
    if String.eqb der "leaf"
    then Some (mkX509 false 0 2000 (Ok (Some [URI (SpiffeId_as_str id)])) "01" "k") else None;
  csr_from_der := fun _ => None |}.

Definition cat : Catalog :=
  mkCatalog 1 "example.org" DEFAULT_PATH_TEMPLATE true
    [mkIdentity "*" "payments" "api" None false [mkAudience "db" "db"; mkAudience "q" "queue"]] [].

Lemma cat_wf : catalog_wf cat.
Proof. apply validate_wf. vm_compute. reflexivity. Qed.

(** Vault mints for [db] and refuses [queue]. *)
Definition mint (role audience : string) : result Error string :=
  if String.eqb audience "db" then Ok JwtWitness.token else Err (Backend 403).
Definition caller : Caller := mkCaller id "payments" "api" 2000 "01".

(** An earlier replica fetched its tokens at 10, so this one hits the cache. *)
Definition history : list token_event :=
  [TRefresh (Some "jwks"); TAll mint None cat "leaf" 10].

Lemma history_ok : Forall event_catalog_ok history.
Proof. constructor; [exact I|]. constructor; [exact cat_wf|constructor]. Qed.

Definition st : TokensState := foldl (token_step cfg policy) (Tokens_new cfg) history.
Definition g : Grant := mkGrant "db" "db" JwtWitness.token 1000 "j1" false.

Lemma token_grant_sound_witness :
  exists entry, lookup cat "a" "payments" "api" = Some entry /\
    grant_ok cfg policy entry caller 400 (jwks st) "db" g.
Proof.
  refine (token_grant_sound cfg policy history mint None cat "leaf" "db" 400 caller g st
            history_ok cat_wf _ _); vm_compute; reflexivity.
Defined.

Lemma token_all_or_nothing_witness :
  fst (all cfg mint None cat caller 400 st) = Ok [g] /\
  exists entry, lookup cat "a" "payments" "api" = Some entry /\
    served (fun a g => exists js, jwks_during None 400 (jwks st) js /\
                                  grant_ok cfg policy entry caller 400 js a g)
           (fun a => mint (role_of cfg caller) a = Err (Backend 403))
           (i_audiences entry) [g].
Proof.
  assert (fst (all cfg mint None cat caller 400 st) = Ok [g]) as Ha by (vm_compute; reflexivity).
  split; [exact Ha|].
  assert (caller_of cfg policy "leaf" 400 = Ok caller) as Hc by (vm_compute; reflexivity).
  pose proof (token_all_or_nothing cfg policy history mint None cat "leaf" 400 caller
                history_ok cat_wf Hc) as H.
  fold st in H. cbv zeta in H. rewrite Ha in H. exact H.
Defined.

Lemma token_subject_is_caller_witness :
  exists u, decode_unverified (g_token g) = Ok u /\ sub (claims u) = SpiffeId_as_str id.
Proof.
  refine (token_subject_is_caller cfg policy history mint None cat "leaf" "db" 400 caller g st
            _ _ history_ok cat_wf _ _).
  - vm_compute. reflexivity.
  - unfold identity_shaped. repeat constructor; vm_compute; repeat (left || right); done.
  - vm_compute. reflexivity.
  - vm_compute. reflexivity.
Defined.

Lemma mint_rate_enforced_witness :
  Z.of_nat (length (in_window 60 50 (mints_for "a__payments__api" (mints st)))) <= 60.
Proof.
  apply (mint_rate_enforced cfg policy history 0 "a__payments__api" 50); simpl; lia.
Defined.
End TokensWitness.
