(* ===== verification/Server.v ===== *)
(** * The broker's HTTP layer  (svidlet-broker/src/server.rs, metrics.rs)

    The two ports of the broker as functions from a request and the broker's
    state to a response and the next state: the certificate port
    ([handle_sign]), the token port behind mutual TLS ([handle_tokens]), and one
    round of [housekeeping].  TLS, HTTP framing and accepting connections are
    below this layer; JSON is [Wire].  A refusal's message and the time spent in
    Vault are not kept. *)

From S2P Require Import Prelude RustStr Errors Template Catalog Limit BrokerConfig BrokerCatalog.
From S2P Require Import Certs Kube Issuer Sign Jwt Tokens.
Open Scope list_scope.
Open Scope Z_scope.

(** ** The wire  (svidlet-issue/src/broker.rs) *)

Record SignReply := mkSignReply {
  rp_spiffe_id : string;
  rp_cert_chain : string;
  rp_ca : string;
  rp_not_after : Z;
}.

Record TokenGrant := mkTokenGrant {
  tg_alias : string;
  tg_audience : string;
  tg_token : string;
  tg_exp : Z;
}.

(** [serde_json] on the wire types. *)
Class Wire := {
  enc_sign_body : SignBody -> string;
  dec_sign_body : string -> option SignBody;
  enc_sign_reply : SignReply -> string;
  dec_sign_reply : string -> option SignReply;
  enc_tokens_reply : list TokenGrant -> string;
  dec_tokens_reply : string -> option (list TokenGrant);
  enc_grant : option TokenGrant -> string;
  (** [TokenBody]'s audience. *)
  dec_audience : string -> option string;
  enc_refusal : Refusal -> string;
}.

(** Deserializing what was serialized gives it back. *)
Class WireSpec (W : Wire) : Prop := {
  sign_body_wire : forall b, dec_sign_body (enc_sign_body b) = Some b;
  sign_reply_wire : forall r, dec_sign_reply (enc_sign_reply r) = Some r;
  tokens_reply_wire : forall ts, dec_tokens_reply (enc_tokens_reply ts) = Some ts;
}.

(** ** Requests and responses *)

Inductive Method := GET | POST | OtherMethod.

Record HttpRequest := mkHttp {
  h_method : Method;
  h_path : string;
  (** The [Authorization] header's bytes. *)
  h_authorization : option string;
  (** [None] when the body cannot be read to its end. *)
  h_body : option string;
}.

Record HttpResponse := mkResponse { status : Z; response_body : string }.

Definition MAX_BODY : Z := 64 * 1024.

Definition text (status : Z) (body : string) : HttpResponse := mkResponse status body.
Definition json (status : Z) (body : string) : HttpResponse := mkResponse status body.
Definition refused {W : Wire} (r : Refusal) : HttpResponse := json (Refusal_status r) (enc_refusal r).
Definition not_found : HttpResponse := text 404 ("not found" +:+ newline).
Definition healthy : HttpResponse := text 200 ("ok" +:+ newline).

(** [Limited] fails once the body passes the limit. *)
Definition read_body (req : HttpRequest) : result Refusal string :=
  body ← ok_or (BadRequest "I1") (h_body req);
  _ ← guard_err (MAX_BODY <? Z.of_nat (String.length body)) (BadRequest "I1");
  Ok body.

(** [HeaderValue::to_str]: visible ASCII and tab only. *)
Definition header_char (c : ascii) : bool := in_range " " "~" c || Ascii.eqb c "009".
Definition to_str (v : string) : option string := if all_chars header_char v then Some v else None.

Definition bearer (req : HttpRequest) : string :=
  trim (default "" (v ← h_authorization req; v ← to_str v; strip_prefix "Bearer " v)).

(** ** Metrics *)

Record Metrics := mkMetrics {
  requests : gmap (string * string * string) Z;
  vault_count : gmap string Z;
  cache_count : gmap string Z;
}.
Definition no_metrics : Metrics := mkMetrics ∅ ∅ ∅.
Definition bump {K : Type} `{Countable K} (k : K) (m : gmap K Z) : gmap K Z :=
  <[k := wrap 64 (default 0 (m !! k) + 1)]> m.
Definition count_request (path outcome rule : string) (m : Metrics) : Metrics :=
  mkMetrics (bump (path, outcome, rule) (requests m)) (vault_count m) (cache_count m).
Definition count_vault (op : string) (m : Metrics) : Metrics :=
  mkMetrics (requests m) (bump op (vault_count m)) (cache_count m).
Definition count_cache (minted : bool) (m : Metrics) : Metrics :=
  mkMetrics (requests m) (vault_count m) (bump (if minted then "mint" else "hit") (cache_count m)).

(** ** The broker *)

Record Broker := mkBroker {
  signer : SignerState;
  tokens : TokensState;
  b_catalog : CatalogHandle;
  b_metrics : Metrics;
  bundle : string;
}.

Definition with_signer (s : SignerState) (b : Broker) : Broker :=
  mkBroker s (tokens b) (b_catalog b) (b_metrics b) (bundle b).
Definition with_tokens (t : TokensState) (b : Broker) : Broker :=
  mkBroker (signer b) t (b_catalog b) (b_metrics b) (bundle b).
Definition with_metrics (m : Metrics) (b : Broker) : Broker :=
  mkBroker (signer b) (tokens b) (b_catalog b) m (bundle b).
Definition with_catalog (c : CatalogHandle) (b : Broker) : Broker :=
  mkBroker (signer b) (tokens b) c (b_metrics b) (bundle b).
Definition with_bundle (s : string) (b : Broker) : Broker :=
  mkBroker (signer b) (tokens b) (b_catalog b) (b_metrics b) s.

Definition wire (g : Grant) : TokenGrant := mkTokenGrant (g_alias g) (g_audience g) (g_token g) (g_exp g).

Section server.
Context {R : RegexLite} {X : X509Parser} {C : JwtCodec} {W : Wire}.
Context (cfg : Config) (policy : IdPolicy).

(** *** Port 8443 *)

(** What the async block of [/v1/sign] comes to. *)
Definition sign_outcome (Kn Kp : Kube) (I : Issuer) (now : Z) (req : HttpRequest) (b : Broker)
    : result Refusal Signed * Broker :=
  match (raw ← read_body req; ok_or (BadRequest "I1") (dec_sign_body raw)) with
  | Err r => (Err r, b)
  | Ok body =>
      let '(r, st) := sign cfg policy (Handle_current (b_catalog b)) Kn Kp I (bearer req) body now (signer b) in
      (r, with_signer st b)
  end.

Definition sign_reply (s : Signed) (b : Broker) : SignReply :=
  mkSignReply (SpiffeId_as_str (s_spiffe_id s)) (cert_chain_pem (s_bundle s))
    (if is_empty (bundle b) then ca_pem (s_bundle s) else bundle b) (b_not_after (s_bundle s)).

Definition handle_sign (Kn Kp : Kube) (I : Issuer) (now : Z) (req : HttpRequest) (b : Broker)
    : HttpResponse * Broker :=
  match h_method req with
  | GET =>
      if String.eqb (h_path req) "/healthz" then (healthy, b)
      else if String.eqb (h_path req) "/v1/bundle" then (text 200 (bundle b), b)
      else (not_found, b)
  | POST =>
      if String.eqb (h_path req) "/v1/sign" then
        match sign_outcome Kn Kp I now req b with
        | (Ok signed, b) =>
            let b := with_metrics (count_vault "pki_sign" (count_request "sign" "ok" "" (b_metrics b))) b in
            (json 200 (enc_sign_reply (sign_reply signed b)), b)
        | (Err r, b) =>
            (refused r, with_metrics (count_request "sign" (Refusal_outcome r) (Refusal_rule r) (b_metrics b)) b)
        end
      else (not_found, b)
  | OtherMethod => (not_found, b)
  end.

(** *** Port 8444 *)

Definition token_route (req : HttpRequest) : option bool :=
  match h_method req with
  | POST =>
      if String.eqb (h_path req) "/v1/tokens" then Some false
      else if String.eqb (h_path req) "/v1/token" then Some true
      else None
  | _ => None
  end.

(** The audience asked for, in single mode. *)
Definition wanted_audience (single : bool) (raw : string) : result Refusal (option string) :=
  if single then a ← ok_or (BadRequest "T3") (dec_audience raw); Ok (Some a) else Ok None.

Definition token_outcome (mint : string -> string -> result Error string) (fetch : option string)
    (leaf : option string) (now : Z) (single_mode : bool) (req : HttpRequest) (b : Broker)
    : result Refusal (Caller * list Grant) * Broker :=
  match (leaf ← ok_or (Unauthenticated "T1") leaf;
         raw ← read_body req;
         audience ← wanted_audience single_mode raw;
         caller ← caller_of cfg policy leaf now;
         Ok (caller, audience)) with
  | Err r => (Err r, b)
  | Ok (caller, audience) =>
      let catalog := Handle_current (b_catalog b) in
      let '(r, st) :=
        match audience with
        | Some a =>
            let '(r, st) := single cfg mint fetch catalog caller a now (tokens b) in
            (g ← r; Ok [g], st)
        | None => all cfg mint fetch catalog caller now (tokens b)
        end in
      (gs ← r; Ok (caller, gs), with_tokens st b)
  end.

(** The counters of the grants handed out. *)
Fixpoint count_grants (gs : list Grant) (m : Metrics) : Metrics :=
  match gs with
  | [] => m
  | g :: gs =>
      let m := count_cache (g_minted g) m in
      count_grants gs (if g_minted g then count_vault "mintjwt" m else m)
  end.

Definition handle_tokens (mint : string -> string -> result Error string) (fetch : option string)
    (leaf : option string) (now : Z) (req : HttpRequest) (b : Broker) : HttpResponse * Broker :=
  if match h_method req with GET => String.eqb (h_path req) "/healthz" | _ => false end then (healthy, b)
  else
    match token_route req with
    | None => (not_found, b)
    | Some single_mode =>
        let label := if single_mode then "token" else "tokens" in
        match token_outcome mint fetch leaf now single_mode req b with
        | (Ok (caller, grants), b) =>
            let b := with_metrics (count_grants grants (count_request label "ok" "" (b_metrics b))) b in
            (json 200 (if single_mode then enc_grant (head (wire <$> grants))
                       else enc_tokens_reply (wire <$> grants)), b)
        | (Err r, b) =>
            (refused r, with_metrics (count_request label (Refusal_outcome r) (Refusal_rule r) (b_metrics b)) b)
        end
    end.

(** *** Housekeeping *)

Definition PEM_HEADER : string := "-----BEGIN CERTIFICATE-----".

Context (toml : string -> option Catalog).

(** The head of the task, at the monotonic time [mono], in seconds: when the key
    set and the sweep were last due.  [Instant - Duration] panics, and so ends
    the process ([None]), when the point is before what the clock can name. *)
Definition housekeeping_start (mono jwks_every : Z) : option (Z * Z) :=
  if i64_min <=? mono - jwks_every then Some (mono - jwks_every, mono) else None.
(** Whether the key set is due. *)
Definition jwks_is_due (last_jwks jwks_every mono : Z) : bool := jwks_every <=? mono - last_jwks.

(** The first round fetches the key set, for every interval the clock can
    subtract - up to 2^63 seconds. *)
Lemma housekeeping_first mono jwks_every :
  0 <= mono -> 0 <= jwks_every <= 2 ^ 63 ->
  exists last_jwks last_sweep, housekeeping_start mono jwks_every = Some (last_jwks, last_sweep) /\ jwks_is_due last_jwks jwks_every mono = true.
Proof.
  intros Hm Hj. unfold housekeeping_start, i64_min, jwks_is_due. destruct (Z.leb_spec (-2 ^ 63) (mono - jwks_every)); [|lia].
  eexists _, _. split; [done|]. lia.
Qed.
(** The longest interval the configuration takes is not one of them. *)
Example huge_jwks_interval_panics : housekeeping_start 1000 u64_max = None.
Proof. reflexivity. Qed.

(** One round.  [jwks] is the document when the refresh is due, [None] when it
    is not; [sweep] tells whether five minutes have passed; [read] reads the
    catalog file, [bundle_file] is the trust bundle's content. *)
Definition housekeeping (jwks_due : option (option string)) (read : string -> option string)
    (bundle_file : option string) (sweep : bool) (now : Z) (b : Broker) : Broker :=
  let b := match jwks_due with
           | Some fetch =>
               let t := tokens b in
               with_tokens (mkTokens (jwks_refresh fetch (jwks t)).2 (cache t) (mint_rate t) (mints t)) b
           | None => b
           end in
  let b := with_catalog (Handle_reload toml read (b_catalog b)).2 b in
  let b := match bundle_file with
           | Some text => if contains_str PEM_HEADER text then with_bundle text b else b
           | None => b
           end in
  if sweep then with_tokens (Tokens_sweep now (tokens b)) (with_signer (Signer_sweep (signer b) now) b) else b.
End server.

(** The serving certificate ([ReloadingCert]): [load] is [load_certified]. *)
Section reloading_cert.
Context {K : Type}.
Definition ReloadingCert_load (load : result Error K) : result Error K := load.
Definition ReloadingCert_reload (load : result Error K) (current : K) : result Error unit * K :=
  match load with
  | Ok fresh => (Ok tt, fresh)
  | Err e => (Err e, current)
  end.
End reloading_cert.

(** ** The broker as a state machine *)

Section broker_machine.
Context {R : RegexLite} {X : X509Parser} {C : JwtCodec} {W : Wire}.
Context (cfg : Config) (policy : IdPolicy) (toml : string -> option Catalog).

Inductive broker_event :=
| ESign (Kn Kp : Kube) (I : Issuer) (now : Z) (req : HttpRequest)
| ETokens (mint : string -> string -> result Error string) (fetch : option string)
    (leaf : option string) (now : Z) (req : HttpRequest)
| EKeep (jwks_due : option (option string)) (read : string -> option string)
    (bundle_file : option string) (sweep : bool) (now : Z).

Definition broker_step (b : Broker) (e : broker_event) : Broker :=
  match e with
  | ESign Kn Kp V now req => (handle_sign cfg policy Kn Kp V now req b).2
  | ETokens mint fetch leaf now req => (handle_tokens cfg policy mint fetch leaf now req b).2
  | EKeep due read file sweep now => housekeeping toml due read file sweep now b
  end.

(** The broker as [run] builds it: [file] is the trust bundle, if readable. *)
Definition Broker_new (c : CatalogHandle) (file : option string) : Broker :=
  mkBroker (Signer_new cfg) (Tokens_new cfg) c no_metrics (default "" file).

(** The catalog in force is validated, every cached token belongs to the role
    it is filed under, and the trust bundle is the one from start-up or PEM. *)
Record broker_ok (file : option string) (b : Broker) : Prop := {
  bo_catalog : handle_ok toml (b_catalog b);
  bo_cache : cache_ok cfg policy (tokens b);
  bo_bundle : bundle b = default "" file \/ contains_str PEM_HEADER (bundle b) = true;
}.

Lemma broker_catalog_wf file b : broker_ok file b -> catalog_wf (Handle_current (b_catalog b)).
Proof. intros [Hc _ _]. by apply Catalog_parse_wf in Hc. Qed.

Lemma sign_keeps Kn Kp I now req b :
  let b' := (handle_sign cfg policy Kn Kp I now req b).2 in
  tokens b' = tokens b /\ b_catalog b' = b_catalog b /\ bundle b' = bundle b.
Proof.
  cbn zeta. unfold handle_sign, sign_outcome. destruct (h_method req); [by repeat case_match| |done].
  destruct (String.eqb _ _); [|done]. destruct (_ ≫= _) as [body|]; [|done].
  by destruct (sign _ _ _ _ _ _ _ _ _ _) as [[s|r] st].
Qed.

(** What a request to the token port does. *)
Lemma handle_tokens_run mint fetch leaf now req b :
  let '(resp, b') := handle_tokens cfg policy mint fetch leaf now req b in
  signer b' = signer b /\ b_catalog b' = b_catalog b /\ bundle b' = bundle b /\
  match token_route req with
  | None => b' = b
  | Some m =>
      (tokens b' = tokens b /\ is_success (status resp) = false) \/
      exists der caller, leaf = Some der /\ caller_of cfg policy der now = Ok caller /\
        ((m = false /\ exists r,
            all cfg mint fetch (Handle_current (b_catalog b)) caller now (tokens b) = (r, tokens b') /\
            match r with
            | Ok gs => resp = json 200 (enc_tokens_reply (wire <$> gs))
            | Err e => is_success (status resp) = false
            end) \/
         (m = true /\ exists aud r,
            single cfg mint fetch (Handle_current (b_catalog b)) caller aud now (tokens b) = (r, tokens b') /\
            match r with
            | Ok g => resp = json 200 (enc_grant (Some (wire g)))
            | Err e => is_success (status resp) = false
            end))
  end.
Proof.
  assert (Hst : forall r, is_success (status (refused r)) = false) by by intros [].
  unfold handle_tokens. destruct (match h_method req with GET => _ | _ => _ end) eqn:Eh.
  { unfold token_route. by destruct (h_method req). }
  destruct (token_route req) as [m|]; [|done]. unfold token_outcome.
  destruct leaf as [der|]; cbn; [|do 3 (split; [done|]); by left]. destruct (read_body req) as [raw|]; cbn; [|do 3 (split; [done|]); left; (split; [done|]); first [apply Hst|done]].
  destruct m; cbn.
  - destruct (dec_audience raw) as [a|]; cbn; [|do 3 (split; [done|]); left; (split; [done|]); first [apply Hst|done]].
    destruct (caller_of cfg policy der now) as [caller|] eqn:Ec; cbn; [|do 3 (split; [done|]); left; (split; [done|]); first [apply Hst|done]].
    destruct (single _ _ _ _ _ _ _ _) as [r st] eqn:Es. destruct r as [g|e]; cbn;
      (do 3 (split; [done|])); right; exists der, caller; (do 2 (split; [done|])); right; (split; [done|]);
      eexists a, _; (split; [exact Es|]); first [done|exact (Hst e)].
  - destruct (caller_of cfg policy der now) as [caller|] eqn:Ec; cbn; [|do 3 (split; [done|]); left; (split; [done|]); first [apply Hst|done]].
    destruct (all _ _ _ _ _ _ _) as [r st] eqn:Es. destruct r as [gs|e]; cbn;
      (do 3 (split; [done|])); right; exists der, caller; (do 2 (split; [done|])); left; (split; [done|]);
      eexists _; (split; [exact Es|]); first [done|exact (Hst e)].
Qed.

Lemma broker_step_ok file b e : broker_ok file b -> broker_ok file (broker_step b e).
Proof.
  intros Hok. pose proof (broker_catalog_wf _ _ Hok) as Hw. destruct Hok as [Hc Ht Hb].
  destruct e as [Kn Kp V now req|mint fetch leaf now req|due read bf sweep now]; cbn [broker_step].
  - destruct (sign_keeps Kn Kp V now req b) as (Et & Ec & Eb). split; [by rewrite Ec|by rewrite Et|by rewrite Eb].
  - pose proof (handle_tokens_run mint fetch leaf now req b) as H.
    destruct (handle_tokens _ _ _ _ _ _ _ _) as [resp b']. destruct H as (_ & Ec & Eb & H). cbn [snd].
    split; [by rewrite Ec| |by rewrite Eb].
    destruct (token_route req) as [m|]; [|by subst].
    destruct H as [[-> _]|(der & caller & _ & [Hca _]%caller_of_Ok & H)]; [done|].
    destruct H as [(_ & r & Hr & _)|(_ & aud & r & Hr & _)].
    + by destruct (all_spec _ _ _ _ _ _ _ _ _ _ Hw Hca Ht Hr).
    + by destruct (single_spec _ _ _ _ _ _ _ _ _ _ _ Hw Hca Ht Hr).
  - unfold housekeeping.
    set (b1 := match due with Some _ => _ | None => _ end).
    assert (cache_ok cfg policy (tokens b1) /\ b_catalog b1 = b_catalog b /\ bundle b1 = bundle b) as (H1 & E1 & F1)
      by by destruct due.
    set (b2 := with_catalog _ b1).
    assert (handle_ok toml (b_catalog b2)) as H2 by (cbn; apply reload_ok; by rewrite E1).
    set (b3 := match bf with Some _ => _ | None => _ end).
    assert (tokens b3 = tokens b1 /\ b_catalog b3 = b_catalog b2 /\
            (bundle b3 = default "" file \/ contains_str PEM_HEADER (bundle b3) = true)) as (H3 & E3 & F3).
    { unfold b3. destruct bf as [text|]; [|by rewrite <- F1 in Hb].
      destruct (contains_str _ text) eqn:Ep; [by auto|by rewrite <- F1 in Hb]. }
    destruct sweep; split; cbn; [by rewrite E3| |done|by rewrite E3|by rewrite H3|done].
    rewrite H3. by apply sweep_ok.
Qed.

Lemma broker_run_ok file c es :
  handle_ok toml c -> broker_ok file (foldl broker_step (Broker_new c file) es).
Proof.
  intros Hc. assert (H : forall b, broker_ok file b -> broker_ok file (foldl broker_step b es)).
  { induction es as [|e es IH]; intros b Hb; [done|]. cbn. apply IH, broker_step_ok, Hb. }
  apply H. split; [done|exact (run_cache_ok cfg policy [] (List.Forall_nil _))|by left].
Qed.
End broker_machine.
