(* ===== verification/Client.v ===== *)
(** * The node's client for the broker  (svidlet-issue/src/broker.rs)

    [BrokerClient] is an [Issuer]: it sends the pod's context, the CSR and the
    node's own token to the broker's certificate port, and checks the answer
    before handing it on.  [Net] is the HTTP client: one exchange, made with an
    optional client certificate; [None] is a transport failure and a body that
    is [None] could not be read.  The last part puts the client in front of
    [handle_sign] and states what the two promise together. *)

From S2P Require Import Prelude RustStr Errors Template Catalog Limit BrokerConfig BrokerCatalog.
From S2P Require Import Certs Kube Issuer Sign Jwt Tokens Server.
Open Scope list_scope.
Open Scope Z_scope.

Record BrokerEndpoint := mkEndpoint {
  sign_url : string;
  token_url : string;
  be_ca_cert_pem : string;
  node_token_path : string;
}.

(** What a client sends. *)
Record Sent := mkSent {
  o_method : Method;
  o_url : string;
  o_bearer : option string;
  o_body : string;
}.

Class Net := {
  exchange : option (list string * string) -> Sent -> option (Z * option string);
  (** [ureq]'s PEM reader: the certificates, [None] on a malformed item. *)
  pem_certificates : string -> option (list string);
  pem_private_key : string -> option string;
}.

(** [BrokerClient::new]: the roots, checked once. *)
Definition BrokerClient_new {N : Net} (endpoint : BrokerEndpoint) : result Error (list string) :=
  roots ← ok_or Errors.Config (pem_certificates (be_ca_cert_pem endpoint));
  _ ← guard_err (bool_decide (roots = [])) Errors.Config;
  Ok roots.

Section client.
Context {X : X509Parser} {W : Wire} {N : Net}.
Context (endpoint : BrokerEndpoint).
(** [read_to_string], at the moment of the call. *)
Context (read : string -> option string).

Definition node_token : result Error string :=
  raw ← ok_or Auth (read (node_token_path endpoint));
  _ ← guard_err (is_empty (trim raw)) Auth;
  Ok (trim raw).

Definition post {T : Type} (decode : string -> option T) (client : option (list string * string))
    (url : string) (bearer : option string) (body : string) : result Error T :=
  resp ← ok_or Transport (exchange client (mkSent POST url bearer body));
  _ ← guard_err (negb (is_success resp.1)) (classify resp.1);
  ok_or Protocol (text ← resp.2; decode text).

Definition fetch_tokens (cert_chain_pem key_pem : string) : result Error (list TokenGrant) :=
  chain ← ok_or Certificate (pem_certificates cert_chain_pem);
  key ← ok_or Crypto (pem_private_key key_pem);
  post dec_tokens_reply (Some (chain, key)) (trim_end_char "/" (token_url endpoint) +:+ "/v1/tokens") None "{}".

Definition sign_body (req : SignRequest) (pod : PodContext) (token : string) : SignBody :=
  mkSignBody token (pc_namespace pod) (pc_name pod) (pc_uid pod) (pc_service_account pod)
    (sr_csr_pem req) (SpiffeId_as_str (sr_spiffe_id req)).

Definition client_sign (req : SignRequest) : result Error IssuedBundle :=
  pod ← ok_or Errors.Config (sr_pod req);
  token ← ok_or Auth (pc_token pod);
  nt ← node_token;
  let url := trim_end_char "/" (sign_url endpoint) +:+ "/v1/sign" in
  reply ← post dec_sign_reply None url (Some nt) (enc_sign_body (sign_body req pod token));
  facts ← assert_identity (rp_cert_chain reply) (sr_spiffe_id req);
  Ok (mkBundle (rp_cert_chain reply) (rp_ca reply) (f_not_after facts) (f_not_before facts)).

Definition client_ca_chain : result Error string :=
  let url := trim_end_char "/" (sign_url endpoint) +:+ "/v1/bundle" in
  resp ← ok_or Transport (exchange None (mkSent GET url None ""));
  body ← ok_or Transport resp.2;
  _ ← guard_err (negb (is_success resp.1)) (classify resp.1);
  _ ← guard_err (negb (contains_str PEM_HEADER body)) Protocol;
  Ok body.

Definition BrokerIssuer : Issuer := {| issuer_sign := client_sign; issuer_ca_chain := client_ca_chain |}.

(** The client keeps the promise of the interface whatever it is talking to. *)
#[export] Instance BrokerIssuer_sound : IssuerSound BrokerIssuer.
Proof.
  split. cbn. intros req b. unfold client_sign.
  intros (pod & _ & H)%bind_Ok. apply bind_Ok in H as (token & _ & H). apply bind_Ok in H as (nt & _ & H).
  apply bind_Ok in H as (reply & _ & H). apply (checked_bundle_sound _ (rp_cert_chain reply) (rp_ca reply)), H.
Qed.

Lemma node_token_Ok nt : node_token = Ok nt ->
  nt <> "" /\ trim nt = nt /\ exists raw, read (node_token_path endpoint) = Some raw /\ nt = trim raw.
Proof.
  unfold node_token. intros (raw & Hr%ok_or_Ok & H)%bind_Ok.
  apply bind_Ok in H as ([] & He%guard_err_Ok%is_empty_false & [= <-]).
  split; [done|]. split; [apply trim_idem|]. by exists raw.
Qed.

Lemma client_sign_Ok req b :
  client_sign req = Ok b ->
  exists pod token nt reply,
    sr_pod req = Some pod /\ pc_token pod = Some token /\ node_token = Ok nt /\
    post dec_sign_reply None (trim_end_char "/" (sign_url endpoint) +:+ "/v1/sign") (Some nt)
      (enc_sign_body (sign_body req pod token)) = Ok reply /\
    inspect (rp_cert_chain reply) = Ok (mkFacts (sr_spiffe_id req) (b_not_before b) (b_not_after b)) /\
    cert_chain_pem b = rp_cert_chain reply /\ ca_pem b = rp_ca reply.
Proof.
  intros H. pose proof (issuer_sign_identity (I := BrokerIssuer) req b H) as Hi. unfold client_sign in H.
  apply bind_Ok in H as (pod & Hp%ok_or_Ok & H). apply bind_Ok in H as (token & Ht%ok_or_Ok & H).
  apply bind_Ok in H as (nt & Hn & H). apply bind_Ok in H as (reply & Hr & H).
  apply bind_Ok in H as (facts & _ & [= <-]). by exists pod, token, nt, reply.
Qed.
End client.

(** ** Client and broker together *)

(** The certificate port at a base URL: the request arrives as it was sent, and
    so does the response. *)
Definition port (base : string) (handle : HttpRequest -> HttpResponse) (s : Sent) : option (Z * option string) :=
  path ← strip_prefix base (o_url s);
  let r := handle (mkHttp (o_method s) path (String.append "Bearer " <$> o_bearer s) (Some (o_body s))) in
  Some (status r, Some (response_body r)).

Section end_to_end.
Context {R : RegexLite} {X : X509Parser} {C : JwtCodec} {W : Wire} `{!WireSpec W}.
Context (cfg : BrokerConfig.Config) (policy : IdPolicy).
Context (Kn Kp : Kube) (V : Issuer) `{!IssuerSound V}.
Context (now : Z) (broker : Broker).
Context (endpoint : BrokerEndpoint) (read : string -> option string).
Context (pem : string -> option (list string)) (key : string -> option string).

(** The node's network, with this broker behind the certificate port. *)
Definition net : Net := {|
  exchange := fun _ => port (trim_end_char "/" (sign_url endpoint))
                         (fun req => (handle_sign cfg policy Kn Kp V now req broker).1);
  pem_certificates := pem;
  pem_private_key := key |}.

Definition request_for (nt : string) (body : SignBody) : HttpRequest :=
  mkHttp POST "/v1/sign" (Some ("Bearer " +:+ nt)) (Some (enc_sign_body body)).

Lemma bearer_request nt body :
  trim nt = nt -> bearer (request_for nt body) = nt \/ bearer (request_for nt body) = "".
Proof.
  intros Ht. unfold bearer, request_for. cbn [h_authorization].
  change (Some ("Bearer " +:+ nt) ≫= _) with (to_str ("Bearer " +:+ nt) ≫= strip_prefix "Bearer ").
  unfold to_str. destruct (all_chars _ _); [left|by right].
  cbn [mbind option_bind]. rewrite strip_prefix_app. cbn [default from_option]. exact Ht.
Qed.

Lemma post_sign nt body :
  post (N := net) dec_sign_reply None (trim_end_char "/" (sign_url endpoint) +:+ "/v1/sign") (Some nt) (enc_sign_body body) =
  match (handle_sign cfg policy Kn Kp V now (request_for nt body) broker).1 with
  | mkResponse st text =>
      _ ← guard_err (negb (is_success st)) (classify st); ok_or Protocol (dec_sign_reply text)
  end.
Proof.
  unfold post, exchange, net, port. cbn [o_url o_method o_bearer o_body].
  rewrite strip_prefix_app. cbn. by destruct (fst _).
Qed.

(** What the broker answers to a node's request. *)
Lemma handle_sign_post nt body :
  (handle_sign cfg policy Kn Kp V now (request_for nt body) broker).1 =
  if MAX_BODY <? Z.of_nat (String.length (enc_sign_body body)) then refused (BadRequest "I1")
  else match (sign cfg policy (Handle_current (b_catalog broker)) Kn Kp V (bearer (request_for nt body)) body now
                (signer broker)).1 with
       | Ok s => json 200 (enc_sign_reply (sign_reply s broker))
       | Err r => refused r
       end.
Proof using WireSpec0.
  unfold handle_sign, sign_outcome, read_body. cbn [h_method h_path h_body request_for].
  change (String.eqb "/v1/sign" "/v1/sign") with true. cbn. unfold guard_err.
  destruct (_ <? _); [done|]. cbn. rewrite sign_body_wire. cbn.
  by destruct (sign _ _ _ _ _ _ _ _ _ _) as [[s|r] st].
Qed.

Lemma refused_status r : is_success (Refusal_status r) = false.
Proof. by destruct r. Qed.

(** A certificate obtained through the broker. *)
Lemma client_broker_run (req : SignRequest) (b : IssuedBundle) :
  client_sign (N := net) endpoint read req = Ok b ->
  exists pc token nt node pod,
    sr_pod req = Some pc /\ pc_token pc = Some token /\ node_token endpoint read = Ok nt /\
    authorized cfg policy (Handle_current (b_catalog broker)) Kn Kp nt (sign_body req pc token) node pod (sr_spiffe_id req) /\
    exists v, issuer_sign (Issuer := V) (sign_request cfg node (sr_spiffe_id req) (sr_csr_pem req)) = Ok v /\
      cert_chain_pem b = cert_chain_pem v /\ b_not_before b = b_not_before v /\ b_not_after b = b_not_after v /\
      ca_pem b = if is_empty (bundle broker) then ca_pem v else bundle broker.
Proof.
  intros (pc & token & nt & reply & Hp & Ht & Hn & Hr & Hi & Hc & Hca)%client_sign_Ok.
  destruct (node_token_Ok _ _ _ Hn) as (_ & Htr & _).
  pose proof (bearer_request nt (sign_body req pc token) Htr) as Hbe.
  rewrite post_sign, handle_sign_post in Hr. set (be := bearer _) in *. clearbody be.
  destruct (_ <? _); [done|].
  pose proof (sign_run cfg policy (Handle_current (b_catalog broker)) Kn Kp V be (sign_body req pc token) now
    (signer broker)) as Hs.
  destruct (sign _ _ _ _ _ _ _ _ _ _) as [[s|r] st]; cbn [fst] in Hr.
  2: { cbn [refused json] in Hr. rewrite refused_status in Hr. done. }
  cbn in Hr. rewrite sign_reply_wire in Hr. injection Hr as <-.
  destruct Hs as (pod & r & Ha & _ & _ & _ & -> & _ & Hv & Hf). cbn [rp_cert_chain rp_ca sign_reply] in *.
  rewrite Hi in Hf. injection Hf as Hid Hb Hna.
  destruct Hbe as [-> | ->]; [|by destruct Ha as [[(? & ? & Hne & _)] _ _ _ _ _ _]].
  exists pc, token, nt, (s_node s), pod. rewrite <- Hid in Ha, Hv. do 4 (split; [done|]).
  exists (s_bundle s). done.
Qed.

(** The node and the broker agree.  Whatever state the broker is in, a node that
    obtains a certificate through it asked with its own token and with the pod
    token the kubelet gave it for that pod; the broker authorised exactly that
    request - for a pod attested on the very node the node token belongs to -
    rendered the same SPIFFE ID from what it attested, and Vault signed it; and
    what the node holds is that chain, with the broker's trust bundle. *)
Theorem sign_end_to_end (req : SignRequest) (b : IssuedBundle) :
  client_sign (N := net) endpoint read req = Ok b ->
  exists pc token nt node pod,
    sr_pod req = Some pc /\ pc_token pc = Some token /\ node_token endpoint read = Ok nt /\
    authorized cfg policy (Handle_current (b_catalog broker)) Kn Kp nt (sign_body req pc token) node pod (sr_spiffe_id req) /\
    exists v, issuer_sign (Issuer := V) (sign_request cfg node (sr_spiffe_id req) (sr_csr_pem req)) = Ok v /\
      cert_chain_pem b = cert_chain_pem v /\ b_not_before b = b_not_before v /\ b_not_after b = b_not_after v /\
      ca_pem b = if is_empty (bundle broker) then ca_pem v else bundle broker.
Proof. apply client_broker_run. Qed.

(** A refusal arrives as the error the node acts on: the kind of the broker's
    refusal, or a request too large for it, decides the node's error. *)
Theorem refusal_end_to_end (req : SignRequest) (pc : PodContext) (token nt : string) (r : Refusal) :
  sr_pod req = Some pc -> pc_token pc = Some token -> node_token endpoint read = Ok nt ->
  Z.of_nat (String.length (enc_sign_body (sign_body req pc token))) <= MAX_BODY ->
  (sign cfg policy (Handle_current (b_catalog broker)) Kn Kp V
     (bearer (request_for nt (sign_body req pc token))) (sign_body req pc token) now (signer broker)).1 = Err r ->
  client_sign (N := net) endpoint read req = Err (classify (Refusal_status r)).
Proof.
  intros Hp Ht Hn Hl Hs. unfold client_sign. rewrite Hp. cbn [mbind result_bind ok_or]. rewrite Ht. cbn [ok_or]. rewrite Hn.
  cbn [mbind result_bind]. rewrite post_sign, handle_sign_post.
  destruct (Z.ltb_spec MAX_BODY (Z.of_nat (String.length (enc_sign_body (sign_body req pc token))))); [lia|].
  rewrite Hs. cbn [refused json]. rewrite refused_status. done.
Qed.
End end_to_end.

(** The token port: the handshake succeeds when the TLS layer accepts the chain
    and key, and the leaf it verified reaches the handler. *)
Section tokens_end_to_end.
Context {R : RegexLite} {X : X509Parser} {C : JwtCodec} {W : Wire} `{!WireSpec W}.
Context (cfg : BrokerConfig.Config) (policy : IdPolicy) (toml : string -> option Catalog).
Context (mint : string -> string -> result Error string) (jwks_doc : option string) (now : Z).
Context (endpoint : BrokerEndpoint).
Context (accepts : list string -> string -> bool).
Context (pem : string -> option (list string)) (key : string -> option string).

Definition token_exchange (broker : Broker) (client : option (list string * string)) (s : Sent)
    : option (Z * option string) :=
  match client with
  | Some (chain, k) =>
      if accepts chain k
      then port (trim_end_char "/" (token_url endpoint))
             (fun req => (handle_tokens cfg policy mint jwks_doc (head chain) now req broker).1) s
      else None
  | None => None
  end.
Definition token_net (broker : Broker) : Net := {|
  exchange := token_exchange broker; pem_certificates := pem; pem_private_key := key |}.

(** C16: The tokens a node writes for a pod are that pod's.  Whatever requests and
    reloads the broker has served before, the tokens a check-in returns are
    those the broker granted to the identity in the pod's own verified
    certificate: one for every audience the catalog in force approves for it, in
    order, each sound, except those Vault refused with 403. *)
Theorem tokens_end_to_end (c : CatalogHandle) (file : option string) (es : list broker_event)
    (cert_chain_pem key_pem : string) (ts : list TokenGrant) :
  handle_ok toml c ->
  let broker := foldl (broker_step cfg policy toml) (Broker_new cfg c file) es in
  fetch_tokens (N := token_net broker) endpoint cert_chain_pem key_pem = Ok ts ->
  exists chain leaf caller entry gs,
    pem cert_chain_pem = Some chain /\ head chain = Some leaf /\ caller_of cfg policy leaf now = Ok caller /\
    lookup (Handle_current (b_catalog broker)) (cfg_cluster cfg) (cl_namespace caller) (cl_service_account caller)
      = Some entry /\
    ts = wire <$> gs /\
    served (fun a g => exists js, jwks_during jwks_doc now (jwks (tokens broker)) js /\
                                  grant_ok cfg policy entry caller now js a g)
           (fun a => mint (role_of cfg caller) a = Err (Backend 403)) (i_audiences entry) gs.
Proof.
  intros Hc broker. pose proof (broker_run_ok cfg policy toml file c es Hc) as Hb. fold broker in Hb. clearbody broker.
  pose proof (broker_catalog_wf _ _ _ _ _ Hb) as Hw. unfold fetch_tokens.
  intros (chain & Hch%ok_or_Ok & H)%bind_Ok. apply bind_Ok in H as (k & _ & H).
  unfold post in H. cbn [exchange token_net token_exchange] in H.
  destruct (accepts chain k); [|done]. unfold port in H. cbn [o_url o_method o_bearer o_body] in H.
  rewrite strip_prefix_app in H. cbn [mbind option_bind fmap option_fmap option_map] in H.
  set (req := mkHttp POST "/v1/tokens" None (Some "{}")) in H.
  pose proof (handle_tokens_run cfg policy mint jwks_doc (head chain) now req broker) as Hr.
  destruct (handle_tokens _ _ _ _ _ _ _ _) as [resp b']. destruct Hr as (_ & _ & _ & Hr).
  change (token_route req) with (Some false) in Hr. cbn in Hr, H.
  assert (H200 : is_success (status resp) = true) by by destruct (is_success (status resp)).
  destruct Hr as [[_ Hf]|(der & caller & Hl & Hca & [(_ & r & Ha & Hr)|[[=] _]])]; [congruence|].
  destruct r as [gs|e]; [|congruence]. subst resp. cbn in H. rewrite tokens_reply_wire in H. injection H as <-.
  pose proof Hca as [Hok _]%caller_of_Ok. destruct Hb as [_ Hcache _].
  destruct (all_spec _ _ _ _ _ _ _ _ _ _ Hw Hok Hcache Ha) as (_ & entry & He%ok_or_Ok & _ & Hs).
  by exists chain, der, caller, entry, gs.
Qed.
End tokens_end_to_end.

(** ** Witnesses *)

(** A wire format: the fields, encoded as a string of binary digits. *)
Module BitWire.
Fixpoint bits (p : positive) : string :=
  match p with
  | xH => EmptyString
  | xO p => String "0" (bits p)
  | xI p => String "1" (bits p)
  end.
Fixpoint of_bits (s : string) : positive :=
  match s with
  | EmptyString => xH
  | String c s => if Ascii.eqb c "0" then xO (of_bits s) else xI (of_bits s)
  end.
Lemma of_bits_bits p : of_bits (bits p) = p.
Proof. induction p; cbn; by f_equal. Qed.

Definition enc {A : Type} `{Countable A} (a : A) : string := bits (encode a).
Definition dec {A : Type} `{Countable A} (s : string) : option A := decode (of_bits s).
Lemma dec_enc {A : Type} `{Countable A} (a : A) : dec (enc a) = Some a.
Proof. unfold dec, enc. by rewrite of_bits_bits, decode_encode. Qed.

Definition body_list (b : SignBody) : list string :=
  [pod_token b; sb_namespace b; sb_pod_name b; sb_pod_uid b; sb_service_account b; csr b; sb_spiffe_id b].
Definition list_body (l : list string) : option SignBody :=
  match l with [a; b; c; d; e; f; g] => Some (mkSignBody a b c d e f g) | _ => None end.
Definition grant_pair (g : TokenGrant) : list string * Z := ([tg_alias g; tg_audience g; tg_token g], tg_exp g).
Definition pair_grant (p : list string * Z) : TokenGrant :=
  match p with ([a; b; c], z) => mkTokenGrant a b c z | _ => mkTokenGrant "" "" "" 0 end.

#[export] Instance wire : Wire := {|
  enc_sign_body := fun b => enc (body_list b);
  dec_sign_body := fun s => match (dec s : option (list string)) with Some l => list_body l | None => None end;
  enc_sign_reply := fun r => enc ([rp_spiffe_id r; rp_cert_chain r; rp_ca r], rp_not_after r);
  dec_sign_reply := fun s =>
    match (dec s : option (list string * Z)) with
    | Some ([a; b; c], z) => Some (mkSignReply a b c z)
    | _ => None
    end;
  enc_tokens_reply := fun ts => enc (map grant_pair ts);
  dec_tokens_reply := fun s => option_map (map pair_grant) (dec s);
  enc_grant := fun g => enc (option_map grant_pair g);
  dec_audience := fun s => if is_empty s then None else Some s;
  enc_refusal := fun r => Refusal_rule r |}.

#[export] Instance wire_spec : WireSpec wire.
Proof.
  split.
  - intros []. cbn. by rewrite dec_enc.
  - intros []. cbn. by rewrite dec_enc.
  - intros ts. cbn. rewrite dec_enc. cbn. f_equal. rewrite map_map. induction ts as [|[] ts IH]; cbn; by f_equal.
Qed.
End BitWire.

Module ClientWitness.
#[local] Existing Instance MiniRegex.engine.
#[local] Existing Instance MiniRegex.engine_spec.
#[local] Existing Instance SignWitness.parser.
#[local] Existing Instance SignWitness.issuer_sound.
Import SignWitness.

#[local] Existing Instance JwtWitness.codec.
#[local] Existing Instance BitWire.wire.
#[local] Existing Instance BitWire.wire_spec.

Definition endpoint : BrokerEndpoint := mkEndpoint "https://broker:8443/" "https://broker:8444" "ca" "/token".
Definition files (p : string) : option string := if String.eqb p "/token" then Some "nt " else None.
Definition broker : Broker :=
  mkBroker (Signer_new cfg) (Tokens_new cfg) (Handle_fixed catalog) no_metrics "bundle".
Definition context (token : string) : PodContext := mkPodContext "payments" "api-7d9f" "u-pod" "api" (Some token).
Definition request (token : string) : SignRequest := mkSignRequest id "csr" 3600 "node-1" (Some (context token)).
Definition network : Net := net cfg policy kube kube issuer 150 broker endpoint (fun _ => None) (fun _ => None).
Definition obtained : IssuedBundle := mkBundle "chain" "bundle" 200 100.

Example signs : client_sign (N := network) endpoint files (request "pt") = Ok obtained.
Proof. vm_compute. reflexivity. Qed.

Lemma sign_end_to_end_witness :
  exists node pod, authorized cfg policy catalog kube kube "nt" (sign_body (request "pt") (context "pt") "pt") node pod id.
Proof.
  destruct (sign_end_to_end cfg policy kube kube issuer 150 broker endpoint files (fun _ => None) (fun _ => None)
    (request "pt") obtained signs) as (pc & token & nt & node & pod & Hp & Ht & Hn & Ha & _).
  injection Hp as <-. injection Ht as <-. vm_compute in Hn. injection Hn as <-. exists node, pod. exact Ha.
Defined.

(** An unknown pod token. *)
Lemma refusal_end_to_end_witness :
  client_sign (N := network) endpoint files (request "stale") = Err Auth.
Proof.
  apply (refusal_end_to_end cfg policy kube kube issuer 150 broker endpoint files (fun _ => None) (fun _ => None)
    (request "stale") (context "stale") "stale" "nt" (Unauthenticated "I5")); vm_compute; (reflexivity || discriminate).
Defined.
End ClientWitness.

Module TokenClientWitness.
#[local] Existing Instance MiniRegex.engine.
#[local] Existing Instance MiniRegex.engine_spec.
#[local] Existing Instance JwtWitness.codec.
#[local] Existing Instance TokensWitness.parser.
#[local] Existing Instance BitWire.wire.
#[local] Existing Instance BitWire.wire_spec.
Import TokensWitness.

Definition toml (t : string) : option Catalog := if String.eqb t "good" then Some cat else None.
Definition handle : CatalogHandle := mkHandle (Some "p") cat "good".
Definition pem (s : string) : option (list string) := Some [s].
Definition key (s : string) : option string := Some s.
Definition accepts (chain : list string) (k : string) : bool := String.eqb k "KEY".

(** The JWKS is fetched, then a bad catalog is read, which changes nothing. *)
Definition earlier : list broker_event :=
  [EKeep (Some (Some "jwks")) (fun _ => Some "bad") None true 5].
Definition broker : Broker := foldl (broker_step cfg policy toml) (Broker_new cfg handle None) earlier.
Definition network : Net :=
  token_net cfg policy mint None 10 ClientWitness.endpoint accepts pem key broker.
Definition granted : TokenGrant := mkTokenGrant "db" "db" JwtWitness.token 1000.

Lemma tokens_end_to_end_witness :
  fetch_tokens (N := network) ClientWitness.endpoint "leaf" "KEY" = Ok [granted] /\
  exists entry gs, lookup cat "a" "payments" "api" = Some entry /\ [granted] = wire <$> gs.
Proof.
  assert (E : fetch_tokens (N := network) ClientWitness.endpoint "leaf" "KEY" = Ok [granted]) by (vm_compute; reflexivity).
  split; [exact E|].
  destruct (tokens_end_to_end cfg policy toml mint None 10 ClientWitness.endpoint accepts pem key
    handle None earlier "leaf" "KEY" [granted] eq_refl E) as (chain & leaf & cl & entry & gs & Hp & Hl & Hc & He & Hg & _).
  injection Hp as <-. injection Hl as <-. vm_compute in Hc. injection Hc as <-. vm_compute in He.
  exists entry, gs. split; [exact He|exact Hg].
Defined.
End TokenClientWitness.
