(* ===== verification/Vault.v ===== *)
(** * Vault  (svidlet-issue/src/auth.rs, vault/http.rs, auth.rs, mod.rs, spiffe.rs)

    The credential cache, the ways of logging in, and the two engines that use
    them: PKI, an [Issuer], and SPIFFE, the JWT minter.  The environment - what
    Vault answers, what the credential files hold, the monotonic clock - is
    asked once per event; [v_ticks] counts the events and [v_sent] records the
    requests, newest first.  Times are nanoseconds, leases whole seconds.

    [None] is a panic, which aborts the process; the only ones are a clock or a
    [Duration] out of range. *)

From Stdlib Require Import Floats.SpecFloat.
From S2P Require Import Prelude RustStr Errors Template Certs Issuer.
Open Scope list_scope.
Open Scope Z_scope.

(** ** Durations *)

Definition SEC : Z := 1000000000.
Definition REFRESH_MARGIN : Z := 60 * SEC.

(** binary32. *)
Notation f32 := spec_float.
Definition f32_of_int (n : Z) : f32 := binary_normalize 24 128 n 0 false.
Definition f32_div : f32 -> f32 -> f32 := SFdiv 24 128.
Definition f32_mul : f32 -> f32 -> f32 := SFmul 24 128.

Definition round_half_even (n d : Z) : Z :=
  let q := n / d in
  match 2 * (n mod d) ?= d with
  | Lt => q
  | Gt => q + 1
  | Eq => if Z.even q then q else q + 1
  end.

(** [Duration::from_secs_f32]: to the nearest nanosecond; panics on a negative
    value, on NaN, and on 2^64 seconds or more. *)
Definition from_secs_f32 (x : f32) : option Z :=
  match x with
  | S754_zero _ => Some 0
  | S754_finite false m e =>
      let n := if 0 <=? e then Z.pos m * 2 ^ e * SEC else round_half_even (Z.pos m * SEC) (2 ^ (- e)) in
      if n <? 2 ^ 64 * SEC then Some n else None
  | _ => None
  end.
(** [Duration::mul_f32] on whole seconds. *)
Definition mul_f32 (secs : Z) (rhs : f32) : option Z := from_secs_f32 (f32_mul rhs (f32_of_int secs)).

(** [Instant + Duration]. *)
Definition instant_add (now d : Z) : option Z := if now + d <? 2 ^ 63 * SEC then Some (now + d) else None.

(** How long after [now] a credential with this lease is refreshed. *)
Definition refresh_after (lease_secs : Z) : option Z :=
  if lease_secs =? 0 then Some (86400 * SEC)
  else
    two_thirds ← mul_f32 lease_secs (f32_div (f32_of_int 2) (f32_of_int 3));
    let margin := Z.max 0 (lease_secs * SEC - REFRESH_MARGIN) in
    Some (Z.max (Z.min two_thirds margin) SEC).
Definition refresh_deadline (lease_secs now : Z) : option Z :=
  d ← refresh_after lease_secs; instant_add now d.

(** ** Credentials *)

Record Token := mkToken { value : string; lease_secs : Z; renewable : bool }.
Definition permanent (v : string) : Token := mkToken v 0 false.
(** [h_since], for the theorems, is when the deadline was computed. *)
Record Held := mkHeld { h_token : Token; refresh_at : Z; h_since : Z }.

(** ** The environment *)

Inductive field := FStr (s : string) | FBool (b : bool).
Record VRequest := mkVRequest {
  v_get : bool;
  v_url : string;
  v_token : option string;
  v_namespace : option string;
  v_headers : list (string * string);
  v_body : list (string * field);
}.
Record Env := mkEnv {
  (** The status and body; [None] is a transport failure, a [None] body one
      that cannot be read. *)
  answer : nat -> VRequest -> option (Z * option string);
  file : nat -> string -> option string;
  clock : nat -> Z;
}.
Record vstate := mkV { v_sent : list VRequest; v_ticks : nat; v_held : option Held }.

Definition vm (A : Type) : Type := vstate -> option (result Error A * vstate).
#[export] Instance vm_ret : MRet vm := fun A a s => Some (Ok a, s).
#[export] Instance vm_bind : MBind vm := fun A B k m s =>
  match m s with
  | Some (Ok a, s) => k a s
  | Some (Err e, s) => Some (Err e, s)
  | None => None
  end.
Definition vres {A : Type} (r : result Error A) : vm A := fun s => Some (r, s).
Definition vtry {A : Type} (m : vm A) : vm (result Error A) := fun s =>
  '(r, s) ← m s; Some (Ok r, s).
Definition vpure {A : Type} (o : option A) : vm A := fun s => a ← o; Some (Ok a, s).
Definition get_held : vm (option Held) := fun s => Some (Ok (v_held s), s).
Definition set_held (h : option Held) : vm unit := fun s => Some (Ok tt, mkV (v_sent s) (v_ticks s) h).

(** [serde] on Vault's answers. *)
Record SignData := mkSignData { sd_certificate : string; sd_ca_chain : list string; sd_issuing_ca : string }.
Class VaultWire := {
  dec_auth : string -> option Token;
  dec_sign : string -> option SignData;
  dec_mint : string -> option string;
}.

Record VaultEndpoint := mkVaultEndpoint { address : string; ve_namespace : option string }.
Record VaultPkiConfig := mkPki { pki_mount : string; pki_role : string }.

(** The four [TokenSource]s. *)
Inductive source :=
| AppRoleAuth (mount role_id secret_id_path : string)
| KubernetesAuth (mount role token_path : string)
| JwtAuth (mount role token_path : string)
| StaticTokenAuth (path : string).

Section vault.
Context {X : X509Parser} {VW : VaultWire}.
Context (env : Env) (endpoint : VaultEndpoint).

Definition instant : vm Z := fun s => Some (Ok (clock env (v_ticks s)), mkV (v_sent s) (S (v_ticks s)) (v_held s)).
Definition read_to_string (path : string) : vm (option string) := fun s =>
  Some (Ok (file env (v_ticks s) path), mkV (v_sent s) (S (v_ticks s)) (v_held s)).
Definition send (rq : VRequest) : vm (option (Z * option string)) := fun s =>
  Some (Ok (answer env (v_ticks s) rq), mkV (rq :: v_sent s) (S (v_ticks s)) (v_held s)).

(** *** vault/http.rs *)

Definition url (path : string) : string :=
  trim_end_char "/" (address endpoint) +:+ "/v1/" +:+ trim_start_by (Ascii.eqb "/") path.

Definition ok_status (status : Z) : bool := (200 <=? status) && (status <? 300).

Definition post_json {T : Type} (decode : string -> option T) (path : string) (token : option string)
    (headers : list (string * string)) (body : list (string * field)) : vm T :=
  o ← send (mkVRequest false (url path) token (ve_namespace endpoint) headers body);
  resp ← vres (ok_or Transport o);
  if negb (ok_status resp.1) then vres (Err (Backend resp.1))
  else vres (ok_or Protocol (text ← resp.2; decode text)).

Definition get_text (path : string) : vm string :=
  o ← send (mkVRequest true (url path) None (ve_namespace endpoint) [] []);
  resp ← vres (ok_or Transport o);
  body ← vres (ok_or Transport resp.2);
  if negb (ok_status resp.1) then vres (Err (Backend resp.1)) else mret body.

(** *** vault/auth.rs *)

Definition classify (e : Error) : Error :=
  match e with
  | Backend status => if (status =? 400) || (status =? 403) then Auth else e
  | _ => e
  end.
Definition map_verr {A : Type} (f : Error -> Error) (m : vm A) : vm A := fun s =>
  '(r, s) ← m s; Some (map_err f r, s).

Definition renew_self (token : string) : vm Token :=
  post_json dec_auth "auth/token/renew-self" (Some token) [] [].

Definition read_file (path : string) : vm string :=
  o ← read_to_string path;
  raw ← vres (ok_or Auth o);
  if is_empty (trim raw) then vres (Err Auth) else mret (trim raw).

Definition login_with (mount : string) (body : list (string * field)) : vm Token :=
  map_verr classify (post_json dec_auth ("auth/" +:+ mount +:+ "/login") None [] body).

Definition app_role_login (mount role_id secret_id_path : string) : vm Token :=
  secret_id ← read_file secret_id_path;
  login_with mount [("role_id", FStr role_id); ("secret_id", FStr secret_id)].
Definition kubernetes_login (mount role token_path : string) : vm Token :=
  jwt ← read_file token_path;
  login_with mount [("role", FStr role); ("jwt", FStr jwt)].
Definition jwt_login (mount role token_path : string) : vm Token := kubernetes_login mount role token_path.
Definition static_token_login (path : string) : vm Token :=
  v ← read_file path;
  mret (permanent v).

Definition login (src : source) : vm Token :=
  match src with
  | AppRoleAuth mount role_id path => app_role_login mount role_id path
  | KubernetesAuth mount role path => kubernetes_login mount role path
  | JwtAuth mount role path => jwt_login mount role path
  | StaticTokenAuth path => static_token_login path
  end.

Definition renew (src : source) (token : string) : vm Token :=
  match src with
  | StaticTokenAuth _ => vres (Err Auth)
  | _ => renew_self token
  end.

(** *** auth.rs *)

(** Remember a credential, with its deadline. *)
Definition hold (t : Token) : vm string :=
  now ← instant;
  d ← vpure (refresh_deadline (lease_secs t) now);
  _ ← set_held (Some (mkHeld t d now));
  mret (value t).

Definition login_and_hold (src : source) : vm string := fresh ← login src; hold fresh.

Definition token (src : source) : vm string :=
  o ← get_held;
  match o with
  | None => login_and_hold src
  | Some held =>
      now ← instant;
      if now <? refresh_at held then mret (value (h_token held))
      else if renewable (h_token held) then
        r ← vtry (renew src (value (h_token held)));
        match r with
        | Ok renewed => hold renewed
        | Err _ => _ ← set_held None; login_and_hold src
        end
      else login_and_hold src
  end.

Definition invalidate : vm unit := set_held None.

(** *** vault/mod.rs *)

(** The loop of [sign] and [mint]: one more login after a 403. *)
Definition with_relogin {T : Type} (src : source) (call : string -> vm T) : vm T :=
  t ← token src;
  r ← vtry (call t);
  match r with
  | Err (Backend status) =>
      if status =? 403 then _ ← invalidate; t ← token src; call t else vres r
  | r => vres r
  end.

Definition normalize (pem : string) : string :=
  if is_empty (trim pem) then "" else trim pem +:+ newline.
Definition push_ca (out ca : string) : string :=
  if String.eqb (normalize ca) out then out else out +:+ normalize ca.
Definition chain_pem (d : SignData) : string := foldl push_ca (normalize (sd_certificate d)) (sd_ca_chain d).
Definition ca_bundle_pem (d : SignData) : string :=
  match sd_ca_chain d with
  | [] => normalize (sd_issuing_ca d)
  | cas => foldr (fun ca rest => normalize ca +:+ rest) "" cas
  end.

Definition sign_path (pki : VaultPkiConfig) : string :=
  trim_char "/" (pki_mount pki) +:+ "/sign/" +:+ pki_role pki.
Definition ca_chain_path (pki : VaultPkiConfig) : string := trim_char "/" (pki_mount pki) +:+ "/ca_chain".

Definition sign_fields (req : SignRequest) : list (string * field) :=
  [("csr", FStr (sr_csr_pem req)); ("uri_sans", FStr (SpiffeId_as_str (sr_spiffe_id req)));
   ("ttl", FStr (show_u64 (sr_ttl req) +:+ "s")); ("format", FStr "pem"); ("exclude_cn_from_sans", FBool true)].

Definition vault_sign (pki : VaultPkiConfig) (src : source) (req : SignRequest) : vm IssuedBundle :=
  signed ← with_relogin src (fun t =>
    post_json dec_sign (sign_path pki) (Some t) [("X-Svidlet-Node", sr_node_name req)] (sign_fields req));
  vres (checked_bundle req (chain_pem signed) (ca_bundle_pem signed)).

Definition vault_ca_chain (pki : VaultPkiConfig) : vm string :=
  body ← get_text (ca_chain_path pki);
  if contains_str "-----BEGIN CERTIFICATE-----" body then mret body else vres (Err Protocol).

(** *** vault/spiffe.rs *)

Definition mint_path (mount role : string) : string := trim_char "/" mount +:+ "/role/" +:+ role +:+ "/mintjwt".
Definition jwks_path (mount : string) : string := trim_char "/" mount +:+ "/.well-known/keys".

Definition vault_mint (mount : string) (src : source) (role audience : string) : vm string :=
  if has_char "/" role || is_empty role then vres (Err Identity)
  else
    with_relogin src (fun t =>
      minted ← post_json dec_mint (mint_path mount role) (Some t) [] [("audience", FStr audience)];
      if is_empty minted then vres (Err Protocol) else mret minted).

Definition vault_jwks (mount : string) : vm string := get_text (jwks_path mount).
End vault.

(** ** Running *)

Lemma vm_bind_run {A B : Type} (m : vm A) (k : A -> vm B) s r s' :
  (m ≫= k) s = Some (r, s') ->
  exists ra s1, m s = Some (ra, s1) /\
    match ra with Ok a => k a s1 = Some (r, s') | Err e => r = Err e /\ s' = s1 end.
Proof.
  unfold mbind, vm_bind. destruct (m s) as [[[a|e] s1]|]; [| |done]; intros E.
  - by exists (Ok a), s1.
  - injection E as <- <-. by exists (Err e), s1.
Qed.
Lemma vtry_run {A : Type} (m : vm A) s r s' :
  vtry m s = Some (r, s') -> exists rm, m s = Some (rm, s') /\ r = Ok rm.
Proof. unfold vtry. destruct (m s) as [[rm s1]|]; [|done]. intros [= <- <-]. by exists rm. Qed.

(** Calls that leave the cache alone: everything but [hold] and [invalidate]. *)
Definition uncached {A : Type} (m : vm A) : Prop := forall s r s', m s = Some (r, s') -> v_held s' = v_held s.
Lemma uncached_ret {A : Type} (a : A) : uncached (mret a).
Proof. by intros s r s' [= <- <-]. Qed.
Lemma uncached_res {A : Type} (r : result Error A) : uncached (vres r).
Proof. by intros s r' s' [= <- <-]. Qed.
Lemma uncached_bind {A B : Type} (m : vm A) (k : A -> vm B) :
  uncached m -> (forall a, uncached (k a)) -> uncached (m ≫= k).
Proof.
  intros Hm Hk s r s' (ra & s1 & E & H)%vm_bind_run. apply Hm in E. destruct ra; [apply Hk in H; congruence|].
  by destruct H as [_ ->].
Qed.
Lemma uncached_if {A : Type} (b : bool) (m m' : vm A) : uncached m -> uncached m' -> uncached (if b then m else m').
Proof. by destruct b. Qed.
Create HintDb vault.
#[export] Hint Resolve uncached_ret uncached_res uncached_bind uncached_if : vault.

Section vault_properties.
Context {X : X509Parser} {VW : VaultWire}.
Context (env : Env) (endpoint : VaultEndpoint).

Lemma uncached_send rq : uncached (send env rq).
Proof. by intros s r s' [= <- <-]. Qed.
Lemma uncached_read path : uncached (read_to_string env path).
Proof. by intros s r s' [= <- <-]. Qed.
Lemma uncached_map {A : Type} f (m : vm A) : uncached m -> uncached (map_verr f m).
Proof. intros Hm s r s'. unfold map_verr. destruct (m s) as [[rm s1]|] eqn:E; [|done]. intros [= <- <-]. by eapply Hm. Qed.
Hint Resolve uncached_send uncached_read uncached_map : vault.

Lemma uncached_post {T : Type} (decode : string -> option T) path t hs body :
  uncached (post_json env endpoint decode path t hs body).
Proof. unfold post_json. auto with vault. Qed.
Hint Resolve uncached_post : vault.
Lemma uncached_login src : uncached (login env endpoint src).
Proof. unfold login, jwt_login, app_role_login, kubernetes_login, static_token_login, read_file, login_with.
  destruct src; auto 8 with vault. Qed.
Lemma uncached_renew src t : uncached (renew env endpoint src t).
Proof. unfold renew, renew_self. destruct src; auto with vault. Qed.

(** ** The lease *)

(** A credential is scheduled for refresh at least a second after it was
    obtained, and a minute before its lease ends when the lease is longer than
    that. *)
Definition held_ok (h : Held) : Prop :=
  refresh_at h <= h_since h +
    (if lease_secs (h_token h) =? 0 then 86400 * SEC else Z.max SEC (lease_secs (h_token h) * SEC - REFRESH_MARGIN)) /\
  h_since h + SEC <= refresh_at h.

Lemma refresh_deadline_ok t d now : refresh_deadline (lease_secs t) now = Some d -> held_ok (mkHeld t d now).
Proof.
  unfold refresh_deadline, refresh_after, instant_add, held_ok. cbn [refresh_at h_since h_token].
  destruct (lease_secs t =? 0).
  - cbn. case_match; [|done]. intros [= <-]. unfold SEC. lia.
  - destruct (mul_f32 _ _) as [x|]; [|done]. cbn. case_match; [|done]. intros [= <-]. unfold SEC, REFRESH_MARGIN, SEC. lia.
Qed.

(** What a call of [token] that answers [Ok v] leaves behind: [v] is held, and
    it was obtained during the call or is not due for refresh at a moment of
    it. *)
Definition usable (v : string) (s s' : vstate) : Prop :=
  exists h, v_held s' = Some h /\ value (h_token h) = v /\ held_ok h /\
    ((exists t, (v_ticks s <= t < v_ticks s')%nat /\ h_since h = clock env t) \/
     (v_held s = Some h /\ exists t, (v_ticks s <= t < v_ticks s')%nat /\ clock env t < refresh_at h)).
Definition cache_fine (s : vstate) : Prop := forall h, v_held s = Some h -> held_ok h.

(** Time passes. *)
Definition ticking {A : Type} (m : vm A) : Prop := forall s r s', m s = Some (r, s') -> (v_ticks s <= v_ticks s')%nat.
Lemma ticking_ret {A : Type} (a : A) : ticking (mret a).
Proof. by intros s r s' [= <- <-]. Qed.
Lemma ticking_res {A : Type} (r : result Error A) : ticking (vres r).
Proof. by intros s r' s' [= <- <-]. Qed.
Lemma ticking_bind {A B : Type} (m : vm A) (k : A -> vm B) : ticking m -> (forall a, ticking (k a)) -> ticking (m ≫= k).
Proof.
  intros Hm Hk s r s' (ra & s1 & E & H)%vm_bind_run. apply Hm in E. destruct ra; [apply Hk in H; lia|].
  destruct H as [_ ->]. lia.
Qed.
Lemma ticking_if {A : Type} (b : bool) (m m' : vm A) : ticking m -> ticking m' -> ticking (if b then m else m').
Proof. by destruct b. Qed.
Lemma ticking_send rq : ticking (send env rq).
Proof. intros s r s' [= <- <-]. cbn. lia. Qed.
Lemma ticking_read path : ticking (read_to_string env path).
Proof. intros s r s' [= <- <-]. cbn. lia. Qed.
Lemma ticking_map {A : Type} f (m : vm A) : ticking m -> ticking (map_verr f m).
Proof. intros Hm s r s'. unfold map_verr. destruct (m s) as [[rm s1]|] eqn:E; [|done]. intros [= <- <-]. by eapply Hm. Qed.
Hint Resolve ticking_ret ticking_res ticking_bind ticking_if ticking_send ticking_read ticking_map : vault.
Lemma ticking_post {T : Type} (decode : string -> option T) path t hs body :
  ticking (post_json env endpoint decode path t hs body).
Proof. unfold post_json. auto with vault. Qed.
Hint Resolve ticking_post : vault.
Lemma ticking_login src : ticking (login env endpoint src).
Proof. unfold login, jwt_login, app_role_login, kubernetes_login, static_token_login, read_file, login_with.
  destruct src; auto 8 with vault. Qed.
Lemma ticking_renew src t : ticking (renew env endpoint src t).
Proof. unfold renew, renew_self. destruct src; auto with vault. Qed.

Lemma hold_run t s r s' :
  hold env t s = Some (r, s') ->
  r = Ok (value t) /\ v_ticks s' = S (v_ticks s) /\ v_sent s' = v_sent s /\
  exists d, v_held s' = Some (mkHeld t d (clock env (v_ticks s))) /\ held_ok (mkHeld t d (clock env (v_ticks s))).
Proof.
  unfold hold, instant, vpure, set_held, mbind, vm_bind. cbn.
  destruct (refresh_deadline _ _) as [d|] eqn:E; [|done]. cbn. intros [= <- <-].
  do 3 (split; [done|]). exists d. split; [done|by apply refresh_deadline_ok].
Qed.

Lemma login_and_hold_run src s0 s r s' :
  (v_ticks s0 <= v_ticks s)%nat ->
  login_and_hold env endpoint src s = Some (r, s') ->
  match r with
  | Ok v => usable v s0 s' /\
      exists t s1, login env endpoint src s = Some (Ok t, s1) /\ v = value t /\ v_sent s' = v_sent s1
  | Err e => v_held s' = v_held s /\ e <> Backend 403
  end.
Proof.
  intros Ht (ra & s1 & El & H)%vm_bind_run. pose proof (uncached_login _ _ _ _ El) as Hh.
  pose proof (ticking_login _ _ _ _ El) as Hk. destruct ra as [t|e].
  - apply hold_run in H as (-> & Ek & Es & d & Hd & Ho). split.
    + exists (mkHeld t d (clock env (v_ticks s1))). do 3 (split; [done|]). left. exists (v_ticks s1). split; [lia|done].
    + by exists t, s1.
  - destruct H as [-> ->]. split; [done|].
    assert (Hpost : forall mount body r0 s0 s2,
      login_with env endpoint mount body s0 = Some (r0, s2) -> r0 <> Err (Backend 403)).
    { intros mount body r0 s2 s3. unfold login_with, map_verr. destruct (post_json _ _ _ _ _ _ _ _) as [[rp sp]|]; [|done].
      intros [= <- <-]. destruct rp as [|[]]; cbn; [done..| |done|done|done|done].
      destruct ((status =? 400) || (status =? 403)) eqn:Eq; [done|]. intros [= ->]. done. }
    assert (Hread : forall path s0 e0 s2, read_file env path s0 = Some (Err e0, s2) -> e0 = Auth).
    { intros path s2 e0 s3. unfold read_file, read_to_string, vres, mbind, vm_bind. cbn.
      destruct (file env _ path) as [raw|]; cbn; [|by intros [= <- <-]]. destruct (is_empty _); [by intros [= <- <-]|done]. }
    intros ->. destruct src; cbn in El; apply vm_bind_run in El as (rr & s2 & Er & El);
      (destruct rr as [v|e]; [|apply Hread in Er; destruct El as [El _]; congruence]); try done;
      by apply Hpost in El.
Qed.

(** The cache hands out only live credentials.  [token] never keeps a
    credential past its deadline: the one it answers with was obtained in this
    very call, or is the cached one and its refresh deadline - two thirds of the
    lease, and at least a minute before the lease ends - is still ahead; and the
    invariant that makes this so survives every call, failed ones included. *)
Theorem token_cache_fresh (src : source) (s s' : vstate) (r : result Error string) :
  cache_fine s -> token env endpoint src s = Some (r, s') ->
  cache_fine s' /\ match r with Ok v => usable v s s' | Err e => True end.
Proof.
  intros Hs (ra & s1 & [= <- <-] & H)%vm_bind_run.
  assert (Hlogin : forall s1, (v_ticks s <= v_ticks s1)%nat -> cache_fine s1 ->
    login_and_hold env endpoint src s1 = Some (r, s') ->
    cache_fine s' /\ match r with Ok v => usable v s s' | Err e => True end).
  { intros s1 Ht Hc El. apply (login_and_hold_run src s) in El; [|done]. destruct r as [v|e].
    - destruct El as [Hu _]. split; [|done]. destruct Hu as (h & Hh & _ & Ho & _). intros h' E'. congruence.
    - destruct El as [El _]. split; [|done]. intros h. rewrite El. apply Hc. }
  destruct (v_held s) as [h|] eqn:Eh; [|by apply (Hlogin s)].
  apply vm_bind_run in H as (rn & s1 & [= <- <-] & H).
  set (s1 := mkV (v_sent s) (S (v_ticks s)) (v_held s)) in *.
  assert (H1 : cache_fine s1) by (intros h' E'; apply Hs; exact E').
  destruct (Z.ltb_spec (clock env (v_ticks s)) (refresh_at h)).
  { injection H as <- <-. split; [done|]. exists h. split; [by cbn; rewrite Eh|]. split; [done|]. split; [by apply Hs|].
    right. split; [done|]. exists (v_ticks s). split; [cbn; lia|done]. }
  destruct (renewable (h_token h)); [|apply (Hlogin s1); [cbn; lia|done|done]].
  apply vm_bind_run in H as (rt & s2 & (rm & Em & ->)%vtry_run & H).
  pose proof (uncached_renew _ _ _ _ _ Em) as Hu. pose proof (ticking_renew _ _ _ _ _ Em) as Hk. cbn in Hk.
  destruct rm as [t|e].
  - apply hold_run in H as (-> & Ek & _ & d & Hd & Ho). split; [intros h'; rewrite Hd; by intros [= <-]|].
    exists (mkHeld t d (clock env (v_ticks s2))). do 3 (split; [done|]). left. exists (v_ticks s2). split; [lia|done].
  - apply vm_bind_run in H as (rs & s3 & [= <- <-] & H). apply (Hlogin (mkV (v_sent s2) (v_ticks s2) None)); [cbn; lia|done|done].
Qed.

(** ** Refusals *)

(** A request answered 403 with a credential obtained by a login between [s]
    and [s'], the last one sent. *)
Definition refused_after_login (src : source) (s s' : vstate) : Prop :=
  exists s1 t s2 rq n rest body, (v_ticks s <= v_ticks s1)%nat /\
    login env endpoint src s1 = Some (Ok t, s2) /\
    v_sent s' = rq :: rest /\ v_token rq = Some (value t) /\ answer env n rq = Some (403, body) /\
    (v_ticks s2 <= n < v_ticks s')%nat.

(** A call that fails with 403 only when its own request, made with the given
    credential, is answered so. *)
Definition honest {T : Type} (call : string -> vm T) : Prop := forall t s s',
  call t s = Some (Err (Backend 403), s') ->
  exists rq rest body, v_sent s' = rq :: rest /\ v_token rq = Some t /\
    answer env (v_ticks s) rq = Some (403, body) /\ v_ticks s' = S (v_ticks s).

Lemma post_403 {T : Type} (decode : string -> option T) path t hs body s s' :
  post_json env endpoint decode path (Some t) hs body s = Some (Err (Backend 403), s') ->
  exists rq rest b, v_sent s' = rq :: rest /\ v_token rq = Some t /\
    answer env (v_ticks s) rq = Some (403, b) /\ v_ticks s' = S (v_ticks s).
Proof.
  unfold post_json. intros (ra & s1 & [= <- <-] & H)%vm_bind_run.
  apply vm_bind_run in H as (rb & s2 & [= <- <-] & H).
  destruct (answer env _ _) as [[st b]|] eqn:Ea; cbn in H; [|by destruct H].
  destruct (negb (ok_status st)).
  - injection H as -> <-. eexists _, _, b. cbn. split; [reflexivity|]. done.
  - unfold vres in H. destruct b as [text|]; cbn in H; [destruct (decode text)|]; cbn in H; injection H as H _; discriminate H.
Qed.

Lemma ticking_token src : ticking (token env endpoint src).
Proof.
  assert (Hh : forall t, ticking (hold env t)).
  { intros t s r s' H. apply hold_run in H as (_ & -> & _). lia. }
  assert (Hl : ticking (login_and_hold env endpoint src)).
  { apply ticking_bind; [apply ticking_login|done]. }
  intros s r s' (ra & s1 & [= <- <-] & H)%vm_bind_run. destruct (v_held s) as [h|]; [|by apply Hl in H].
  apply vm_bind_run in H as (rn & s1 & [= <- <-] & H). destruct (_ <? _); [injection H as <- <-; cbn; lia|].
  destruct (renewable _); [|apply Hl in H; cbn in H; lia].
  apply vm_bind_run in H as (rt & s2 & (rm & Em & ->)%vtry_run & H). apply ticking_renew in Em. cbn in Em.
  destruct rm as [t|e]; [apply Hh in H; lia|].
  apply vm_bind_run in H as (rs & s3 & [= <- <-] & H). apply Hl in H. cbn in H. lia.
Qed.

(** [token] itself never fails with a 403: a rejected login is [Auth]. *)
Lemma token_Err src s e s' : token env endpoint src s = Some (Err e, s') -> e <> Backend 403.
Proof.
  assert (Hl : forall s1, login_and_hold env endpoint src s1 = Some (Err e, s') -> e <> Backend 403).
  { intros s1 H. apply (login_and_hold_run src s1) in H; [|done]. by destruct H. }
  intros (ra & s1 & [= <- <-] & H)%vm_bind_run. destruct (v_held s) as [h|]; [|by apply Hl in H].
  apply vm_bind_run in H as (rn & s1 & [= <- <-] & H). destruct (_ <? _); [done|].
  destruct (renewable _); [|by apply Hl in H].
  apply vm_bind_run in H as (rt & s2 & (rm & _ & ->)%vtry_run & H).
  destruct rm as [t|e']; [by apply hold_run in H as [[=] _]|].
  apply vm_bind_run in H as (rs & s3 & [= <- <-] & H). by apply Hl in H.
Qed.

Lemma with_relogin_403 {T : Type} src (call : string -> vm T) s s' :
  honest call -> (forall t, ticking (call t)) ->
  with_relogin env endpoint src call s = Some (Err (Backend 403), s') -> refused_after_login src s s'.
Proof.
  intros Hc Hk (rt & s1 & Et & H)%vm_bind_run. pose proof (ticking_token _ _ _ _ Et) as K1.
  destruct rt as [t1|e]; [|destruct H as [[= <-] ->]; by apply token_Err in Et].
  apply vm_bind_run in H as (rc & s2 & (rm & Em & ->)%vtry_run & H). pose proof (Hk _ _ _ _ Em) as K2.
  assert (H403 : rm = Err (Backend 403)).
  { destruct rm as [a|e]; [done|]. destruct e; try (by injection H).
    destruct (Z.eqb_spec status 403) as [->|]; [done|]. by injection H. }
  subst rm. cbn [Z.eqb] in H. change (403 =? 403) with true in H. cbv iota in H.
  apply vm_bind_run in H as (ri & s3 & [= <- <-] & H).
  apply vm_bind_run in H as (rl & s4 & El & H).
  change (token env endpoint src (mkV (v_sent s2) (v_ticks s2) None))
    with (login_and_hold env endpoint src (mkV (v_sent s2) (v_ticks s2) None)) in El.
  pose proof El as El'. apply (login_and_hold_run src (mkV (v_sent s2) (v_ticks s2) None)) in El'; [|done].
  destruct rl as [t2|e]; [|destruct H as [[= <-] _], El' as [_ ?]; done].
  destruct El' as (_ & t & s5 & Hlog & -> & _).
  apply vm_bind_run in El as (rg & s6 & Hlog' & Eh). rewrite Hlog in Hlog'. injection Hlog' as <- <-.
  apply hold_run in Eh as (_ & K4 & _).
  apply Hc in H as (rq & rest & b & Hs & Ht & Ha & K5).
  exists (mkV (v_sent s2) (v_ticks s2) None), t, s5, rq, (v_ticks s4), rest, b. cbn.
  split; [lia|]. do 4 (split; [done|]). lia.
Qed.

(** C26: A 403 is Vault's policy, not a forgotten credential.  When signing or
    minting fails with 403, the request that was refused carried a credential
    obtained by a login made during this very call, after an earlier 403. *)
Theorem vault_403_is_policy (pki : VaultPkiConfig) (src : source) (req : SignRequest)
    (mount role audience : string) (s s' : vstate) :
  (vault_sign env endpoint pki src req s = Some (Err (Backend 403), s') -> refused_after_login src s s') /\
  (vault_mint env endpoint mount src role audience s = Some (Err (Backend 403), s') -> refused_after_login src s s').
Proof.
  split.
  - intros (ra & s1 & E & H)%vm_bind_run. destruct ra as [signed|e].
    + injection H as H _. unfold checked_bundle in H. destruct (assert_identity _ _) as [|e] eqn:Ea; [done|].
      injection H as ->. apply assert_identity_Err in Ea as [[=]|[=]].
    + destruct H as [[= <-] ->]. eapply with_relogin_403, E; [intros t s2 s3; apply post_403|].
      intros t. apply ticking_post.
  - unfold vault_mint. destruct (_ || _); [done|]. apply with_relogin_403.
    + intros t s2 s3 (rm & s4 & E & H)%vm_bind_run. destruct rm as [minted|e].
      * destruct (is_empty minted); [by injection H|done].
      * destruct H as [[= <-] ->]. by apply post_403 in E.
    + intros t. apply ticking_bind; [apply ticking_post|]. intros minted. destruct (is_empty minted); auto with vault.
Qed.

(** ** The interface *)

(** The PKI engine at one moment, as the [Issuer] its callers see; where the
    process would abort there is no answer, and none is claimed. *)
Definition VaultIssuer (pki : VaultPkiConfig) (src : source) (s : vstate) : Issuer := {|
  issuer_sign := fun req => from_option fst (Err Io) (vault_sign env endpoint pki src req s);
  issuer_ca_chain := from_option fst (Err Io) (vault_ca_chain env endpoint pki s) |}.

#[export] Instance VaultIssuer_sound pki src s : IssuerSound (VaultIssuer pki src s).
Proof.
  split. cbn. intros req b. destruct (vault_sign _ _ _ _ _ _) as [[r s']|] eqn:E; [|done]. cbn. intros ->.
  apply vm_bind_run in E as (ra & s1 & _ & H). destruct ra as [signed|]; [|by destruct H].
  injection H as H _. by apply checked_bundle_sound in H.
Qed.
End vault_properties.

(** ** When credentials are refreshed *)

Definition scheduled_well (lease : Z) : bool :=
  match refresh_after lease with
  | Some d => (SEC <=? d) && ((d <=? Z.max SEC (lease * SEC - REFRESH_MARGIN)))
              && ((d =? SEC) || (3 * d <=? 2 * lease * SEC + lease * 1000))
  | None => false
  end.
Fixpoint all_from (f : Z -> bool) (n : nat) (z : Z) : bool :=
  match n with O => true | S n => if f z then all_from f n (z + 1) else false end.
Lemma all_from_spec f n z : all_from f n z = true -> forall k, z <= k < z + Z.of_nat n -> f k = true.
Proof.
  revert z. induction n as [|n IH]; intros z H k Hk; [lia|]. cbn [all_from] in H. destruct (f z) eqn:E; [|done].
  destruct (decide (k = z)) as [->|]; [done|]. apply (IH (z + 1)); [done|lia].
Qed.
Lemma leases_checked : all_from scheduled_well (Z.to_nat 3600) 1 = true.
Proof. vm_compute. reflexivity. Qed.

(** Every lease of up to an hour is refreshed in time: the schedule is defined,
    leaves at least a second, ends a minute before the lease does when the lease
    allows it, and otherwise falls at two thirds of the lease, give or take the
    rounding of single precision (under a microsecond per second). *)
Theorem refresh_schedule (lease : Z) :
  1 <= lease <= 3600 ->
  exists d, refresh_after lease = Some d /\ SEC <= d <= Z.max SEC (lease * SEC - REFRESH_MARGIN) /\
    (d = SEC \/ 3 * d <= 2 * lease * SEC + lease * 1000).
Proof.
  intros Hl. assert (Hs : scheduled_well lease = true).
  { apply (all_from_spec _ _ _ leases_checked). rewrite Z2Nat.id; lia. }
  unfold scheduled_well in Hs. destruct (refresh_after lease) as [d|]; [|done]. exists d. split; [done|].
  rewrite !andb_true_iff, orb_true_iff, !Z.leb_le, Z.eqb_eq in Hs. naive_solver.
Qed.

(** ** Witnesses *)

Module VaultWitness.
Definition id : SpiffeId := mkSpiffeId "spiffe://example.org/ns/payments/sa/api".

#[local] Instance parser : X509Parser := {|
  parse_x509_pem := fun pem => if starts_with "leaf" pem then Some ("CERTIFICATE", "leaf") else None;
  cert_from_der := fun der =>
    if String.eqb der "leaf" then Some (mkX509 false 100 200 (Ok (Some [URI (SpiffeId_as_str id)])) "01" "k") else None;
  csr_from_der := fun _ => None |}.

(** A login grants a token named after the tick it was asked at; the engine
    signs for ["t4"] only. *)
#[local] Instance vault_wire : VaultWire := {|
  dec_auth := fun s => Some (mkToken s 600 true);
  dec_sign := fun s => Some (mkSignData s ["ca"] "ca");
  dec_mint := fun s => Some s |}.

Definition env : Env := mkEnv
  (fun n rq =>
     if contains_str "/login" (v_url rq) then Some (200, Some ("t" +:+ show_nat n))
     else if contains_str "/sign/" (v_url rq) then
       if bool_decide (v_token rq = Some "t4") then Some (200, Some "leaf") else Some (403, None)
     else Some (403, None))
  (fun _ _ => Some "secret") (fun n => Z.of_nat n * SEC).
Definition endpoint : VaultEndpoint := mkVaultEndpoint "https://vault:8200/" None.
Definition src : source := AppRoleAuth "approle" "role" "/secret".
Definition pki : VaultPkiConfig := mkPki "pki/" "spiffe".
Definition req : SignRequest := mkSignRequest id "csr" 3600 "node-1" None.

Definition start : vstate := mkV [] 0 None.
(** A credential that Vault has forgotten. *)
Definition forgotten : vstate := mkV [] 1 (Some (mkHeld (mkToken "old" 600 true) (400 * SEC) 0)).

(** The first signature is refused, the second, after a login, granted. *)
Example signs_after_relogin :
  fst <$> vault_sign env endpoint pki src req forgotten = Some (Ok (mkBundle ("leaf" +:+ newline +:+ "ca" +:+ newline) ("ca" +:+ newline) 200 100)).
Proof. vm_compute. reflexivity. Qed.

Definition minted : option (result Error string * vstate) := vault_mint env endpoint "spiffe" src "role" "db" start.

Lemma vault_403_is_policy_witness : exists s', fst <$> minted = Some (Err (Backend 403)) /\
  refused_after_login env endpoint src start s'.
Proof.
  destruct minted as [[r s']|] eqn:E; [|vm_compute in E; discriminate E].
  assert (Er : r = Err (Backend 403)) by (vm_compute in E; injection E as <- _; reflexivity).
  exists s'. split; [cbn; by rewrite Er|]. subst r.
  exact (proj2 (vault_403_is_policy env endpoint pki src req "spiffe" "role" "db" start s') E).
Defined.

Lemma token_cache_fresh_witness : exists s', token env endpoint src start = Some (Ok "t1", s') /\
  usable env "t1" start s'.
Proof.
  destruct (token env endpoint src start) as [[r s']|] eqn:E; [|vm_compute in E; discriminate E].
  assert (Er : r = Ok "t1") by (vm_compute in E; injection E as <- _; reflexivity). subst r.
  exists s'. split; [reflexivity|].
  exact (proj2 (token_cache_fresh env endpoint src start s' (Ok "t1") (fun h (H : v_held start = Some h) => ltac:(discriminate H)) E)).
Defined.

Lemma refresh_schedule_witness : exists d, refresh_after 600 = Some d /\ SEC <= d <= 540 * SEC.
Proof.
  destruct (refresh_schedule 600) as (d & E & Hd & _); [lia|]. exists d. split; [exact E|].
  unfold SEC, REFRESH_MARGIN, SEC in *. lia.
Defined.
End VaultWitness.
