(* ===== verification/BrokerProcess.v ===== *)
(** * Starting the broker  (svidlet-broker/src/main.rs, lib.rs and the ports of server.rs)

    [run] builds the broker from its configuration: the identity policy, the
    catalog, the API-server client, the two Vault backends - one to sign, one to
    mint, each with a credential of its own -, the key set if it can be had, the
    certificates and the ports.  [Server] has what the broker then does.

    The file system, the TLS library and the sockets are a [Surroundings]; the
    timeouts are the transport's. *)

From S2P Require Import Prelude RustStr Errors Template Catalog Limit BrokerConfig BrokerCatalog.
From S2P Require Import Certs Kube Issuer Sign Jwt Tokens Server Client Vault.
Open Scope list_scope.
Open Scope Z_scope.

Inductive BrokerStartError :=
| BadBrokerConfig | BadCatalog (e : Error) | NoApiServerCa | NoVaultCa | BadVaultCa | BadServingCert (e : Error) | BadClientCa | PortTaken.

Section start.
Context {R : RegexLite} {X : X509Parser} {C : JwtCodec} {W : Wire} {VW : VaultWire} {K : Type}.
Context (toml : string -> option Catalog).

Record Surroundings := mkSurroundings {
  sr_read : string -> option string;
  (** [ureq]'s PEM reader: the certificates of a file, malformed items left out. *)
  sr_pem : string -> list string;
  sr_vault_pem_ok : string -> bool;
  (** [load_certified] of rustls: the certificate and key at two paths. *)
  sr_load_certified : string -> string -> result Error K;
  (** The verifier of client certificates can be built from the file. *)
  sr_client_ca_ok : string -> bool;
  sr_bind : string -> bool;
  sr_http_get : string -> option string;
  sr_vault : Env;
}.

(** [HttpKube::new]: the API server's address, its roots checked. *)
Definition HttpKube_new (s : KubeSettings) (e : Surroundings) : result BrokerStartError string :=
  pem ← ok_or NoApiServerCa (sr_read e (kube_ca_cert_path s));
  _ ← guard_err (bool_decide (sr_pem e pem = [])) NoApiServerCa;
  Ok (trim_end_char "/" (api_url s)).

Definition broker_source (a : VaultAuth) : source :=
  match a with
  | AuthJwt mount role token_path => JwtAuth mount role token_path
  | AuthAppRole mount role_id secret_id_path => AppRoleAuth mount role_id secret_id_path
  | AuthToken path => StaticTokenAuth path
  end.

(** The PKI engine to sign with and the SPIFFE engine to mint with. *)
Record VaultBackends := mkBackends {
  vb_endpoint : VaultEndpoint;
  vb_pki : VaultPkiConfig;
  vb_spiffe_mount : string;
  vb_signs_as : source;
  vb_mints_as : source;
}.
Definition build_vault (cfg : Config) (e : Surroundings) : result BrokerStartError VaultBackends :=
  let v := vault cfg in
  ca_cert_pem ← match vault_ca_cert_path v with
                | Some p => Some <$> ok_or NoVaultCa (sr_read e p)
                | None => Ok None
                end;
  _ ← guard_err (match ca_cert_pem with Some pem => negb (sr_vault_pem_ok e pem) | None => false end) BadVaultCa;
  Ok (mkBackends (mkVaultEndpoint (vault_address v) (vault_namespace v)) (mkPki (BrokerConfig.pki_mount v) (BrokerConfig.pki_role v))
        (spiffe_mount v) (broker_source (auth v)) (broker_source (auth v))).

(** [jwks_source]: the configured URL, or Vault's own key set. *)
Definition jwks_document (cfg : Config) (vb : VaultBackends) (e : Surroundings) : option string :=
  match jwks_url cfg with
  | Some url => sr_http_get e url
  | None => match vault_jwks (sr_vault e) (vb_endpoint vb) (vb_spiffe_mount vb) (mkV [] 0 None) with
            | Some (Ok text, _) => Some text
            | _ => None
            end
  end.

Record Started := mkStarted {
  st_policy : IdPolicy;
  st_api : string;
  st_vault : VaultBackends;
  st_cert : K;
  st_broker : Broker;
}.

Definition with_jwks (js : JwksState) (b : Broker) : Broker :=
  with_tokens (mkTokens js (cache (tokens b)) (mint_rate (tokens b)) (mints (tokens b))) b.

(** The state in front of the ports. *)
Definition assemble (cfg : Config) (e : Surroundings) (vb : VaultBackends) (c : CatalogHandle) : Broker :=
  let b := Broker_new cfg c (sr_read e (bundle_path cfg)) in
  with_jwks (jwks_refresh (jwks_document cfg vb e) (jwks (tokens b))).2 b.

Definition open_ports (cfg : Config) (e : Surroundings) : result BrokerStartError unit :=
  _ ← guard_err (negb (sr_client_ca_ok e (client_ca_path cfg))) BadClientCa;
  _ ← guard_err (negb (sr_bind e (sign_addr cfg))) PortTaken;
  _ ← guard_err (negb (sr_bind e (token_addr cfg))) PortTaken;
  guard_err (negb (is_empty (metrics_addr cfg)) && negb (sr_bind e (metrics_addr cfg))) PortTaken.

Definition broker_run (cfg : Config) (e : Surroundings) : result BrokerStartError Started :=
  policy ← map_err (fun _ => BadBrokerConfig) (id_policy cfg);
  catalog ← map_err BadCatalog (Handle_load toml (sr_read e) (catalog_path cfg));
  api ← HttpKube_new (kube cfg) e;
  vb ← build_vault cfg e;
  let broker := assemble cfg e vb catalog in
  cert ← map_err BadServingCert (ReloadingCert_load (sr_load_certified e (tls_cert_path cfg) (tls_key_path cfg)));
  _ ← open_ports cfg e;
  Ok (mkStarted policy api vb cert broker).

Definition broker_main (get : string -> option string) (e : Surroundings) : result BrokerStartError Started :=
  cfg ← map_err (fun _ => BadBrokerConfig) (from_source get);
  broker_run cfg e.

(** *** The two ports *)

Inductive Port := PortSign | PortTokens.

(** One request on a connection: [leaf] is the client certificate of its
    handshake, which only the token port asks for. *)
Definition serve_one (cfg : Config) (policy : IdPolicy) (port : Port) (Kn Kp : Kube) (V : Issuer)
    (mint : string -> string -> result Error string) (fetch : option string)
    (leaf : option string) (now : Z) (req : HttpRequest) (b : Broker) : HttpResponse * Broker :=
  match port with
  | PortSign => handle_sign cfg policy Kn Kp V now req b
  | PortTokens => handle_tokens cfg policy mint fetch leaf now req b
  end.

(** ** Certificates do not wait for the key set *)

Lemma handle_sign_jwks cfg policy Kn Kp V now req b js :
  (handle_sign cfg policy Kn Kp V now req (with_jwks js b)).1 = (handle_sign cfg policy Kn Kp V now req b).1.
Proof.
  unfold handle_sign. destruct (h_method req); [by repeat case_match| |done]. destruct (String.eqb _ _); [|done].
  unfold sign_outcome. destruct (_ ≫= _) as [body|]; [|done]. cbn [with_jwks with_tokens signer b_catalog].
  by destruct (sign _ _ _ _ _ _ _ _ _ _) as [[s|r] st].
Qed.

Lemma broker_run_Ok cfg e s :
  broker_run cfg e = Ok s ->
  id_policy cfg = Ok (st_policy s) /\ build_vault cfg e = Ok (st_vault s) /\
  sr_load_certified e (tls_cert_path cfg) (tls_key_path cfg) = Ok (st_cert s) /\
  exists c, Handle_load toml (sr_read e) (catalog_path cfg) = Ok c /\ st_broker s = assemble cfg e (st_vault s) c.
Proof.
  unfold broker_run. intros (pol & Hp%map_err_Ok & H)%bind_Ok. apply bind_Ok in H as (c & Hc%map_err_Ok & H).
  apply bind_Ok in H as (api & _ & H). apply bind_Ok in H as (vb & Hv & H). cbn zeta in H.
  apply bind_Ok in H as (cert & Hk%map_err_Ok & H). apply bind_Ok in H as (u & _ & [= <-]). split_and!; [done..|]. by exists c.
Qed.

Lemma build_vault_Ok cfg e vb :
  build_vault cfg e = Ok vb ->
  address (vb_endpoint vb) = vault_address (vault cfg) /\ vb_signs_as vb = broker_source (auth (vault cfg)) /\
  vb_mints_as vb = broker_source (auth (vault cfg)).
Proof. unfold build_vault. by intros (? & _ & (? & _ & [= <-])%bind_Ok)%bind_Ok. Qed.

Lemma Handle_load_ok read p c : Handle_load toml read p = Ok c -> handle_ok toml c.
Proof. unfold Handle_load. by intros (text & _ & (cat & H & [= <-])%bind_Ok)%bind_Ok. Qed.

Lemma assemble_ok cfg policy e vb c :
  handle_ok toml c -> broker_ok cfg policy toml (sr_read e (bundle_path cfg)) (assemble cfg e vb c).
Proof.
  intros Hc. destruct (broker_run_ok cfg policy toml (sr_read e (bundle_path cfg)) c [] Hc) as [H1 H2 H3]. split; [exact H1|exact H2|exact H3].
Qed.

Lemma broker_steps_ok cfg policy file b es :
  broker_ok cfg policy toml file b -> broker_ok cfg policy toml file (foldl (broker_step cfg policy toml) b es).
Proof. revert b. induction es as [|ev es IH]; intros b Hb; [done|]. cbn. by apply IH, broker_step_ok. Qed.

(** The same place with other answers to the request for the key set. *)
Definition other_jwks (http : string -> option string) (env : Env) (e : Surroundings) : Surroundings :=
  mkSurroundings (sr_read e) (sr_pem e) (sr_vault_pem_ok e) (sr_load_certified e) (sr_client_ca_ok e) (sr_bind e) http env.

(** C28: What a start of the broker comes to.  One that serves has the identity
    policy of its configuration and the catalog of its file, validated; it signs and mints at the configured Vault, logged in
    the configured way for both; and through any requests and housekeeping the
    catalog stays validated, every cached token belongs to its role and the
    trust bundle is that of the start or PEM.  Neither the start nor any
    certificate depends on the key set: without one it starts just the same
    and answers every request of the certificate port with the same response. *)
Theorem broker_start_sound (get : string -> option string) (cfg : Config) (e : Surroundings) (s : Started) :
  from_source get = Ok cfg -> broker_main get e = Ok s ->
  id_policy cfg = Ok (st_policy s) /\
  (exists text, sr_read e (catalog_path cfg) = Some text /\ Catalog_parse toml text = Ok (Handle_current (b_catalog (st_broker s)))) /\
  address (vb_endpoint (st_vault s)) = vault_address (vault cfg) /\
  vb_signs_as (st_vault s) = broker_source (auth (vault cfg)) /\ vb_mints_as (st_vault s) = broker_source (auth (vault cfg)) /\
  (forall es, broker_ok cfg (st_policy s) toml (sr_read e (bundle_path cfg)) (foldl (broker_step cfg (st_policy s) toml) (st_broker s) es)) /\
  forall http env, exists s', broker_main get (other_jwks http env e) = Ok s' /\ st_policy s' = st_policy s /\
    forall Kn Kp V now req,
      (handle_sign cfg (st_policy s) Kn Kp V now req (st_broker s')).1 = (handle_sign cfg (st_policy s) Kn Kp V now req (st_broker s)).1.
Proof.
  intros Hc H. unfold broker_main in H. rewrite Hc in H. cbn [map_err mbind result_bind] in H.
  pose proof H as (Hp & Hv%build_vault_Ok & _ & c & Hl & Hb)%broker_run_Ok. split; [done|]. split; [|split_and!].
  - unfold Handle_load in Hl. apply bind_Ok in Hl as (text & Ht%ok_or_Ok & (cat & Hcat & [= <-])%bind_Ok).
    exists text. split; [done|]. by rewrite Hb.
  - apply Hv.
  - apply Hv.
  - apply Hv.
  - intros es. rewrite Hb. apply broker_steps_ok, assemble_ok. by eapply Handle_load_ok.
  - intros http env. unfold broker_main. rewrite Hc. cbn [map_err mbind result_bind].
    unfold broker_run in H |- *. change (sr_read (other_jwks http env e)) with (sr_read e).
    apply bind_Ok in H as (pol & Ep & H). rewrite Ep. cbn [mbind result_bind]. apply bind_Ok in H as (c' & El & H). rewrite El. cbn [mbind result_bind].
    apply bind_Ok in H as (api & Ea & H). change (HttpKube_new (kube cfg) (other_jwks http env e)) with (HttpKube_new (kube cfg) e). rewrite Ea. cbn [mbind result_bind].
    apply bind_Ok in H as (vb & Ev & H). change (build_vault cfg (other_jwks http env e)) with (build_vault cfg e). rewrite Ev. cbn [mbind result_bind].
    apply bind_Ok in H as (cert & Ek & H). change (sr_load_certified (other_jwks http env e)) with (sr_load_certified e). rewrite Ek. cbn [mbind result_bind].
    apply bind_Ok in H as (u & Eo & [= <-]). change (open_ports cfg (other_jwks http env e)) with (open_ports cfg e). rewrite Eo. cbn [mbind result_bind].
    eexists. split; [reflexivity|]. cbn [st_policy st_broker]. split; [done|]. intros. unfold assemble. by rewrite !handle_sign_jwks.
Qed.
End start.

Arguments Surroundings : clear implicits.
Arguments Started {R} K.

(** ** Witness: a broker that starts while Vault is down *)

Module BrokerProcessWitness.
#[local] Existing Instance MiniRegex.engine.
#[local] Existing Instance JwtWitness.codec.
#[local] Existing Instance TokensWitness.parser.
#[local] Existing Instance BitWire.wire.
#[local] Instance vault_wire : VaultWire := {|
  dec_auth := fun _ => None; dec_sign := fun _ => None; dec_mint := fun _ => None |}.

Definition toml (t : string) : option Catalog := if String.eqb t "file" then Some TokensWitness.cat else None.
Definition place : Surroundings unit :=
  mkSurroundings (fun _ => Some "file") (fun pem => [pem]) (fun _ => true) (fun _ _ => Ok tt) (fun _ => true) (fun _ => true)
    (fun _ => None) (mkEnv (fun _ _ => None) (fun _ _ => None) (fun n => Z.of_nat n)).

Definition started : result BrokerStartError (Started unit) := broker_main toml BrokerConfigWitness.env place.
Lemma starts : match started with Ok s => bool_decide (js_jwks (jwks (tokens (st_broker s))) = None) | Err _ => false end = true.
Proof. vm_compute. reflexivity. Qed.
(** A taken port is fatal. *)
Example port_taken :
  broker_main toml BrokerConfigWitness.env
    (mkSurroundings (fun _ => Some "file") (fun pem => [pem]) (fun _ => true) (fun _ _ => Ok tt) (fun _ => true) (fun _ => false)
       (fun _ => None) (sr_vault place)) = Err PortTaken.
Proof. vm_compute. reflexivity. Qed.

Lemma config_read : from_source BrokerConfigWitness.env = Ok BrokerConfigWitness.cfg.
Proof. vm_compute. reflexivity. Qed.

Lemma broker_start_sound_witness :
  exists s, started = Ok s /\ vb_mints_as (st_vault s) = JwtAuth "k8s-a" "svidlet-broker" "/var/run/secrets/svidlet/vault/token" /\
    broker_ok BrokerConfigWitness.cfg (st_policy s) toml (Some "file") (st_broker s).
Proof.
  pose proof starts as H. destruct started as [s|] eqn:E; [clear H|discriminate H].
  destruct (broker_start_sound toml BrokerConfigWitness.env BrokerConfigWitness.cfg place s config_read E)
    as (_ & _ & _ & _ & Hm & Hb & _).
  exists s. split; [reflexivity|]. split; [exact Hm|exact (Hb [])].
Defined.
End BrokerProcessWitness.
