(* ===== verification/BrokerTls.v ===== *)
(** * The broker's TLS ports  (svidlet-broker/src/server.rs)

    How a connection becomes requests: the accept loop, the two TLS
    configurations, the handshake, the client's leaf certificate and the handler
    of the port.  The TLS library is [rustls]: [Rustls] gives what the code gets
    from it and [RustlsSpec] what its documentation promises of a handshake -
    without client authentication no client certificate is asked for, and with
    a [WebPkiClientVerifier] a handshake that completes has verified one. *)

From S2P Require Import Prelude RustStr Errors Template Catalog Limit BrokerConfig BrokerCatalog.
From S2P Require Import Certs Kube Issuer Sign Jwt Tokens Server Client Vault BrokerProcess.
Open Scope list_scope.
Open Scope Z_scope.

(** A certificate is its DER, a path its text. *)
Record ServerConfig := mkServerConfig {
  client_roots : option (list string);   (* [None] is [with_no_client_auth] *)
  alpn_protocols : list string;
}.

Class Rustls := {
  SigningKey : Type;
  (** The items of a PEM file, each decoded or not; [None] for a file that
      cannot be opened. *)
  pem_file_iter : string -> option (list (option string));
  (** The first private key of a PEM file, and whether the provider signs
      with keys of its kind. *)
  private_key_from_pem_file : string -> option string;
  any_supported_type : string -> option SigningKey;
  (** [RootCertStore::add] of one certificate, [build] of the verifier. *)
  root_ok : string -> bool;
  verifier_ok : list string -> bool;
  (** The client's side of a connection, and what the handshake comes to:
      [None] when it fails, else the client certificates the session holds. *)
  Peer : Type;
  handshake : ServerConfig -> Peer -> option (option (list string));
  (** A chain that leads to one of the roots, valid now, for client use. *)
  verifies : list string -> list string -> Prop;
}.

Class RustlsSpec (T : Rustls) : Prop := {
  no_client_auth : forall alpn p peer, handshake (mkServerConfig None alpn) p = Some peer -> peer = None;
  client_verified : forall roots alpn p peer, handshake (mkServerConfig (Some roots) alpn) p = Some peer ->
    exists leaf chain, peer = Some (leaf :: chain) /\ verifies roots (leaf :: chain);
}.

Section tls.
Context {T : Rustls}.

(** [collect] into a [Result]: the first item that does not decode is the
    error. *)
Definition load_certs (path : string) : result unit (list string) :=
  items ← ok_or tt (pem_file_iter path);
  certs ← ok_or tt (mapM (M := option) id items);
  _ ← guard_err (bool_decide (certs = [])) tt;
  Ok certs.

Definition CertifiedKey : Type := list string * SigningKey.

Definition load_certified (cert key : string) : result unit CertifiedKey :=
  chain ← load_certs cert;
  key ← ok_or tt (private_key_from_pem_file key);
  signing ← ok_or tt (any_supported_type key);
  Ok (chain, signing).

(** [ReloadingCert], with its two paths. *)
Record ServingCert := mkServing { sc_cert : string; sc_key : string; sc_current : CertifiedKey }.
Definition ServingCert_load (cert key : string) : result unit ServingCert :=
  current ← load_certified cert key;
  Ok (mkServing cert key current).
Definition ServingCert_reload (s : ServingCert) : result unit unit * ServingCert :=
  match load_certified (sc_cert s) (sc_key s) with
  | Ok fresh => (Ok tt, mkServing (sc_cert s) (sc_key s) fresh)
  | Err e => (Err e, s)
  end.
Definition resolve (s : ServingCert) : option CertifiedKey := Some (sc_current s).

Definition sign_tls : result unit ServerConfig := Ok (mkServerConfig None ["http/1.1"]).

(** The roots are added one by one; a bad one is an error. *)
Definition token_tls (client_ca : string) : result unit ServerConfig :=
  roots ← load_certs client_ca;
  _ ← for_each (fun c => guard_err (negb (root_ok c)) tt) roots;
  _ ← guard_err (negb (verifier_ok roots)) tt;
  Ok (mkServerConfig (Some roots) ["http/1.1"]).

(** ** Connections *)

(** [accept] retries until the listener yields a connection: of what the
    listener returns, the errors are passed over. *)
Fixpoint accept {A : Type} (listener : list (option A)) : option (A * list (option A)) :=
  match listener with
  | [] => None
  | Some c :: rest => Some (c, rest)
  | None :: rest => accept rest
  end.

(** The loop: what it spawns a task for, of what the listener returns. *)
Fixpoint accept_all {A : Type} (fuel : nat) (listener : list (option A)) : list A :=
  match fuel with
  | O => []
  | S fuel => match accept listener with None => [] | Some (c, rest) => c :: accept_all fuel rest end
  end.
Definition accepted {A : Type} (listener : list (option A)) : list A := accept_all (length listener) listener.

(** A connection: whether the handshake is in time, and the peer. *)
Record Conn := mkConn { cn_in_time : bool; cn_peer : Peer }.

(** The certificate the handlers of a connection are given, if it stands. *)
Definition establish (tls : ServerConfig) (c : Conn) : option (option string) :=
  if cn_in_time c then
    peer ← handshake tls (cn_peer c);
    Some (certs ← peer; head certs)
  else None.

(** What the rest of the world is like when a request is handled. *)
Record Moment := mkMoment {
  mo_nodes : Kube;
  mo_pods : Kube;
  mo_issuer : Issuer;
  mo_mint : string -> string -> result Error string;
  mo_jwks : option string;
  mo_now : Z;
}.

Section serve.
Context {R : RegexLite} {X : X509Parser} {C : JwtCodec} {W : Wire}.
Context (cfg : BrokerConfig.Config) (policy : IdPolicy) (toml : string -> option Catalog).

(** A request on the [i]-th connection: the tasks run side by side, so that the
    requests of different connections come in any order. *)
Definition arrival : Type := nat * Moment * HttpRequest.

Fixpoint serve_arrivals (tls : ServerConfig) (port : Port) (conns : list Conn) (arrivals : list arrival) (b : Broker) : Broker :=
  match arrivals with
  | [] => b
  | (i, mo, req) :: arrivals =>
      match conns !! i ≫= establish tls with
      | None => serve_arrivals tls port conns arrivals b
      | Some leaf =>
          serve_arrivals tls port conns arrivals
            (serve_one cfg policy port (mo_nodes mo) (mo_pods mo) (mo_issuer mo) (mo_mint mo) (mo_jwks mo) leaf (mo_now mo) req b).2
      end
  end.
Definition serve (tls : ServerConfig) (port : Port) (listener : list (option Conn)) (arrivals : list arrival) (b : Broker) : Broker :=
  serve_arrivals tls port (accepted listener) arrivals b.

Lemma accept_spec {A : Type} (l : list (option A)) :
  match accept l with
  | None => omap id l = []
  | Some (c, rest) => omap id l = c :: omap id rest /\ (length rest < length l)%nat
  end.
Proof.
  induction l as [|[c|] l IH]; cbn; [done|split; [done|lia]|]. destruct (accept l) as [[c rest]|]; [|done].
  destruct IH as [E H]. split; [done|lia].
Qed.

(** Errors of the listener never end the loop: every connection it yields is
    taken. *)
Lemma accepted_all {A : Type} (l : list (option A)) : accepted l = omap id l.
Proof.
  unfold accepted. assert (H : forall fuel l, (length l <= fuel)%nat -> accept_all fuel l = omap (id (A := option A)) l).
  { induction fuel as [|fuel IH]; intros l0 Hl.
    - destruct l0 as [|o l0]; [done|cbn in Hl; lia].
    - cbn [accept_all]. pose proof (accept_spec l0) as Ha. destruct (accept l0) as [[c rest]|]; [|done].
      destruct Ha as [-> Hr]. f_equal. apply IH. lia. }
  by apply H.
Qed.

(** The same request as a step of the broker. *)
Definition as_event (port : Port) (leaf : option string) (mo : Moment) (req : HttpRequest) : broker_event :=
  match port with
  | PortSign => ESign (mo_nodes mo) (mo_pods mo) (mo_issuer mo) (mo_now mo) req
  | PortTokens => ETokens (mo_mint mo) (mo_jwks mo) leaf (mo_now mo) req
  end.

(** What a port does is a run of the broker, each step with the leaf of a
    connection that stands. *)
Lemma port_run (P : option string -> Prop) tls port listener arrivals b :
  (forall c leaf, establish tls c = Some leaf -> P leaf) ->
  exists es, serve tls port listener arrivals b = foldl (broker_step cfg policy toml) b es /\
    Forall (fun e => exists i mo req leaf, (i, mo, req) ∈ arrivals /\ e = as_event port leaf mo req /\ P leaf) es.
Proof.
  intros HP. unfold serve. generalize (accepted listener). intros conns. revert b.
  induction arrivals as [|[[i mo] req] arrivals IH]; intros b; cbn [serve_arrivals]; [by exists []|].
  assert (Hmono : forall es, Forall (fun e => exists i0 mo0 req0 leaf, (i0, mo0, req0) ∈ arrivals /\ e = as_event port leaf mo0 req0 /\ P leaf) es ->
    Forall (fun e => exists i0 mo0 req0 leaf, (i0, mo0, req0) ∈ (i, mo, req) :: arrivals /\ e = as_event port leaf mo0 req0 /\ P leaf) es).
  { intros es H. eapply Forall_impl; [exact H|]. intros e (i0 & mo0 & req0 & leaf & Hin & He). exists i0, mo0, req0, leaf.
    split; [by right|done]. }
  destruct (conns !! i ≫= establish tls) as [leaf|] eqn:E.
  - destruct (IH (serve_one cfg policy port (mo_nodes mo) (mo_pods mo) (mo_issuer mo) (mo_mint mo) (mo_jwks mo) leaf (mo_now mo) req b).2)
      as (es & -> & Hes). exists (as_event port leaf mo req :: es). split; [by destruct port|]. constructor; [|by apply Hmono].
    apply bind_Some in E as (c & _ & Hc). exists i, mo, req, leaf. split; [left|]. split; [done|by eapply HP].
  - destruct (IH b) as (es & -> & Hes). exists es. split; [done|by apply Hmono].
Qed.

Context `{!RustlsSpec T}.

Lemma load_certs_Ok path certs : load_certs path = Ok certs -> certs <> [] /\ pem_file_iter path = Some (Some <$> certs).
Proof.
  unfold load_certs. intros (items & Hi%ok_or_Ok & (cs & Hc%ok_or_Ok & ([] & Hne%guard_err_Ok & [= <-])%bind_Ok)%bind_Ok)%bind_Ok.
  apply bool_decide_eq_false in Hne. split; [done|]. rewrite Hi. f_equal. apply mapM_Some in Hc.
  clear -Hc. induction Hc as [|o c os cs Ho _ IH]; [done|]. cbn in *. by rewrite Ho, IH.
Qed.

(** A step of the token port whose caller was verified against the roots. *)
Definition verified_step (roots : list string) (e : broker_event) : Prop :=
  match e with
  | ETokens _ _ leaf _ _ => exists l chain, leaf = Some l /\ verifies roots (l :: chain)
  | _ => False
  end.
Definition signing_step (e : broker_event) : Prop := match e with ESign _ _ _ _ _ => True | _ => False end.

(** C11: The token port hears only clients it has verified.  With the configuration
    the broker builds from its client-CA file - every certificate of the file a
    root, at least one -, through any connections, failed handshakes and errors
    of the listener, with the requests of different connections in any order:
    what the port does to the broker is a run of token steps, each with a leaf
    certificate that is the first of a chain the handshake verified against
    those roots; what the signing port does is a run of signing steps, for which
    no client certificate is asked; and no error of the listener loses a
    connection. *)
Theorem token_port_authenticates (client_ca : string) (tls stls : ServerConfig) (listener : list (option Conn))
    (arrivals : list arrival) (b : Broker) :
  token_tls client_ca = Ok tls -> sign_tls = Ok stls ->
  exists roots es ss, pem_file_iter client_ca = Some (Some <$> roots) /\ roots <> [] /\ client_roots tls = Some roots /\
    serve tls PortTokens listener arrivals b = foldl (broker_step cfg policy toml) b es /\ Forall (verified_step roots) es /\
    serve stls PortSign listener arrivals b = foldl (broker_step cfg policy toml) b ss /\ Forall signing_step ss /\
    (forall c leaf, establish stls c = Some leaf -> leaf = None) /\
    accepted listener = omap id listener.
Proof.
  unfold token_tls. intros (roots & [Hne Hf]%load_certs_Ok & (u & _ & (u' & _ & [= <-])%bind_Ok)%bind_Ok)%bind_Ok [= <-].
  assert (Ht : forall c leaf, establish (mkServerConfig (Some roots) ["http/1.1"]) c = Some leaf ->
    exists l chain, leaf = Some l /\ verifies roots (l :: chain)).
  { intros c leaf. unfold establish. destruct (cn_in_time c); [|done]. intros (peer & Hp & [= <-])%bind_Some.
    apply client_verified in Hp as (l & chain & -> & Hv). by exists l, chain. }
  assert (Hs : forall c leaf, establish (mkServerConfig None ["http/1.1"]) c = Some leaf -> leaf = None).
  { intros c leaf. unfold establish. destruct (cn_in_time c); [|done]. intros (peer & Hp & [= <-])%bind_Some.
    by apply no_client_auth in Hp as ->. }
  destruct (port_run _ _ PortTokens listener arrivals b Ht) as (es & Ees & Hes).
  destruct (port_run _ _ PortSign listener arrivals b Hs) as (ss & Ess & Hss).
  exists roots, es, ss. split_and!; try done; [| |apply accepted_all].
  - eapply Forall_impl; [exact Hes|]. by intros e (i & mo & req & leaf & _ & -> & Hl).
  - eapply Forall_impl; [exact Hss|]. by intros e (i & mo & req & leaf & _ & -> & _).
Qed.
End serve.

(** The serving certificate is always one that loaded whole, and a bad file
    leaves the one in use. *)
Lemma serving_cert_loaded cert key s :
  ServingCert_load cert key = Ok s -> load_certified cert key = Ok (sc_current s) /\ (sc_current s).1 <> [] /\
  (load_certified cert key = Ok (sc_current s) -> (ServingCert_reload s).1 = Ok tt).
Proof.
  unfold ServingCert_load. intros (cur & Hc & [= <-])%bind_Ok. cbn. split; [done|]. split.
  - unfold load_certified in Hc. apply bind_Ok in Hc as (chain & [Hne _]%load_certs_Ok & H).
    apply bind_Ok in H as (k & _ & (sg & _ & [= <-])%bind_Ok). done.
  - intros H. unfold ServingCert_reload. cbn. by rewrite H.
Qed.
End tls.

(** ** Witness: one root, a client that has it and one that does not *)

Module BrokerTlsWitness.
#[local] Existing Instance MiniRegex.engine.
#[local] Existing Instance SignWitness.parser.
#[local] Existing Instance JwtWitness.codec.
#[local] Existing Instance BitWire.wire.

(** A peer is the chain it offers; a chain is good when it ends in a root. *)
Definition good (roots chain : list string) : bool :=
  match last chain with Some r => bool_decide (r ∈ roots) | None => false end.
#[local] Instance tls_library : Rustls := {|
  SigningKey := string;
  pem_file_iter := fun path => if String.eqb path "client-ca" then Some [Some "root"] else None;
  private_key_from_pem_file := fun _ => Some "key";
  any_supported_type := fun k => Some k;
  root_ok := fun _ => true;
  verifier_ok := fun roots => negb (bool_decide (roots = []));
  Peer := list string;
  handshake := fun cfg peer =>
    match client_roots cfg with
    | None => Some None
    | Some roots => if good roots peer then Some (Some peer) else None
    end;
  verifies := fun roots chain => good roots chain = true |}.
#[local] Instance tls_promises : RustlsSpec tls_library.
Proof.
  split; cbn; [by intros alpn p peer [= <-]|]. intros roots alpn p peer H. destruct (good roots p) eqn:E; [|done].
  injection H as <-. destruct p as [|leaf chain]; [done|]. by exists leaf, chain.
Defined.

(** The certificate "leaf" under the root, a stranger, and an accept error. *)
Definition listener : list (option Conn) :=
  [Some (mkConn true ["stranger"]); None; Some (mkConn true ["leaf"; "root"]); Some (mkConn false ["leaf"; "root"])].
Definition tls : ServerConfig := mkServerConfig (Some ["root"]) ["http/1.1"].
Example who_stands : (establish tls <$> accepted listener) = [None; Some (Some "leaf"); None].
Proof. vm_compute. reflexivity. Qed.
Definition moment : Moment := mkMoment SignWitness.kube SignWitness.kube SignWitness.issuer (fun _ _ => Err Auth) None 150.
Definition req : HttpRequest := mkHttp POST "/v1/tokens" None (Some "{}").
Definition arrivals : list arrival := [(0%nat, moment, req); (1%nat, moment, req); (2%nat, moment, req)].

(** One request of three reached the handler. *)
Example one_counted :
  size (requests (b_metrics (serve SignWitness.cfg SignWitness.policy tls PortTokens listener arrivals ClientWitness.broker))) = 1%nat.
Proof. vm_compute. reflexivity. Qed.

Lemma token_port_authenticates_witness :
  exists roots es, client_roots tls = Some roots /\
    serve SignWitness.cfg SignWitness.policy tls PortTokens listener arrivals ClientWitness.broker =
      foldl (broker_step SignWitness.cfg SignWitness.policy (fun _ => None)) ClientWitness.broker es /\
    Forall (verified_step roots) es.
Proof.
  destruct (token_port_authenticates SignWitness.cfg SignWitness.policy (fun _ => None) "client-ca" tls
    (mkServerConfig None ["http/1.1"]) listener arrivals ClientWitness.broker eq_refl eq_refl)
    as (roots & es & ss & _ & _ & Hr & Hs & Hv & _).
  exists roots, es. exact (conj Hr (conj Hs Hv)).
Defined.
End BrokerTlsWitness.
