(* ===== verification/Rollout.v ===== *)
(** * Staged rollout  (svidlet/src/policy/oci/rollout.rs, verify.rs)

    The signed rollout manifest: which ring a node is in, whether a manifest is
    fresh, and the digest check that ties a bundle to it.  The TOML and JSON
    decoders, base64, Ed25519 and SHA-256 are third-party code ([OciCrypto]);
    a SHA-256 value is its list of 32 byte values. *)

From S2P Require Import Prelude RustStr.
Open Scope list_scope.
Open Scope Z_scope.

(** The poll errors of [oci/mod.rs]; messages are left out. *)
Inductive OciError :=
| OConfig | OFetch | OSignature | OMalformed | ORejected | OStale | OIo.

#[export] Instance OciError_eq_dec : EqDecision OciError.
Proof. solve_decision. Defined.

Definition reason (e : OciError) : string :=
  match e with
  | OConfig => "config" | OFetch => "fetch" | OSignature => "signature"
  | OMalformed => "malformed" | ORejected => "rejected" | OStale => "stale" | OIo => "io"
  end.

Definition SUPPORTED_SCHEMA : Z := 1.

Record RingMatch := mkMatch {
  clusters : list string;
  node_hash_percent : option Z;
  nodes : list string;
}.

Record Ring := mkRing {
  ring_name : string;
  ring_match : RingMatch;
  bundle : string;
}.

Record Rollout := mkRollout {
  rollout_schema : Z;
  freeze : bool;
  sequence : option Z;
  valid_until : option Z;
  rings : list Ring;
}.

Record SignedEnvelope := mkEnvelope {
  svidlet_signature : Z;
  algorithm : string;
  env_payload : string;
  env_signature : string;
}.

Class OciCrypto := {
  (** [digest(SHA256, bytes)]. *)
  sha256 : string -> list N;
  (** Ed25519 verification: key, payload, signature. *)
  ed25519_verify : string -> string -> string -> bool;
  b64_std : string -> option string;
  json_envelope : string -> option SignedEnvelope;
  toml_rollout : string -> option Rollout;
}.

(** SHA-256 gives 32 bytes. *)
Class OciCryptoSpec (O : OciCrypto) : Prop := {
  sha256_length : forall s, length (sha256 s) = 32%nat;
  sha256_bytes : forall s, Forall (fun b => (b < 256)%N) (sha256 s);
}.

(** ** Globs

    [any] stops at the first match.  Slicing a [str] at a byte that is not the
    start of a character panics, which aborts the process. *)

Inductive outcome := Done (b : bool) | Panic.

Definition is_continuation (c : ascii) : bool :=
  (128 <=? byte_of c)%N && (byte_of c <? 192)%N.

(** Whether [s[0..]] may start here: [s] is empty or starts a character. *)
Definition at_boundary (s : string) : bool :=
  match s with EmptyString => true | String c _ => negb (is_continuation c) end.

(** [(0..=rest.len()).any(|i| f(&rest[i..]))]; the first suffix is at index 0,
    which is always a boundary. *)
Fixpoint any_suffix (f : string -> outcome) (first : bool) (rest : string) : outcome :=
  if negb first && negb (at_boundary rest) then Panic
  else match f rest with
       | Panic => Panic
       | Done true => Done true
       | Done false =>
           match rest with
           | EmptyString => Done false
           | String _ r => any_suffix f false r
           end
       end.

(** The recursion is on the pattern after its first ['*']; [fuel] bounds the
    number of stars. *)
Fixpoint glob_go (fuel : nat) (pattern text : string) : outcome :=
  match split_once "*" pattern with
  | None => Done (String.eqb pattern text)
  | Some (head, tail) =>
      match strip_prefix head text with
      | None => Done false
      | Some rest =>
          if has_char "*" tail then
            match fuel with
            | O => Panic
            | S fuel => any_suffix (glob_go fuel tail) true rest
            end
          else Done ((String.length tail <=? String.length rest)%nat && ends_with tail rest)
      end
  end.

Definition glob_match (pattern text : string) : outcome :=
  glob_go (String.length pattern) pattern text.

(** ** Rings *)

Section rollout.
Context {O : OciCrypto}.

Definition zero_byte : string := bytes [0%N].

(** A node's position in 0..100. *)
Definition node_bucket (cluster node : string) : Z :=
  match sha256 (cluster +:+ zero_byte +:+ node) with
  | b0 :: b1 :: b2 :: b3 :: _ =>
      (((Z.of_N b0 * 256 + Z.of_N b1) * 256 + Z.of_N b2) * 256 + Z.of_N b3) mod 100
  | _ => 0
  end.

Definition is_catch_all (m : RingMatch) : bool :=
  bool_decide (clusters m = []) && bool_decide (node_hash_percent m = None)
  && bool_decide (nodes m = []).

(** [clusters.iter().any(|glob| glob_match(glob, cluster))]. *)
Fixpoint any_glob (globs : list string) (cluster : string) : outcome :=
  match globs with
  | [] => Done false
  | g :: gs => match glob_match g cluster with
               | Done false => any_glob gs cluster
               | r => r
               end
  end.

Definition ring_matches (m : RingMatch) (cluster node : string) : outcome :=
  if is_catch_all m then Done true
  else if existsb (String.eqb node) (nodes m) then Done true
  else match any_glob (clusters m) cluster with
       | Panic => Panic
       | Done true => Done true
       | Done false =>
           match node_hash_percent m with
           | Some percent => Done (node_bucket cluster node <? percent)
           | None => Done false
           end
       end.

(** [rings.iter().find(..)]: [None] is a panic. *)
Fixpoint find_ring (rs : list Ring) (cluster node : string) : option (option Ring) :=
  match rs with
  | [] => Some None
  | r :: rs => match ring_matches (ring_match r) cluster node with
               | Panic => None
               | Done true => Some (Some r)
               | Done false => find_ring rs cluster node
               end
  end.

Definition rollout_target (r : Rollout) (cluster node : string) : option (option Ring) :=
  find_ring (rings r) cluster node.

(** ** Parsing *)

Definition check_digest_form (digest : string) : result OciError unit :=
  match strip_prefix "sha256:" digest with
  | None => Err OMalformed
  | Some hex =>
      guard_err (negb (String.length hex =? 64)%nat || negb (all_chars is_ascii_hexdigit hex))
        OMalformed
  end.

Definition check_ring (ring : Ring) : result OciError unit :=
  _ ← guard_err (is_empty (ring_name ring)) OMalformed;
  _ ← check_digest_form (bundle ring);
  match node_hash_percent (ring_match ring) with
  | Some percent => guard_err (100 <? percent) OMalformed
  | None => Ok tt
  end.

(** [toml_rollout] includes the UTF-8 check. *)
Definition Rollout_parse (toml : string) : result OciError Rollout :=
  rollout ← ok_or OMalformed (toml_rollout toml);
  _ ← guard_err (negb (rollout_schema rollout =? SUPPORTED_SCHEMA)) OMalformed;
  _ ← for_each check_ring (rings rollout);
  Ok rollout.

Definition check_freshness (r : Rollout) (last_sequence now : Z) : result OciError unit :=
  _ ← match sequence r with
      | Some sequence => guard_err ((0 <? last_sequence) && (sequence <? last_sequence)) OStale
      | None => guard_err (0 <? last_sequence) OStale
      end;
  match valid_until r with
  | Some deadline => guard_err (deadline <? now) OStale
  | None => Ok tt
  end.

(** ** verify.rs *)

Definition verify_open (key envelope_json : string) : result OciError string :=
  envelope ← ok_or OMalformed (json_envelope envelope_json);
  _ ← guard_err (negb (svidlet_signature envelope =? 1)) OMalformed;
  _ ← guard_err (negb (eq_ignore_ascii_case (algorithm envelope) "ed25519")) OMalformed;
  payload ← ok_or OMalformed (b64_std (trim (env_payload envelope)));
  signature ← ok_or OMalformed (b64_std (trim (env_signature envelope)));
  _ ← guard_err (negb (ed25519_verify key payload signature)) OSignature;
  Ok payload.

(** [{byte:02x}]. *)
Definition hex_digit (n : N) : ascii :=
  if (n <? 10)%N then ascii_of_N (48 + n) else ascii_of_N (87 + n).
Definition hex_byte (b : N) : string := String (hex_digit (b / 16)) (String (hex_digit (b mod 16)) "").

Definition sha256_digest (s : string) : string :=
  "sha256:" +:+ String.concat "" (hex_byte <$> sha256 s).

Definition check_digest (s expected : string) : result OciError unit :=
  guard_err (negb (String.eqb (sha256_digest s) expected)) OSignature.
End rollout.

(** ** The glob specification *)

(** ['*'] matches any run of characters, everything else itself. *)
Fixpoint glob_ref (pattern : string) : string -> bool :=
  match pattern with
  | EmptyString => is_empty
  | String c p =>
      if Ascii.eqb c "*" then
        fix star (t : string) : bool :=
          glob_ref p t || match t with EmptyString => false | String _ t => star t end
      else fun t => match t with
                    | EmptyString => false
                    | String d t => Ascii.eqb c d && glob_ref p t
                    end
  end.

(** Some suffix of the text satisfies [f]. *)
Fixpoint some_suffix (f : string -> bool) (t : string) : bool :=
  f t || match t with EmptyString => false | String _ t => some_suffix f t end.

Lemma glob_ref_star p t : glob_ref (String "*" p) t = some_suffix (glob_ref p) t.
Proof. induction t as [|d t IH]; [done|]. cbn in *. by rewrite IH. Qed.

Lemma glob_ref_literal p t : has_char "*" p = false -> glob_ref p t = String.eqb p t.
Proof.
  revert t. induction p as [|c p IH]; intros t Hp; [by destruct t|].
  rewrite has_char_cons in Hp. apply orb_false_iff in Hp as [Hc Hp].
  cbn [glob_ref]. rewrite Ascii.eqb_sym in Hc. rewrite Hc.
  destruct t as [|d t]; [done|]. rewrite IH by done. cbn [String.eqb].
  by destruct (Ascii.eqb c d).
Qed.

Lemma glob_ref_head h p t :
  has_char "*" h = false ->
  glob_ref (h +:+ p) t =
    match strip_prefix h t with Some rest => glob_ref p rest | None => false end.
Proof.
  revert t. induction h as [|c h IH]; intros t Hh; [done|].
  rewrite has_char_cons in Hh. apply orb_false_iff in Hh as [Hc Hh].
  change (String c h +:+ p) with (String c (h +:+ p)). cbn [glob_ref].
  rewrite Ascii.eqb_sym in Hc. rewrite Hc. destruct t as [|d t]; [done|].
  cbn [strip_prefix]. destruct (Ascii.eqb c d); [by rewrite IH|done].
Qed.

Lemma some_suffix_ext f g t : (forall s, f s = g s) -> some_suffix f t = some_suffix g t.
Proof. intros H. induction t as [|c t IH]; cbn; by rewrite H, ?IH. Qed.

Lemma some_suffix_true f t : some_suffix f t = true <-> exists a b, t = a +:+ b /\ f b = true.
Proof.
  induction t as [|c t IH]; cbn.
  - rewrite orb_false_r. split; [intros; by exists "", ""|].
    intros (a & b & Heq & Hf). destruct a; [|done]. destruct b; done.
  - rewrite orb_true_iff, IH. split.
    + intros [Hf|(a & b & -> & Hf)]; [by exists "", (String c t)|by exists (String c a), b].
    + intros (a & b & Heq & Hf). destruct a as [|d a]; [left; by rewrite Heq|].
      right. injection Heq as <- ->. by exists a, b.
Qed.

Lemma ends_with_suffix tail t :
  (String.length tail <=? String.length t)%nat && ends_with tail t =
  some_suffix (String.eqb tail) t.
Proof.
  apply eq_true_iff_eq. rewrite some_suffix_true, andb_true_iff, ends_with_true.
  rewrite Nat.leb_le. split.
  - intros [_ [a ->]]. exists a, tail. by rewrite String.eqb_refl.
  - intros (a & b & -> & ->%String.eqb_eq). split; [|by exists a].
    rewrite sapp_length. lia.
Qed.

Definition ascii_text (s : string) : bool := all_chars (fun c => byte_of c <? 128)%N s.

Lemma ascii_boundary s : ascii_text s = true -> at_boundary s = true.
Proof.
  destruct s as [|c s]; [done|]. unfold ascii_text. cbn [all_chars at_boundary].
  intros [Hc%N.ltb_lt _]%andb_prop. unfold is_continuation.
  destruct (N.leb_spec 128 (byte_of c)); [lia|done].
Qed.

(** Whatever it answers is the specification's answer; on ASCII it answers. *)
Lemma any_suffix_spec f g first t :
  (forall s b, f s = Done b -> b = g s) ->
  (forall b, any_suffix f first t = Done b -> b = some_suffix g t) /\
  ((forall s, ascii_text s = true -> f s <> Panic) -> ascii_text t = true ->
   any_suffix f first t <> Panic).
Proof.
  intros Hf. revert first. induction t as [|c t IH]; intros first; cbn [any_suffix some_suffix].
  - destruct (negb first && _) eqn:Hb; [by destruct first|].
    destruct (f "") as [[]|] eqn:Hd; split; try done.
    + intros b [= <-]. by rewrite <- (Hf _ _ Hd).
    + intros b [= <-]. by rewrite <- (Hf _ _ Hd).
    + intros Ha _. by specialize (Ha "" eq_refl).
  - split.
    + intros b. destruct (negb first && _); [done|].
      destruct (f (String c t)) as [[]|] eqn:Hd; [| |done].
      * intros [= <-]. by rewrite <- (Hf _ _ Hd).
      * intros Hr. rewrite <- (Hf _ _ Hd). cbn. by apply (proj1 (IH false)).
    + intros Ha Ht. rewrite (ascii_boundary _ Ht), andb_false_r.
      specialize (Ha _ Ht) as Hn. destruct (f (String c t)) as [[]|]; try done.
      apply (proj2 (IH false)); [done|].
      unfold ascii_text in *. cbn [all_chars] in Ht. by apply andb_prop in Ht as [_ Ht].
Qed.

Lemma split_once_length c s a b :
  split_once c s = Some (a, b) -> (String.length b < String.length s)%nat.
Proof. intros [-> _]%split_once_Some. rewrite sapp_length. simpl. lia. Qed.

Lemma ascii_text_app a b : ascii_text (a +:+ b) = ascii_text a && ascii_text b.
Proof. apply all_chars_app. Qed.

Lemma glob_go_spec fuel pattern text :
  (String.length pattern <= fuel)%nat ->
  (forall b, glob_go fuel pattern text = Done b -> b = glob_ref pattern text) /\
  (ascii_text text = true -> glob_go fuel pattern text <> Panic).
Proof.
  revert pattern text. induction fuel as [|fuel IH]; intros pattern text Hl.
  { destruct pattern; [|simpl in Hl; lia]. cbn. split; [|done].
    intros b [= <-]. by destruct text. }
  cbn [glob_go]. destruct (split_once "*" pattern) as [[head tail]|] eqn:Hs; last first.
  { apply split_once_None in Hs. split; [|done]. intros b [= <-]. by rewrite glob_ref_literal. }
  pose proof (split_once_length _ _ _ _ Hs) as Hlen.
  apply split_once_Some in Hs as [-> Hh]. rewrite glob_ref_head by done.
  destruct (strip_prefix head text) as [rest|] eqn:Hp; [|split; [by intros b [= <-]|done]].
  apply strip_prefix_Some in Hp as ->. rewrite glob_ref_star.
  destruct (has_char "*" tail) eqn:Ht; last first.
  { split; [|done]. intros b [= <-]. rewrite ends_with_suffix.
    apply some_suffix_ext. intros s. by rewrite glob_ref_literal. }
  destruct (any_suffix_spec (glob_go fuel tail) (glob_ref tail) true rest) as [H1 H2].
  { intros s b. apply (proj1 (IH tail s ltac:(lia))). }
  split; [exact H1|]. rewrite ascii_text_app. intros [_ Hr]%andb_prop. apply H2; [|done].
  intros s Hs. by apply (proj2 (IH tail s ltac:(lia))).
Qed.

(** The glob matcher is the wildcard semantics: whenever it answers, its
    answer is the reference definition's, in which ['*'] matches any run of
    characters and everything else itself; and it always answers when the text
    is ASCII. *)
Theorem glob_match_spec (pattern text : string) :
  (forall b, glob_match pattern text = Done b -> b = glob_ref pattern text) /\
  (ascii_text text = true -> glob_match pattern text = Done (glob_ref pattern text)).
Proof.
  destruct (glob_go_spec (String.length pattern) pattern text ltac:(lia)) as [H1 H2].
  split; [exact H1|]. intros Ha. specialize (H2 Ha). unfold glob_match in *.
  destruct (glob_go _ pattern text); [|done]. by rewrite (H1 b eq_refl).
Qed.

(** on a cluster name that is not ASCII, a pattern with two wildcards slices
    inside a character and the process aborts. *)
Theorem glob_match_panics_inside_a_character :
  glob_match "*-*" (bytes [195; 169; 45; 97]%N) = Panic.
Proof. reflexivity. Qed.

(** ** Freshness, rings and digests *)

Lemma check_freshness_Ok r last now :
  check_freshness r last now = Ok tt <->
  (0 < last -> exists s, sequence r = Some s /\ last <= s) /\
  (forall d, valid_until r = Some d -> now <= d).
Proof.
  unfold check_freshness. rewrite bind_Ok. split.
  - intros ([] & Hs & Hv). split.
    + intros Hl. destruct (sequence r) as [s|]; apply guard_err_Ok in Hs.
      * exists s. split; [done|]. destruct (Z.ltb_spec 0 last); [|lia]. simpl in Hs. lia.
      * lia.
    + intros d Hd. rewrite Hd in Hv. apply guard_err_Ok in Hv. lia.
  - intros [Hs Hv]. exists tt. split.
    + destruct (sequence r) as [s|]; apply guard_err_Ok.
      * destruct (Z.ltb_spec 0 last) as [Hl|]; [|done]. simpl.
        destruct (Hs Hl) as (s' & [= <-] & ?). lia.
      * destruct (Z.ltb_spec 0 last) as [Hl|]; [|done]. by destruct (Hs Hl) as (? & ? & _).
    + destruct (valid_until r) as [d|]; [|done]. apply guard_err_Ok.
      specialize (Hv d eq_refl). lia.
Qed.

(** a manifest is fresh exactly when it is not older than anything this node
    has verified - once a sequence was seen, every later manifest must carry one
    at least as high - and its own deadline has not passed. *)
Theorem freshness_spec (r : Rollout) (last now : Z) :
  check_freshness r last now = Ok tt <->
  (0 < last -> exists s, sequence r = Some s /\ last <= s) /\
  (forall d, valid_until r = Some d -> now <= d).
Proof. apply check_freshness_Ok. Qed.

Section ring_theorems.
Context {O : OciCrypto}.

Lemma node_bucket_range cluster node : 0 <= node_bucket cluster node < 100.
Proof.
  unfold node_bucket. destruct (sha256 _) as [|b0 [|b1 [|b2 [|b3 l]]]]; try lia.
  apply Z.mod_pos_bound. lia.
Qed.

(** promoting a ring never drops a node.  Raising [node_hash_percent] keeps
    every node that already matched, a ring at 100 percent matches every node,
    and one at 0 percent none through its hash: the canary set only grows. *)
Theorem ring_promotion_monotone (cs ns : list string) (p p' : Z) (cluster node : string) :
  p <= p' ->
  (ring_matches (mkMatch cs (Some p) ns) cluster node = Done true ->
   ring_matches (mkMatch cs (Some p') ns) cluster node = Done true) /\
  (ring_matches (mkMatch cs (Some 100) ns) cluster node <> Done false) /\
  ring_matches (mkMatch [] (Some 0) []) cluster node = Done false.
Proof.
  intros Hp. pose proof (node_bucket_range cluster node) as Hb. unfold ring_matches, is_catch_all.
  cbn [clusters node_hash_percent nodes].
  rewrite !(bool_decide_eq_false_2 (Some _ = None)), !andb_false_r by done.
  cbn [andb]. split_and!.
  - destruct (existsb _ _); [done|]. destruct (any_glob cs cluster) as [[]|]; try done.
    intros [= H]. f_equal. lia.
  - destruct (existsb _ _); [done|]. destruct (any_glob cs cluster) as [[]|]; try done.
    intros [= H]. lia.
  - simpl. f_equal. lia.
Qed.

(** What a parsed manifest guarantees of every ring. *)
Lemma Rollout_parse_Ok toml r :
  Rollout_parse toml = Ok r ->
  toml_rollout toml = Some r /\ rollout_schema r = SUPPORTED_SCHEMA /\
  Forall (fun ring => check_ring ring = Ok tt) (rings r).
Proof.
  unfold Rollout_parse. intros (r' & Ht%ok_or_Ok & H)%bind_Ok.
  apply bind_Ok in H as ([] & Hs%guard_err_Ok%negb_false_iff%Z.eqb_eq & H).
  apply bind_Ok in H as ([] & Hf%for_each_Ok & [= <-]). done.
Qed.

Lemma check_ring_digest ring : check_ring ring = Ok tt -> check_digest_form (bundle ring) = Ok tt.
Proof.
  unfold check_ring. intros ([] & _ & H)%bind_Ok.
  by apply bind_Ok in H as ([] & ? & _).
Qed.

Lemma find_ring_Some rs cluster node ring :
  find_ring rs cluster node = Some (Some ring) -> ring ∈ rs.
Proof.
  induction rs as [|r rs IH]; simpl; [done|].
  destruct (ring_matches _ _ _) as [[]|]; [|intros; right; auto|done].
  intros [= <-]. left.
Qed.

Lemma check_digest_Ok s expected :
  check_digest s expected = Ok tt <-> sha256_digest s = expected.
Proof. unfold check_digest. by rewrite guard_err_Ok, negb_false_iff, String.eqb_eq. Qed.

Context `{!OciCryptoSpec O}.

Lemma hex_digit_lower n : (n < 16)%N -> is_ascii_uppercase (hex_digit n) = false.
Proof.
  intros Hn. destruct n as [|p]; [reflexivity|].
  do 4 (destruct p as [p|p|]; try reflexivity); lia.
Qed.

Lemma sha256_digest_lower s :
  all_chars (fun c => negb (is_ascii_uppercase c)) (sha256_digest s) = true.
Proof.
  unfold sha256_digest. rewrite all_chars_app. apply andb_true_intro. split; [done|].
  pose proof (sha256_bytes s) as Hb. induction (sha256 s) as [|b l IH]; [done|].
  apply Forall_cons_iff in Hb as [Hb Hl]. specialize (IH Hl).
  assert (all_chars (fun c => negb (is_ascii_uppercase c)) (hex_byte b) = true) as Hx.
  { unfold hex_byte. cbn [all_chars]. rewrite !hex_digit_lower; [done| |].
    - apply N.mod_lt. lia.
    - apply N.Div0.div_lt_upper_bound. lia. }
  destruct l as [|b' l]; [exact Hx|].
  change (String.concat "" (hex_byte <$> b :: b' :: l))
    with (hex_byte b +:+ "" +:+ String.concat "" (hex_byte <$> b' :: l)).
  by rewrite all_chars_app, Hx.
Qed.

(** a digest with an upper-case hex digit passes the manifest's validation
    but no content can ever satisfy it, so a ring naming one can never be
    applied. *)
Theorem uppercase_digest_never_applies (digest : string) :
  check_digest_form digest = Ok tt ->
  all_chars (fun c => negb (is_ascii_uppercase c)) digest = false ->
  forall blob, check_digest blob digest = Err OSignature.
Proof.
  intros _ Hu blob. unfold check_digest.
  destruct (String.eqb_spec (sha256_digest blob) digest) as [He|]; [|done].
  by rewrite <- He, sha256_digest_lower in Hu.
Qed.
End ring_theorems.

Module RolloutWitness.
(** A hash that is constantly zero, which is all the statements need. *)
#[export] Instance crypto : OciCrypto := {|
  sha256 := fun _ => repeat 0%N 32;
  ed25519_verify := fun _ _ _ => true;
  b64_std := Some;
  json_envelope := fun _ => None;
  toml_rollout := fun _ => None |}.

#[export] Instance crypto_spec : OciCryptoSpec crypto.
Proof. split; intros; vm_compute; [reflexivity|repeat constructor]. Qed.

Definition upper : string :=
  "sha256:AB00000000000000000000000000000000000000000000000000000000000000".

Lemma uppercase_digest_never_applies_witness :
  check_digest_form upper = Ok tt /\ check_digest "blob" upper = Err OSignature.
Proof.
  split; [reflexivity|].
  apply (uppercase_digest_never_applies upper); reflexivity.
Defined.

Lemma ring_promotion_monotone_witness :
  ring_matches (mkMatch ["dev-*"] (Some 50) []) "prod" "n1" = Done true.
Proof.
  apply (ring_promotion_monotone ["dev-*"] [] 5 50 "prod" "n1"); [lia|vm_compute; reflexivity].
Defined.
End RolloutWitness.
