(* ===== verification/Tarball.v ===== *)
(** * The bundle reader  (svidlet/src/policy/oci/tarball.rs)

    [extract] reads a POSIX tar and refuses everything but regular files with
    ordinary relative names.  An archive is a string of bytes; offsets and
    sizes are integers ([usize]; [octal_bound] shows that a size is below 2^36,
    so their sums cannot overflow 64 bits). *)

From S2P Require Import Prelude RustStr Rollout.
Open Scope list_scope.
Open Scope Z_scope.

Definition BLOCK : Z := 512.

Record TarEntry := mkEntry { path : string; content : string }.

(** [&archive[at..at + len]], in range. *)
Definition slice (s : string) (at_ len : Z) : string :=
  String.substring (Z.to_nat at_) (Z.to_nat len) s.
Definition len (s : string) : Z := Z.of_nat (String.length s).

(** ** Header fields *)

(** The bytes before the first NUL. *)
Fixpoint until_nul (s : string) : string :=
  match s with
  | EmptyString => EmptyString
  | String c r => if (byte_of c =? 0)%N then EmptyString else String c (until_nul r)
  end.

Definition field (header : string) (at_ len : Z) : result OciError string :=
  let text := until_nul (slice header at_ len) in
  if valid_utf8 text then Ok (trim text) else Err OMalformed.

Definition pad_char (c : ascii) : bool := Ascii.eqb c " " || (byte_of c =? 0)%N.

Definition octal (header : string) (at_ len : Z) : result OciError Z :=
  text ← field header at_ len;
  let text := trim_end_by pad_char (trim_start_by pad_char text) in
  if is_empty text then Ok 0
  else ok_or OMalformed (parse_uint u64_max 8 text).

(** ** Paths *)

(** [trim_start_matches("./")]. *)
Fixpoint trim_dot_slash (s : string) : string :=
  match s with
  | String "." (String "/" r) => trim_dot_slash r
  | _ => s
  end.

Definition backslash : ascii := "\".
Definition nul : ascii := ascii_of_N 0.

Definition check_path_segment (segment : string) : result OciError unit :=
  _ ← guard_err (is_empty segment) ORejected;
  guard_err (String.eqb segment "." || String.eqb segment "..") ORejected.

Definition check_path (raw : string) : result OciError string :=
  let p := trim_dot_slash raw in
  _ ← guard_err (is_empty p) ORejected;
  _ ← guard_err (starts_with "/" p) ORejected;
  _ ← guard_err (has_char backslash p || has_char nul p) ORejected;
  _ ← for_each check_path_segment (split_char "/" p);
  Ok p.

(** ** The archive *)

Definition all_zero (header : string) : bool := all_chars (fun c => (byte_of c =? 0)%N) header.
Definition padded (size : Z) : Z := (size + BLOCK - 1) / BLOCK * BLOCK.

(** [header[156]]. *)
Definition type_flag (header : string) : N :=
  match String.get 156 header with Some c => byte_of c | None => 0%N end.

(** What one header says to do. *)
Inductive header_kind :=
| HDirectory (size : Z)
| HFile (p : string) (size : Z).

Definition read_header (header : string) : result OciError header_kind :=
  name ← field header 0 100;
  let prefix := match field header 345 155 with Ok p => p | Err _ => "" end in
  size ← octal header 124 12;
  let flag := type_flag header in
  if (flag =? 53)%N then Ok (HDirectory size)
  else
    _ ← guard_err (negb ((flag =? 48)%N || (flag =? 0)%N)) ORejected;
    mode ← octal header 100 8;
    _ ← guard_err (negb (Z.land mode 3584 =? 0)) ORejected;
    p ← check_path (if is_empty prefix then name else prefix +:+ "/" +:+ name);
    Ok (HFile p size).

(** The loop; every round consumes at least one block.  [None] when [fuel]
    runs out. *)
Fixpoint extract_go (fuel : nat) (archive : string) (max_total offset total : Z)
    (entries : list TarEntry) : option (result OciError (list TarEntry)) :=
  match fuel with
  | O => None
  | S fuel =>
      if len archive <? offset + BLOCK then Some (Ok entries)
      else
        let header := slice archive offset BLOCK in
        if all_zero header then Some (Ok entries)
        else
          let offset := offset + BLOCK in
          match read_header header with
          | Err e => Some (Err e)
          | Ok (HDirectory size) =>
              extract_go fuel archive max_total (offset + padded size) total entries
          | Ok (HFile p size) =>
              let total := total + size in
              if max_total <? total then Some (Err ORejected)
              else if len archive <? offset + size then Some (Err OMalformed)
              else extract_go fuel archive max_total (offset + padded size) total
                     (entries ++ [mkEntry p (slice archive offset size)])
          end
  end.

Definition extract (archive : string) (max_total : Z) : option (result OciError (list TarEntry)) :=
  match extract_go (S (Z.to_nat (len archive / BLOCK))) archive max_total 0 0 [] with
  | None => None
  | Some (Err e) => Some (Err e)
  | Some (Ok entries) =>
      Some (if bool_decide (length entries = 0%nat) then Err ORejected else Ok entries)
  end.

(** ** Where a path leads

    Resolving a path from a directory, component by component, as the kernel
    does: ["."] and empty components stay, [".."] goes up. *)
Fixpoint resolve (dir : list string) (segments : list string) : list string :=
  match segments with
  | [] => dir
  | s :: segments =>
      if String.eqb s "" || String.eqb s "." then resolve dir segments
      else if String.eqb s ".." then resolve (removelast dir) segments
      else resolve (dir ++ [s]) segments
  end.

Record safe_path (p : string) : Prop := {
  sp_relative : starts_with "/" p = false;
  sp_chars : has_char backslash p = false /\ has_char nul p = false;
  sp_segments : Forall (fun s => s <> "" /\ s <> "." /\ s <> "..") (split_char "/" p);
}.

Lemma check_path_Ok raw p : check_path raw = Ok p -> safe_path p /\ p = trim_dot_slash raw.
Proof.
  unfold check_path. intros ([] & _ & H)%bind_Ok.
  apply bind_Ok in H as ([] & Ha%guard_err_Ok & H).
  apply bind_Ok in H as ([] & [Hb Hn]%guard_err_Ok%orb_false_iff & H).
  apply bind_Ok in H as ([] & Hs%for_each_Ok & [= <-]).
  split; [|done]. split; [done|done|].
  eapply Forall_impl; [exact Hs|]. intros s Hseg. unfold check_path_segment in Hseg.
  apply bind_Ok in Hseg as ([] & He%guard_err_Ok%is_empty_false & Hd%guard_err_Ok).
  apply orb_false_iff in Hd as [H1%string_eqb_false H2%string_eqb_false]. done.
Qed.

(** A safe path stays below the directory it is joined to. *)
Lemma resolve_safe dir segs :
  Forall (fun s => s <> "" /\ s <> "." /\ s <> "..") segs -> resolve dir segs = dir ++ segs.
Proof.
  revert dir. induction segs as [|s segs IH]; intros dir Hf; simpl; [by rewrite app_nil_r|].
  apply Forall_cons_iff in Hf as [(H1 & H2 & H3) Hf].
  apply string_eqb_false in H1, H2, H3. rewrite H1, H2, H3. simpl.
  rewrite IH by done. by rewrite <- app_assoc.
Qed.

Lemma digits_val_bound base ok acc s n :
  2 <= base -> 0 <= acc -> (forall c, ok c = true -> 0 <= digit_val c < base) ->
  digits_val base ok acc s = Some n -> n < (acc + 1) * base ^ len s.
Proof.
  intros Hb Ha Hok. revert acc Ha. induction s as [|c s IH]; simpl; intros acc Ha H.
  { simplify_eq. unfold len. simpl. lia. }
  destruct (ok c) eqn:Hc; [|done]. pose proof (Hok c Hc).
  specialize (IH (acc * base + digit_val c) ltac:(nia) H).
  assert (len (String c s) = len s + 1) as -> by (unfold len; simpl; lia).
  rewrite Z.pow_add_r, Z.pow_1_r by (unfold len; lia).
  assert (0 < base ^ len s) by (apply Z.pow_pos_nonneg; unfold len; lia). nia.
Qed.

Lemma octal_nonneg header at_ n k : octal header at_ n = Ok k -> 0 <= k.
Proof.
  unfold octal. intros (text & _ & H)%bind_Ok.
  destruct (is_empty _); [by injection H as <-|].
  apply ok_or_Ok, parse_uint_range in H; lia.
Qed.

Lemma padded_ge size : 0 <= size -> size <= padded size /\ 0 <= padded size.
Proof.
  intros Hs. unfold padded, BLOCK.
  pose proof (Z.div_mod (size + 512 - 1) 512 ltac:(lia)).
  pose proof (Z.mod_pos_bound (size + 512 - 1) 512 ltac:(lia)). lia.
Qed.

Lemma read_header_size header k :
  read_header header = Ok k ->
  match k with HDirectory size => 0 <= size | HFile p size => 0 <= size /\ safe_path p end.
Proof.
  unfold read_header. intros (name & _ & H)%bind_Ok.
  apply bind_Ok in H as (size & Hs%octal_nonneg & H).
  destruct (_ =? 53)%N; [by injection H as <-|].
  apply bind_Ok in H as ([] & _ & H). apply bind_Ok in H as (mode & _ & H).
  apply bind_Ok in H as ([] & _ & H). apply bind_Ok in H as (p & [Hp _]%check_path_Ok & [= <-]).
  done.
Qed.

(** The archive as a whole: total size, and where each content came from. *)
Definition total_size (es : list TarEntry) : Z := foldr (fun e n => len (content e) + n) 0 es.

Definition from_archive (archive : string) (e : TarEntry) : Prop :=
  safe_path (path e) /\
  exists offset size, 0 <= offset /\ 0 <= size /\ offset + size <= len archive /\
    content e = slice archive offset size /\ len (content e) = size.

Lemma total_size_app a b : total_size (a ++ b) = total_size a + total_size b.
Proof. induction a as [|e a IH]; simpl; [done|]. rewrite IH. lia. Qed.

Lemma slice_len s at_ n : 0 <= at_ -> 0 <= n -> at_ + n <= len s -> len (slice s at_ n) = n.
Proof.
  unfold len, slice. intros Ha Hn Hl.
  assert (Z.to_nat at_ + Z.to_nat n <= String.length s)%nat as Hl' by lia.
  assert (String.length (String.substring (Z.to_nat at_) (Z.to_nat n) s) = Z.to_nat n) as ->; [|lia].
  clear Hl. revert Hl'. generalize (Z.to_nat at_) as a, (Z.to_nat n) as m. clear.
  induction s as [|c s IH]; intros a m Hl; simpl in *.
  - by destruct a, m; simpl in *; try lia.
  - destruct a as [|a].
    + destruct m as [|m]; [done|]. simpl. f_equal. apply (IH 0%nat). lia.
    + apply IH. lia.
Qed.

Lemma extract_go_sound fuel archive max_total offset total entries es :
  0 <= offset -> total_size entries = total -> total <= Z.max max_total 0 ->
  Forall (from_archive archive) entries ->
  extract_go fuel archive max_total offset total entries = Some (Ok es) ->
  Forall (from_archive archive) es /\ total_size es <= Z.max max_total 0.
Proof.
  revert offset total entries. induction fuel as [|fuel IH]; intros offset total entries Ho Ht Hm Hf H;
    simpl in H; [done|].
  destruct (_ <? _); [by simplify_eq|]. destruct (all_zero _); [by simplify_eq|].
  destruct (read_header _) as [k|] eqn:Hk; [|done]. apply read_header_size in Hk.
  destruct k as [size|p size].
  - apply (IH (offset + BLOCK + padded size) total entries); try done.
    pose proof (padded_ge size Hk). unfold BLOCK in *. lia.
  - destruct Hk as [Hs Hp].
    destruct (Z.ltb_spec max_total (total + size)); [done|].
    destruct (Z.ltb_spec (len archive) (offset + BLOCK + size)); [done|].
    assert (0 <= offset + BLOCK) by (unfold BLOCK; lia).
    assert (len (slice archive (offset + BLOCK) size) = size) as Hlen by (apply slice_len; lia).
    eapply (IH (offset + BLOCK + padded size) (total + size) _); [| | | |exact H].
    + pose proof (padded_ge size Hs). lia.
    + rewrite total_size_app. simpl. lia.
    + lia.
    + apply Forall_app. split; [done|]. constructor; [|constructor].
      split; [done|]. by exists (offset + BLOCK), size.
Qed.

Lemma extract_go_total fuel archive max_total offset total entries :
  (0 < fuel)%nat -> len archive < offset + BLOCK * Z.of_nat fuel ->
  is_Some (extract_go fuel archive max_total offset total entries).
Proof.
  revert offset total entries. induction fuel as [|fuel IH]; intros offset total entries Hp Hf;
    [lia|].
  cbn [extract_go]. destruct (Z.ltb_spec (len archive) (offset + BLOCK)); [by eexists|].
  destruct (all_zero _); [by eexists|].
  destruct (read_header _) as [k|] eqn:Hk; [|by eexists]. apply read_header_size in Hk.
  unfold BLOCK in *. destruct k as [size|p size].
  - pose proof (padded_ge size Hk). apply IH; lia.
  - destruct Hk as [Hs _]. pose proof (padded_ge size Hs).
    destruct (_ <? _); [by eexists|]. destruct (_ <? _); [by eexists|]. apply IH; lia.
Qed.

Lemma extract_total archive max_total : is_Some (extract archive max_total).
Proof.
  unfold extract.
  destruct (extract_go_total (S (Z.to_nat (len archive / BLOCK))) archive max_total 0 0 [])
    as [r Hr]; [lia| |].
  { unfold BLOCK. pose proof (Z.div_mod (len archive) 512 ltac:(lia)).
    pose proof (Z.mod_pos_bound (len archive) 512 ltac:(lia)).
    assert (0 <= len archive / 512) by (apply Z.div_pos; unfold len; lia). lia. }
  rewrite Hr. destruct r; by eexists.
Qed.

(** C20: Extraction is a security boundary.  On every archive [extract] answers;
    when it accepts, the bundle is not empty, it holds at most [max_total]
    bytes, every file's content is a slice of the archive, and every path is
    relative, without empty, ["."] or [".."] components, backslashes or NULs, so
    that joined to any directory it leads to a file below it. *)
Theorem extract_safe (archive : string) (max_total : Z) :
  exists r, extract archive max_total = Some r /\
  match r with
  | Err _ => True
  | Ok es => es <> [] /\ total_size es <= Z.max max_total 0 /\
      Forall (fun e => from_archive archive e /\
                       forall dir, resolve dir (split_char "/" (path e))
                                   = dir ++ split_char "/" (path e)) es
  end.
Proof.
  destruct (extract_total archive max_total) as [r Hr]. exists r. split; [done|].
  unfold extract in Hr. destruct (extract_go _ _ _ _ _ _) as [[es|e]|] eqn:Hg; simplify_eq; [|done].
  case_bool_decide as Hl; [done|].
  apply extract_go_sound in Hg as [Hf Ht]; [|lia|done|lia|constructor].
  split; [by intros ->|]. split; [done|].
  eapply Forall_impl; [exact Hf|]. intros e He. split; [done|].
  intros dir. apply resolve_safe. by destruct He as [[_ _ ?] _].
Qed.

(** ** No overflow *)

Lemma until_nul_length s : len (until_nul s) <= len s.
Proof.
  induction s as [|c s IH]; cbn [until_nul]; [done|].
  destruct (_ =? _)%N; unfold len in *; simpl in *; lia.
Qed.

Lemma octal_digit_bound c :
  in_range "0" "9" c && (digit_val c <? 8) = true -> 0 <= digit_val c < 8.
Proof. intros [H1 H2%Z.ltb_lt]%andb_prop. split; [by apply digit_val_nonneg|done]. Qed.

Lemma substring_length n m s : (String.length (String.substring n m s) <= m)%nat.
Proof.
  revert n m. induction s as [|c s IH]; intros n m; [destruct n, m; simpl; lia|].
  destruct n as [|n]; [|apply IH]. destruct m as [|m]; simpl; [lia|].
  specialize (IH 0%nat m). lia.
Qed.

Lemma octal_lt header at_ n k : 0 <= n -> octal header at_ n = Ok k -> k < 8 ^ n.
Proof.
  intros Hn. unfold octal. intros (text & Hf & H)%bind_Ok.
  destruct (is_empty _) eqn:He; [injection H as <-; apply Z.pow_pos_nonneg; lia|].
  apply ok_or_Ok in H. unfold field in Hf. destruct (valid_utf8 _); [|done]. injection Hf as <-.
  pose proof (trim_by_length pad_char (trim (until_nul (slice header at_ n)))) as Hl.
  pose proof (trim_length (until_nul (slice header at_ n))) as Hl2.
  pose proof (until_nul_length (slice header at_ n)) as Hl3.
  pose proof (substring_length (Z.to_nat at_) (Z.to_nat n) header) as Hl4.
  set (t := trim_end_by _ _) in *. unfold len, slice in *.
  unfold parse_uint in H.
  set (body := match t with String "+" r => r | _ => t end) in *.
  assert (String.length body <= String.length t)%nat as Hb.
  { unfold body. destruct t as [|c t']; [done|].
    destruct c as [[] [] [] [] [] [] [] []]; simpl; lia. }
  destruct (is_empty body); [done|].
  destruct (digits_val _ _ _ _) as [m|] eqn:Hd; [|done].
  destruct (m <=? u64_max); [|done]. injection H as <-.
  apply digits_val_bound in Hd; [|lia|lia|intros c; apply octal_digit_bound].
  eapply Z.lt_le_trans; [exact Hd|]. rewrite Z.mul_1_l.
  apply Z.pow_le_mono_r; unfold len; lia.
Qed.

(** sizes cannot overflow.  A size field holds at most twelve octal digits,
    so a claimed size is below 2^36, and on an archive and limit below 2^62 the
    offset and total the reader computes next stay far below 2^64. *)
Theorem extract_no_overflow (archive : string) (header : string) (offset total max_total size : Z) :
  octal header 124 12 = Ok size ->
  0 <= offset <= len archive -> len archive < 2 ^ 62 ->
  0 <= total <= max_total -> max_total < 2 ^ 62 ->
  0 <= size < 2 ^ 36 /\
  offset + BLOCK + padded size < 2 ^ 63 /\ offset + BLOCK + size < 2 ^ 63 /\ total + size < 2 ^ 63.
Proof.
  intros Hs Ho Hl Ht Hm. pose proof (octal_nonneg _ _ _ _ Hs).
  apply octal_lt in Hs; [|lia]. change (8 ^ 12) with (2 ^ 36) in Hs.
  unfold padded, BLOCK.
  pose proof (Z.div_mod (size + 512 - 1) 512 ltac:(lia)).
  pose proof (Z.mod_pos_bound (size + 512 - 1) 512 ltac:(lia)). lia.
Qed.

(** ** Round trip

    A writer for plain ustar archives, as release tooling produces them. *)

Fixpoint nuls (n : nat) : string := match n with O => "" | S n => String nul (nuls n) end.

(** [k] octal digits of [n], most significant first. *)
Fixpoint oct_digits (k : nat) (n : Z) : string :=
  match k with
  | O => ""
  | S k => oct_digits k (n / 8) +:+ String (ascii_of_N (Z.to_N (48 + n mod 8))) ""
  end.

Definition tar_header (e : TarEntry) : string :=
  path e +:+ (nuls (100 - String.length (path e)) +:+ ("0000644" +:+ (nuls 1 +:+ (nuls 16
    +:+ (oct_digits 11 (len (content e)) +:+ (nuls 1 +:+ (nuls 20 +:+ ("0" +:+ nuls 355)))))))).

Definition tar_entry (e : TarEntry) : string :=
  tar_header e +:+ (content e +:+ nuls (Z.to_nat (padded (len (content e)) - len (content e)))).

Fixpoint pack (es : list TarEntry) : string :=
  match es with [] => nuls 1024 | e :: es => tar_entry e +:+ pack es end.

Record packable (e : TarEntry) : Prop := {
  pk_path : check_path (path e) = Ok (path e);
  pk_len : (0 < String.length (path e) <= 100)%nat;
  pk_utf8 : valid_utf8 (path e) = true;
  pk_trim : trim (path e) = path e;
  pk_size : len (content e) < 8 ^ 11;
}.

Lemma nuls_length n : String.length (nuls n) = n.
Proof. induction n; simpl; congruence. Qed.

Lemma oct_digits_length k n : String.length (oct_digits k n) = k.
Proof. revert n. induction k as [|k IH]; intros n; [done|]. cbn [oct_digits].
  rewrite sapp_length, IH. simpl. lia. Qed.

Lemma nuls_app a b : nuls a +:+ nuls b = nuls (a + b).
Proof. induction a as [|a IH]; [done|]. simpl. by rewrite <- IH. Qed.

Lemma substring_skip a b n m :
  String.substring (String.length a + n) m (a +:+ b) = String.substring n m b.
Proof. induction a as [|c a IH]; [done|]. simpl. exact IH. Qed.

Lemma substring_take a b : String.substring 0 (String.length a) (a +:+ b) = a.
Proof.
  induction a as [|c a IH]; [by destruct b|]. simpl. by rewrite IH.
Qed.

Lemma slice_mid a b c : slice (a +:+ (b +:+ c)) (len a) (len b) = b.
Proof.
  unfold slice, len. rewrite !Nat2Z.id.
  rewrite <- (Nat.add_0_r (String.length a)), substring_skip. apply substring_take.
Qed.

Lemma until_nul_app a n : has_char nul a = false -> until_nul (a +:+ nuls n) = a.
Proof.
  induction a as [|c a IH]; intros Ha; [by destruct n|].
  rewrite has_char_cons in Ha. apply orb_false_iff in Ha as [Hc Ha].
  change (String c a +:+ nuls n) with (String c (a +:+ nuls n)). cbn [until_nul].
  destruct (N.eqb_spec (byte_of c) 0) as [E|]; [|by rewrite IH].
  apply Ascii.eqb_neq in Hc. exfalso. apply Hc. unfold nul, byte_of in *.
  by rewrite <- E, ascii_N_embedding.
Qed.

Definition digits : list ascii :=
  ["0"; "1"; "2"; "3"; "4"; "5"; "6"; "7"; "8"; "9"]%char.

Lemma is_digit_elem c : is_ascii_digit c = true -> c ∈ digits.
Proof.
  unfold digits. intros H. apply list_elem_of_In.
  destruct c as [[] [] [] [] [] [] [] []]; try discriminate H; simpl; tauto.
Qed.

(** A digit does not start, or end, any white space. *)
Lemma strip_any_digit c s :
  is_ascii_digit c = true ->
  strip_any white_space (String c s) = None /\
  strip_any (str_rev <$> white_space) (String c s) = None.
Proof.
  intros H%is_digit_elem. unfold digits in H.
  repeat (apply elem_of_cons in H as [->|H]; [split; reflexivity|]).
  by apply not_elem_of_nil in H.
Qed.

Lemma all_digits_rev s : all_chars is_ascii_digit (str_rev s) = all_chars is_ascii_digit s.
Proof.
  induction s as [|c s IH]; [done|].
  change (str_rev (String c s)) with (srev (String c "") s).
  rewrite srev_app, all_chars_app, IH. cbn [all_chars].
  by rewrite andb_true_r, andb_comm.
Qed.

Lemma trim_digits s : all_chars is_ascii_digit s = true -> trim s = s.
Proof.
  intros H. unfold trim, trim_end, trim_start.
  assert (forall k s', all_chars is_ascii_digit s' = true ->
    trim_go k white_space s' = s' /\ trim_go k (str_rev <$> white_space) s' = s') as Ht.
  { intros k s' Hs. destruct k as [|k]; [done|]. destruct s' as [|c s']; [done|].
    cbn [all_chars] in Hs. apply andb_prop in Hs as [Hc _].
    destruct (strip_any_digit c s' Hc) as [E1 E2]. cbn [trim_go]. by rewrite E1, E2. }
  rewrite (proj1 (Ht _ s H)). rewrite <- all_digits_rev in H.
  rewrite (proj2 (Ht _ _ H)). apply str_rev_rev.
Qed.

Lemma digit_not_pad c : is_ascii_digit c = true -> pad_char c = false.
Proof. destruct c as [[] [] [] [] [] [] [] []]; intros H; try discriminate H; reflexivity. Qed.

Lemma trim_pad_digits s :
  all_chars is_ascii_digit s = true -> trim_end_by pad_char (trim_start_by pad_char s) = s.
Proof.
  assert (forall s, all_chars is_ascii_digit s = true -> trim_start_by pad_char s = s) as H.
  { intros [|c s'] Hs; [done|]. cbn [all_chars] in Hs. apply andb_prop in Hs as [Hc _].
    cbn [trim_start_by]. by rewrite digit_not_pad. }
  intros Hs. rewrite (H s Hs). unfold trim_end_by. rewrite H by by rewrite all_digits_rev.
  apply str_rev_rev.
Qed.

(** *** Octal numbers read back *)

Definition oct_ok (c : ascii) : bool := in_range "0" "9" c && (digit_val c <? 8).

Lemma digits_val_app base ok acc a b :
  digits_val base ok acc (a +:+ b)
  = match digits_val base ok acc a with Some m => digits_val base ok m b | None => None end.
Proof.
  revert acc. induction a as [|c a IH]; intros acc; [done|].
  change (String c a +:+ b) with (String c (a +:+ b)). cbn [digits_val].
  destruct (ok c); [apply IH|done].
Qed.

Lemma oct_char n :
  let c := ascii_of_N (Z.to_N (48 + n mod 8)) in
  is_ascii_digit c = true /\ oct_ok c = true /\ digit_val c = n mod 8.
Proof.
  pose proof (Z.mod_pos_bound n 8 ltac:(lia)) as H.
  assert (n mod 8 = 0 \/ n mod 8 = 1 \/ n mod 8 = 2 \/ n mod 8 = 3 \/ n mod 8 = 4
          \/ n mod 8 = 5 \/ n mod 8 = 6 \/ n mod 8 = 7) as Hc by lia.
  destruct_or! Hc; rewrite Hc; vm_compute; done.
Qed.

Lemma oct_digits_digits k n : all_chars is_ascii_digit (oct_digits k n) = true.
Proof.
  revert n. induction k as [|k IH]; intros n; [done|]. cbn [oct_digits].
  rewrite all_chars_app, IH. cbn [all_chars]. by rewrite (proj1 (oct_char n)).
Qed.

Lemma oct_digits_val k n :
  0 <= n -> digits_val 8 oct_ok 0 (oct_digits k n) = Some (n mod 8 ^ Z.of_nat k).
Proof.
  revert n. induction k as [|k IH]; intros n Hn; [by rewrite Z.mod_1_r|].
  cbn [oct_digits]. rewrite digits_val_app, IH by (apply Z.div_pos; lia).
  destruct (oct_char n) as (_ & Hok & Hv). cbn [digits_val]. rewrite Hok, Hv. f_equal.
  rewrite Nat2Z.inj_succ, Z.pow_succ_r by lia.
  rewrite (Z.rem_mul_r n 8) by (try apply Z.pow_pos_nonneg; lia). lia.
Qed.

Lemma parse_oct_digits k n :
  (0 < k)%nat -> 0 <= n < 8 ^ Z.of_nat k -> n <= u64_max ->
  parse_uint u64_max 8 (oct_digits k n) = Some n.
Proof.
  intros Hk Hn Hu. pose proof (oct_digits_length k n) as Hl.
  pose proof (oct_digits_digits k n) as Hd. pose proof (oct_digits_val k n ltac:(lia)) as Hv.
  rewrite Z.mod_small in Hv by done.
  destruct (oct_digits k n) as [|c s] eqn:E; [simpl in Hl; lia|].
  cbn [all_chars] in Hd. apply andb_prop in Hd as [Hc _].
  unfold parse_uint.
  assert ((match String c s with String "+" r => r | _ => String c s end) = String c s) as ->.
  { destruct c as [[] [] [] [] [] [] [] []]; try discriminate Hc; reflexivity. }
  cbn [is_empty]. unfold oct_ok in Hv. rewrite Hv. by rewrite (proj2 (Z.leb_le _ _)) by done.
Qed.

(** *** A written header reads back *)

Lemma slice_at a b c off n : off = len a -> n = len b -> slice (a +:+ (b +:+ c)) off n = b.
Proof. intros -> ->. apply slice_mid. Qed.

Lemma len_app a b : len (a +:+ b) = len a + len b.
Proof. unfold len. rewrite sapp_length. lia. Qed.

Lemma len_nuls n : len (nuls n) = Z.of_nat n.
Proof. unfold len. by rewrite nuls_length. Qed.

Lemma len_oct k n : len (oct_digits k n) = Z.of_nat k.
Proof. unfold len. by rewrite oct_digits_length. Qed.

Lemma field_of header at_ n text k :
  slice header at_ n = text +:+ nuls k -> has_char nul text = false ->
  valid_utf8 text = true -> field header at_ n = Ok (trim text).
Proof. intros Hs Hn Hu. unfold field. by rewrite Hs, until_nul_app, Hu by done. Qed.

Lemma digits_utf8 s : all_chars is_ascii_digit s = true -> valid_utf8 s = true.
Proof.
  induction s as [|c s IH]; [done|]. cbn [all_chars valid_utf8]. intros [Hc Hs]%andb_prop.
  rewrite IH by done. destruct c as [[] [] [] [] [] [] [] []]; try discriminate Hc; reflexivity.
Qed.

Lemma digits_no_nul s : all_chars is_ascii_digit s = true -> has_char nul s = false.
Proof.
  induction s as [|c s IH]; [done|]. cbn [all_chars]. intros [Hc Hs]%andb_prop.
  rewrite has_char_cons, IH by done.
  destruct c as [[] [] [] [] [] [] [] []]; try discriminate Hc; reflexivity.
Qed.

Lemma octal_of header at_ n k v j :
  slice header at_ n = oct_digits k v +:+ nuls j ->
  (0 < k)%nat -> 0 <= v < 8 ^ Z.of_nat k -> v <= u64_max -> octal header at_ n = Ok v.
Proof.
  intros Hs Hk Hv Hu. pose proof (oct_digits_digits k v) as Hd.
  unfold octal. rewrite (field_of _ _ _ _ _ Hs) by auto using digits_no_nul, digits_utf8.
  cbn [mbind result_bind]. rewrite trim_digits, trim_pad_digits, parse_oct_digits by done.
  assert (is_empty (oct_digits k v) = false) as ->; [|done].
  pose proof (oct_digits_length k v). destruct (oct_digits k v); simpl in *; [lia|done].
Qed.

Lemma tar_header_eq e :
  tar_header e =
  (path e +:+ nuls (100 - String.length (path e))) +:+ (("0000644" +:+ nuls 1) +:+ (nuls 16
    +:+ ((oct_digits 11 (len (content e)) +:+ nuls 1) +:+ (nuls 20 +:+ ("0" +:+ (nuls 188
    +:+ (nuls 155 +:+ nuls 12))))))).
Proof. unfold tar_header. rewrite !nuls_app, !sapp_assoc. reflexivity. Qed.

Lemma packable_name_len e :
  packable e -> len (path e +:+ nuls (100 - String.length (path e))) = 100.
Proof. intros [_ Hl _ _ _]. rewrite len_app, len_nuls. unfold len. lia. Qed.

Lemma tar_header_len e : packable e -> len (tar_header e) = 512.
Proof.
  intros Hp. rewrite tar_header_eq. rewrite !(len_app _ (_ +:+ _)), packable_name_len by done.
  rewrite !len_nuls, !len_app, !len_nuls, len_oct. reflexivity.
Qed.

Lemma get_skip a c b : String.get (String.length a) (a +:+ String c b) = Some c.
Proof. by induction a. Qed.

Definition before_flag (e : TarEntry) : string :=
  (path e +:+ nuls (100 - String.length (path e))) +:+ ("0000644" +:+ (nuls 1 +:+ (nuls 16
    +:+ (oct_digits 11 (len (content e)) +:+ (nuls 1 +:+ nuls 20))))).

Lemma tar_header_flag e : packable e -> type_flag (tar_header e) = 48%N.
Proof.
  intros Hp. unfold type_flag.
  assert (tar_header e = before_flag e +:+ String "0" (nuls 355)) as ->.
  { unfold tar_header, before_flag. rewrite !sapp_assoc. reflexivity. }
  assert (String.length (before_flag e) = 156%nat) as <-; [|by rewrite get_skip].
  pose proof (packable_name_len e Hp) as Hn. unfold len in Hn. unfold before_flag.
  rewrite !sapp_length, !nuls_length, ?oct_digits_length in *. simpl. lia.
Qed.

Lemma octal_mode e : packable e -> octal (tar_header e) 100 8 = Ok 420.
Proof.
  intros Hp. apply (octal_of _ _ _ 7 420 1); [|lia|done|done].
  rewrite tar_header_eq. apply slice_at; [by rewrite packable_name_len|reflexivity].
Qed.

Lemma octal_size e : packable e -> octal (tar_header e) 124 12 = Ok (len (content e)).
Proof.
  intros Hp. pose proof (pk_size e Hp) as Hs. assert (0 <= len (content e)) by (unfold len; lia).
  apply (octal_of _ _ _ 11 _ 1); [|lia|done|unfold u64_max; lia].
  rewrite tar_header_eq. rewrite <- (sapp_assoc _ (nuls 16)), <- (sapp_assoc _ (_ +:+ nuls 16)).
  apply slice_at; [|by rewrite len_app, len_oct].
  by rewrite len_app, packable_name_len.
Qed.

Lemma field_prefix e : packable e -> field (tar_header e) 345 155 = Ok "".
Proof.
  intros Hp. apply (field_of _ _ _ "" 155); [|done|done].
  pose proof (packable_name_len e Hp) as Hn.
  rewrite tar_header_eq. do 6 rewrite <- (sapp_assoc _ _ (_ +:+ _)).
  apply slice_at; [|done].
  rewrite !len_app in *. rewrite !len_nuls in *. rewrite len_oct, Hn. reflexivity.
Qed.

Lemma safe_path_no_nul e : packable e -> has_char nul (path e) = false.
Proof. intros Hp. by destruct (check_path_Ok _ _ (pk_path e Hp)) as [[_ [_ ?] _] _]. Qed.

Lemma read_tar_header e :
  packable e -> read_header (tar_header e) = Ok (HFile (path e) (len (content e))).
Proof.
  intros Hp. unfold read_header.
  rewrite (field_of _ 0 100 (path e) (100 - String.length (path e)));
    [|rewrite tar_header_eq; apply (slice_at ""); [done|by rewrite packable_name_len]
     |by apply safe_path_no_nul|by destruct Hp].
  rewrite octal_size, field_prefix, tar_header_flag by done. cbn [mbind result_bind].
  cbn [N.eqb Pos.eqb orb negb guard_err]. rewrite octal_mode by done.
  cbn [mbind result_bind is_empty]. change (negb (Z.land 420 3584 =? 0)) with false.
  cbn [guard_err mbind result_bind]. rewrite (pk_trim e Hp), (pk_path e Hp). reflexivity.
Qed.

Lemma tar_header_not_zero e : packable e -> all_zero (tar_header e) = false.
Proof.
  intros Hp. pose proof (safe_path_no_nul e Hp) as Hn. pose proof (pk_len e Hp) as Hl.
  unfold tar_header. destruct (path e) as [|c p]; [simpl in Hl; lia|].
  rewrite has_char_cons in Hn. apply orb_false_iff in Hn as [Hc%Ascii.eqb_neq _].
  change (String c p +:+ ?x) with (String c (p +:+ x)). unfold all_zero. cbn [all_chars].
  destruct (N.eqb_spec (byte_of c) 0) as [E|]; [|done]. exfalso. apply Hc.
  unfold nul, byte_of in *. by rewrite <- E, ascii_N_embedding.
Qed.

Lemma len_tar_entry e : packable e -> len (tar_entry e) = 512 + padded (len (content e)).
Proof.
  intros Hp. unfold tar_entry. rewrite !len_app, tar_header_len, len_nuls by done.
  pose proof (padded_ge (len (content e)) ltac:(unfold len; lia)). lia.
Qed.

Lemma len_nonneg s : 0 <= len s.
Proof. unfold len. lia. Qed.

Lemma total_size_nonneg es : 0 <= total_size es.
Proof. induction es as [|e es IH]; simpl; [lia|]. pose proof (len_nonneg (content e)). lia. Qed.

(** One round of the loop on a written entry. *)
Lemma extract_go_entry fuel pre e rest max_total total entries :
  packable e -> total + len (content e) <= max_total ->
  extract_go (S fuel) (pre +:+ (tar_entry e +:+ rest)) max_total (len pre) total entries
  = extract_go fuel ((pre +:+ tar_entry e) +:+ rest) max_total (len (pre +:+ tar_entry e))
      (total + len (content e)) (entries ++ [e]).
Proof.
  intros Hp Hm. cbn [extract_go]. rewrite (sapp_assoc pre).
  set (archive := pre +:+ _).
  pose proof (len_nonneg (content e)) as Hc0. pose proof (padded_ge (len (content e)) Hc0) as Hpad.
  assert (len archive = len pre + (512 + padded (len (content e))) + len rest) as Hlen.
  { unfold archive. rewrite !(len_app _ (_ +:+ _)), len_app, len_tar_entry by done. lia. }
  pose proof (len_nonneg rest).
  assert (slice archive (len pre) BLOCK = tar_header e) as ->.
  { unfold archive, tar_entry. rewrite !(sapp_assoc (tar_header e)).
    apply slice_at; [done|by rewrite tar_header_len]. }
  rewrite tar_header_not_zero, read_tar_header by done.
  assert (slice archive (len pre + BLOCK) (len (content e)) = content e) as ->.
  { unfold archive, tar_entry. rewrite !(sapp_assoc (tar_header e)), (sapp_assoc (content e)).
    rewrite <- (sapp_assoc pre). apply slice_at; [|done]. by rewrite len_app, tar_header_len. }
  unfold BLOCK in *.
  rewrite (proj2 (Z.ltb_ge _ _)) by lia. rewrite (proj2 (Z.ltb_ge _ _)) by lia.
  rewrite (proj2 (Z.ltb_ge _ _)) by lia.
  rewrite len_app, len_tar_entry, Z.add_assoc by done. by destruct e.
Qed.

Lemma extract_go_pack es fuel pre max_total total entries :
  Forall packable es -> (length es < fuel)%nat -> total + total_size es <= max_total ->
  extract_go fuel (pre +:+ pack es) max_total (len pre) total entries = Some (Ok (entries ++ es)).
Proof.
  intros Hes. revert fuel pre total entries.
  induction Hes as [|e es He Hes IH]; intros fuel pre total entries Hf Hm;
    (destruct fuel as [|fuel]; [simpl in Hf; lia|]).
  - cbn [pack]. change (nuls 1024) with (nuls 512 +:+ nuls 512). cbn [extract_go].
    rewrite (slice_at pre (nuls 512)) by done. rewrite app_nil_r.
    by destruct (_ <? _).
  - cbn [pack]. simpl in Hm, Hf. pose proof (total_size_nonneg es).
    rewrite extract_go_entry, IH by (done || lia). by rewrite <- app_assoc.
Qed.

Lemma len_pack es : Forall packable es -> BLOCK * Z.of_nat (length es) <= len (pack es).
Proof.
  induction 1 as [|e es He Hes IH]; [apply len_nonneg|].
  cbn [pack length]. rewrite len_app, len_tar_entry by done.
  pose proof (padded_ge (len (content e)) (len_nonneg _)). unfold BLOCK in *. lia.
Qed.

(** Round trip.  A plain ustar archive of files whose names the reader
    accepts is read back exactly: the same paths, the same contents, in order,
    provided they fit in the limit. *)
Theorem pack_extract_roundtrip (es : list TarEntry) (max_total : Z) :
  es <> [] -> Forall packable es -> total_size es <= max_total ->
  extract (pack es) max_total = Some (Ok es).
Proof.
  intros Hne Hes Hm. unfold extract.
  pose proof (len_pack es Hes) as Hl.
  assert (Z.of_nat (length es) <= len (pack es) / BLOCK) by
    (apply Z.div_le_lower_bound; unfold BLOCK in *; lia).
  change (extract_go ?f (pack es) ?m 0 0 []) with (extract_go f ("" +:+ pack es) m (len "") 0 []).
  rewrite extract_go_pack by (done || lia). cbn [app].
  case_bool_decide as H0; [by apply nil_length_inv in H0|done].
Qed.

Lemma pack_extract_roundtrip_witness :
  extract (pack [mkEntry "manifest.json" "{}"; mkEntry "docs/app.toml" "x = 1"]) 1000
  = Some (Ok [mkEntry "manifest.json" "{}"; mkEntry "docs/app.toml" "x = 1"]).
Proof.
  apply pack_extract_roundtrip; [done| |vm_compute; discriminate].
  repeat constructor; vm_compute; try lia; reflexivity.
Defined.
