(* ===== verification/Fs.v ===== *)
(** * A file system  (what volume.rs and oci/store.rs use of [std::fs])

    A directory tree rooted at one directory: paths are lists of segments
    relative to it.  A program is a function of a [world]: the tree, the faults
    the environment will inject into the next system calls, and the history of
    the trees every call left behind, newest first.  A call that meets a fault
    fails, after any part of its work the kernel may already have done; the
    history is what other processes can observe, and what a crash leaves.

    Links in the middle of a path are followed by the calls that read
    ([resolve]); the calls that write are only ever given paths through real
    directories, and fail in the model on any other. *)

From S2P Require Import Prelude RustStr.
Open Scope list_scope.
Open Scope Z_scope.

(** [io::ErrorKind], as far as the code looks at it. *)
Inductive IoKind := NotFound | AlreadyExists | InvalidInput | OtherIo.

#[export] Instance IoKind_eq_dec : EqDecision IoKind.
Proof. solve_decision. Defined.

Inductive node :=
| File (content : string) (mode : Z) (gid : option Z)
| Dir
| Link (to : string).

#[export] Instance node_eq_dec : EqDecision node.
Proof. solve_decision. Defined.

Notation path := (list string).
Notation fs := (@gmap (list string) list_eq_dec list_countable node).

(** A failing call: its error, how many bytes a write had written, and which
    entries a recursive removal had not yet removed. *)
Record fault := mkFault { kind : IoKind; written : nat; survives : path -> bool }.

Record world := mkWorld {
  wfs : fs;
  wfaults : list (option fault);
  whist : list fs;
}.

Definition io (A : Type) : Type := world -> result IoKind A * world.

#[export] Instance io_ret : MRet io := fun A a w => (Ok a, w).
#[export] Instance io_bind : MBind io := fun A B k m w =>
  match m w with
  | (Ok a, w) => k a w
  | (Err e, w) => (Err e, w)
  end.

Definition io_fail {A : Type} (e : IoKind) : io A := fun w => (Err e, w).

(** [let r = m;] without [?]: the error is a value. *)
Definition attempt {A : Type} (m : io A) : io (result IoKind A) := fun w =>
  let '(r, w) := m w in (Ok r, w).

Fixpoint io_each {A : Type} (f : A -> io unit) (xs : list A) : io unit :=
  match xs with
  | [] => mret tt
  | x :: xs => _ ← f x; io_each f xs
  end.

(** One system call: what it does, and what part of it a fault leaves done. *)
Definition syscall {A : Type} (partial : fault -> fs -> fs) (ok : fs -> result IoKind (A * fs)) : io A :=
  fun w =>
    match wfaults w with
    | Some ft :: rest =>
        let f := partial ft (wfs w) in (Err (kind ft), mkWorld f rest (f :: whist w))
    | faults =>
        match ok (wfs w) with
        | Ok (a, f) => (Ok a, mkWorld f (tail faults) (f :: whist w))
        | Err e => (Err e, mkWorld (wfs w) (tail faults) (wfs w :: whist w))
        end
    end.

Definition nothing (_ : fault) (f : fs) : fs := f.

(** ** Looking *)

Definition is_dir (f : fs) (p : path) : bool :=
  match p with [] => true | _ => bool_decide (f !! p = Some Dir) end.
Definition parent (p : path) : path := removelast p.
Definition below (d p : path) : bool := bool_decide (d `prefix_of` p).

(** Resolving a path: links are followed at every component, each relative to
    the directory it is in.  [fuel] bounds the number of components walked, as
    [ELOOP] does; a link that leaves the tree is an error. *)
Fixpoint resolve (fuel : nat) (f : fs) (at_ rest : path) : result IoKind path :=
  match rest with
  | [] => Ok at_
  | s :: rest =>
      match fuel with
      | O => Err OtherIo
      | S fuel =>
          match f !! (at_ ++ [s]) with
          | None => Err NotFound
          | Some (Link to) =>
              if starts_with "/" to || existsb (String.eqb "..") (split_char "/" to) then Err OtherIo
              else resolve fuel f at_ (split_char "/" to ++ rest)
          | Some Dir => resolve fuel f (at_ ++ [s]) rest
          | Some (File _ _ _) =>
              match rest with [] => Ok (at_ ++ [s]) | _ => Err OtherIo end
          end
      end
  end.

(** Enough for every path the program reads: a link to a link to a file. *)
Definition link_fuel (p : path) : nat := (length p + 40)%nat.

Definition node_at (f : fs) (p : path) : result IoKind node :=
  q ← resolve (link_fuel p) f [] p;
  match q with [] => Ok Dir | _ => ok_or NotFound (f !! q) end.

(** The names in a directory. *)
Definition child_of (d p : path) : option string :=
  match p with
  | [] => None
  | _ => if bool_decide (parent p = d) then last p else None
  end.
Definition children (f : fs) (d : path) : list string := omap (child_of d) (map_to_list f).*1.

(** ** The calls *)

Definition fs_read_dir (d : path) : io (list string) := syscall nothing (fun f =>
  match resolve (link_fuel d) f [] d with
  | Ok q => if is_dir f q then Ok (children f q, f) else Err OtherIo
  | Err e => Err e
  end).

Definition fs_read (p : path) : io string := syscall nothing (fun f =>
  match node_at f p with
  | Ok (File c _ _) => Ok (c, f)
  | Ok _ => Err OtherIo
  | Err e => Err e
  end).

Definition fs_read_to_string (p : path) : io string :=
  c ← fs_read p;
  if valid_utf8 c then mret c else io_fail OtherIo.

Definition fs_read_link (p : path) : io string := syscall nothing (fun f =>
  match f !! p with
  | Some (Link to) => Ok (to, f)
  | Some _ => Err InvalidInput
  | None => Err NotFound
  end).

Definition fs_symlink_metadata (p : path) : io unit := syscall nothing (fun f =>
  match f !! p with Some _ => Ok (tt, f) | None => Err NotFound end).

(** [Path::exists] and [Path::is_dir]: a failed [stat] reads as [false]. *)
Definition fs_stat (p : path) : io node := syscall nothing (fun f =>
  match node_at f p with Ok n => Ok (n, f) | Err e => Err e end).
Definition path_exists (p : path) : io bool :=
  r ← attempt (fs_stat p); mret (match r with Ok _ => true | Err _ => false end).
Definition path_is_dir (p : path) : io bool :=
  r ← attempt (fs_stat p); mret (match r with Ok Dir => true | _ => false end).

Definition fs_create_dir (p : path) : io unit := syscall nothing (fun f =>
  match f !! p with
  | Some _ => Err AlreadyExists
  | None => if is_dir f (parent p) then Ok (tt, <[p := Dir]> f) else Err NotFound
  end).

(** Every missing directory on the way, outermost first. *)
Fixpoint create_dir_all_go (at_ rest : path) : io unit :=
  match rest with
  | [] => mret tt
  | s :: rest =>
      r ← attempt (fs_create_dir (at_ ++ [s]));
      _ ← match r with
          | Ok _ => mret tt
          | Err e => there ← path_is_dir (at_ ++ [s]); if (there : bool) then mret tt else io_fail e
          end;
      create_dir_all_go (at_ ++ [s]) rest
  end.
Definition fs_create_dir_all (p : path) : io unit := create_dir_all_go [] p.

Definition chmod_node (mode : Z) (n : node) : node :=
  match n with File c _ g => File c mode g | n => n end.
(** Modes of directories are not kept. *)
Definition fs_set_permissions (p : path) (mode : Z) : io unit := syscall nothing (fun f =>
  match f !! p with
  | Some n => Ok (tt, <[p := chmod_node mode n]> f)
  | None => Err NotFound
  end).

Definition fs_chown_group (p : path) (gid : Z) : io unit := syscall nothing (fun f =>
  match f !! p with
  | Some (File c m _) => Ok (tt, <[p := File c m (Some gid)]> f)
  | Some _ => Ok (tt, f)
  | None => Err NotFound
  end).

(** [open(O_WRONLY | O_CREAT | O_TRUNC, mode)] under a umask. *)
Definition fs_open_trunc (umask : Z) (p : path) (mode : Z) : io unit := syscall nothing (fun f =>
  match f !! p with
  | Some (File _ m g) => Ok (tt, <[p := File "" m g]> f)
  | Some _ => Err OtherIo
  | None => if is_dir f (parent p) then Ok (tt, <[p := File "" (Z.ldiff mode umask) None]> f)
            else Err NotFound
  end).

Definition set_content (p : path) (c : string) (f : fs) : fs :=
  match f !! p with Some (File _ m g) => <[p := File c m g]> f | _ => f end.
Definition fs_write_all (p : path) (c : string) : io unit :=
  syscall (fun ft f => set_content p (String.substring 0 (written ft) c) f)
          (fun f => Ok (tt, set_content p c f)).

Definition fs_sync (p : path) : io unit := syscall nothing (fun f =>
  match node_at f p with Ok _ => Ok (tt, f) | Err e => Err e end).

Definition fs_symlink (to : string) (p : path) : io unit := syscall nothing (fun f =>
  match f !! p with
  | Some _ => Err AlreadyExists
  | None => if is_dir f (parent p) then Ok (tt, <[p := Link to]> f) else Err NotFound
  end).

Definition fs_remove_file (p : path) : io unit := syscall nothing (fun f =>
  match f !! p with
  | None => Err NotFound
  | Some Dir => Err OtherIo
  | Some _ => Ok (tt, delete p f)
  end).

Definition without (p : path) (f : fs) : fs := filter (fun kv => below p kv.1 = false) f.
(** Whether an interrupted recursive removal of [p] leaves [q]: an entry goes
    only after everything in it. *)
Definition left_behind (ft : fault) (p q : path) : bool :=
  negb (below p q) || forallb (fun n => survives ft (take n q)) (seq (length p) (S (length q - length p))).
Definition fs_remove_dir_all (p : path) : io unit :=
  syscall (fun ft f => filter (fun kv => left_behind ft p kv.1 = true) f)
          (fun f => match f !! p with
                    | None => Err NotFound
                    | Some (File _ _ _) => Err OtherIo
                    | Some _ => Ok (tt, without p f)
                    end).

(** [rename(2)]: over a file or link it replaces it; a directory moves with all
    it holds, onto nothing or an empty directory. *)
Definition rebase (a b p : path) : path := b ++ drop (length a) p.
Definition moved (a b : path) (f : fs) : fs :=
  list_to_map ((fun kv => (rebase a b kv.1, kv.2)) <$> map_to_list (filter (fun kv => below a kv.1 = true) f)).
Definition fs_rename (a b : path) : io unit := syscall nothing (fun f =>
  match f !! a with
  | None => Err NotFound
  | Some Dir =>
      if bool_decide (a = b) then Ok (tt, f)
      else if below a b then Err InvalidInput
      else match f !! b with
           | Some Dir => if bool_decide (children f b = []) then Ok (tt, moved a b f ∪ without a (delete b f))
                         else Err OtherIo
           | Some _ => Err OtherIo
           | None => if is_dir f (parent b) then Ok (tt, moved a b f ∪ without a f) else Err NotFound
           end
  | Some n =>
      match f !! b with
      | Some Dir => Err OtherIo
      | _ => if is_dir f (parent b) then Ok (tt, <[b := n]> (delete a f)) else Err NotFound
      end
  end).

(** ** Reasoning about programs *)

Lemma io_bind_Ok {A B : Type} (m : io A) (k : A -> io B) (w : world) (b : B) (w' : world) :
  (m ≫= k) w = (Ok b, w') <-> exists a w1, m w = (Ok a, w1) /\ k a w1 = (Ok b, w').
Proof.
  unfold mbind, io_bind. split.
  - destruct (m w) as [[a|e] w1]; [|done]. eauto.
  - intros (a & w1 & -> & ?). done.
Qed.

Lemma syscall_Ok {A : Type} (partial : fault -> fs -> fs) (ok : fs -> result IoKind (A * fs)) (w : world) (a : A) (w' : world) :
  syscall partial ok w = (Ok a, w') -> ok (wfs w) = Ok (a, wfs w').
Proof.
  unfold syscall. intros H.
  destruct (wfaults w) as [|[ft|] rest]; [|done|];
    destruct (ok (wfs w)) as [[a1 f]|]; simplify_eq; done.
Qed.

(** [hoare I P m Q]: run from a tree with [I] and [P], every tree [m] leaves
    behind has [I], and one it returns normally with has [Q]; [E] holds of the
    tree an error leaves. *)
Definition hoare {A : Type} (I P : fs -> Prop) (m : io A) (Q : A -> fs -> Prop) (E : fs -> Prop) : Prop :=
  forall w r w', I (wfs w) -> P (wfs w) -> m w = (r, w') ->
    (exists new, whist w' = new ++ whist w /\ Forall I new) /\ I (wfs w') /\
    match r with Ok a => Q a (wfs w') | Err _ => E (wfs w') end.

Section hoare_rules.
Context {A B : Type} (I : fs -> Prop).

Lemma hoare_ret (P : fs -> Prop) (a : A) (Q : A -> fs -> Prop) (E : fs -> Prop) :
  (forall f, I f -> P f -> Q a f) -> hoare I P (mret a) Q E.
Proof. intros H w r w' Hi Hp [= <- <-]. split; [by exists []|]. auto. Qed.

Lemma hoare_fail (P : fs -> Prop) (e : IoKind) (Q : A -> fs -> Prop) (E : fs -> Prop) :
  (forall f, I f -> P f -> E f) -> hoare I P (io_fail e) Q E.
Proof. intros H w r w' Hi Hp [= <- <-]. split; [by exists []|]. auto. Qed.

Lemma hoare_bind (P : fs -> Prop) (m : io A) (R : A -> fs -> Prop) (k : A -> io B) (Q : B -> fs -> Prop) (E : fs -> Prop) :
  hoare I P m R E -> (forall a, hoare I (R a) (k a) Q E) -> hoare I P (m ≫= k) Q E.
Proof.
  intros Hm Hk w r w' Hi Hp. unfold mbind, io_bind.
  destruct (m w) as [[a|e] w1] eqn:Hw; intros H.
  - destruct (Hm _ _ _ Hi Hp Hw) as ((n1 & Hh1 & Hf1) & Hi1 & Hr).
    destruct (Hk a _ _ _ Hi1 Hr H) as ((n2 & Hh2 & Hf2) & ? & ?).
    split; [|done]. exists (n2 ++ n1). rewrite Hh2, Hh1, app_assoc. split; [done|].
    by apply Forall_app.
  - injection H as <- <-. by apply (Hm _ _ _ Hi Hp Hw).
Qed.

Lemma hoare_conseq (P P' : fs -> Prop) (m : io A) (Q Q' : A -> fs -> Prop) (E E' : fs -> Prop) :
  (forall f, I f -> P f -> P' f) -> (forall a f, I f -> Q' a f -> Q a f) ->
  (forall f, I f -> E' f -> E f) -> hoare I P' m Q' E' -> hoare I P m Q E.
Proof.
  intros Hp Hq He Hm w r w' Hi HP H.
  destruct (Hm w r w' Hi (Hp _ Hi HP) H) as (? & ? & Hr). split; [done|]. split; [done|].
  destruct r; auto.
Qed.

Lemma hoare_attempt (P : fs -> Prop) (m : io A) (Q : A -> fs -> Prop) (E E' : fs -> Prop) :
  hoare I P m Q E ->
  hoare I P (attempt m) (fun r f => match r with Ok a => Q a f | Err _ => E f end) E'.
Proof.
  intros Hm w r w' Hi Hp. unfold attempt. destruct (m w) as [r1 w1] eqn:Hw.
  intros [= <- <-]. by apply (Hm _ _ _ Hi Hp Hw).
Qed.

Lemma hoare_syscall (P : fs -> Prop) (partial : fault -> fs -> fs) (ok : fs -> result IoKind (A * fs)) (Q : A -> fs -> Prop) (E : fs -> Prop) :
  (forall f ft, I f -> P f -> I (partial ft f) /\ E (partial ft f)) ->
  (forall f, I f -> P f -> match ok f with Ok (a, f') => I f' /\ Q a f' | Err _ => E f end) ->
  hoare I P (syscall partial ok) Q E.
Proof.
  intros Hpart Hok w r w' Hi Hp. unfold syscall.
  specialize (Hok _ Hi Hp). pose proof (fun ft => Hpart _ ft Hi Hp) as Hft.
  assert (forall faults, match ok (wfs w) with
    | Ok (a, f) => (Ok a, mkWorld f faults (f :: whist w))
    | Err e => (Err e, mkWorld (wfs w) faults (wfs w :: whist w))
    end = (r, w') ->
    (exists new, whist w' = new ++ whist w /\ Forall I new) /\ I (wfs w') /\
    match r with Ok a => Q a (wfs w') | Err _ => E (wfs w') end) as Hgo.
  { intros faults H. destruct (ok (wfs w)) as [[a f]|e]; injection H as <- <-; simpl.
    - destruct Hok. split; [|done]. exists [f]. split; [done|by constructor].
    - split; [|done]. exists [wfs w]. split; [done|by constructor]. }
  destruct (wfaults w) as [|[ft|] rest]; [apply Hgo| |apply Hgo].
  intros [= <- <-]. simpl. destruct (Hft ft). split; [|done].
  eexists [_]. split; [reflexivity|by constructor].
Qed.

End hoare_rules.

(** Regrouping a sequence. *)
Lemma hoare_assoc {A B C : Type} (I P : fs -> Prop) (m : io A) (k : A -> io B) (h : B -> io C)
    (Q : C -> fs -> Prop) (E : fs -> Prop) :
  hoare I P ((m ≫= k) ≫= h) Q E -> hoare I P (m ≫= fun a => k a ≫= h) Q E.
Proof.
  intros H w r w' Hi Hp Hr. apply (H w r w' Hi Hp). rewrite <- Hr.
  unfold mbind, io_bind. by destruct (m w) as [[a|e] w1].
Qed.

(** [keeps I m]: [I] holds of every tree [m] leaves behind. *)
Definition keeps {A : Type} (I : fs -> Prop) (m : io A) : Prop :=
  hoare I (fun _ => True) m (fun _ _ => True) (fun _ => True).

Section keeps_rules.
Context (I : fs -> Prop).

Lemma keeps_ret {A : Type} (a : A) : keeps I (mret a).
Proof. by apply hoare_ret. Qed.
Lemma keeps_fail {A : Type} (e : IoKind) : keeps I (io_fail e : io A).
Proof. by apply hoare_fail. Qed.
Lemma keeps_bind {A B : Type} (m : io A) (k : A -> io B) :
  keeps I m -> (forall a, keeps I (k a)) -> keeps I (m ≫= k).
Proof. intros Hm Hk. eapply hoare_bind; [exact Hm|exact Hk]. Qed.
Lemma keeps_attempt {A : Type} (m : io A) : keeps I m -> keeps I (attempt m).
Proof.
  intros Hm w r w' Hi Hp. unfold attempt. destruct (m w) as [r1 w1] eqn:Hw. intros [= <- <-].
  destruct (Hm _ _ _ Hi Hp Hw) as (? & ? & _). done.
Qed.
Lemma keeps_each {A : Type} (f : A -> io unit) (xs : list A) :
  (forall x, x ∈ xs -> keeps I (f x)) -> keeps I (io_each f xs).
Proof.
  induction xs as [|x xs IH]; intros Hf; simpl; [apply keeps_ret|].
  apply keeps_bind; [apply Hf; left|]. intros []. apply IH. intros y Hy. apply Hf. by right.
Qed.
Lemma keeps_syscall {A : Type} (partial : fault -> fs -> fs) (ok : fs -> result IoKind (A * fs)) :
  (forall f ft, I f -> I (partial ft f)) ->
  (forall f a f', I f -> ok f = Ok (a, f') -> I f') ->
  keeps I (syscall partial ok).
Proof.
  intros Hp Hok. apply hoare_syscall; [by auto|]. intros f Hi _.
  destruct (ok f) as [[a f']|] eqn:H; [|done]. eauto.
Qed.

(** Every tree of the run, from a start with no history. *)
Lemma keeps_run {A : Type} (m : io A) (f : fs) (faults : list (option fault)) r w' :
  keeps I m -> I f -> m (mkWorld f faults []) = (r, w') -> Forall I (wfs w' :: whist w').
Proof.
  intros Hm Hf H. destruct (Hm (mkWorld f faults []) _ _ Hf Logic.I H) as ((new & Hh & Hn) & Hi & _).
  constructor; [done|]. simpl in Hh. by rewrite Hh, app_nil_r.
Qed.
End keeps_rules.

(** *** Footprints *)

(** The trees that differ from [f0] only at the paths in [S]. *)
Definition agree (S : path -> Prop) (f0 f : fs) : Prop := forall p, ~ S p -> f !! p = f0 !! p.

Lemma agree_refl S f : agree S f f.
Proof. done. Qed.
Lemma agree_trans S f g h : agree S f g -> agree S g h -> agree S f h.
Proof. intros H1 H2 p Hp. by rewrite (H2 p Hp), (H1 p Hp). Qed.
Lemma agree_mono (S T : path -> Prop) f g : (forall p, S p -> T p) -> agree S f g -> agree T f g.
Proof. intros HS H p Hp. apply H. intros Hs. by apply Hp, HS. Qed.

Definition only {A : Type} (S : path -> Prop) (m : io A) : Prop := forall f0, keeps (agree S f0) m.

Lemma only_syscall {A : Type} S (partial : fault -> fs -> fs) (ok : fs -> result IoKind (A * fs)) :
  (forall f ft, agree S f (partial ft f)) ->
  (forall f a f', ok f = Ok (a, f') -> agree S f f') ->
  only S (syscall partial ok).
Proof.
  intros Hp Hok f0. apply keeps_syscall.
  - intros f ft Hf. eapply agree_trans; [exact Hf|apply Hp].
  - intros f a f' Hf H. eapply agree_trans; [exact Hf|by eapply Hok].
Qed.

Lemma agree_insert (S : path -> Prop) f p n : S p -> agree S f (<[p := n]> f).
Proof. intros Hp q Hq. apply lookup_insert_ne. by intros <-. Qed.
Lemma agree_delete (S : path -> Prop) f p : S p -> agree S f (delete p f).
Proof. intros Hp q Hq. apply lookup_delete_ne. by intros <-. Qed.
Lemma agree_filter (S : path -> Prop) (f : fs) (K : path -> bool) :
  (forall q, K q = false -> S q) -> agree S f (filter (fun kv => K kv.1 = true) f).
Proof.
  intros HK q Hq. destruct (f !! q) as [n|] eqn:Hf.
  - apply map_lookup_filter_Some. split; [done|]. simpl.
    destruct (K q) eqn:E; [done|]. by apply HK in E.
  - apply map_lookup_filter_None. by left.
Qed.

(** An invariant that only looks outside the footprint. *)
Lemma keeps_stable {A : Type} (S : path -> Prop) (J : fs -> Prop) (m : io A) :
  only S m -> (forall f f', J f -> agree S f f' -> J f') -> keeps J m.
Proof.
  intros Hm HJ w r w' Hi Hp H.
  destruct (Hm (wfs w) w r w' (agree_refl _ _) Logic.I H) as ((new & Hh & Hf) & Ha & _).
  split; [|split; [by eapply HJ|by destruct r]].
  exists new. split; [done|]. eapply Forall_impl; [exact Hf|]. intros f Hg. by eapply HJ.
Qed.

(** Calls that only look. *)
Definition reads {A : Type} (m : io A) : Prop := only (fun _ => False) m.

Lemma agree_eq (f f' : fs) : agree (fun _ => False) f f' -> f' = f.
Proof. intros H. apply map_eq. intros p. apply H. tauto. Qed.

Lemma reads_keeps {A : Type} (J : fs -> Prop) (m : io A) : reads m -> keeps J m.
Proof.
  intros Hm. eapply keeps_stable; [exact Hm|]. intros f f' Hf E. by rewrite (agree_eq _ _ E).
Qed.

Lemma hoare_reads {A : Type} (I P : fs -> Prop) (m : io A) :
  reads m ->
  hoare I P m (fun a f => P f /\ exists w w', wfs w = f /\ m w = (Ok a, w') /\ wfs w' = f) P.
Proof.
  intros Hm w r w' Hi Hp H.
  destruct (Hm (wfs w) w r w' (agree_refl _ _) Logic.I H) as ((new & Hh & Hf) & Ha & _).
  apply agree_eq in Ha. rewrite Ha. split; [|split; [done|]].
  - exists new. split; [done|]. eapply Forall_impl; [exact Hf|]. intros f ->%agree_eq. done.
  - destruct r; [|done]. split; [done|]. by exists w, w'.
Qed.

(** Change of invariant for a stretch of the program. *)
Lemma hoare_inv {A : Type} (I J P : fs -> Prop) (m : io A) (Q : A -> fs -> Prop) (E : fs -> Prop) :
  (forall f, J f -> I f) -> hoare J P m Q E ->
  hoare I (fun f => J f /\ P f) m (fun a f => J f /\ Q a f) (fun f => J f /\ E f).
Proof.
  intros HI Hm w r w' Hi [Hj Hp] H. destruct (Hm w r w' Hj Hp H) as ((new & Hh & Hf) & Hj' & Hr).
  split; [exists new; split; [done|by eapply Forall_impl; eauto]|].
  split; [auto|]. by destruct r.
Qed.

Create HintDb fs.
#[export] Hint Resolve keeps_ret keeps_fail agree_refl agree_insert agree_delete : fs.

(** Case analysis on the body of a call that succeeded. *)
Ltac call_cases :=
  repeat match goal with
         | H : (match ?x with _ => _ end) = Ok _ |- _ => destruct x eqn:?; simplify_eq; try done
         end.

Lemma below_true d p : below d p = true <-> exists r, p = d ++ r.
Proof. unfold below. rewrite bool_decide_eq_true. done. Qed.

Section footprint.
Context (S : path -> Prop).

Lemma only_read_dir d : only S (fs_read_dir d).
Proof. apply only_syscall; [done|]. intros f a f' H. call_cases. Qed.
Lemma only_stat p : only S (fs_stat p).
Proof. apply only_syscall; [done|]. intros f a f' H. call_cases. Qed.
Lemma only_is_dir p : only S (path_is_dir p).
Proof. intros f0. apply keeps_bind; [apply keeps_attempt, only_stat|auto with fs]. Qed.
Lemma only_symlink_metadata p : only S (fs_symlink_metadata p).
Proof. apply only_syscall; [done|]. intros f a f' H. call_cases. Qed.
Lemma only_sync p : only S (fs_sync p).
Proof. apply only_syscall; [done|]. intros f a f' H. call_cases. Qed.
Lemma only_create_dir p : S p -> only S (fs_create_dir p).
Proof. intros Hp. apply only_syscall; [done|]. intros f a f' H. call_cases. auto with fs. Qed.
Lemma only_set_permissions p m : S p -> only S (fs_set_permissions p m).
Proof. intros Hp. apply only_syscall; [done|]. intros f a f' H. call_cases. auto with fs. Qed.
Lemma only_chown_group p g : S p -> only S (fs_chown_group p g).
Proof. intros Hp. apply only_syscall; [done|]. intros f a f' H. call_cases; auto with fs. Qed.
Lemma only_open_trunc u p m : S p -> only S (fs_open_trunc u p m).
Proof. intros Hp. apply only_syscall; [done|]. intros f a f' H. call_cases; auto with fs. Qed.
Lemma agree_set_content p c f : S p -> agree S f (set_content p c f).
Proof. intros Hp. unfold set_content. repeat case_match; auto with fs. Qed.
Lemma only_write_all p c : S p -> only S (fs_write_all p c).
Proof.
  intros Hp. apply only_syscall; [intros f ft; by apply agree_set_content|].
  intros f a f' [= _ <-]. by apply agree_set_content.
Qed.
Lemma only_symlink t p : S p -> only S (fs_symlink t p).
Proof. intros Hp. apply only_syscall; [done|]. intros f a f' H. call_cases. auto with fs. Qed.
Lemma only_remove_file p : S p -> only S (fs_remove_file p).
Proof. intros Hp. apply only_syscall; [done|]. intros f a f' H. call_cases; auto with fs. Qed.
Lemma agree_without p f : (forall r, S (p ++ r)) -> agree S f (without p f).
Proof.
  intros Hp. unfold without.
  assert (forall q, negb (below p q) = false -> S q) as H.
  { intros q Hq%negb_false_iff%below_true. by destruct Hq as [r ->]. }
  intros q Hq. rewrite <- (agree_filter S f _ H q Hq). f_equal. apply map_filter_ext.
  intros k n _. simpl. destruct (below p k); naive_solver.
Qed.
Lemma only_remove_dir_all p : (forall r, S (p ++ r)) -> only S (fs_remove_dir_all p).
Proof.
  intros Hp. apply only_syscall.
  - intros f ft. apply agree_filter. unfold left_behind. intros q [Hq _]%orb_false_iff.
    apply negb_false_iff, below_true in Hq as [r ->]. done.
  - intros f a f' H. call_cases; by apply agree_without.
Qed.
Lemma moved_other a b (f : fs) q : below b q = false -> moved a b f !! q = None.
Proof.
  intros Hq. unfold moved. apply not_elem_of_list_to_map_1. rewrite list_elem_of_fmap.
  intros (x & -> & (kv & -> & _)%list_elem_of_fmap). simpl in Hq.
  assert (below b (rebase a b kv.1) = true) as E; [|by rewrite E in Hq].
  apply below_true. by eexists.
Qed.
Lemma without_lookup p (f : fs) q :
  without p f !! q = if below p q then None else f !! q.
Proof.
  unfold without. destruct (below p q) eqn:E.
  - apply map_lookup_filter_None. right. intros n _. simpl. by rewrite E.
  - destruct (f !! q) as [n|] eqn:Eq.
    + apply map_lookup_filter_Some. done.
    + apply map_lookup_filter_None. by left.
Qed.
Lemma below_refl p : below p p = true.
Proof. apply below_true. exists []. by rewrite app_nil_r. Qed.

(** A rename changes nothing but what is at and below the two paths. *)
Lemma rename_Ok a b (f f' : fs) q :
  match f !! a with
  | None => Err NotFound
  | Some Dir =>
      if bool_decide (a = b) then Ok (tt, f)
      else if below a b then Err InvalidInput
      else match f !! b with
           | Some Dir => if bool_decide (children f b = []) then Ok (tt, moved a b f ∪ without a (delete b f))
                         else Err OtherIo
           | Some _ => Err OtherIo
           | None => if is_dir f (parent b) then Ok (tt, moved a b f ∪ without a f) else Err NotFound
           end
  | Some n =>
      match f !! b with
      | Some Dir => Err OtherIo
      | _ => if is_dir f (parent b) then Ok (tt, <[b := n]> (delete a f)) else Err NotFound
      end
  end = Ok (tt, f') ->
  below a q = false -> below b q = false -> f' !! q = f !! q.
Proof.
  intros H Ha Hb.
  assert (a <> q) as Hna by (intros ->; by rewrite below_refl in Ha).
  assert (b <> q) as Hnb by (intros ->; by rewrite below_refl in Hb).
  assert (forall g : fs, g !! q = f !! q -> (moved a b f ∪ without a g) !! q = f !! q) as Hu.
  { intros g Hg. rewrite lookup_union, moved_other, without_lookup, Ha, Hg by done.
    by destruct (f !! q). }
  call_cases; try (by rewrite lookup_insert_ne, lookup_delete_ne by done); apply Hu;
    by rewrite ?lookup_delete_ne by done.
Qed.
Lemma only_rename a b :
  (forall r, S (a ++ r)) -> (forall r, S (b ++ r)) -> only S (fs_rename a b).
Proof.
  intros Ha Hb. apply only_syscall; [done|]. intros f [] f' H q Hq.
  eapply rename_Ok; [exact H| |]; apply not_true_iff_false;
    intros [r ->]%below_true; apply Hq; auto.
Qed.
Lemma only_create_dir_all_go at_ rest :
  (forall a b, rest = a ++ b -> a <> [] -> S (at_ ++ a)) -> only S (create_dir_all_go at_ rest).
Proof.
  revert at_. induction rest as [|s rest IH]; intros at_ HS f0; simpl; [auto with fs|].
  apply keeps_bind; [apply keeps_attempt, only_create_dir; by eapply (HS [s])|].
  intros r. apply keeps_bind.
  - destruct r; [auto with fs|]. apply keeps_bind; [apply only_is_dir|].
    intros []; auto with fs.
  - intros _. apply IH. intros a b -> Ha. rewrite <- app_assoc.
    by eapply (HS (s :: a)).
Qed.
End footprint.

(** A stretch of a program that keeps a stronger invariant [J]; afterwards it
    is known which run it was. *)
Lemma hoare_phase {A : Type} (I P J : fs -> Prop) (m : io A) :
  (forall f, I f -> P f -> J f) -> (forall f, J f -> I f) -> keeps J m ->
  hoare I P m (fun a f => J f /\ exists w w', P (wfs w) /\ m w = (Ok a, w') /\ wfs w' = f) (fun _ => True).
Proof.
  intros HP HI Hm w r w' Hi Hp H.
  destruct (Hm _ _ _ (HP _ Hi Hp) Logic.I H) as ((new & Hh & Hf) & Hj & _).
  split; [exists new; split; [done|by eapply Forall_impl; eauto]|].
  split; [auto|]. destruct r; [|done]. split; [done|]. eauto.
Qed.

Lemma keeps_and {A : Type} (I J : fs -> Prop) (m : io A) :
  keeps I m -> keeps J m -> keeps (fun f => I f /\ J f) m.
Proof.
  intros HI HJ w r w' [Hi Hj] Hp H.
  destruct (HI w r w' Hi Hp H) as ((n1 & E1 & F1) & Hi' & _).
  destruct (HJ w r w' Hj Hp H) as ((n2 & E2 & F2) & Hj' & Hr).
  rewrite E1 in E2. apply app_inv_tail in E2 as <-.
  split; [|done]. exists n1. split; [done|]. by apply Forall_and.
Qed.

Lemma hoare_exists {A X : Type} (I : fs -> Prop) (P : X -> fs -> Prop) (m : io A)
    (Q : A -> fs -> Prop) (E : fs -> Prop) :
  (forall x, hoare I (P x) m Q E) -> hoare I (fun f => exists x, P x f) m Q E.
Proof. intros H w r w' Hi [x Hp]. by apply (H x). Qed.

(** *** Trees *)

(** Everything is in a directory that is there. *)
Definition tree_ok (f : fs) : Prop :=
  f !! [] = None /\ forall p s n, f !! (p ++ [s]) = Some n -> p = [] \/ f !! p = Some Dir.

Lemma parent_snoc p s : parent (p ++ [s]) = p.
Proof. unfold parent. apply removelast_last. Qed.

Lemma is_dir_true f p : is_dir f p = true <-> p = [] \/ f !! p = Some Dir.
Proof. destruct p; unfold is_dir; [naive_solver|]. rewrite bool_decide_eq_true. naive_solver. Qed.

Lemma tree_parent f p n : tree_ok f -> f !! p = Some n -> p <> [] /\ is_dir f (parent p) = true.
Proof.
  intros [Hr Ht] Hp. destruct p as [|s p _] using rev_ind; [by rewrite Hr in Hp|].
  split; [by destruct p|]. rewrite parent_snoc, is_dir_true. eauto.
Qed.

Lemma tree_insert f p n :
  tree_ok f -> p <> [] -> is_dir f (parent p) = true -> (f !! p = Some Dir -> n = Dir) ->
  tree_ok (<[p := n]> f).
Proof.
  intros [Hr Ht] Hp Hd Hn. destruct p as [|s p _] using rev_ind; [done|]. clear Hp.
  rewrite parent_snoc, is_dir_true in Hd. split; [rewrite lookup_insert_ne by (by destruct p); done|].
  assert (forall q, q = [] \/ f !! q = Some Dir -> q = [] \/ <[p ++ [s] := n]> f !! q = Some Dir) as H.
  { intros q [->|Hq]; [by left|]. destruct (decide (q = p ++ [s])) as [->|].
    - rewrite lookup_insert_eq. right. f_equal. auto.
    - right. by rewrite lookup_insert_ne. }
  intros q t m Hq. apply H. destruct (decide (q ++ [t] = p ++ [s])) as [E|Hne].
  - apply app_inj_2 in E as [-> _]; [done|done].
  - rewrite lookup_insert_ne in Hq by done. eauto.
Qed.

Lemma tree_delete f p : tree_ok f -> f !! p <> Some Dir -> tree_ok (delete p f).
Proof.
  intros [Hr Ht] Hp. split; [apply lookup_delete_None; by right|].
  intros q s n [Hne Hq]%lookup_delete_Some. destruct (Ht q s n Hq) as [->|Hd]; [by left|].
  right. rewrite lookup_delete_ne; [done|]. by intros <-.
Qed.

Lemma tree_filter (f : fs) (K : path -> bool) :
  tree_ok f -> (forall p s, K (p ++ [s]) = true -> K p = true) ->
  tree_ok (filter (fun kv => K kv.1 = true) f).
Proof.
  intros [Hr Ht] HK. split; [apply map_lookup_filter_None; by left|].
  intros p s n [Hp Hk]%map_lookup_filter_Some. simpl in Hk.
  destruct (Ht p s n Hp) as [->|Hd]; [by left|]. right.
  apply map_lookup_filter_Some. split; [done|]. simpl. eauto.
Qed.

Lemma below_parent p q s : below p q = true -> below p (q ++ [s]) = true.
Proof. rewrite !below_true. intros [r ->]. exists (r ++ [s]). by rewrite app_assoc. Qed.

Lemma left_behind_parent ft p q s : left_behind ft p (q ++ [s]) = true -> left_behind ft p q = true.
Proof.
  unfold left_behind. destruct (below p q) eqn:Hb; [|done].
  rewrite below_parent by done. cbn [negb orb]. apply below_true in Hb as [r ->].
  rewrite !forallb_forall. intros H n Hn. apply in_seq in Hn. rewrite length_app in Hn.
  rewrite <- (take_app_le (p ++ r) [s]) by (rewrite length_app; lia). apply H, in_seq.
  rewrite !length_app. simpl. lia.
Qed.

(** Nothing hangs below a name that is not there. *)
Lemma tree_absent f s r : tree_ok f -> f !! [s] = None -> f !! (s :: r) = None.
Proof.
  intros [Hr Ht] Hs. induction r as [|t r IH] using rev_ind; [done|].
  destruct (f !! (s :: r ++ [t])) as [n|] eqn:Hn; [|done].
  destruct (Ht (s :: r) t n Hn) as [?|Hd]; [done|]. by rewrite IH in Hd.
Qed.

Section tree_rules.
Local Notation T := tree_ok.

Lemma tree_create_dir p : p <> [] -> keeps T (fs_create_dir p).
Proof.
  intros Hp. apply keeps_syscall; [done|]. intros f a f' Hf H. call_cases.
  apply tree_insert; [done|done|done|]. congruence.
Qed.
Lemma tree_set_permissions p m : keeps T (fs_set_permissions p m).
Proof.
  apply keeps_syscall; [done|]. intros f a f' Hf H. call_cases.
  apply tree_parent in Heqo as Hd; [|done]. destruct Hd.
  apply tree_insert; [done|done|done|]. rewrite Heqo. by intros [= ->].
Qed.
Lemma tree_replace f p n n' :
  T f -> f !! p = Some n -> (n = Dir -> n' = Dir) -> T (<[p := n']> f).
Proof.
  intros Hf Hp Hn. destruct (tree_parent f p n Hf Hp). apply tree_insert; [done|done|done|].
  rewrite Hp. intros [= ->]. auto.
Qed.
Lemma tree_chown_group p g : keeps T (fs_chown_group p g).
Proof.
  apply keeps_syscall; [done|]. intros f a f' Hf H. call_cases. by eapply tree_replace.
Qed.
Lemma tree_open_trunc u p m : p <> [] -> keeps T (fs_open_trunc u p m).
Proof.
  intros Hp. apply keeps_syscall; [done|]. intros f a f' Hf H. call_cases.
  - by eapply tree_replace.
  - apply tree_insert; [done|done|done|]. congruence.
Qed.
Lemma tree_set_content p c f : T f -> T (set_content p c f).
Proof. intros Hf. unfold set_content. repeat case_match; try done. by eapply tree_replace. Qed.
Lemma tree_write_all p c : keeps T (fs_write_all p c).
Proof.
  apply keeps_syscall; [intros; by apply tree_set_content|].
  intros f a f' Hf [= _ <-]. by apply tree_set_content.
Qed.
Lemma tree_symlink t p : p <> [] -> keeps T (fs_symlink t p).
Proof.
  intros Hp. apply keeps_syscall; [done|]. intros f a f' Hf H. call_cases.
  apply tree_insert; [done|done|done|]. congruence.
Qed.
Lemma tree_remove_file p : keeps T (fs_remove_file p).
Proof.
  apply keeps_syscall; [done|]. intros f a f' Hf H. call_cases; apply tree_delete; congruence.
Qed.
Lemma tree_without p f : T f -> T (without p f).
Proof.
  intros Hf. unfold without.
  assert (filter (fun kv => below p kv.1 = false) f
          = filter (fun kv => negb (below p kv.1) = true) f) as ->.
  { apply map_filter_ext. intros k n _. simpl. destruct (below p k); naive_solver. }
  apply (tree_filter f (fun q => negb (below p q))); [done|].
  intros q s. destruct (below p q) eqn:Hb; [|done]. by rewrite below_parent.
Qed.
Lemma tree_remove_dir_all p : keeps T (fs_remove_dir_all p).
Proof.
  apply keeps_syscall.
  - intros f ft Hf. apply (tree_filter f (left_behind ft p)); [done|].
    intros q s. apply left_behind_parent.
  - intros f a f' Hf H. call_cases; by apply tree_without.
Qed.
Lemma tree_create_dir_all_go at_ rest : keeps T (create_dir_all_go at_ rest).
Proof.
  revert at_. induction rest as [|s rest IH]; intros at_; simpl; [auto with fs|].
  apply keeps_bind; [apply keeps_attempt, tree_create_dir; by destruct at_|].
  intros r. apply keeps_bind; [|auto].
  destruct r; [auto with fs|]. apply keeps_bind; [apply reads_keeps, only_is_dir|].
  intros []; auto with fs.
Qed.
End tree_rules.

(** *** No links appear *)

Definition no_links (f : fs) (g : string) : Prop := forall r t, f !! (g :: r) <> Some (Link t).

Section no_links_rules.
Context (g : string).
Local Notation N := (fun f => no_links f g).

Lemma no_links_insert (f : fs) p n :
  no_links f g -> (forall t, n <> Link t) -> no_links (<[p := n]> f) g.
Proof.
  intros Hf Hn r t. destruct (decide (p = g :: r)) as [->|].
  - rewrite lookup_insert_eq. intros [= ->]. by apply (Hn t).
  - rewrite lookup_insert_ne by done. apply Hf.
Qed.
Lemma no_links_create_dir p : keeps N (fs_create_dir p).
Proof.
  apply keeps_syscall; [done|]. intros f a f' Hf H. call_cases. by apply no_links_insert.
Qed.
Lemma no_links_chown_group p gid : keeps N (fs_chown_group p gid).
Proof.
  apply keeps_syscall; [done|]. intros f a f' Hf H. call_cases. by apply no_links_insert.
Qed.
Lemma no_links_open_trunc u p m : keeps N (fs_open_trunc u p m).
Proof.
  apply keeps_syscall; [done|]. intros f a f' Hf H. call_cases; by apply no_links_insert.
Qed.
Lemma no_links_write_all p c : keeps N (fs_write_all p c).
Proof.
  assert (forall c f, no_links f g -> no_links (set_content p c f) g) as H.
  { intros c' f Hf. unfold set_content. repeat case_match; try done. by apply no_links_insert. }
  apply keeps_syscall; [intros; by apply H|]. intros f a f' Hf [= _ <-]. by apply H.
Qed.
Lemma no_links_set_permissions p m : keeps N (fs_set_permissions p m).
Proof.
  apply keeps_syscall; [done|]. intros f a f' Hf H. call_cases.
  destruct n as [c m' g'| |t]; cbn [chmod_node]; try by apply no_links_insert.
  intros r t'. destruct (decide (p = g :: r)) as [->|].
  - rewrite lookup_insert_eq, <- Heqo. apply Hf.
  - rewrite lookup_insert_ne by done. apply Hf.
Qed.
Lemma no_links_create_dir_all_go at_ rest : keeps N (create_dir_all_go at_ rest).
Proof.
  revert at_. induction rest as [|s rest IH]; intros at_; simpl; [auto with fs|].
  apply keeps_bind; [apply keeps_attempt, no_links_create_dir|].
  intros r. apply keeps_bind; [|auto].
  destruct r; [auto with fs|]. apply keeps_bind; [apply reads_keeps, only_is_dir|].
  intros []; auto with fs.
Qed.
End no_links_rules.

(** *** Directories stay directories under the calls that write files *)

Section dir_rules.
Context (q : path).
Local Notation D := (fun f : fs => f !! q = Some Dir).

Lemma dir_insert (f : fs) p n : f !! q = Some Dir -> (f !! p = Some Dir -> n = Dir) -> <[p := n]> f !! q = Some Dir.
Proof.
  intros Hq Hn. destruct (decide (p = q)) as [->|]; [rewrite lookup_insert_eq; f_equal; auto|].
  by rewrite lookup_insert_ne.
Qed.
Lemma dir_create_dir p : keeps D (fs_create_dir p).
Proof.
  apply keeps_syscall; [done|]. intros f a f' Hf H. call_cases. by apply dir_insert.
Qed.
Lemma dir_chown_group p gid : keeps D (fs_chown_group p gid).
Proof.
  apply keeps_syscall; [done|]. intros f a f' Hf H. call_cases. apply dir_insert; congruence.
Qed.
Lemma dir_open_trunc u p m : keeps D (fs_open_trunc u p m).
Proof.
  apply keeps_syscall; [done|]. intros f a f' Hf H. call_cases; apply dir_insert; congruence.
Qed.
Lemma dir_write_all p c : keeps D (fs_write_all p c).
Proof.
  assert (forall c (f : fs), f !! q = Some Dir -> set_content p c f !! q = Some Dir) as H.
  { intros c' f Hf. unfold set_content. repeat case_match; try done. apply dir_insert; congruence. }
  apply keeps_syscall; [intros; by apply H|]. intros f a f' Hf [= _ <-]. by apply H.
Qed.
Lemma dir_set_permissions p m : keeps D (fs_set_permissions p m).
Proof.
  apply keeps_syscall; [done|]. intros f a f' Hf H. call_cases.
  apply dir_insert; [done|]. rewrite Heqo. by intros [= ->].
Qed.
Lemma dir_create_dir_all_go at_ rest : keeps D (create_dir_all_go at_ rest).
Proof.
  revert at_. induction rest as [|s rest IH]; intros at_; simpl; [auto with fs|].
  apply keeps_bind; [apply keeps_attempt, dir_create_dir|].
  intros r. apply keeps_bind; [|auto].
  destruct r; [auto with fs|]. apply keeps_bind; [apply reads_keeps, only_is_dir|].
  intros []; auto with fs.
Qed.
End dir_rules.

(** ** Programs that succeed

    [total P m Q]: from a tree with [P], when the environment injects no fault,
    [m] returns normally, with [Q]. *)
Definition total {A : Type} (P : fs -> Prop) (m : io A) (Q : A -> fs -> Prop) : Prop :=
  forall w, wfaults w = [] -> P (wfs w) ->
    exists a w', m w = (Ok a, w') /\ wfaults w' = [] /\ Q a (wfs w').

Lemma total_ret {A : Type} (P : fs -> Prop) (a : A) (Q : A -> fs -> Prop) :
  (forall f, P f -> Q a f) -> total P (mret a) Q.
Proof. intros H w Hw Hp. exists a, w. auto. Qed.

Lemma total_bind {A B : Type} (P : fs -> Prop) (m : io A) (R : A -> fs -> Prop) (k : A -> io B)
    (Q : B -> fs -> Prop) :
  total P m R -> (forall a, total (R a) (k a) Q) -> total P (m ≫= k) Q.
Proof.
  intros Hm Hk w Hw Hp. destruct (Hm w Hw Hp) as (a & w1 & E1 & Hw1 & Hr).
  destruct (Hk a w1 Hw1 Hr) as (b & w2 & E2 & Hw2 & Hq).
  exists b, w2. unfold mbind, io_bind. by rewrite E1.
Qed.

Lemma total_conseq {A : Type} (P P' : fs -> Prop) (m : io A) (Q Q' : A -> fs -> Prop) :
  (forall f, P f -> P' f) -> (forall a f, Q' a f -> Q a f) -> total P' m Q' -> total P m Q.
Proof.
  intros HP HQ Hm w Hw Hp. destruct (Hm w Hw (HP _ Hp)) as (a & w' & ? & ? & ?). eauto 6.
Qed.

Lemma total_syscall {A : Type} (P : fs -> Prop) (partial : fault -> fs -> fs)
    (ok : fs -> result IoKind (A * fs)) (Q : A -> fs -> Prop) :
  (forall f, P f -> exists a f', ok f = Ok (a, f') /\ Q a f') -> total P (syscall partial ok) Q.
Proof.
  intros H w Hw Hp. destruct (H _ Hp) as (a & f' & E & Hq). unfold syscall. rewrite Hw, E.
  exists a. eexists. split; [reflexivity|]. done.
Qed.

Lemma total_attempt {A : Type} (P : fs -> Prop) (partial : fault -> fs -> fs)
    (ok : fs -> result IoKind (A * fs)) (Q : result IoKind A -> fs -> Prop) :
  (forall f, P f -> match ok f with Ok (a, f') => Q (Ok a) f' | Err e => Q (Err e) f end) ->
  total P (attempt (syscall partial ok)) Q.
Proof.
  intros H w Hw Hp. specialize (H _ Hp). unfold attempt, syscall. rewrite Hw.
  destruct (ok (wfs w)) as [[a f']|e]; eexists; eexists; (split; [reflexivity|]); done.
Qed.

Lemma total_each {A : Type} (P : fs -> Prop) (f : A -> io unit) (xs : list A) :
  (forall x, x ∈ xs -> total P (f x) (fun _ => P)) -> total P (io_each f xs) (fun _ => P).
Proof.
  induction xs as [|x xs IH]; intros H; simpl; [by apply total_ret|].
  eapply total_bind; [apply H; left|]. intros []. apply IH. intros y Hy. apply H. by right.
Qed.

(** What a partial-correctness proof knows of the run. *)
Lemma total_hoare {A : Type} (P I P' : fs -> Prop) (m : io A) (Q R : A -> fs -> Prop) (E : fs -> Prop) :
  total P m Q -> (forall f, P f -> I f /\ P' f) -> hoare I P' m R E ->
  total P m (fun a f => Q a f /\ I f /\ R a f).
Proof.
  intros Ht HP Hh w Hw Hp. destruct (Ht w Hw Hp) as (a & w' & Em & Hw' & Hq).
  destruct (HP _ Hp) as [Hi Hp']. destruct (Hh w _ w' Hi Hp' Em) as (_ & Hi' & Hr). eauto 10.
Qed.

Lemma elem_of_children (f : fs) s n : f !! [s] = Some n -> s ∈ children f [].
Proof.
  intros H. unfold children. apply list_elem_of_omap. exists [s]. split; [|done].
  apply list_elem_of_fmap. exists ([s], n). split; [done|]. by apply elem_of_map_to_list.
Qed.

Lemma elem_of_children_at (f : fs) d s n : f !! (d ++ [s]) = Some n -> s ∈ children f d.
Proof.
  intros H. unfold children. apply list_elem_of_omap. exists (d ++ [s]). split.
  - apply list_elem_of_fmap. exists (d ++ [s], n). split; [done|]. by apply elem_of_map_to_list.
  - unfold child_of. rewrite parent_snoc, bool_decide_true, last_snoc by done. by destruct d.
Qed.

(** ** Calls that only look, put together *)

Lemma reads_exists p : reads (path_exists p).
Proof. intros f. apply keeps_bind; [apply keeps_attempt, only_stat|auto with fs]. Qed.
Lemma reads_is_dir p : reads (path_is_dir p).
Proof. intros f. apply keeps_bind; [apply keeps_attempt, only_stat|auto with fs]. Qed.
Lemma reads_read p : reads (fs_read p).
Proof. apply only_syscall; [done|]. intros f a f' H. call_cases. Qed.
Lemma reads_read_link p : reads (fs_read_link p).
Proof. apply only_syscall; [done|]. intros f a f' H. call_cases. Qed.
Lemma reads_ret {A : Type} (a : A) : reads (mret a).
Proof. intros f. apply keeps_ret. Qed.
Lemma reads_fail {A : Type} (e : IoKind) : reads (io_fail e : io A).
Proof. intros f. apply keeps_fail. Qed.
Lemma reads_bind {A B : Type} (m : io A) (k : A -> io B) : reads m -> (forall a, reads (k a)) -> reads (m ≫= k).
Proof. intros Hm Hk f. apply keeps_bind; [apply Hm|intros a; apply Hk]. Qed.
Lemma reads_attempt {A : Type} (m : io A) : reads m -> reads (attempt m).
Proof. intros Hm f. apply keeps_attempt, Hm. Qed.
Lemma reads_read_to_string p : reads (fs_read_to_string p).
Proof. apply reads_bind; [apply reads_read|]. intros c. destruct (valid_utf8 c); [apply reads_ret|apply reads_fail]. Qed.

Create HintDb reads.
#[export] Hint Resolve reads_exists reads_is_dir reads_read reads_read_link reads_ret reads_fail reads_bind
  reads_attempt reads_read_to_string only_read_dir only_stat : reads.

Lemma reads_run {A : Type} (m : io A) w r w' : reads m -> m w = (r, w') -> wfs w' = wfs w.
Proof.
  intros Hm E. destruct (Hm (wfs w) w r w' (agree_refl _ _) Logic.I E) as (_ & Ha & _). by apply agree_eq.
Qed.

(** ** System calls use up the faults in store for them *)

Definition spends {A : Type} (m : io A) : Prop :=
  forall w r w', m w = (r, w') -> wfaults w' `suffix_of` wfaults w.

Lemma spends_ret {A : Type} (a : A) : spends (mret a).
Proof. by intros w r w' [= <- <-]. Qed.
Lemma spends_fail {A : Type} (e : IoKind) : spends (io_fail e : io A).
Proof. by intros w r w' [= <- <-]. Qed.
Lemma spends_bind {A B : Type} (m : io A) (k : A -> io B) : spends m -> (forall a, spends (k a)) -> spends (m ≫= k).
Proof.
  intros Hm Hk w r w' E. unfold mbind, io_bind in E. destruct (m w) as [[a|e] w1] eqn:Em.
  - etrans; [by eapply Hk|by eapply Hm].
  - injection E as <- <-. by eapply Hm.
Qed.
Lemma spends_attempt {A : Type} (m : io A) : spends m -> spends (attempt m).
Proof. intros Hm w r w' E. unfold attempt in E. destruct (m w) as [r1 w1] eqn:Em. injection E as <- <-. by eapply Hm. Qed.
Lemma tail_suffix {A : Type} (l : list A) : tail l `suffix_of` l.
Proof. destruct l as [|x l]; [done|]. by exists [x]. Qed.
Lemma spends_syscall {A : Type} partial (ok : fs -> result IoKind (A * fs)) : spends (syscall partial ok).
Proof.
  intros w r w' E. unfold syscall in E.
  destruct (wfaults w) as [|[ft|] rest] eqn:Ef; [|injection E as <- <-; cbn; by exists [Some ft]|];
    (destruct (ok (wfs w)) as [[a f]|e]; injection E as <- <-; cbn; rewrite ?Ef; first [done|by exists [None]]).
Qed.
Lemma spends_each {A : Type} (f : A -> io unit) xs : (forall x, spends (f x)) -> spends (io_each f xs).
Proof. intros Hf. induction xs as [|x xs IH]; cbn [io_each]; [apply spends_ret|]. apply spends_bind; auto. Qed.

(** Every program here is made of these. *)
Ltac spending :=
  repeat first
    [ apply spends_ret | apply spends_fail | apply spends_syscall
    | apply spends_attempt | apply spends_each; intros ?
    | apply spends_bind; [|intros ?] | case_match ].

Lemma spends_none {A : Type} (m : io A) w r w' : spends m -> m w = (r, w') -> wfaults w = [] -> wfaults w' = [].
Proof. intros Hm E%Hm Hw. rewrite Hw in E. by apply suffix_nil_inv in E. Qed.

(** *** A directory with no links in it *)

(** Resolving does not leave the path it was given. *)
Lemma resolve_no_links fuel f g at_ rest tl q :
  no_links f g -> at_ ++ rest = g :: tl -> resolve fuel f at_ rest = Ok q -> q = at_ ++ rest.
Proof.
  intros Hl. revert at_ rest. induction fuel as [|fuel IH]; intros at_ [|s rest] Hat; cbn [resolve]; try done;
    try (intros [= <-]; by rewrite app_nil_r).
  destruct (f !! (at_ ++ [s])) as [[c m gid| |to]|] eqn:El; [| | |done].
  - destruct rest; [by intros [= <-]|done].
  - intros H. apply IH in H; rewrite <- app_assoc in *; done.
  - exfalso. destruct at_ as [|a at_]; cbn in Hat; injection Hat as -> _; by eapply Hl.
Qed.
Lemma node_at_no_links f g tl n : no_links f g -> node_at f (g :: tl) = Ok n -> f !! (g :: tl) = Some n.
Proof.
  intros Hl. unfold node_at. intros (q & Hq & H)%bind_Ok. apply (resolve_no_links _ f g [] (g :: tl) tl) in Hq; [|done..].
  subst q. cbn in H. by apply ok_or_Ok in H.
Qed.

Lemma elem_of_children_inv (f : fs) d s : s ∈ children f d -> is_Some (f !! (d ++ [s])).
Proof.
  unfold children. rewrite list_elem_of_omap. intros (p & Hp & Hc). unfold child_of in Hc.
  destruct p as [|x p]; [done|]. case_bool_decide as Hpar; [|done].
  assert (exists q y, x :: p = q ++ [y]) as (q & y & E) by (destruct (exists_last (l := x :: p)) as (q & y & E); [done|by exists q, y]). rewrite E in *. rewrite last_snoc in Hc. injection Hc as ->.
  rewrite parent_snoc in Hpar. subst q. apply list_elem_of_fmap in Hp as ([p' n] & Hpe & Hn). cbn in Hpe. subst p'. apply elem_of_map_to_list in Hn.
  by exists n.
Qed.

(** A directory that is renamed onto nothing takes along exactly what it held. *)
Lemma moved_at a b (f : fs) r : moved a b f !! (b ++ r) = f !! (a ++ r).
Proof.
  unfold moved. set (sub := filter _ f).
  assert (Hin : forall p n, sub !! p = Some n -> exists r', p = a ++ r' /\ f !! p = Some n).
  { intros p n [H Hb]%map_lookup_filter_Some. cbn in Hb. apply below_true in Hb as [r' ->]. by exists r'. }
  assert (Hreb : forall r', rebase a b (a ++ r') = b ++ r') by (intros r'; unfold rebase; by rewrite drop_app_length).
  destruct (f !! (a ++ r)) as [n|] eqn:E.
  - apply elem_of_list_to_map_1.
    + rewrite <- list_fmap_compose. apply NoDup_fmap_2_strong; [|apply NoDup_map_to_list].
      intros [p1 n1] [p2 n2] H1%elem_of_map_to_list H2%elem_of_map_to_list. cbn.
      destruct (Hin _ _ H1) as (r1 & -> & _), (Hin _ _ H2) as (r2 & -> & _). rewrite !Hreb. intros H%(inj (app b)). subst r2. congruence.
    + apply list_elem_of_fmap. exists (a ++ r, n). cbn. rewrite Hreb. split; [done|]. apply elem_of_map_to_list, map_lookup_filter_Some.
      split; [done|]. cbn. apply below_true. by eexists.
  - apply not_elem_of_list_to_map_1. rewrite <- list_fmap_compose, list_elem_of_fmap. intros ([p n] & Hp & Hn%elem_of_map_to_list). cbn in Hp.
    destruct (Hin _ _ Hn) as (r' & -> & Hf). rewrite Hreb in Hp. apply (inj (app b)) in Hp. subst r'. congruence.
Qed.

(** What is above something is a directory. *)
Lemma tree_above f p r : p <> [] -> tree_ok f -> r <> [] -> is_Some (f !! (p ++ r)) -> f !! p = Some Dir.
Proof.
  intros Hp [_ Ht]. induction r as [|s r IH] using rev_ind; intros Hr [n Hn]; [done|].
  rewrite app_assoc in Hn. apply Ht in Hn as [E|Hd]; [by apply app_eq_nil in E as [-> _]|].
  destruct r as [|x r]; [by rewrite app_nil_r in Hd|]. apply IH; [done|by eexists].
Qed.
