(* ===== verification/Publish.v ===== *)
(** * The discovery publisher  (broker/publish.rs, bin/oidc-publisher.rs)

    The tool that copies Vault's discovery document and key set to the directory
    a public bucket is synced from.  The tree of [Fs] is rooted at [/] here, and
    [out] is where the output directory is.  What Vault answers in a round is an
    argument of the round; JSON decoding of the discovery document is a
    parameter ([JwtCodec] has the key set's). *)

From S2P Require Import Prelude RustStr Errors Catalog Jwt Fs.
Open Scope list_scope.
Open Scope Z_scope.

(** [s.split_once(sep)] for a string separator. *)
Fixpoint split_once_str (sep s : string) : option (string * string) :=
  match strip_prefix sep s with
  | Some r => Some (EmptyString, r)
  | None =>
      match s with
      | EmptyString => None
      | String c s => '(a, b) ← split_once_str sep s; Some (String c a, b)
      end
  end.

(** A JSON document's [issuer] and [jwks_uri], where they are strings. *)
Record Discovery := mkDiscovery { d_issuer : option string; d_jwks_uri : option string }.

(** The errors of a round: a fetch failed, the check refused, a write failed. *)
Inductive PublishError := NotFetched | Refused | NotWritten.

Record Checked := mkChecked { c_issuer : string; c_kids : gset string }.

Section check.
Context {C : JwtCodec} (json_discovery : string -> option Discovery).

Definition check (discovery jwks expected_issuer : string) : result PublishError Checked :=
  doc ← ok_or Refused (json_discovery discovery);
  issuer ← ok_or Refused (d_issuer doc);
  _ ← guard_err (negb (String.eqb issuer expected_issuer)) Refused;
  jwks_uri ← ok_or Refused (d_jwks_uri doc);
  _ ← guard_err (negb (starts_with (trim_end_char "/" expected_issuer +:+ "/") jwks_uri)) Refused;
  set ← map_err (fun _ => Refused) (Jwks_parse jwks);
  _ ← guard_err (Jwks_is_empty set) Refused;
  Ok (mkChecked issuer (kids set)).
End check.

(** ** Where the files go *)

(** The part of the issuer after its host. *)
Definition issuer_path (issuer : string) : string :=
  match split_once_str "://" issuer with
  | Some (_, rest) => match split_once "/" rest with Some (_, p) => p | None => "" end
  | None => ""
  end.

(** The components of a path: empty ones and [.] are not walked. *)
Definition components (p : string) : path :=
  filter (fun s => negb (String.eqb s "" || String.eqb s ".") = true) (split_char "/" p).
(** [out.join(path)]: an absolute path replaces it. *)
Definition join_path (out : path) (p : string) : path :=
  if starts_with "/" p then components p else out ++ components p.

(** A directory by the components that lead to it from [/]. *)
Fixpoint walk (at_ rest : path) : path :=
  match rest with
  | [] => at_
  | s :: rest => walk (if String.eqb s ".." then parent at_ else at_ ++ [s]) rest
  end.

Definition WELL_KNOWN : string := ".well-known".
Definition target (out : path) (issuer : string) : path := join_path out (issuer_path issuer) ++ [WELL_KNOWN].

(** [create_dir_all] through [..]: making the parent finds it there. *)
Fixpoint make_dirs (at_ rest : path) : io unit :=
  match rest with
  | [] => mret tt
  | s :: rest =>
      if String.eqb s ".." then _ ← fs_stat (parent at_); make_dirs (parent at_) rest
      else _ ← create_dir_all_go at_ [s]; make_dirs (at_ ++ [s]) rest
  end.

Section write.
Context (umask : Z).

(** [std::fs::write]. *)
Definition fs_write (p : path) (body : string) : io unit :=
  _ ← fs_open_trunc umask p 438;
  fs_write_all p body.

Definition tmp_name (name : string) : string := "." +:+ name +:+ ".tmp".

Definition write_one (dir : path) (nb : string * string) : io unit :=
  _ ← fs_write (dir ++ [tmp_name nb.1]) nb.2;
  fs_rename (dir ++ [tmp_name nb.1]) (dir ++ [nb.1]).

Definition DISCOVERY : string := "openid-configuration".
Definition KEYS : string := "keys".

Definition write (out : path) (issuer discovery jwks : string) : io unit :=
  _ ← make_dirs [] (target out issuer);
  io_each (write_one (walk [] (target out issuer))) [(DISCOVERY, discovery); (KEYS, jwks)].

(** ** A round, and the loop of [main] *)

Context {C : JwtCodec} (json_discovery : string -> option Discovery).

Definition discovery_path (mount : string) : string := mount +:+ "/.well-known/openid-configuration".
Definition keys_path (mount : string) : string := mount +:+ "/.well-known/keys".

(** [get_text] as Vault answers it in this round. *)
Definition Fetch : Type := string -> result Error string.

Definition once (mount issuer : string) (out : path) (get_text : Fetch) (w : world)
    : result PublishError Checked * world :=
  match
    discovery ← map_err (fun _ => NotFetched) (get_text (discovery_path mount));
    jwks ← map_err (fun _ => NotFetched) (get_text (keys_path mount));
    checked ← check json_discovery discovery jwks issuer;
    Ok (discovery, jwks, checked)
  with
  | Ok (discovery, jwks, checked) =>
      let '(r, w) := write out issuer discovery jwks w in
      (match r with Ok _ => Ok checked | Err _ => Err NotWritten end, w)
  | Err e => (Err e, w)
  end.

(** The loop: every round, whatever the outcome of the one before; without an
    interval only the first, whose outcome is the process's. *)
Fixpoint rounds (mount issuer : string) (out : path) (fetches : list Fetch) (w : world) : world :=
  match fetches with
  | [] => w
  | get_text :: fetches => rounds mount issuer out fetches (once mount issuer out get_text w).2
  end.

Record Settings := mkSettings { s_issuer : string; s_out : path; s_mount : string; s_interval : Z }.

(** [env(key)]. *)
Definition env_var (vars : string -> option string) (key : string) : option string :=
  v ← vars key; let v := trim v in if is_empty v then None else Some v.
(** [main] up to the loop; the output directory relative to [cwd]. *)
Definition settings (vars : string -> option string) (file : string -> option string) (cwd : path)
    : option (Settings * string * option string * option string) :=
  issuer ← env_var vars "OIDC_ISSUER";
  out ← env_var vars "OIDC_OUT_DIR";
  let mount := default "spiffe" (env_var vars "SVIDLET_SPIFFE_MOUNT") in
  interval ← (match env_var vars "OIDC_INTERVAL" with Some v => parse_duration v | None => Some 60 end);
  address ← env_var vars "VAULT_ADDR";
  let namespace := env_var vars "VAULT_NAMESPACE" in
  ca ← (match env_var vars "VAULT_CACERT" with Some p => Some <$> file p | None => Some None end);
  Some (mkSettings issuer (walk [] (join_path cwd out)) mount interval, address, namespace, ca).

Definition publisher_main (s : Settings) (fetches : list Fetch) (w : world) : option (result PublishError Checked) * world :=
  match fetches with
  | [] => (None, w)
  | get_text :: rest =>
      let '(outcome, w) := once (s_mount s) (s_issuer s) (s_out s) get_text w in
      if s_interval s =? 0 then (Some outcome, w) else (None, rounds (s_mount s) (s_issuer s) (s_out s) rest w)
  end.
End write.

(** ** What a reader of the directory sees *)

Section shown.
Context (umask : Z) (dir : path).

(** The content of a published file. *)
Definition shown (f : fs) (name : string) : option string :=
  match f !! (dir ++ [name]) with Some (File c _ _) => Some c | _ => None end.

Definition published : list string := [DISCOVERY; KEYS].
Definition written_paths : list path :=
  ((fun n => dir ++ [n]) <$> published) ++ ((fun n => dir ++ [tmp_name n]) <$> published).

(** From [f0], with the contents [G] allows: every published file is as it was
    or whole and allowed, and of the rest only missing directories were made. *)
Definition fine (f0 : fs) (G : string -> string -> Prop) (f : fs) : Prop :=
  (forall name, name ∈ published -> shown f name = shown f0 name \/ exists c, shown f name = Some c /\ G name c) /\
  (forall p, p ∉ written_paths -> f !! p = f0 !! p \/ (f0 !! p = None /\ f !! p = Some Dir)).

Lemma fine_refl f0 G : fine f0 G f0.
Proof. split; auto. Qed.

Lemma tmp_not_published n m : n ∈ published -> m ∈ published -> tmp_name n <> m.
Proof. unfold published. rewrite !elem_of_cons. intros [->|[->|[]%elem_of_nil]] [->|[->|[]%elem_of_nil]]; done. Qed.
Lemma tmp_other n m : n ∈ published -> m ∈ published -> dir ++ [tmp_name n] <> dir ++ [m].
Proof. intros Hn Hm [= E]%app_inv_head. by apply (tmp_not_published n m). Qed.
Lemma tmp_written n : n ∈ published -> dir ++ [tmp_name n] ∈ written_paths.
Proof. intros H. apply elem_of_app. right. apply list_elem_of_fmap. eauto. Qed.
Lemma name_written n : n ∈ published -> dir ++ [n] ∈ written_paths.
Proof. intros H. apply elem_of_app. left. apply list_elem_of_fmap. eauto. Qed.

(** A missing directory may be made anywhere. *)
Lemma fine_mkdir f0 G f p : fine f0 G f -> f !! p = None -> fine f0 G (<[p := Dir]> f).
Proof.
  intros [H1 H2] Hp. split.
  - intros name Hn. assert (shown (<[p := Dir]> f) name = shown f name) as ->; [|by apply H1].
    unfold shown. destruct (decide (p = dir ++ [name])) as [->|?]; [by rewrite lookup_insert_eq, Hp|].
    by rewrite lookup_insert_ne by done.
  - intros q Hq. destruct (decide (p = q)) as [->|?]; [|rewrite lookup_insert_ne by done; by apply H2].
    rewrite lookup_insert_eq. destruct (H2 q Hq) as [E|[_ E]]; [|congruence]. right. split; [congruence|done].
Qed.

(** A temporary file may hold anything. *)
Lemma fine_tmp f0 G f n x : n ∈ published -> fine f0 G f -> fine f0 G (<[dir ++ [tmp_name n] := x]> f).
Proof.
  intros Hn [H1 H2]. split.
  - intros m Hm. unfold shown. rewrite lookup_insert_ne by (by apply tmp_other). by apply H1.
  - intros q Hq. rewrite lookup_insert_ne; [by apply H2|]. intros <-. by apply Hq, tmp_written.
Qed.

(** A rename of an allowed temporary file shows it. *)
Lemma fine_rename f0 G f n c m g :
  n ∈ published -> fine f0 G f -> G n c ->
  fine f0 G (<[dir ++ [n] := File c m g]> (delete (dir ++ [tmp_name n]) f)).
Proof.
  intros Hn [H1 H2] HG. split.
  - intros k Hk. unfold shown. destruct (decide (n = k)) as [->|Hne].
    + rewrite lookup_insert_eq. right. eauto.
    + rewrite lookup_insert_ne by (by intros [= ?]%app_inv_head).
      rewrite lookup_delete_ne by (by apply tmp_other). by apply H1.
  - intros q Hq. rewrite lookup_insert_ne, lookup_delete_ne; [by apply H2| |];
      intros <-; apply Hq; [by apply tmp_written|by apply name_written].
Qed.

Lemma keeps_create_dir f0 G p : keeps (fine f0 G) (fs_create_dir p).
Proof.
  apply keeps_syscall; [done|]. intros f [] f' Hf. destruct (f !! p) eqn:E; [done|].
  destruct (is_dir _ _); [|done]. intros [= <-]. by apply fine_mkdir.
Qed.
Lemma keeps_make_dirs f0 G at_ rest : keeps (fine f0 G) (make_dirs at_ rest).
Proof.
  revert at_. induction rest as [|s rest IH]; intros at_; cbn [make_dirs]; [apply keeps_ret|].
  destruct (String.eqb s "..").
  - apply keeps_bind; [apply reads_keeps; intros g; apply only_stat|]. intros _. apply IH.
  - apply keeps_bind; [|intros _; apply IH]. cbn [create_dir_all_go].
    apply keeps_bind; [apply keeps_attempt, keeps_create_dir|]. intros r.
    apply keeps_bind; [|intros _; apply keeps_ret]. destruct r as [u|e]; [apply keeps_ret|].
    apply keeps_bind; [apply reads_keeps; intros g; apply only_is_dir|]. intros []; [apply keeps_ret|apply keeps_fail].
Qed.

(** One file: shown whole, or not at all; the others stay as they are. *)
Lemma hoare_write_one f0 G n c (P : fs -> Prop) :
  n ∈ published -> G n c ->
  (forall f x, P f -> P (<[dir ++ [tmp_name n] := x]> f)) ->
  (forall f x, P f -> P (<[dir ++ [n] := x]> (delete (dir ++ [tmp_name n]) f))) ->
  hoare (fine f0 G) P (write_one umask dir (n, c)) (fun _ f => P f /\ shown f n = Some c) (fun _ => True).
Proof.
  intros Hn HG HP1 HP2. unfold write_one, fs_write. cbn [fst snd]. set (t := dir ++ [tmp_name n]).
  eapply (hoare_bind _ _ _ (fun _ f => P f /\ exists m g, f !! t = Some (File c m g))).
  - eapply (hoare_bind _ _ _ (fun _ f => P f /\ exists b m g, f !! t = Some (File b m g))).
    + apply hoare_syscall; [done|]. intros f Hf Hp.
      destruct (f !! t) as [[]|]; [|done|done|destruct (is_dir _ _); [|done]];
        (split; [by apply fine_tmp|]; split; [by apply HP1|]; rewrite lookup_insert_eq; eauto).
    + intros _. apply hoare_syscall.
      * intros f ft Hf (Hp & b & m & g & E). unfold set_content. rewrite E. split; [by apply fine_tmp|done].
      * intros f Hf (Hp & b & m & g & E). unfold set_content. rewrite E. split; [by apply fine_tmp|].
        split; [by apply HP1|]. rewrite lookup_insert_eq. eauto.
  - intros _. apply hoare_syscall; [done|]. intros f Hf (Hp & m & g & E). rewrite E.
    destruct (f !! (dir ++ [n])) as [[]|]; try done; (destruct (is_dir _ _); [|done]);
      (split; [by apply fine_rename|]; split; [by apply HP2|]; unfold shown; by rewrite lookup_insert_eq).
Qed.

Lemma hoare_write_both f0 G d k :
  G DISCOVERY d -> G KEYS k ->
  hoare (fine f0 G) (fun _ => True) (io_each (write_one umask dir) [(DISCOVERY, d); (KEYS, k)])
    (fun _ f => shown f DISCOVERY = Some d /\ shown f KEYS = Some k) (fun _ => True).
Proof.
  intros Hd Hk. cbn [io_each]. eapply hoare_bind.
  - apply (hoare_write_one f0 G DISCOVERY d (fun _ => True)); try done. left.
  - intros []. eapply (hoare_bind _ _ _ (fun _ f => shown f DISCOVERY = Some d /\ shown f KEYS = Some k));
      [|intros []; by apply hoare_ret].
    eapply hoare_conseq; [| | |apply (hoare_write_one f0 G KEYS k (fun f => shown f DISCOVERY = Some d))]; try done.
    + by intros f _ [_ ?].
    + right; left.
    + intros f x <-. unfold shown. rewrite lookup_insert_ne; [done|]. by intros [= ?]%app_inv_head.
    + intros f x <-. unfold shown. rewrite lookup_insert_ne, lookup_delete_ne; [done| |]; by intros [= ?]%app_inv_head.
Qed.
End shown.

Section publisher.
Context {C : JwtCodec} (json_discovery : string -> option Discovery) (umask : Z).
Context (mount issuer : string) (out : path).

Let dir : path := walk [] (target out issuer).

Lemma check_Ok d k ch :
  check json_discovery d k issuer = Ok ch ->
  c_issuer ch = issuer /\ c_kids ch <> ∅ /\
  (exists doc uri, json_discovery d = Some doc /\ d_issuer doc = Some issuer /\ d_jwks_uri doc = Some uri /\
     starts_with (trim_end_char "/" issuer +:+ "/") uri = true) /\
  Jwks_parse k = Ok (mkJwks (c_kids ch)).
Proof.
  unfold check. intros (doc & Hd%ok_or_Ok & H)%bind_Ok. apply bind_Ok in H as (i & Hi%ok_or_Ok & H).
  apply bind_Ok in H as ([] & He%guard_err_Ok%negb_false_iff%String.eqb_eq & H). subst i.
  apply bind_Ok in H as (uri & Hu%ok_or_Ok & H). apply bind_Ok in H as ([] & Hs%guard_err_Ok%negb_false_iff & H).
  apply bind_Ok in H as (set & Hp%map_err_Ok & H). apply bind_Ok in H as ([] & Hn%guard_err_Ok & [= <-]).
  cbn. split; [done|]. split; [|split; [by exists doc, uri|by destruct set]].
  unfold Jwks_is_empty in Hn. by apply bool_decide_eq_false in Hn.
Qed.

(** A pair of documents the publisher may show: Vault answered with both in one
    round and the check accepted them. *)
Definition vouched_pair (fetches : list Fetch) (d k : string) : Prop :=
  exists get_text ch, get_text ∈ fetches /\
    get_text (discovery_path mount) = Ok d /\ get_text (keys_path mount) = Ok k /\
    check json_discovery d k issuer = Ok ch.
(** A file of such a pair. *)
Definition allowed (fetches : list Fetch) (name c : string) : Prop :=
  exists d k, vouched_pair fetches d k /\ (name, c) ∈ [(DISCOVERY, d); (KEYS, k)].

Lemma once_run f0 fetches get_text w r w' :
  get_text ∈ fetches -> fine dir f0 (allowed fetches) (wfs w) ->
  once umask json_discovery mount issuer out get_text w = (r, w') ->
  (exists new, whist w' = new ++ whist w /\ Forall (fine dir f0 (allowed fetches)) new) /\
  fine dir f0 (allowed fetches) (wfs w') /\
  forall ch, r = Ok ch -> exists d k,
    get_text (discovery_path mount) = Ok d /\ get_text (keys_path mount) = Ok k /\
    check json_discovery d k issuer = Ok ch /\
    shown dir (wfs w') DISCOVERY = Some d /\ shown dir (wfs w') KEYS = Some k.
Proof.
  intros Hin Hf. unfold once.
  match goal with |- context [match ?m with Ok _ => _ | Err e => (Err e, w) end] => destruct m as [[[d k] ch]|e] eqn:E end;
    [|intros [= <- <-]; split; [by exists []|]; by split].
  apply bind_Ok in E as (d' & Hd%map_err_Ok & E). apply bind_Ok in E as (k' & Hk%map_err_Ok & E).
  apply bind_Ok in E as (ch' & Hc & [= E1 E2 E3]). subst d' k' ch'.
  assert (Hg : forall n c, (n, c) ∈ [(DISCOVERY, d); (KEYS, k)] -> allowed fetches n c).
  { intros n c Hn. exists d, k. split; [|done]. by exists get_text, ch. }
  assert (H : hoare (fine dir f0 (allowed fetches)) (fun _ => True) (write umask out issuer d k)
    (fun _ f => shown dir f DISCOVERY = Some d /\ shown dir f KEYS = Some k) (fun _ => True)).
  { unfold write. eapply hoare_bind; [apply keeps_make_dirs|]. intros ?. apply hoare_write_both; apply Hg; set_solver. }
  destruct (write umask out issuer d k w) as [rw ww] eqn:Ew. intros [= <- <-].
  destruct (H _ _ _ Hf Logic.I Ew) as (Hh & Hi & Hr). split; [done|]. split; [done|].
  intros ch0. destruct rw; [|done]. intros [= <-]. exists d, k. destruct Hr. done.
Qed.

Lemma rounds_run f0 all fetches w :
  (forall g, g ∈ fetches -> g ∈ all) -> fine dir f0 (allowed all) (wfs w) ->
  Forall (fine dir f0 (allowed all)) (whist w) ->
  Forall (fine dir f0 (allowed all))
    (wfs (rounds umask json_discovery mount issuer out fetches w)
       :: whist (rounds umask json_discovery mount issuer out fetches w)).
Proof.
  revert w. induction fetches as [|g fetches IH]; intros w Hin Hw Hh; cbn [rounds]; [by constructor|].
  destruct (once _ _ _ _ _ g w) as [r w'] eqn:E. cbn [snd].
  apply (once_run f0 all) in E as ((new & Hn & Hnew) & Hw' & _); [|apply Hin; left|done].
  apply IH; [intros h Hh'; apply Hin; by right|done|]. rewrite Hn. by apply Forall_app.
Qed.

(** C32: The last good copy stays.  Through any number of rounds, whatever Vault
    answers and whichever system calls fail, at every moment each published
    file is what it was at the start or, whole, a document Vault served together
    with its counterpart in some round and the check accepted for this issuer;
    nothing else on the file system changes but the two temporary files and
    directories that were missing; and once a round succeeds both files are that
    round's, the discovery document names this issuer and a key set below it,
    and the key set is well formed and not empty. *)
Theorem publisher_last_good_copy (fetches : list Fetch) (f0 : fs) (faults : list (option fault)) :
  let run := rounds umask json_discovery mount issuer out fetches (mkWorld f0 faults []) in
  Forall (fun f =>
    (forall name, name ∈ published ->
       shown dir f name = shown dir f0 name \/
       exists c, shown dir f name = Some c /\ allowed fetches name c) /\
    (forall p, p ∉ written_paths dir -> f !! p = f0 !! p \/ (f0 !! p = None /\ f !! p = Some Dir)))
    (wfs run :: whist run) /\
  forall get_text ch w',
    once umask json_discovery mount issuer out get_text run = (Ok ch, w') ->
    exists d k, get_text (discovery_path mount) = Ok d /\ get_text (keys_path mount) = Ok k /\
      shown dir (wfs w') DISCOVERY = Some d /\ shown dir (wfs w') KEYS = Some k /\
      c_kids ch <> ∅ /\ Jwks_parse k = Ok (mkJwks (c_kids ch)) /\
      exists doc uri, json_discovery d = Some doc /\ d_issuer doc = Some issuer /\ d_jwks_uri doc = Some uri /\
        starts_with (trim_end_char "/" issuer +:+ "/") uri = true.
Proof.
  intros run. split; [apply rounds_run; [done|apply fine_refl|constructor]|]. intros g ch w' E.
  apply (once_run (wfs run) [g]) in E as (_ & _ & H); [|left|apply fine_refl].
  destruct (H ch eq_refl) as (d & k & Hd & Hk & Hc & Hsd & Hsk).
  destruct (check_Ok _ _ _ Hc) as (_ & Hne & Hdoc & Hp). exists d, k. done.
Qed.
End publisher.

(** ** Runs *)

Module PublishWitness.
Import JwtWitness.

Definition ISSUER : string := "https://oidc.corp.example/v1/spiffe".
Definition docs (s : string) : option Discovery :=
  if String.eqb s "doc" then Some (mkDiscovery (Some ISSUER) (Some (ISSUER +:+ "/.well-known/keys")))
  else if String.eqb s "evil" then Some (mkDiscovery (Some ISSUER) (Some "https://evil.example/keys")) else None.
Definition answers (d k path : string) : result Error string :=
  if String.eqb path (discovery_path "spiffe") then Ok d
  else if String.eqb path (keys_path "spiffe") then Ok k else Err Transport.
Definition at_out (name : string) : path := ["srv"; "out"; "v1"; "spiffe"; WELL_KNOWN; name].
Definition good : Fetch := answers "doc" "jwks".

(** Every missing directory is made and both files appear. *)
Example publishes_both :
  let '(r, w) := once 18 docs "spiffe" ISSUER ["srv"; "out"] good (mkWorld {[ ["srv"] := Dir ]} [] []) in
  (exists ch, r = Ok ch) /\ wfs w !! at_out DISCOVERY = Some (File "doc" 420 None) /\
  wfs w !! at_out KEYS = Some (File "jwks" 420 None).
Proof. vm_compute. split; [by eexists|done]. Qed.

(** A key set served elsewhere is refused before anything is written. *)
Example foreign_keys_refused :
  once 18 docs "spiffe" ISSUER ["srv"; "out"] (answers "evil" "jwks") (mkWorld ∅ [] []) = (Err Refused, mkWorld ∅ [] []).
Proof. vm_compute. reflexivity. Qed.

(** An issuer whose path starts with a second slash is written outside the output directory. *)
Example absolute_issuer_path_escapes :
  walk [] (target ["srv"; "out"] "https://oidc.corp.example//etc") = ["etc"; WELL_KNOWN].
Proof. vm_compute. reflexivity. Qed.

Definition vars (k : string) : option string :=
  if String.eqb k "OIDC_ISSUER" then Some ISSUER else if String.eqb k "OIDC_OUT_DIR" then Some "out/"
  else if String.eqb k "VAULT_ADDR" then Some "https://vault:8200" else if String.eqb k "OIDC_INTERVAL" then Some "0" else None.

(** With no interval the process runs one round and exits with its outcome. *)
Example runs_once :
  match settings vars (fun _ => None) ["srv"] with
  | Some (s, address, namespace, ca) =>
      s_out s = ["srv"; "out"] /\ (publisher_main 18 docs s [answers "doc" "junk"; good] (mkWorld ∅ [] [])).1 = Some (Err Refused)
  | None => False
  end.
Proof. vm_compute. done. Qed.
End PublishWitness.
