(* ===== verification/Volume.v ===== *)
(** * The volume writer  (svidlet/src/volume.rs)

    A pod's volume as a tree ([Fs]) rooted at the target path.  Three writers
    share it, each with a chain of its own: numbered generations
    (["..svidlet.N"]), one data link (["..data"]) that names the current one,
    and visible links (["tls.key"]) that go through the data link.

    Not modelled: mounting the tmpfs and the bind mounts of the exposure farm
    ([ensure_tmpfs], [expose], [unexpose], [unpublish]), which only call the
    kernel. *)

From S2P Require Import Prelude RustStr Fs.
Open Scope list_scope.
Open Scope Z_scope.

Definition KEY_FILE : string := "tls.key".
Definition CERT_FILE : string := "tls.crt".
Definition CA_FILE : string := "ca.crt".
Definition REVISION_FILE : string := "policy.revision".
Definition POLICY_DIR : string := "policy".
Definition JWT_DIR : string := "jwt".

Definition DATA_LINK : string := "..data".
Definition VERSION_PREFIX : string := "..svidlet.".
Definition POLICY_LINK : string := "..policy-data".
Definition POLICY_VERSION_PREFIX : string := "..policy.".
Definition JWT_LINK : string := "..jwt-data".
Definition JWT_VERSION_PREFIX : string := "..jwt.".

Record Identity := mkIdentity { key_pem : string; cert_chain_pem : string; ca_pem : string }.
Record Modes := mkModes { mode_key : Z; mode_cert : Z; key_gid : option Z }.

(** [policy/mod.rs]. *)
Record PolicyDocument := mkDocument { doc_name : string; doc_content : string }.
Record PolicyBundle := mkBundle { revision : string; documents : list PolicyDocument }.

#[export] Instance PolicyDocument_eq_dec : EqDecision PolicyDocument.
Proof. solve_decision. Defined.
#[export] Instance PolicyBundle_eq_dec : EqDecision PolicyBundle.
Proof. solve_decision. Defined.

(** ** Versions *)

Definition version_of (name prefix : string) : option Z :=
  match strip_prefix prefix name with
  | Some digits => parse_u64 digits
  | None => None
  end.

(** [format!("{prefix}{version}")]. *)
Definition generation (prefix : string) (version : Z) : string := prefix +:+ show_u64 version.

Definition highest (names : list string) (prefix : string) : Z :=
  foldr (fun name h => match version_of name prefix with Some n => Z.max h n | None => h end) 0 names.

(** [highest + 1], in 64 bits; an unreadable directory counts as an empty one. *)
Definition next_version (prefix : string) : io Z :=
  r ← attempt (fs_read_dir []);
  mret (wrap 64 (match r with Ok names => highest names prefix | Err _ => 0 end + 1)).

Definition remove_stale_versions (prefix : string) (keep : Z) : io unit :=
  names ← fs_read_dir [];
  io_each (fun name =>
    match version_of name prefix with
    | Some n =>
        if negb (n =? keep) && negb (wrap 64 (n + 1) =? keep)
        then _ ← attempt (fs_remove_dir_all [name]); mret tt
        else mret tt
    | None => mret tt
    end) names.

(** ** Links *)

Definition swap (link_name prefix : string) (version : Z) : io unit :=
  let tmp := link_name +:+ "_tmp" in
  _ ← attempt (fs_remove_file [tmp]);
  _ ← fs_symlink (generation prefix version) [tmp];
  fs_rename [tmp] [link_name].

Definition link (name points_to : string) : io unit :=
  r ← attempt (fs_symlink_metadata [name]);
  match r with
  | Ok _ => mret tt
  | Err _ => fs_symlink points_to [name]
  end.

Section volume.
(** The process's umask. *)
Context (umask : Z).

Definition write_file (p : path) (contents : string) (mode : Z) : io unit :=
  _ ← fs_open_trunc umask p mode;
  _ ← fs_write_all p contents;
  _ ← fs_sync p;
  fs_set_permissions p mode.

Definition chgrp_to (p : path) (gid : option Z) : io unit :=
  match gid with Some gid => fs_chown_group p gid | None => mret tt end.

(** ** The identity chain *)

Definition write_identity (identity : Identity) (modes : Modes) (dir : string) : io unit :=
  _ ← write_file [dir; KEY_FILE] (key_pem identity) (mode_key modes);
  _ ← chgrp_to [dir; KEY_FILE] (key_gid modes);
  _ ← write_file [dir; CERT_FILE] (cert_chain_pem identity) (mode_cert modes);
  _ ← write_file [dir; CA_FILE] (ca_pem identity) (mode_cert modes);
  fs_sync [dir].

Definition publish_identity (identity : Identity) (modes : Modes) : io unit :=
  version ← next_version VERSION_PREFIX;
  let dir := generation VERSION_PREFIX version in
  _ ← fs_create_dir [dir];
  _ ← fs_set_permissions [dir] 493;
  _ ← write_identity identity modes dir;
  _ ← io_each (fun name => link name (DATA_LINK +:+ "/" +:+ name)) [KEY_FILE; CERT_FILE; CA_FILE];
  _ ← swap DATA_LINK VERSION_PREFIX version;
  _ ← fs_sync [];
  remove_stale_versions VERSION_PREFIX version.

(** ** The policy chain *)

(** [documents.join(&document.name)], below the directory.  A name that is
    absolute or goes up leads out of the tree; [PolicyBundle::build] and the tar
    reader refuse such names. *)
Definition join_path (d : path) (name : string) : option path :=
  if starts_with "/" name || existsb (String.eqb "..") (split_char "/" name) then None
  else Some (d ++ filter (fun s => negb (String.eqb s "") && negb (String.eqb s ".") = true)
                     (split_char "/" name)).

Definition write_document (d : path) (mode : Z) (document : PolicyDocument) : io unit :=
  match join_path d (doc_name document) with
  | None => io_fail OtherIo
  | Some p => _ ← fs_create_dir_all (parent p); write_file p (doc_content document) mode
  end.


Definition write_policy (bundle : PolicyBundle) (mode : Z) (dir : string) : io unit :=
  _ ← fs_create_dir [dir; POLICY_DIR];
  _ ← fs_set_permissions [dir; POLICY_DIR] 493;
  _ ← io_each (write_document [dir; POLICY_DIR] mode) (documents bundle);
  _ ← write_file [dir; REVISION_FILE] (revision bundle +:+ newline) mode;
  fs_sync [dir].

Definition publish_policy (bundle : PolicyBundle) (mode : Z) : io unit :=
  version ← next_version POLICY_VERSION_PREFIX;
  let dir := generation POLICY_VERSION_PREFIX version in
  _ ← fs_create_dir [dir];
  _ ← fs_set_permissions [dir] 493;
  _ ← write_policy bundle mode dir;
  _ ← io_each (fun name => link name (POLICY_LINK +:+ "/" +:+ name)) [POLICY_DIR; REVISION_FILE];
  _ ← swap POLICY_LINK POLICY_VERSION_PREFIX version;
  _ ← fs_sync [];
  remove_stale_versions POLICY_VERSION_PREFIX version.

(** ** The token chain *)

Definition bad_alias (a : string) : bool := is_empty a || has_char "/" a || starts_with "." a.

Definition write_token (dir : string) (modes : Modes) (token : string * string) : io unit :=
  _ ← write_file [dir; JWT_DIR; token.1] token.2 (mode_key modes);
  chgrp_to [dir; JWT_DIR; token.1] (key_gid modes).

Definition write_tokens (tokens : gmap string string) (modes : Modes) (dir : string) : io unit :=
  _ ← fs_create_dir [dir; JWT_DIR];
  _ ← fs_set_permissions [dir; JWT_DIR] 493;
  _ ← io_each (write_token dir modes) (map_to_list tokens);
  _ ← fs_sync [dir; JWT_DIR];
  fs_sync [dir].

Definition publish_generation_of_tokens (tokens : gmap string string) (modes : Modes) : io unit :=
  version ← next_version JWT_VERSION_PREFIX;
  let dir := generation JWT_VERSION_PREFIX version in
  _ ← fs_create_dir [dir];
  _ ← fs_set_permissions [dir] 493;
  _ ← write_tokens tokens modes dir;
  _ ← io_each (fun name => link name (JWT_LINK +:+ "/" +:+ name)) [JWT_DIR];
  _ ← swap JWT_LINK JWT_VERSION_PREFIX version;
  _ ← fs_sync [];
  remove_stale_versions JWT_VERSION_PREFIX version.

Definition publish_tokens (tokens : gmap string string) (modes : Modes) : io unit :=
  if existsb bad_alias (map_to_list tokens).*1 then io_fail InvalidInput
  else publish_generation_of_tokens tokens modes.

End volume.

(** ** Reading back *)

Fixpoint read_files (dir : path) (names : list string) : io (list (string * string)) :=
  match names with
  | [] => mret []
  | name :: names =>
      r ← attempt (fs_read_to_string (dir ++ [name]));
      rest ← read_files dir names;
      mret (match r with Ok token => (name, token) :: rest | Err _ => rest end)
  end.

Definition read_tokens : io (gmap string string) :=
  r ← attempt (fs_read_link [JWT_LINK]);
  match r with
  | Err _ => mret ∅
  | Ok generation =>
      let dir := split_char "/" generation ++ [JWT_DIR] in
      entries ← attempt (fs_read_dir dir);
      match entries with
      | Err _ => mret ∅
      | Ok names => files ← read_files dir names; mret (list_to_map files)
      end
  end.

Definition published_revision : io (option string) :=
  r ← attempt (fs_read_to_string [POLICY_LINK; REVISION_FILE]);
  mret (match r with
        | Ok s => let s := trim s in if is_empty s then None else Some s
        | Err _ => None
        end).

Definition read_generation (dir : path) : io Identity :=
  key ← fs_read_to_string (dir ++ [KEY_FILE]);
  cert ← fs_read_to_string (dir ++ [CERT_FILE]);
  ca ← fs_read_to_string (dir ++ [CA_FILE]);
  mret (mkIdentity key cert ca).

(** [for _ in 0..tries], then the last error. *)
Fixpoint read_identity_go (tries : nat) (last : IoKind) : io Identity :=
  match tries with
  | O => io_fail last
  | S tries =>
      relative ← fs_read_link [DATA_LINK];
      r ← attempt (read_generation (split_char "/" relative));
      match r with
      | Ok identity => mret identity
      | Err NotFound => read_identity_go tries NotFound
      | Err e => io_fail e
      end
  end.
Definition read_identity : io Identity := read_identity_go 4 NotFound.

Definition read_cert_chain : io string :=
  r ← attempt (fs_read_to_string [DATA_LINK; CERT_FILE]);
  match r with
  | Ok s => mret s
  | Err _ => fs_read_to_string [CERT_FILE]
  end.

(** ** Names in the exposure farm *)

Definition farm_char (c : ascii) : ascii :=
  if is_ascii_alphanumeric c || existsb (Ascii.eqb c) ["."; "_"; "-"]%char then c else "_"%char.

(** Character by character: the bytes that continue a character go with it. *)
Fixpoint farm_chars (s : string) : string :=
  match s with
  | EmptyString => EmptyString
  | String c s => if cont c then farm_chars s else String (farm_char c) (farm_chars s)
  end.

Definition farm_name (volume_id : string) : string :=
  let name := farm_chars volume_id in
  let name := if starts_with "." name then "v" +:+ name else name in
  if is_empty name then "volume" else name.

(** ** Chains *)

Record chain := mkChain { c_link : string; c_prefix : string; c_names : list string }.

Definition identity_chain : chain := mkChain DATA_LINK VERSION_PREFIX [KEY_FILE; CERT_FILE; CA_FILE].
Definition policy_chain : chain := mkChain POLICY_LINK POLICY_VERSION_PREFIX [POLICY_DIR; REVISION_FILE].
Definition jwt_chain : chain := mkChain JWT_LINK JWT_VERSION_PREFIX [JWT_DIR].

Definition via (c : chain) (name : string) : string := c_link c +:+ "/" +:+ name.

(** The shape the three publishers share. *)
Definition finish (c : chain) (version : Z) : io unit :=
  _ ← io_each (fun name => link name (via c name)) (c_names c);
  _ ← swap (c_link c) (c_prefix c) version;
  _ ← fs_sync [];
  remove_stale_versions (c_prefix c) version.

Definition publish_chain (c : chain) (build : string -> io unit) : io unit :=
  version ← next_version (c_prefix c);
  let dir := generation (c_prefix c) version in
  _ ← fs_create_dir [dir];
  _ ← fs_set_permissions [dir] 493;
  _ ← build dir;
  finish c version.

Lemma publish_identity_chain umask identity modes :
  publish_identity umask identity modes
  = publish_chain identity_chain (write_identity umask identity modes).
Proof. reflexivity. Qed.
Lemma publish_policy_chain umask bundle mode :
  publish_policy umask bundle mode = publish_chain policy_chain (write_policy umask bundle mode).
Proof. reflexivity. Qed.
Lemma publish_tokens_chain umask tokens modes :
  publish_generation_of_tokens umask tokens modes
  = publish_chain jwt_chain (write_tokens umask tokens modes).
Proof. reflexivity. Qed.

(** The top-level names a chain writes. *)
Definition own_name (c : chain) (s : string) : bool :=
  existsb (String.eqb s) (c_link c :: (c_link c +:+ "_tmp") :: c_names c)
  || match version_of s (c_prefix c) with Some _ => true | None => false end.
Definition owns (c : chain) (p : path) : Prop :=
  match p with [] => False | s :: _ => own_name c s = true end.

(** A name that is a single ordinary path component. *)
Definition component (s : string) : bool :=
  negb (is_empty s) && negb (has_char "/" s) && negb (String.eqb s "..").

Record chain_wf (c : chain) : Prop := {
  cw_link : component (c_link c) = true;
  cw_prefix : component (c_prefix c) = true /\ (2 < String.length (c_prefix c))%nat;
  cw_names : forallb component (c_names c) = true;
  cw_apart : forallb (fun s => match version_of s (c_prefix c) with Some _ => false | None => true end)
               (c_link c :: (c_link c +:+ "_tmp") :: c_names c) = true;
  cw_fresh : NoDup (c_link c :: (c_link c +:+ "_tmp") :: c_names c);
}.

Lemma identity_chain_wf : chain_wf identity_chain.
Proof. split; vm_compute; try done; try lia. all: repeat constructor; set_solver. Qed.
Lemma policy_chain_wf : chain_wf policy_chain.
Proof. split; vm_compute; try done; try lia. all: repeat constructor; set_solver. Qed.
Lemma jwt_chain_wf : chain_wf jwt_chain.
Proof. split; vm_compute; try done; try lia. all: repeat constructor; set_solver. Qed.

(** ** What a reader sees *)

(** One step of resolution through a link to ordinary components. *)
Definition plain_target (to : string) : bool :=
  negb (starts_with "/" to || existsb (String.eqb "..") (split_char "/" to)).

Lemma resolve_link fuel f at_ s rest to :
  f !! (at_ ++ [s]) = Some (Link to) -> plain_target to = true ->
  resolve (S fuel) f at_ (s :: rest) = resolve fuel f at_ (split_char "/" to ++ rest).
Proof. intros Hs Ht%negb_true_iff. cbn [resolve]. by rewrite Hs, Ht. Qed.

Lemma resolve_dir fuel f at_ s rest :
  f !! (at_ ++ [s]) = Some Dir -> resolve (S fuel) f at_ (s :: rest) = resolve fuel f (at_ ++ [s]) rest.
Proof. intros Hs. cbn [resolve]. by rewrite Hs. Qed.

Lemma resolve_file fuel f at_ s c m gid :
  f !! (at_ ++ [s]) = Some (File c m gid) -> resolve (S fuel) f at_ [s] = Ok (at_ ++ [s]).
Proof. intros Hs. cbn [resolve]. by rewrite Hs. Qed.

Lemma resolve_absent fuel f at_ s rest :
  f !! (at_ ++ [s]) = None -> resolve (S fuel) f at_ (s :: rest) = Err NotFound.
Proof. intros Hs. cbn [resolve]. by rewrite Hs. Qed.

Lemma no_slash_relative s b :
  s <> "" -> has_char "/" s = false -> starts_with "/" (s +:+ b) = false.
Proof.
  intros Hs Hc. destruct s as [|c s]; [done|]. apply not_true_iff_false.
  rewrite starts_with_true. intros [r E]. injection E as -> _.
  rewrite has_char_cons, Ascii.eqb_refl in Hc. done.
Qed.

Lemma component_plain s : component s = true -> split_char "/" s = [s] /\ plain_target s = true.
Proof.
  unfold component, plain_target.
  intros [[He Hc%negb_true_iff]%andb_prop Hd%negb_true_iff]%andb_prop.
  rewrite split_char_no by done. split; [done|]. apply negb_true_iff, orb_false_iff. split.
  - rewrite <- (sapp_nil_r s). apply no_slash_relative; [by intros ->|done].
  - cbn [existsb]. by rewrite String.eqb_sym, Hd.
Qed.

Lemma via_plain c name :
  chain_wf c -> component name = true ->
  split_char "/" (via c name) = [c_link c; name] /\ plain_target (via c name) = true.
Proof.
  intros Hc Hn. pose proof (cw_link c Hc) as Hl. unfold via, plain_target.
  destruct (component_plain _ Hn) as [En Pn]. destruct (component_plain _ Hl) as [El Pl].
  unfold component in *. apply andb_prop in Hl as [[Hle Hlc%negb_true_iff]%andb_prop Hld].
  apply andb_prop in Hn as [_ Hnd%negb_true_iff]. apply negb_true_iff in Hld.
  change ("/" +:+ name) with (String "/" name). rewrite split_char_app, En by done.
  split; [done|]. apply negb_true_iff, orb_false_iff. split.
  - apply no_slash_relative; [by intros E; rewrite E in Hle|done].
  - cbn [existsb]. by rewrite !(String.eqb_sym ".."), Hld, Hnd.
Qed.

Lemma component_app a b :
  component a = true -> has_char "/" b = false -> (2 < String.length a)%nat -> component (a +:+ b) = true.
Proof.
  unfold component. intros [[He Hc%negb_true_iff]%andb_prop _]%andb_prop Hb Hl.
  apply andb_true_iff. split; [apply andb_true_iff; split|].
  - by destruct a.
  - by rewrite has_char_app, Hc, Hb.
  - apply negb_true_iff, String.eqb_neq. intros E.
    apply (f_equal String.length) in E. rewrite sapp_length in E. simpl in E. lia.
Qed.

Lemma show_u64_no_slash n : has_char "/" (show_u64 n) = false.
Proof.
  unfold show_u64. destruct (pretty_N_digits (Z.to_N n)) as [Hd _].
  by apply (all_chars_no_char dec_ok).
Qed.

Lemma generation_component c v : chain_wf c -> component (generation (c_prefix c) v) = true.
Proof.
  intros Hc. destruct (cw_prefix c Hc). apply component_app; [done|apply show_u64_no_slash|done].
Qed.

Lemma version_of_generation c v :
  0 <= v <= u64_max -> version_of (generation (c_prefix c) v) (c_prefix c) = Some v.
Proof. intros Hv. unfold version_of, generation. by rewrite strip_prefix_app, parse_show_u64. Qed.

(** A generation, and the state of a chain: nothing published yet, or a data
    link to a generation of plain files that every visible link goes through. *)
Definition is_generation (c : chain) (g : string) : Prop :=
  component g = true /\ is_Some (version_of g (c_prefix c)).

Record published (c : chain) (f : fs) (g : string) : Prop := {
  pb_link : f !! [c_link c] = Some (Link g);
  pb_gen : is_generation c g;
  pb_dir : f !! [g] = Some Dir;
  pb_files : no_links f g;
  pb_names : forall n, n ∈ c_names c -> f !! [n] = Some (Link (via c n));
}.

Record unpublished (c : chain) (f : fs) : Prop := {
  up_link : f !! [c_link c] = None;
  up_names : forall n, n ∈ c_names c -> f !! [n] = None \/ f !! [n] = Some (Link (via c n));
}.

Definition chain_ok (c : chain) (f : fs) : Prop :=
  unpublished c f \/ exists g, published c f g.

(** What is at a path inside a generation. *)
Definition in_generation (f : fs) (g : string) (p : path) : result IoKind node :=
  q ← resolve (length p + 37) f [g] p;
  match q with [] => Ok Dir | _ => ok_or NotFound (f !! q) end.

Lemma resolve_published c f g n rest fuel :
  chain_wf c -> published c f g -> n ∈ c_names c ->
  resolve (3 + fuel) f [] (n :: rest) = resolve fuel f [g] (n :: rest).
Proof.
  intros Hc Hp Hn. pose proof (cw_names c Hc) as Hcn. rewrite forallb_forall in Hcn.
  destruct (via_plain c n Hc) as [Es Ps]; [by apply Hcn, list_elem_of_In|].
  destruct (pb_gen _ _ _ Hp) as [Hg _]. destruct (component_plain _ Hg) as [Eg Pg].
  change (3 + fuel)%nat with (S (S (S fuel))).
  rewrite (resolve_link _ _ _ _ _ (via c n)); [|by apply (pb_names _ _ _ Hp)|done].
  rewrite Es. change ([c_link c; n] ++ rest) with (c_link c :: n :: rest).
  rewrite (resolve_link _ _ _ _ _ g); [|by apply (pb_link _ _ _ Hp)|done].
  rewrite Eg. change ([g] ++ n :: rest) with (g :: n :: rest).
  rewrite resolve_dir; [done|by apply (pb_dir _ _ _ Hp)].
Qed.

Lemma node_at_published c f g n rest :
  chain_wf c -> published c f g -> n ∈ c_names c ->
  node_at f (n :: rest) = in_generation f g (n :: rest).
Proof.
  intros Hc Hp Hn. unfold node_at, in_generation, link_fuel.
  replace (length (n :: rest) + 40)%nat with (3 + (length (n :: rest) + 37))%nat by lia.
  by rewrite (resolve_published c f g).
Qed.

Lemma node_at_unpublished c f n rest :
  chain_wf c -> unpublished c f -> n ∈ c_names c -> node_at f (n :: rest) = Err NotFound.
Proof.
  intros Hc Hu Hn. pose proof (cw_names c Hc) as Hcn. rewrite forallb_forall in Hcn.
  destruct (via_plain c n Hc) as [Es Ps]; [by apply Hcn, list_elem_of_In|].
  unfold node_at, link_fuel. simpl length.
  destruct (up_names _ _ Hu n Hn) as [H0|H1].
  - change (S (length rest) + 40)%nat with (S (length rest + 40)). by rewrite resolve_absent.
  - replace (S (length rest) + 40)%nat with (S (S (length rest + 39))) by lia.
    rewrite (resolve_link _ _ _ _ _ (via c n)) by done. rewrite Es.
    change ([c_link c; n] ++ rest) with (c_link c :: n :: rest).
    rewrite resolve_absent; [done|]. apply (up_link _ _ Hu).
Qed.

Lemma resolve_same fuel f f' g a rest :
  (forall r, f' !! (g :: r) = f !! (g :: r)) -> no_links f g ->
  resolve fuel f' (g :: a) rest = resolve fuel f (g :: a) rest.
Proof.
  intros Hs Hn. revert a rest. induction fuel as [|fuel IH]; intros a rest;
    destruct rest as [|s rest]; try done.
  cbn [resolve]. change ((g :: a) ++ [s]) with (g :: (a ++ [s])). rewrite Hs.
  destruct (f !! (g :: a ++ [s])) as [[c m gi| |t]|] eqn:E; try done.
  by apply Hn in E.
Qed.

Lemma resolve_prefix fuel f g a rest q :
  no_links f g -> resolve fuel f (g :: a) rest = Ok q -> exists r, q = g :: r.
Proof.
  intros Hn. revert a rest. induction fuel as [|fuel IH]; intros a rest;
    destruct rest as [|s rest]; cbn [resolve];
    try (intros [= <-]; by exists a); try (intros [=]; done).
  - change ((g :: a) ++ [s]) with (g :: (a ++ [s])).
    destruct (f !! (g :: a ++ [s])) as [[c m gi| |t]|] eqn:E; try done.
    + destruct rest; [|done]. intros [= <-]. eauto.
    + apply IH.
    + by apply Hn in E.
Qed.

Lemma in_generation_same f f' g p :
  (forall r, f' !! (g :: r) = f !! (g :: r)) -> no_links f g ->
  in_generation f' g p = in_generation f g p.
Proof.
  intros Hs Hn. unfold in_generation. rewrite (resolve_same _ f f') by done.
  destruct (resolve _ f [g] p) as [q|] eqn:E; [|done].
  apply resolve_prefix in E as [r ->]; [|done]. cbn. by rewrite Hs.
Qed.

(** ** Publishing is atomic *)

Definition same_view (c : chain) (f0 f : fs) : Prop :=
  forall n rest, n ∈ c_names c -> node_at f (n :: rest) = node_at f0 (n :: rest).

(** What the readers of a chain see is what is in one generation of [fb]. *)
Definition view_of (c : chain) (fb : fs) (g : string) (f : fs) : Prop :=
  forall n rest, n ∈ c_names c -> node_at f (n :: rest) = in_generation fb g (n :: rest).

Lemma own_apart c v s :
  chain_wf c -> is_Some (version_of v (c_prefix c)) ->
  s ∈ c_link c :: (c_link c +:+ "_tmp") :: c_names c -> v <> s.
Proof.
  intros Hc [k Hv] Hs ->. pose proof (cw_apart c Hc) as Ha. rewrite forallb_forall in Ha.
  apply list_elem_of_In in Hs. specialize (Ha s Hs). by rewrite Hv in Ha.
Qed.

(** Before the swap: nothing a reader goes through has moved. *)
Record before_swap (c : chain) (f0 f : fs) : Prop := {
  bs_link : f !! [c_link c] = f0 !! [c_link c];
  bs_names : forall n, n ∈ c_names c ->
    f !! [n] = f0 !! [n] \/ (f0 !! [n] = None /\ f !! [n] = Some (Link (via c n)));
  bs_gen : forall g r, f0 !! [c_link c] = Some (Link g) -> f !! (g :: r) = f0 !! (g :: r);
}.

Lemma before_swap_view c f0 f :
  chain_wf c -> chain_ok c f0 -> before_swap c f0 f -> chain_ok c f /\ same_view c f0 f.
Proof.
  intros Hc [Hu|[g Hp]] [Hl Hn Hg].
  - assert (unpublished c f) as Hu'.
    { split; [by rewrite Hl; apply Hu|]. intros n Hin.
      destruct (Hn n Hin) as [E|[_ E]]; rewrite E; [by apply Hu|by right]. }
    split; [by left|]. intros n rest Hin.
    by rewrite (node_at_unpublished c f), (node_at_unpublished c f0).
  - destruct Hp as [Pl Pg Pd Pf Pn]. specialize (Hg g).
    assert (published c f g) as Hp'.
    { split; [by rewrite Hl|done|by rewrite Hg|intros r t; by rewrite Hg|].
      intros n Hin. destruct (Hn n Hin) as [E|[E _]]; [rewrite E; auto|].
      rewrite Pn in E by done. done. }
    split; [right; by exists g|]. intros n rest Hin.
    rewrite (node_at_published c f g), (node_at_published c f0 g) by done.
    apply in_generation_same; [intros r; by apply Hg|done].
Qed.

(** After it: everything a reader goes through leads to the new generation. *)
Record after_swap (c : chain) (fb : fs) (v : string) (f : fs) : Prop := {
  as_link : f !! [c_link c] = Some (Link v);
  as_names : forall n, n ∈ c_names c -> f !! [n] = Some (Link (via c n));
  as_gen : forall r, f !! (v :: r) = fb !! (v :: r);
}.

Lemma after_swap_view c fb v f :
  chain_wf c -> is_generation c v -> fb !! [v] = Some Dir -> no_links fb v ->
  after_swap c fb v f -> published c f v /\ view_of c fb v f.
Proof.
  intros Hc Hv Hd Hn [Al An Ag].
  assert (published c f v) as Hp.
  { split; [done|done|by rewrite Ag|intros r t; rewrite Ag; apply Hn|done]. }
  split; [done|]. intros n rest Hin.
  rewrite (node_at_published c f v) by done. by apply in_generation_same.
Qed.

(** What writing a generation may do: anything inside it, but no links. *)
Definition inside (v : string) (p : path) : Prop := exists r, p = v :: r.
Record writes {A : Type} (v : string) (m : io A) : Prop := {
  wr_only : only (inside v) m;
  wr_tree : keeps tree_ok m;
  wr_dir : keeps (fun f => f !! [v] = Some Dir) m;
  wr_links : keeps (fun f => no_links f v) m;
}.

Section publish.
Context (c : chain) (Hc : chain_wf c) (build : string -> io unit) (Hb : forall v, writes v (build v)).
Context (f0 : fs) (Htree : tree_ok f0) (Hok : chain_ok c f0).

(** A new, empty generation. *)
Definition fresh (v : string) (f : fs) : Prop := f0 !! [v] = None /\ f = <[[v] := Dir]> f0.

(** [fb] is the tree with the whole of generation [v] written. *)
Definition built (v : string) (fb : fs) : Prop :=
  exists w w', fresh v (wfs w) /\ build v w = (Ok tt, w') /\ wfs w' = fb.

(** The readers see a generation that was completely written. *)
Definition new_view (f : fs) : Prop :=
  exists v fb, is_generation c v /\ built v fb /\ published c f v /\ view_of c fb v f.

(** The invariant of the whole run. *)
Definition consistent (f : fs) : Prop :=
  tree_ok f /\ agree (owns c) f0 f /\ chain_ok c f /\ (same_view c f0 f \/ new_view f).

Lemma owns_generation v p : is_generation c v -> (exists r, p = v :: r) -> owns c p.
Proof.
  intros [_ [k Hk]] [r ->]. simpl. unfold own_name. rewrite Hk. apply orb_true_r.
Qed.

Lemma owns_top s : s ∈ c_link c :: (c_link c +:+ "_tmp") :: c_names c -> owns c [s].
Proof.
  intros Hs. simpl. unfold own_name. apply orb_true_iff. left. apply existsb_exists.
  exists s. split; [by apply list_elem_of_In|apply String.eqb_refl].
Qed.

(** Every tree before the swap. *)
Definition pre (v : string) (f : fs) : Prop :=
  tree_ok f /\ agree (owns c) f0 f /\ before_swap c f0 f.
Lemma pre_consistent v f : pre v f -> consistent f.
Proof.
  intros (Ht & Ha & Hbs). destruct (before_swap_view c f0 f Hc Hok Hbs).
  do 3 (split; [done|]). by left.
Qed.

Lemma generation_not_current v g : f0 !! [v] = None -> f0 !! [c_link c] = Some (Link g) -> v <> g.
Proof.
  intros Hv Hl ->. destruct Hok as [Hu|[g' Hp]].
  - by rewrite (up_link _ _ Hu) in Hl.
  - rewrite (pb_link _ _ _ Hp) in Hl. simplify_eq. by rewrite (pb_dir _ _ _ Hp) in Hv.
Qed.

(** Writing inside a new generation. *)
Definition writing (v : string) (f : fs) : Prop :=
  tree_ok f /\ agree (inside v) f0 f /\ f !! [v] = Some Dir /\ no_links f v.

Lemma writing_other v f s r : agree (inside v) f0 f -> v <> s -> f !! (s :: r) = f0 !! (s :: r).
Proof. intros Ha Hs. apply Ha. by intros (r' & [= ? _]). Qed.

Lemma writing_pre v f : is_generation c v -> f0 !! [v] = None -> writing v f -> pre v f.
Proof.
  intros Hv H0 (Ht & Ha & _ & Hn). pose proof (own_apart c v) as Hap. destruct Hv as [Hvc Hvv].
  split; [done|]. split.
  { eapply agree_mono, Ha. intros p Hp. by apply (owns_generation v). }
  split.
  - apply (writing_other v f); [done|]. apply Hap; [done|done|left].
  - intros n Hin. left. apply (writing_other v f); [done|]. apply Hap; [done|done|]. by right; right.
  - intros g r Hl. apply (writing_other v f); [done|]. by apply generation_not_current.
Qed.

Lemma fresh_writing v f : tree_ok f -> fresh v f -> writing v f.
Proof.
  intros Ht [H0 ->]. split; [done|]. split; [by apply agree_insert; exists []|].
  split; [by rewrite lookup_insert_eq|]. intros r t.
  destruct r as [|s r]; [by rewrite lookup_insert_eq|].
  rewrite lookup_insert_ne by done. by rewrite tree_absent.
Qed.

Lemma keeps_writing v : keeps (writing v) (build v).
Proof.
  destruct (Hb v) as [Ho Ht Hd Hl]. apply keeps_and; [done|]. apply keeps_and; [apply Ho|].
  by apply keeps_and.
Qed.

(** Linking the visible names, and the new data link beside the old one. *)
Definition tmp : string := c_link c +:+ "_tmp".
Definition linked_at (p : path) : Prop := p = [tmp] \/ exists n, n ∈ c_names c /\ p = [n].
Definition linking (fb : fs) (f : fs) : Prop :=
  tree_ok f /\ agree linked_at fb f /\
  forall n, n ∈ c_names c -> f !! [n] = fb !! [n] \/ (fb !! [n] = None /\ f !! [n] = Some (Link (via c n))).
Definition all_linked (f : fs) : Prop := forall m, m ∈ c_names c -> is_Some (f !! [m]).

Lemma linked_at_apart s : s ∈ [c_link c] -> forall r, ~ linked_at (s :: r).
Proof.
  intros ->%list_elem_of_singleton r Hl. pose proof (cw_fresh c Hc) as Hnd.
  apply NoDup_cons in Hnd as [Hnd _]. apply Hnd.
  apply elem_of_cons. destruct Hl as [[= E _]|(n & Hn & [= E _])]; [by left|right; by rewrite E].
Qed.

Lemma linked_at_generation v r : is_Some (version_of v (c_prefix c)) -> ~ linked_at (v :: r).
Proof.
  intros Hv [[= E _]|(n & Hn & [= E _])]; revert E; apply (own_apart c); try done;
    rewrite !elem_of_cons; auto.
Qed.

Lemma linked_at_owned p : linked_at p -> owns c p.
Proof. intros [->|(n & Hn & ->)]; apply owns_top; [right; left|by right; right]. Qed.

Lemma linking_pre v fb f :
  is_generation c v -> f0 !! [v] = None -> writing v fb -> linking fb f -> pre v f.
Proof.
  intros Hv H0 Hw (Ht & Ha & Hl). destruct (writing_pre v fb Hv H0 Hw) as (_ & Hag & [Bl Bn Bg]).
  destruct Hw as (_ & Hwa & _). split; [done|]. split.
  { eapply agree_trans; [exact Hag|]. eapply agree_mono, Ha. apply linked_at_owned. }
  split.
  - rewrite Ha; [done|]. apply linked_at_apart. left.
  - intros n Hn. assert (fb !! [n] = f0 !! [n]) as <-; [|auto].
    apply (writing_other v fb); [done|]. apply (own_apart c); [done|apply Hv|by right; right].
  - intros g r Hg. rewrite Ha; [by apply Bg|]. apply linked_at_generation.
    destruct Hok as [Hu|[g' Hp]]; [by rewrite (up_link _ _ Hu) in Hg|].
    rewrite (pb_link _ _ _ Hp) in Hg. simplify_eq. apply (pb_gen _ _ _ Hp).
Qed.

Lemma linking_linked v fb f n :
  is_generation c v -> writing v fb -> linking fb f -> all_linked f -> n ∈ c_names c ->
  f !! [n] = Some (Link (via c n)).
Proof.
  intros Hv (_ & Hwa & _) (_ & _ & Hl) Hall Hn.
  destruct (Hl n Hn) as [E|[_ E]]; [|done]. destruct (Hall n Hn) as [x Hx].
  assert (fb !! [n] = f0 !! [n]) as E0.
  { apply (writing_other v fb); [done|]. apply (own_apart c); [done|apply Hv|by right; right]. }
  rewrite E, E0 in *. destruct Hok as [Hu|[g Hp]].
  - destruct (up_names _ _ Hu n Hn) as [En|En]; congruence.
  - by apply (pb_names _ _ _ Hp).
Qed.

Lemma hoare_link fb n (before : list string) :
  n ∈ c_names c ->
  hoare (linking fb) (fun f => forall m, m ∈ before -> is_Some (f !! [m])) (link n (via c n))
    (fun _ f => forall m, m ∈ n :: before -> is_Some (f !! [m])) (fun _ => True).
Proof.
  intros Hn. unfold link. eapply hoare_bind.
  { eapply hoare_attempt, hoare_reads. intros g0. apply only_symlink_metadata. }
  intros [u|e].
  - apply hoare_ret. intros f _ (Hd & w & w' & <- & E & _) m [->|Hm]%elem_of_cons; [|auto].
    apply syscall_Ok in E. destruct (wfs w !! [n]); [eauto|done].
  - apply hoare_syscall; [by intros|]. intros f (Ht & Ha & Hl) Hd.
    destruct (f !! [n]) eqn:En; [done|]. simpl. split.
    + split; [apply tree_insert; [done|done|done|congruence]|]. split.
      { eapply agree_trans; [exact Ha|]. apply agree_insert. right. eauto. }
      intros m Hm. destruct (decide (m = n)) as [->|Hne].
      { right. rewrite lookup_insert_eq. split; [|done].
        destruct (Hl n Hm) as [E|[E _]]; congruence. }
      rewrite lookup_insert_ne by congruence. auto.
    + intros m Hm. destruct (decide (m = n)) as [->|Hne].
      { rewrite lookup_insert_eq. eauto. }
      rewrite lookup_insert_ne by congruence. apply elem_of_cons in Hm as [?|?]; [done|auto].
Qed.

Lemma hoare_links fb (names before : list string) :
  (forall n, n ∈ names -> n ∈ c_names c) ->
  hoare (linking fb) (fun f => forall m, m ∈ before -> is_Some (f !! [m]))
    (io_each (fun n => link n (via c n)) names)
    (fun _ f => forall m, m ∈ names ++ before -> is_Some (f !! [m])) (fun _ => True).
Proof.
  revert before. induction names as [|n names IH]; intros before Hin; simpl.
  { apply hoare_ret. auto. }
  eapply hoare_bind; [apply hoare_link, Hin; left|]. intros [].
  eapply hoare_conseq; [| | |apply (IH (n :: before))]; try done.
  - intros a f _ H m Hm. apply H. rewrite elem_of_app in *. rewrite !elem_of_cons in *.
    rewrite elem_of_app in Hm. tauto.
  - intros m Hm. apply Hin. by right.
Qed.

(** The new data link, beside the old one. *)
Definition ready (fb : fs) (f : fs) : Prop := linking fb f /\ all_linked f.

Lemma ready_tmp fb f f' :
  ready fb f -> tree_ok f' -> agree (fun p => p = [tmp]) f f' -> ready fb f'.
Proof.
  intros [(Ht & Ha & Hl) Hall] Ht' Ha'.
  assert (forall n, n ∈ c_names c -> f' !! [n] = f !! [n]) as En.
  { intros n Hn. apply Ha'. intros [= ->]. pose proof (cw_fresh c Hc) as Hnd.
    apply NoDup_cons in Hnd as [_ [Hnd _]%NoDup_cons]. done. }
  split; [|intros n Hn; rewrite En by done; auto]. split; [done|]. split.
  - eapply agree_trans; [exact Ha|]. eapply agree_mono, Ha'. intros p ->. by left.
  - intros n Hn. rewrite En by done. auto.
Qed.

(** The trees from the swap on. *)
Definition swapped (v : string) (fb f : fs) : Prop :=
  tree_ok f /\ agree (owns c) f0 f /\ after_swap c fb v f.

Lemma swapped_consistent v fb f :
  is_generation c v -> writing v fb -> built v fb -> swapped v fb f -> consistent f.
Proof.
  intros Hv (_ & Ha & Hd & Hn) Hbt (Ht & Hag & Has).
  destruct (after_swap_view c fb v f Hc Hv Hd Hn Has). do 2 (split; [done|]).
  split; [right; eauto|]. right. exists v, fb. auto.
Qed.

Lemma hoare_swap version fb :
  let v := generation (c_prefix c) version in
  is_generation c v -> f0 !! [v] = None -> writing v fb -> built v fb ->
  hoare consistent (ready fb) (swap (c_link c) (c_prefix c) version)
    (fun _ => swapped v fb) (fun _ => True).
Proof.
  intros v Hv H0 Hw Hbt. unfold swap. fold v. fold tmp.
  assert (forall f, ready fb f -> consistent f) as Hrc.
  { intros f [Hl _]. by eapply pre_consistent, (linking_pre v fb). }
  eapply (hoare_bind _ _ _ (fun _ => ready fb)).
  { eapply hoare_conseq; [| | |eapply hoare_phase with (J := ready fb)]; try done.
    - intros a f _ [H _]. exact H.
    - apply keeps_attempt. apply keeps_syscall; [done|]. intros f a f' Hf H. call_cases;
        (eapply ready_tmp; [exact Hf|apply tree_delete; [apply Hf|congruence]|by apply agree_delete]). }
  intros _. eapply (hoare_bind _ _ _ (fun _ f => ready fb f /\ f !! [tmp] = Some (Link v))).
  { apply hoare_syscall; [by auto|]. intros f _ Hf.
    destruct (f !! [tmp]) eqn:Et; [done|]. simpl.
    assert (ready fb (<[[tmp] := Link v]> f)) as Hr.
    { eapply ready_tmp; [exact Hf| |by apply agree_insert].
      apply tree_insert; [apply Hf|done|done|congruence]. }
    rewrite lookup_insert_eq. auto. }
  intros []. apply hoare_syscall; [by intros|]. intros f _ [Hf Et]. rewrite Et.
  destruct Hf as [Hl Hall] eqn:Er. clear Er. pose proof Hl as (Ht & Ha & _).
  assert (swapped v fb (<[[c_link c] := Link v]> (delete [tmp] f)) ->
    consistent (<[[c_link c] := Link v]> (delete [tmp] f))) as Hsc by by apply swapped_consistent.
  destruct (linking_pre v fb f Hv H0 Hw Hl) as (_ & Hag & _).
  assert (swapped v fb (<[[c_link c] := Link v]> (delete [tmp] f)) \/ f !! [c_link c] = Some Dir)
    as [Hsw|Hdir]; [| |by rewrite Hdir].
  2: { simpl. destruct (f !! [c_link c]) as [[]|]; auto. }
  destruct (decide (f !! [c_link c] = Some Dir)) as [|Hnd]; [by right|left].
  split.
  { apply tree_insert; [apply tree_delete; [done|congruence]|done|done|].
    intros [_ H]%lookup_delete_Some. congruence. }
  split.
  { eapply agree_trans; [exact Hag|]. eapply agree_trans.
    - apply agree_delete, owns_top. right. left.
    - apply agree_insert, owns_top. left. }
  pose proof (cw_fresh c Hc) as [Hn1 [Hn2 _]%NoDup_cons]%NoDup_cons.
  split.
  - by rewrite lookup_insert_eq.
  - intros n Hn. rewrite lookup_insert_ne, lookup_delete_ne; [by eapply linking_linked| |].
    + intros [= E]. apply Hn2. by rewrite <- E in Hn.
    + intros [= E]. apply Hn1. right. by rewrite E.
  - intros r. rewrite lookup_insert_ne, lookup_delete_ne.
    + apply Ha, linked_at_generation, Hv.
    + intros [= E _]. symmetry in E. revert E. apply (own_apart c); [done|apply Hv|right; left].
    + intros [= E _]. symmetry in E. revert E. apply (own_apart c); [done|apply Hv|left].
Qed.

Lemma swapped_stable v fb name n f f' :
  is_generation c v -> version_of name (c_prefix c) = Some n -> name <> v ->
  swapped v fb f -> tree_ok f' -> agree (fun p => exists r, p = name :: r) f f' -> swapped v fb f'.
Proof.
  intros Hv Hn Hne (Ht & Hag & [Al An Ag]) Ht' Ha.
  assert (forall s r, s <> name -> f' !! (s :: r) = f !! (s :: r)) as E.
  { intros s r Hs. apply Ha. by intros (r' & [= ? _]). }
  pose proof (own_apart c name) as Hap.
  split; [done|]. split.
  { eapply agree_trans; [exact Hag|]. eapply agree_mono, Ha. intros p [r ->].
    simpl. unfold own_name. rewrite Hn. apply orb_true_r. }
  split.
  - rewrite E; [done|]. apply not_eq_sym, Hap; [done|eauto|left].
  - intros m Hm. rewrite E; [auto|]. apply not_eq_sym, Hap; [done|eauto|by right; right].
  - intros r. rewrite E; auto.
Qed.

Lemma keeps_remove_stale version fb :
  0 <= version <= u64_max ->
  let v := generation (c_prefix c) version in
  is_generation c v -> keeps (swapped v fb) (remove_stale_versions (c_prefix c) version).
Proof.
  intros Hr v Hv. apply keeps_bind; [apply reads_keeps; intros g0; apply only_read_dir|].
  intros names. apply keeps_each. intros name _.
  destruct (version_of name (c_prefix c)) as [n|] eqn:Hn; [|auto with fs].
  destruct (_ && _) eqn:Ht; [|auto with fs].
  apply andb_prop in Ht as [Ht%negb_true_iff%Z.eqb_neq _].
  assert (name <> v) as Hne.
  { intros ->. unfold v in Hn. rewrite version_of_generation in Hn by done. congruence. }
  apply keeps_bind; [|auto with fs]. apply keeps_attempt.
  assert (only (fun p => exists r, p = name :: r) (fs_remove_dir_all [name])) as Ho.
  { apply only_remove_dir_all. intros r. by exists r. }
  apply keeps_syscall.
  - intros f ft Hf. eapply (swapped_stable v fb name n); [done|done|done|exact Hf| |].
    + apply (tree_filter f (left_behind ft [name])); [apply Hf|]. intros. by eapply left_behind_parent.
    + apply agree_filter. unfold left_behind. intros q [Hq _]%orb_false_iff.
      apply negb_false_iff, below_true in Hq as [r ->]. by exists r.
  - intros f a f' Hf H. call_cases; (eapply (swapped_stable v fb name n); [done|done|done|exact Hf| |]);
      try (apply tree_without, Hf); apply agree_without; by eexists.
Qed.

Lemma next_version_range P I :
  hoare I P (next_version (c_prefix c)) (fun v f => P f /\ 0 <= v <= u64_max) (fun _ => True).
Proof.
  unfold next_version. eapply (hoare_bind _ _ _ (fun _ => P)).
  - eapply hoare_conseq; [| | |eapply (hoare_attempt _ _ _ _ _ (fun _ => True)), hoare_reads]; try done.
    + intros [a|e] f _ H; simpl in H; [apply H|exact H].
    + intros g0. apply only_read_dir.
  - intros r. apply hoare_ret. intros f _ HP. split; [done|].
    pose proof (wrap_range 64 (match r with Ok names => highest names (c_prefix c) | Err _ => 0 end + 1)).
    unfold u64_max. lia.
Qed.

Lemma version_is_generation version :
  0 <= version <= u64_max -> is_generation c (generation (c_prefix c) version).
Proof.
  intros Hv. split; [by apply generation_component|]. rewrite version_of_generation by done. eauto.
Qed.

Lemma start_consistent : consistent f0.
Proof. do 3 (split; [done|]). left. by intros n rest Hn. Qed.

(** Creating the directory, up to a generation that is completely written. *)
Lemma hoare_build version :
  0 <= version <= u64_max ->
  let v := generation (c_prefix c) version in
  hoare consistent (fun f => f = f0)
    (_ ← fs_create_dir [v]; _ ← fs_set_permissions [v] 493; build v)
    (fun _ fb => f0 !! [v] = None /\ writing v fb /\ built v fb) (fun _ => True).
Proof.
  intros Hr v. pose proof (version_is_generation version Hr) as Hv. fold v in Hv.
  assert (forall f, f0 !! [v] = None -> writing v f -> consistent f) as Hwc.
  { intros f H0 Hw. by eapply pre_consistent, (writing_pre v). }
  eapply (hoare_bind _ _ _ (fun _ => fresh v)).
  { apply hoare_syscall; [by auto|]. intros f _ ->.
    destruct (f0 !! [v]) eqn:E; [done|]. simpl. split; [|done]. apply Hwc; [done|].
    apply fresh_writing; [|done]. apply tree_insert; [done|done|done|congruence]. }
  intros []. eapply (hoare_bind _ _ _ (fun _ => fresh v)).
  { apply hoare_syscall; [by auto|]. intros f Hf [H0 ->].
    rewrite lookup_insert_eq. simpl. rewrite insert_insert_eq. done. }
  intros []. eapply hoare_conseq; [| | |eapply (hoare_phase consistent (fresh v)
    (fun f => f0 !! [v] = None /\ writing v f))]; try done.
  - intros [] f _ ([H0 Hw] & w & w' & Hfr & E & Ef). split; [done|]. split; [done|]. by exists w, w'.
  - intros f Hf Hfr. split; [apply Hfr|]. apply fresh_writing; [apply Hf|done].
  - intros f [H0 Hw]. by apply Hwc.
  - apply keeps_and; [|apply keeps_writing]. eapply keeps_stable; [apply Hb|by intros].
Qed.

Lemma hoare_finish version :
  0 <= version <= u64_max ->
  let v := generation (c_prefix c) version in
  hoare consistent (fun fb => f0 !! [v] = None /\ writing v fb /\ built v fb)
    (finish c version) (fun _ => new_view) (fun _ => True).
Proof.
  intros Hr v w r w' Hi (H0 & Hw & Hbt).
  pose proof (version_is_generation version Hr) as Hv. fold v in Hv. set (fb := wfs w) in *.
  enough (hoare consistent (linking fb) (finish c version) (fun _ => new_view) (fun _ => True)) as H.
  { apply (H w r w' Hi). split; [apply Hw|]. split; [apply agree_refl|]. auto. }
  eapply (hoare_bind _ _ _ (fun _ => ready fb)).
  { eapply hoare_conseq; [| | |eapply (hoare_inv consistent (linking fb)
      (fun f => forall m, m ∈ ([] : list string) -> is_Some (f !! [m]))); [|by apply hoare_links]]; try done.
    - intros f _ Hl. split; [done|]. intros m Hm. by apply not_elem_of_nil in Hm.
    - intros a f _ [Hl Hall]. split; [done|]. intros m Hm. apply Hall. by rewrite app_nil_r.
    - intros f Hl. by eapply pre_consistent, (linking_pre v fb). }
  intros []. eapply hoare_bind; [by apply hoare_swap|].
  intros []. eapply hoare_conseq;
    [| | |eapply (hoare_phase consistent (swapped v fb) (swapped v fb))]; try done.
  - intros [] f _ [(_ & _ & Has) _]. exists v, fb. split; [done|]. split; [done|].
    destruct Hw as (_ & Ha & Hd & Hn). by eapply (after_swap_view c fb v).
  - intros f Hs. by eapply swapped_consistent.
  - apply keeps_bind; [apply reads_keeps; intros g0; apply only_sync|].
    intros _. by apply keeps_remove_stale.
Qed.

(** Every tree of a publish, with any faults, is consistent; a publish that
    succeeds ends with the new generation in view. *)
Lemma publish_chain_hoare :
  hoare consistent (fun f => f = f0) (publish_chain c build) (fun _ => new_view) (fun _ => True).
Proof.
  unfold publish_chain. eapply hoare_bind; [apply next_version_range|].
  intros version w r w' Hi [Hp Hr] E.
  assert (hoare consistent (fun f => f = f0)
    ((_ ← fs_create_dir [generation (c_prefix c) version];
      _ ← fs_set_permissions [generation (c_prefix c) version] 493;
      build (generation (c_prefix c) version)) ≫= fun _ => finish c version)
    (fun _ => new_view) (fun _ => True)) as H.
  { eapply hoare_bind; [by apply hoare_build|]. intros []. by apply hoare_finish. }
  apply (H w r w' Hi Hp). rewrite <- E.
  unfold mbind, io_bind. destruct (fs_create_dir _ w) as [[[]|e] w1]; [|done].
  by destruct (fs_set_permissions _ _ w1) as [[[]|e] w2].
Qed.

Lemma publish_chain_run faults r w' :
  publish_chain c build (mkWorld f0 faults []) = (r, w') ->
  Forall consistent (wfs w' :: whist w') /\ (r = Ok tt -> new_view (wfs w')).
Proof.
  intros E. destruct (publish_chain_hoare (mkWorld f0 faults []) r w' start_consistent eq_refl E)
    as ((new & Hh & Hf) & Hi & Hr).
  simpl in Hh. rewrite app_nil_r in Hh. subst new. split; [by constructor|]. by intros ->.
Qed.
End publish.

(** ** What is written into a generation *)

Lemma write_file_Ok umask p content mode w w' :
  write_file umask p content mode w = (Ok tt, w') ->
  exists g, wfs w' = <[p := File content mode g]> (wfs w).
Proof.
  unfold write_file. intros ([] & w1 & H1%syscall_Ok & H)%io_bind_Ok.
  apply io_bind_Ok in H as ([] & w2 & H2%syscall_Ok & H).
  apply io_bind_Ok in H as ([] & w3 & H3%syscall_Ok & H4%syscall_Ok).
  assert (exists m g, wfs w1 = <[p := File "" m g]> (wfs w)) as (m & g & E1).
  { call_cases; eauto. }
  exists g. injection H2 as H2. unfold set_content in H2. rewrite E1, lookup_insert_eq in H2.
  destruct (node_at (wfs w2) p); simplify_eq. rewrite <- H3, <- H2, lookup_insert_eq in H4.
  injection H4 as <-. by rewrite !insert_insert_eq.
Qed.

Lemma chgrp_to_Ok p gid w w' c m g :
  chgrp_to p gid w = (Ok tt, w') -> wfs w !! p = Some (File c m g) ->
  exists g', wfs w' = <[p := File c m g']> (wfs w).
Proof.
  intros H Hp. destruct gid as [gid|]; simpl in H.
  - apply syscall_Ok in H. rewrite Hp in H. injection H as <-. eauto.
  - injection H as <-. exists g. by rewrite insert_id.
Qed.

(** *** The builders only write inside their generation *)

Section writes_rules.
Context (v : string).

Lemma writes_ret {A : Type} (a : A) : writes v (mret a).
Proof. split; [intros f0|..]; auto with fs. Qed.
Lemma writes_fail {A : Type} (e : IoKind) : writes v (io_fail e : io A).
Proof. split; [intros f0|..]; auto with fs. Qed.
Lemma writes_bind {A B : Type} (m : io A) (k : A -> io B) :
  writes v m -> (forall a, writes v (k a)) -> writes v (m ≫= k).
Proof.
  intros Hm Hk. split; [intros f0|..]; (apply keeps_bind; [apply Hm|intros a; apply Hk]).
Qed.
Lemma writes_each {A : Type} (f : A -> io unit) (xs : list A) :
  (forall x, writes v (f x)) -> writes v (io_each f xs).
Proof. intros H. split; [intros f0|..]; apply keeps_each; intros x _; apply H. Qed.
Lemma writes_reads {A : Type} (m : io A) : (forall S, only S m) -> writes v m.
Proof. intros H. split; [apply H|..]; apply reads_keeps, H. Qed.
Lemma writes_create_dir r : writes v (fs_create_dir (v :: r)).
Proof.
  split; [apply only_create_dir; by exists r|by apply tree_create_dir
         |apply dir_create_dir|apply no_links_create_dir].
Qed.
Lemma writes_set_permissions r m : writes v (fs_set_permissions (v :: r) m).
Proof.
  split; [apply only_set_permissions; by exists r|apply tree_set_permissions
         |apply dir_set_permissions|apply no_links_set_permissions].
Qed.
Lemma writes_chown_group r g : writes v (fs_chown_group (v :: r) g).
Proof.
  split; [apply only_chown_group; by exists r|apply tree_chown_group
         |apply dir_chown_group|apply no_links_chown_group].
Qed.
Lemma writes_open_trunc u r m : writes v (fs_open_trunc u (v :: r) m).
Proof.
  split; [apply only_open_trunc; by exists r|by apply tree_open_trunc
         |apply dir_open_trunc|apply no_links_open_trunc].
Qed.
Lemma writes_write_all r c : writes v (fs_write_all (v :: r) c).
Proof.
  split; [apply only_write_all; by exists r|apply tree_write_all
         |apply dir_write_all|apply no_links_write_all].
Qed.
Lemma writes_sync p : writes v (fs_sync p).
Proof. apply writes_reads. intros S. apply only_sync. Qed.
Lemma writes_create_dir_all r : writes v (fs_create_dir_all (v :: r)).
Proof.
  split; [|apply tree_create_dir_all_go|apply dir_create_dir_all_go|apply no_links_create_dir_all_go].
  apply only_create_dir_all_go. intros [|s a] b E Ha; [done|]. injection E as -> ->. by exists a.
Qed.
Lemma writes_write_file u r c m : writes v (write_file u (v :: r) c m).
Proof.
  apply writes_bind; [apply writes_open_trunc|]. intros _.
  apply writes_bind; [apply writes_write_all|]. intros _.
  apply writes_bind; [apply writes_sync|]. intros _. apply writes_set_permissions.
Qed.
Lemma writes_chgrp_to r g : writes v (chgrp_to (v :: r) g).
Proof. destruct g; [apply writes_chown_group|apply writes_ret]. Qed.
End writes_rules.

Create HintDb writes.
#[export] Hint Resolve writes_ret writes_fail writes_create_dir writes_set_permissions
  writes_sync writes_write_file writes_chgrp_to writes_create_dir_all : writes.

Ltac writes_steps := repeat first [apply writes_bind; [solve [auto with writes]|intros ?] | solve [auto with writes]].

Lemma write_identity_writes umask identity modes v : writes v (write_identity umask identity modes v).
Proof. unfold write_identity. writes_steps. Qed.

Lemma write_document_writes umask s d mode doc v : writes v (write_document umask (v :: s :: d) mode doc).
Proof.
  unfold write_document, join_path. destruct (_ || _); [auto with writes|].
  set (rest := filter _ _). change ((v :: s :: d) ++ rest) with (v :: s :: (d ++ rest)).
  assert (exists q, parent (v :: s :: d ++ rest) = v :: q) as [q ->] by (simpl; eauto).
  apply writes_bind; [apply writes_create_dir_all|intros _; apply writes_write_file].
Qed.

Lemma write_policy_writes umask bundle mode v : writes v (write_policy umask bundle mode v).
Proof.
  unfold write_policy. writes_steps. apply writes_bind.
  - apply writes_each. intros doc. apply write_document_writes.
  - intros _. writes_steps.
Qed.

Lemma write_tokens_writes umask tokens modes v : writes v (write_tokens umask tokens modes v).
Proof.
  unfold write_tokens. writes_steps. apply writes_bind.
  - apply writes_each. intros [alias token]. unfold write_token. writes_steps.
  - intros _. writes_steps.
Qed.

(** *** The identity a generation holds *)

Lemma in_generation_file f g n c m gid :
  f !! [g; n] = Some (File c m gid) -> in_generation f g [n] = Ok (File c m gid).
Proof.
  intros E. unfold in_generation. change (length [n] + 37)%nat with (S 37).
  rewrite (resolve_file 37 f [g] n c m gid E). change ([g] ++ [n]) with [g; n].
  unfold mbind, result_bind. by rewrite E.
Qed.

(** The contents a process reads at a name of the volume. *)
Definition content_at (f : fs) (p : path) : option string :=
  match node_at f p with Ok (File c _ _) => Some c | _ => None end.
Definition seen_identity (f : fs) : option string * option string * option string :=
  (content_at f [KEY_FILE], content_at f [CERT_FILE], content_at f [CA_FILE]).

Lemma write_identity_Ok umask identity modes v w w' :
  write_identity umask identity modes v w = (Ok tt, w') ->
  exists m1 g1 m2 g2 m3 g3,
    wfs w' !! [v; KEY_FILE] = Some (File (key_pem identity) m1 g1) /\
    wfs w' !! [v; CERT_FILE] = Some (File (cert_chain_pem identity) m2 g2) /\
    wfs w' !! [v; CA_FILE] = Some (File (ca_pem identity) m3 g3).
Proof.
  unfold write_identity. intros ([] & w1 & [g1 E1]%write_file_Ok & H)%io_bind_Ok.
  apply io_bind_Ok in H as ([] & w2 & H2 & H).
  eapply chgrp_to_Ok in H2 as [g1' E2]; [|by rewrite E1, lookup_insert_eq].
  apply io_bind_Ok in H as ([] & w3 & [g2 E3]%write_file_Ok & H).
  apply io_bind_Ok in H as ([] & w4 & [g3 E4]%write_file_Ok & H5%syscall_Ok).
  destruct (node_at _ _); simplify_eq. rewrite <- H5, E4, E3, E2.
  do 6 eexists. split; [|split].
  - rewrite !lookup_insert_ne by done. by rewrite lookup_insert_eq.
  - rewrite lookup_insert_ne by done. by rewrite lookup_insert_eq.
  - by rewrite lookup_insert_eq.
Qed.

Lemma same_view_identity f0 f :
  same_view identity_chain f0 f -> seen_identity f = seen_identity f0.
Proof.
  intros H. unfold seen_identity, content_at. rewrite !(H _ []); [done|..];
    unfold identity_chain; cbn [c_names]; rewrite !elem_of_cons; auto.
Qed.

Definition all_of (i : Identity) : option string * option string * option string :=
  (Some (key_pem i), Some (cert_chain_pem i), Some (ca_pem i)).

Lemma new_view_identity umask identity modes f0 f :
  new_view identity_chain (write_identity umask identity modes) f0 f ->
  seen_identity f = all_of identity.
Proof.
  intros (v & fb & _ & (w & w' & _ & (m1 & g1 & m2 & g2 & m3 & g3 & E1 & E2 & E3)%write_identity_Ok & <-) & _ & Hv).
  unfold seen_identity, content_at. rewrite !(Hv _ []);
    try (unfold identity_chain; cbn [c_names]; rewrite !elem_of_cons; by auto).
  by rewrite (in_generation_file _ _ _ _ _ _ E1), (in_generation_file _ _ _ _ _ _ E2),
    (in_generation_file _ _ _ _ _ _ E3).
Qed.

(** ** The chains do not meet *)

Lemma version_of_prefix s p n : version_of s p = Some n -> exists r, s = p +:+ r.
Proof.
  unfold version_of. destruct (strip_prefix p s) as [r|] eqn:E; [|done].
  intros _. exists r. by apply strip_prefix_Some.
Qed.

(** The names a chain may write, by their shape. *)
Lemma own_name_cases c s :
  own_name c s = true ->
  s ∈ c_link c :: (c_link c +:+ "_tmp") :: c_names c \/ exists r, s = c_prefix c +:+ r.
Proof.
  unfold own_name. intros [(x & Hx & ->%String.eqb_eq)%existsb_exists|H]%orb_prop.
  - left. by apply list_elem_of_In.
  - right. destruct (version_of s _) eqn:E; [|done]. by eapply version_of_prefix.
Qed.

Ltac name_cases H :=
  apply own_name_cases in H as [H|[? ->]];
  [repeat (apply elem_of_cons in H as [->|H]); [..|by apply not_elem_of_nil in H]|].

Lemma identity_policy_apart s : own_name identity_chain s = true -> own_name policy_chain s = false.
Proof. intros H. name_cases H; reflexivity. Qed.
Lemma identity_jwt_apart s : own_name identity_chain s = true -> own_name jwt_chain s = false.
Proof. intros H. name_cases H; reflexivity. Qed.
Lemma policy_jwt_apart s : own_name policy_chain s = true -> own_name jwt_chain s = false.
Proof. intros H. name_cases H; reflexivity. Qed.

Lemma chain_stable c f f' :
  chain_wf c -> chain_ok c f -> (forall p, owns c p -> f' !! p = f !! p) ->
  chain_ok c f' /\ same_view c f f'.
Proof.
  intros Hc Hok Hs. apply before_swap_view; [done|done|]. split.
  - apply Hs, owns_top. left.
  - intros n Hn. left. apply Hs, owns_top. by right; right.
  - intros g r Hl. apply Hs. destruct Hok as [Hu|[g' Hp]]; [by rewrite (up_link _ _ Hu) in Hl|].
    rewrite (pb_link _ _ _ Hp) in Hl. injection Hl as <-.
    apply (owns_generation c g'); [apply (pb_gen _ _ _ Hp)|eauto].
Qed.

Lemma agree_other c c' f f' :
  (forall s, own_name c s = true -> own_name c' s = false) ->
  agree (owns c') f f' -> forall p, owns c p -> f' !! p = f !! p.
Proof.
  intros Hap Ha p Hp. apply Ha. intros Hp'. destruct p as [|s r]; [done|]. simpl in *.
  rewrite (Hap s Hp) in Hp'. done.
Qed.

Lemma apart_sym c c' :
  (forall s, own_name c s = true -> own_name c' s = false) ->
  forall s, own_name c' s = true -> own_name c s = false.
Proof. intros H s Hs. destruct (own_name c s) eqn:E; [|done]. rewrite H in Hs; done. Qed.

(** A volume: three chains, each with nothing published or a whole generation. *)
Record volume_ok (f : fs) : Prop := {
  vo_tree : tree_ok f;
  vo_identity : chain_ok identity_chain f;
  vo_policy : chain_ok policy_chain f;
  vo_jwt : chain_ok jwt_chain f;
}.

Lemma publish_identity_run (umask : Z) (identity : Identity) (modes : Modes)
    (f0 : fs) (faults : list (option fault)) r w' :
  volume_ok f0 ->
  publish_identity umask identity modes (mkWorld f0 faults []) = (r, w') ->
  Forall (fun f => volume_ok f /\
            (seen_identity f = seen_identity f0 \/ seen_identity f = all_of identity) /\
            same_view policy_chain f0 f /\ same_view jwt_chain f0 f) (wfs w' :: whist w') /\
  (r = Ok tt -> seen_identity (wfs w') = all_of identity).
Proof.
  intros [Ht Hi Hp Hj] E. rewrite publish_identity_chain in E.
  eapply publish_chain_run in E as [Hf Hr];
    [|apply identity_chain_wf|apply write_identity_writes|done|done].
  split; [|intros ->; by eapply new_view_identity, Hr].
  eapply Forall_impl; [exact Hf|]. intros f (Ht' & Ha & Hc & Hv).
  destruct (chain_stable policy_chain f0 f policy_chain_wf Hp) as [Hp' Sp].
  { eapply (agree_other _ identity_chain), Ha. apply apart_sym, identity_policy_apart. }
  destruct (chain_stable jwt_chain f0 f jwt_chain_wf Hj) as [Hj' Sj].
  { eapply (agree_other _ identity_chain), Ha. apply apart_sym, identity_jwt_apart. }
  split; [by split|]. split; [|done].
  destruct Hv as [Hv|Hv]; [left; by apply same_view_identity|right; by eapply new_view_identity].
Qed.

(** C9: Publishing an identity is atomic.  Whatever faults the calls meet, in
    every tree the publisher leaves behind, at every moment, a reader of
    [tls.key], [tls.crt] and [ca.crt] sees all three as before or all three
    new; the policy and token chains read exactly as before; and the volume
    stays well formed, so a crash anywhere can be recovered by publishing
    again.  When it returns normally, the new identity is what is seen. *)
Theorem publish_identity_atomic (umask : Z) (identity : Identity) (modes : Modes)
    (f0 : fs) (faults : list (option fault)) r w' :
  volume_ok f0 ->
  publish_identity umask identity modes (mkWorld f0 faults []) = (r, w') ->
  Forall (fun f => volume_ok f /\
            (seen_identity f = seen_identity f0 \/ seen_identity f = all_of identity) /\
            same_view policy_chain f0 f /\ same_view jwt_chain f0 f) (wfs w' :: whist w') /\
  (r = Ok tt -> seen_identity (wfs w') = all_of identity).
Proof. apply publish_identity_run. Qed.

Definition sample_identity : Identity := mkIdentity "KEY" "CERT" "CA".
Definition sample_modes : Modes := mkModes 416 420 (Some 1000).

Lemma empty_volume : volume_ok ∅.
Proof. split; [done|left; split; [done|by left]..]. Qed.

(** A volume with one identity published. *)
Definition published_once : fs :=
  wfs (publish_identity 18 sample_identity sample_modes (mkWorld ∅ [] [])).2.

Lemma publish_identity_atomic_witness :
  seen_identity published_once = all_of sample_identity.
Proof.
  unfold published_once.
  apply (publish_identity_atomic 18 sample_identity sample_modes ∅ []
    (publish_identity 18 sample_identity sample_modes (mkWorld ∅ [] [])).1).
  - apply empty_volume.
  - apply surjective_pairing.
  - vm_compute. reflexivity.
Defined.

(** ** What policy and token readers see *)

Definition file_of (n : option node) : option string :=
  match n with Some (File c _ _) => Some c | _ => None end.

Lemma tree_ancestor f a b n : tree_ok f -> a <> [] -> b <> [] -> f !! (a ++ b) = Some n -> f !! a = Some Dir.
Proof.
  intros [_ Ht] Ha. revert n. induction b as [|s b IH] using rev_ind; intros n Hb H; [done|].
  rewrite app_assoc in H. apply Ht in H as [H|H].
  - apply app_nil in H as [-> _]. done.
  - destruct b as [|s' b]; [by rewrite app_nil_r in H|]. by eapply IH.
Qed.

Lemma resolve_plain fuel f g a rest q :
  no_links f g -> resolve fuel f (g :: a) rest = Ok q -> q = g :: a ++ rest.
Proof.
  intros Hn. revert a rest. induction fuel as [|fuel IH]; intros a rest;
    destruct rest as [|s rest]; cbn [resolve];
    try (intros [= <-]; by rewrite app_nil_r); try (intros [=]; done).
  change ((g :: a) ++ [s]) with (g :: (a ++ [s])).
  destruct (f !! (g :: a ++ [s])) as [[c m gi| |t]|] eqn:E; try done.
  - destruct rest; [|done]. by intros [= <-].
  - intros H%IH. by rewrite <- app_assoc in H.
  - by apply Hn in E.
Qed.

Lemma resolve_there fuel f g a rest n :
  tree_ok f -> no_links f g -> (length rest <= fuel)%nat ->
  f !! (g :: a ++ rest) = Some n -> resolve fuel f (g :: a) rest = Ok (g :: a ++ rest).
Proof.
  intros Ht Hn. revert a rest. induction fuel as [|fuel IH]; intros a rest Hl H;
    destruct rest as [|s rest]; try (by rewrite app_nil_r); [simpl in Hl; lia|].
  cbn [resolve]. change ((g :: a) ++ [s]) with (g :: (a ++ [s])).
  destruct (decide (rest = [])) as [->|Hr].
  - rewrite H. destruct n as [c m gi| |t]; [done| |by apply Hn in H].
    by destruct fuel.
  - assert (f !! (g :: a ++ [s]) = Some Dir) as ->.
    { eapply (tree_ancestor f (g :: a ++ [s]) rest); [done|done|done|].
      change ((g :: a ++ [s]) ++ rest) with (g :: (a ++ [s]) ++ rest).
      rewrite <- app_assoc. exact H. }
    rewrite IH; [by rewrite <- app_assoc|simpl in Hl; lia|by rewrite <- app_assoc].
Qed.

Lemma content_in_generation f g p :
  tree_ok f -> no_links f g ->
  match in_generation f g p with Ok (File c _ _) => Some c | _ => None end = file_of (f !! (g :: p)).
Proof.
  intros Ht Hn. unfold in_generation.
  destruct (f !! (g :: p)) as [n|] eqn:E.
  - rewrite (resolve_there _ f g [] p n) by (done || lia). unfold mbind, result_bind.
    change (g :: [] ++ p) with (g :: p). by rewrite E.
  - destruct (resolve _ f [g] p) as [q|] eqn:Er; [|done].
    apply resolve_plain in Er as ->; [|done]. unfold mbind, result_bind.
    change (g :: [] ++ p) with (g :: p). by rewrite E.
Qed.

Lemma fresh_tree f0 v f : tree_ok f0 -> fresh f0 v f -> tree_ok f.
Proof. intros Ht [H0 ->]. apply tree_insert; [done|done|done|congruence]. Qed.

(** A reader's view of a published chain, in terms of what the builder wrote
    into a fresh generation. *)
Lemma new_view_content c build f0 f :
  (forall v, writes v (build v)) -> tree_ok f0 -> new_view c build f0 f ->
  exists v w w', fresh f0 v (wfs w) /\ build v w = (Ok tt, w') /\
    forall n rest, n ∈ c_names c -> content_at f (n :: rest) = file_of (wfs w' !! (v :: n :: rest)).
Proof.
  intros Hb Ht (v & fb & Hg & (w & w' & Hfr & E & <-) & _ & Hv). exists v, w, w'.
  split; [done|]. split; [done|]. intros n rest Hn. unfold content_at. rewrite Hv by done.
  pose proof (fresh_tree f0 v _ Ht Hfr) as Htw.
  pose proof (fresh_writing f0 Ht v _ Htw Hfr) as (_ & _ & _ & Hnl).
  destruct (Hb v) as [_ Kt _ Kn].
  destruct (Kt w _ w' Htw I E) as (_ & Ht' & _). destruct (Kn w _ w' Hnl I E) as (_ & Hn' & _).
  by apply content_in_generation.
Qed.

Lemma fresh_empty f0 v f s r : tree_ok f0 -> fresh f0 v f -> f !! (v :: s :: r) = None.
Proof.
  intros Ht [H0 ->]. rewrite lookup_insert_ne by done. by apply tree_absent.
Qed.

(** *** Tokens *)

Lemma write_token_Ok umask v modes kv w w' :
  write_token umask v modes kv w = (Ok tt, w') ->
  exists m g, wfs w' = <[[v; JWT_DIR; kv.1] := File kv.2 m g]> (wfs w).
Proof.
  unfold write_token. intros ([] & w1 & [g E1]%write_file_Ok & H)%io_bind_Ok.
  eapply chgrp_to_Ok in H as [g' E2]; [|by rewrite E1, lookup_insert_eq].
  rewrite E2, E1, insert_insert_eq. eauto.
Qed.

Lemma write_each_token umask v modes kvs w w' :
  io_each (write_token umask v modes) kvs w = (Ok tt, w') ->
  forall a rest, file_of (wfs w' !! (v :: JWT_DIR :: a :: rest)) =
    match rest, (list_to_map (reverse kvs) : gmap string string) !! a with
    | [], Some t => Some t
    | _, _ => file_of (wfs w !! (v :: JWT_DIR :: a :: rest))
    end.
Proof.
  revert w. induction kvs as [|[k t] kvs IH]; intros w H a rest; cbn [io_each] in H.
  { injection H as <-. by destruct rest. }
  apply io_bind_Ok in H as ([] & w1 & (m & g & E)%write_token_Ok & H).
  rewrite (IH w1 H), E. cbn [fst snd]. rewrite reverse_cons. destruct rest as [|s rest].
  - rewrite list_to_map_app, lookup_union. destruct (list_to_map (reverse kvs) !! a).
    { by destruct (list_to_map [(k, t)] !! a). }
    rewrite left_id_L by apply _. cbn [list_to_map foldr fst snd]. destruct (decide (k = a)) as [->|Hne].
    + by rewrite !lookup_insert_eq.
    + by rewrite !lookup_insert_ne by congruence.
  - by rewrite lookup_insert_ne by done.
Qed.

Lemma new_view_tokens umask tokens modes f0 f :
  tree_ok f0 -> new_view jwt_chain (write_tokens umask tokens modes) f0 f ->
  forall alias, content_at f [JWT_DIR; alias] = tokens !! alias.
Proof.
  intros Ht Hv alias. apply new_view_content in Hv as (v & w & w' & Hfr & E & Hc);
    [|apply write_tokens_writes|done].
  rewrite Hc by left. unfold write_tokens in E.
  apply io_bind_Ok in E as ([] & w1 & H1%syscall_Ok & E).
  apply io_bind_Ok in E as ([] & w2 & H2%syscall_Ok & E).
  apply io_bind_Ok in E as ([] & w3 & H3 & E).
  apply io_bind_Ok in E as ([] & w4 & H4%syscall_Ok & H5%syscall_Ok).
  destruct (node_at (wfs w3) _), (node_at (wfs w4) _); simplify_eq.
  assert (wfs w' = wfs w3) as -> by congruence.
  rewrite (write_each_token _ _ _ _ _ _ H3).
  assert (list_to_map (reverse (map_to_list tokens)) = tokens) as ->.
  { rewrite <- (list_to_map_to_list tokens) at 2. apply list_to_map_proper.
    - rewrite fmap_reverse, reverse_Permutation. apply NoDup_fst_map_to_list.
    - apply reverse_Permutation. }
  destruct (tokens !! alias); [done|]. call_cases.
  rewrite <- H2, <- H1, !lookup_insert_ne by done. by rewrite (fresh_empty f0).
Qed.

(** *** Policy documents *)

Lemma create_dir_files (f0 : fs) p :
  keeps (fun f => forall q, file_of (f !! q) = file_of (f0 !! q)) (fs_create_dir p).
Proof.
  apply keeps_syscall; [done|]. intros f a f' Hf H. call_cases. intros q.
  destruct (decide (p = q)) as [->|].
  - by rewrite lookup_insert_eq, <- Hf, Heqo.
  - by rewrite lookup_insert_ne.
Qed.

Lemma create_dir_all_files (f0 : fs) at_ rest :
  keeps (fun f => forall q, file_of (f !! q) = file_of (f0 !! q)) (create_dir_all_go at_ rest).
Proof.
  revert at_. induction rest as [|s rest IH]; intros at_; simpl; [auto with fs|].
  apply keeps_bind; [apply keeps_attempt, create_dir_files|].
  intros r. apply keeps_bind; [|auto].
  destruct r; [auto with fs|]. apply keeps_bind; [apply reads_keeps, only_is_dir|].
  intros []; auto with fs.
Qed.

Definition documents_at (d : path) (docs : list PolicyDocument) : gmap path string :=
  list_to_map (omap (fun doc => (fun p => (p, doc_content doc)) <$> join_path d (doc_name doc))
                 (reverse docs)).

Lemma write_each_document umask d mode docs w w' :
  io_each (write_document umask d mode) docs w = (Ok tt, w') ->
  forall q, file_of (wfs w' !! q) =
    match documents_at d docs !! q with Some c => Some c | None => file_of (wfs w !! q) end.
Proof.
  revert w. induction docs as [|doc docs IH]; intros w H q; cbn [io_each] in H.
  { by injection H as <-. }
  apply io_bind_Ok in H as ([] & w1 & E & H). rewrite (IH w1 H). clear IH H.
  unfold documents_at. rewrite reverse_cons, omap_app, list_to_map_app, lookup_union.
  destruct (list_to_map (omap _ (reverse docs)) !! q) as [c|]; [by destruct (list_to_map _ !! q)|].
  rewrite left_id_L by apply _. unfold write_document in E. cbn [omap list_omap].
  destruct (join_path d (doc_name doc)) as [p|] eqn:Ep; [|done]. cbn [fmap option_fmap option_map].
  apply io_bind_Ok in E as ([] & w2 & E1 & [g E2]%write_file_Ok).
  destruct (create_dir_all_files (wfs w) [] (parent p) w _ w2 (fun q => eq_refl) I E1) as (_ & Hf & _).
  rewrite E2. cbn [list_to_map foldr fst snd]. destruct (decide (p = q)) as [->|Hne].
  - by rewrite !lookup_insert_eq.
  - by rewrite !lookup_insert_ne, Hf by congruence.
Qed.

Definition seen_policy (f : fs) (q : path) : option string := content_at f (POLICY_DIR :: q).

Lemma join_path_base v s name : join_path [v; s] name = (fun r => v :: s :: r) <$> join_path [] name.
Proof. unfold join_path. by case_match. Qed.

Lemma documents_at_base v s docs q :
  documents_at [v; s] docs !! (v :: s :: q) = documents_at [] docs !! q.
Proof.
  unfold documents_at. induction (reverse docs) as [|doc ds IH]; [done|]. cbn [omap list_omap].
  rewrite (join_path_base v s (doc_name doc)).
  destruct (join_path [] (doc_name doc)) as [r|]; [|exact IH].
  cbn [fmap option_fmap option_map list_to_map foldr fst snd].
  destruct (decide (r = q)) as [->|Hne]; [by rewrite !lookup_insert_eq|].
  rewrite !lookup_insert_ne by congruence. exact IH.
Qed.

Lemma new_view_policy umask bundle mode f0 f :
  tree_ok f0 -> new_view policy_chain (write_policy umask bundle mode) f0 f ->
  (forall q, seen_policy f q = documents_at [] (documents bundle) !! q) /\
  content_at f [REVISION_FILE] = Some (revision bundle +:+ newline).
Proof.
  intros Ht Hv. apply new_view_content in Hv as (v & w & w' & Hfr & E & Hc);
    [|apply write_policy_writes|done].
  unfold write_policy in E.
  apply io_bind_Ok in E as ([] & w1 & H1%syscall_Ok & E).
  apply io_bind_Ok in E as ([] & w2 & H2%syscall_Ok & E).
  apply io_bind_Ok in E as ([] & w3 & H3 & E).
  apply io_bind_Ok in E as ([] & w4 & [g H4]%write_file_Ok & H5%syscall_Ok).
  destruct (node_at (wfs w4) _); simplify_eq.
  assert (wfs w' = wfs w4) as Ew by congruence. split.
  - intros q. unfold seen_policy. rewrite Hc by left. rewrite Ew, H4, lookup_insert_ne by done.
    rewrite (write_each_document _ _ _ _ _ _ H3), documents_at_base.
    destruct (documents_at [] _ !! q); [done|].
    assert (wfs w1 = <[[v; POLICY_DIR] := Dir]> (wfs w)) as E1 by (clear H2; by call_cases).
    rewrite E1, lookup_insert_eq in H2. injection H2 as <-.
    destruct q as [|s q]; [by rewrite lookup_insert_eq|].
    rewrite !lookup_insert_ne by done. by rewrite (fresh_empty f0).
  - rewrite Hc by (right; left). by rewrite Ew, H4, lookup_insert_eq.
Qed.

Lemma publish_policy_run (umask : Z) (bundle : PolicyBundle) (mode : Z)
    (f0 : fs) (faults : list (option fault)) r w' :
  volume_ok f0 ->
  publish_policy umask bundle mode (mkWorld f0 faults []) = (r, w') ->
  let new f := (forall q, seen_policy f q = documents_at [] (documents bundle) !! q) /\
               content_at f [REVISION_FILE] = Some (revision bundle +:+ newline) in
  Forall (fun f => volume_ok f /\ (same_view policy_chain f0 f \/ new f) /\
            same_view identity_chain f0 f /\ same_view jwt_chain f0 f) (wfs w' :: whist w') /\
  (r = Ok tt -> new (wfs w')).
Proof.
  intros [Ht Hi Hp Hj] E new. rewrite publish_policy_chain in E.
  eapply publish_chain_run in E as [Hf Hr];
    [|apply policy_chain_wf|apply write_policy_writes|done|done].
  split; [|intros ->; by eapply new_view_policy, Hr].
  eapply Forall_impl; [exact Hf|]. intros f (Ht' & Ha & Hc & Hv).
  destruct (chain_stable identity_chain f0 f identity_chain_wf Hi) as [Hi' Si].
  { eapply (agree_other _ policy_chain), Ha. apply identity_policy_apart. }
  destruct (chain_stable jwt_chain f0 f jwt_chain_wf Hj) as [Hj' Sj].
  { eapply (agree_other _ policy_chain), Ha. apply apart_sym, policy_jwt_apart. }
  split; [by split|]. split; [|done].
  destruct Hv as [Hv|Hv]; [by left|right; exact (new_view_policy _ _ _ f0 f Ht Hv)].
Qed.

(** Publishing policy is atomic, complete and independent.  Whatever faults
    the calls meet, in every tree the publisher leaves behind a reader of
    [policy/] and [policy.revision] sees everything as before or everything
    new, and the identity and token chains read exactly as before.  When it
    returns normally the readers find exactly the documents of the bundle, by
    path, with no document of an older bundle left over. *)
Theorem publish_policy_atomic (umask : Z) (bundle : PolicyBundle) (mode : Z)
    (f0 : fs) (faults : list (option fault)) r w' :
  volume_ok f0 ->
  publish_policy umask bundle mode (mkWorld f0 faults []) = (r, w') ->
  let new f := (forall q, seen_policy f q = documents_at [] (documents bundle) !! q) /\
               content_at f [REVISION_FILE] = Some (revision bundle +:+ newline) in
  Forall (fun f => volume_ok f /\ (same_view policy_chain f0 f \/ new f) /\
            same_view identity_chain f0 f /\ same_view jwt_chain f0 f) (wfs w' :: whist w') /\
  (r = Ok tt -> new (wfs w')).
Proof. apply publish_policy_run. Qed.

Lemma publish_tokens_run (umask : Z) (tokens : gmap string string) (modes : Modes)
    (f0 : fs) (faults : list (option fault)) r w' :
  volume_ok f0 ->
  publish_tokens umask tokens modes (mkWorld f0 faults []) = (r, w') ->
  let new f := forall alias, content_at f [JWT_DIR; alias] = tokens !! alias in
  (existsb bad_alias (map_to_list tokens).*1 = true -> r = Err InvalidInput /\ whist w' = []) /\
  Forall (fun f => volume_ok f /\ (same_view jwt_chain f0 f \/ new f) /\
            same_view identity_chain f0 f /\ same_view policy_chain f0 f) (wfs w' :: whist w') /\
  (r = Ok tt -> new (wfs w')).
Proof.
  intros Hvol E new. unfold publish_tokens in E. destruct (existsb _ _).
  { injection E as <- <-. split; [done|]. split; [|done]. constructor; [|constructor]. simpl.
    split; [done|]. split; [left; by intros n|]. split; by intros n. }
  destruct Hvol as [Ht Hi Hp Hj]. split; [done|]. rewrite publish_tokens_chain in E.
  eapply publish_chain_run in E as [Hf Hr];
    [|apply jwt_chain_wf|apply write_tokens_writes|done|done].
  split; [|intros ->; exact (new_view_tokens _ _ _ f0 _ Ht (Hr eq_refl))].
  eapply Forall_impl; [exact Hf|]. intros f (Ht' & Ha & Hc & Hv).
  destruct (chain_stable identity_chain f0 f identity_chain_wf Hi) as [Hi' Si].
  { eapply (agree_other _ jwt_chain), Ha. apply identity_jwt_apart. }
  destruct (chain_stable policy_chain f0 f policy_chain_wf Hp) as [Hp' Sp].
  { eapply (agree_other _ jwt_chain), Ha. apply policy_jwt_apart. }
  split; [by split|]. split; [|done].
  destruct Hv as [Hv|Hv]; [by left|right; exact (new_view_tokens _ _ _ f0 f Ht Hv)].
Qed.

(** publishing tokens is atomic, exact and independent.  A set with an alias
    that is not a plain file name is refused before anything is touched.
    Otherwise, whatever faults the calls meet, in every tree left behind a
    reader of [jwt/] sees all tokens as before or exactly the new set, so an
    alias that is no longer granted is gone, and the other two chains read
    exactly as before; a normal return means the new set is in place. *)
Theorem publish_tokens_atomic (umask : Z) (tokens : gmap string string) (modes : Modes)
    (f0 : fs) (faults : list (option fault)) r w' :
  volume_ok f0 ->
  publish_tokens umask tokens modes (mkWorld f0 faults []) = (r, w') ->
  let new f := forall alias, content_at f [JWT_DIR; alias] = tokens !! alias in
  (existsb bad_alias (map_to_list tokens).*1 = true -> r = Err InvalidInput /\ whist w' = []) /\
  Forall (fun f => volume_ok f /\ (same_view jwt_chain f0 f \/ new f) /\
            same_view identity_chain f0 f /\ same_view policy_chain f0 f) (wfs w' :: whist w') /\
  (r = Ok tt -> new (wfs w')).
Proof. apply publish_tokens_run. Qed.

Definition sample_bundle : PolicyBundle :=
  mkBundle "sha256:ab" [mkDocument "rules.toml" "allow"; mkDocument "docs/app.toml" "x = 1"].

Lemma publish_policy_atomic_witness :
  let f := wfs (publish_policy 18 sample_bundle 420 (mkWorld ∅ [] [])).2 in
  seen_policy f ["docs"; "app.toml"] = Some "x = 1" /\ seen_policy f ["old.toml"] = None /\
  content_at f [REVISION_FILE] = Some (revision sample_bundle +:+ newline).
Proof.
  destruct (publish_policy_atomic 18 sample_bundle 420 ∅ []
    (publish_policy 18 sample_bundle 420 (mkWorld ∅ [] [])).1
    (publish_policy 18 sample_bundle 420 (mkWorld ∅ [] [])).2 empty_volume
    (surjective_pairing _)) as [_ H].
  destruct (H ltac:(vm_compute; reflexivity)) as [Hq Hr].
  split; [rewrite Hq; vm_compute; reflexivity|].
  split; [rewrite Hq; vm_compute; reflexivity|exact Hr].
Defined.

Definition sample_tokens : gmap string string := {[ "vault" := "tok1"; "s3" := "tok2" ]}.

Lemma publish_tokens_atomic_witness :
  content_at (wfs (publish_tokens 18 sample_tokens sample_modes (mkWorld ∅ [] [])).2)
    [JWT_DIR; "s3"] = Some "tok2".
Proof.
  rewrite (proj2 (proj2 (publish_tokens_atomic 18 sample_tokens sample_modes ∅ []
    (publish_tokens 18 sample_tokens sample_modes (mkWorld ∅ [] [])).1
    (publish_tokens 18 sample_tokens sample_modes (mkWorld ∅ [] [])).2
    empty_volume (surjective_pairing _))) ltac:(vm_compute; reflexivity)).
  vm_compute. reflexivity.
Defined.

(** ** Secrets are never readable by more than their mode allows *)

Section secrets.
Context (secret : path -> Prop) (mode : Z) (f0 : fs).

(** A secret file has no permission bit outside [mode], unless it was already
    there with the one it has. *)
Definition confined (f : fs) : Prop :=
  forall p c m g, secret p -> f !! p = Some (File c m g) ->
    Z.ldiff m mode = 0 \/ exists c' g', f0 !! p = Some (File c' m g').

Lemma confined_only {A : Type} (m : io A) : only (fun p => ~ secret p) m -> keeps confined m.
Proof.
  intros Hm. eapply keeps_stable; [exact Hm|]. intros f f' Hf Ha p c n g Hs H.
  rewrite Ha in H by tauto. eauto.
Qed.

Lemma confined_insert f p c m g :
  confined f -> (Z.ldiff m mode = 0 \/ exists c' g', f !! p = Some (File c' m g')) ->
  confined (<[p := File c m g]> f).
Proof.
  intros Hf Hm q c' m' g' Hs H. destruct (decide (p = q)) as [->|Hne].
  - rewrite lookup_insert_eq in H. simplify_eq. destruct Hm as [?|(c1 & g1 & E)]; [by left|].
    by eapply Hf.
  - rewrite lookup_insert_ne in H by done. eauto.
Qed.

Lemma confined_other (f : fs) p n :
  confined f -> (forall c m g, n <> File c m g) -> confined (<[p := n]> f).
Proof.
  intros Hf Hn q c m g Hs H. destruct (decide (p = q)) as [->|].
  - rewrite lookup_insert_eq in H. injection H as ->. by destruct (Hn c m g).
  - rewrite lookup_insert_ne in H by done. eauto.
Qed.

Lemma confined_write_file umask p c : keeps confined (write_file umask p c mode).
Proof.
  assert (forall c f, confined f -> confined (set_content p c f)) as Hsc.
  { intros c' f Hf. unfold set_content. repeat case_match; try done. apply confined_insert; eauto. }
  assert (Z.ldiff mode mode = 0) as Hmm.
  { apply Z.bits_inj'. intros n Hn. rewrite Z.ldiff_spec, Z.bits_0. by destruct (Z.testbit mode n). }
  unfold write_file. apply keeps_bind; [|intros _; apply keeps_bind; [|intros _; apply keeps_bind]].
  - apply keeps_syscall; [done|]. intros f a f' Hf H. call_cases; apply confined_insert; eauto.
    left. apply Z.bits_inj'. intros n Hn. rewrite !Z.ldiff_spec, Z.bits_0.
    by destruct (Z.testbit mode n), (Z.testbit umask n).
  - apply keeps_syscall; [auto|]. intros f a f' Hf [= _ <-]. auto.
  - apply reads_keeps. intros g0. apply only_sync.
  - intros _. apply keeps_syscall; [done|]. intros f a f' Hf H. call_cases.
    destruct n as [c0 m0 g0| |t]; cbn [chmod_node].
    + apply confined_insert; [done|by left].
    + apply confined_other; [done|done].
    + apply confined_other; [done|done].
Qed.

Lemma confined_chgrp_to p g : keeps confined (chgrp_to p g).
Proof.
  destruct g as [g|]; [|apply keeps_ret]. apply keeps_syscall; [done|].
  intros f a f' Hf H. call_cases. apply confined_insert; eauto.
Qed.

Lemma confined_remove_stale prefix keep : keeps confined (remove_stale_versions prefix keep).
Proof.
  assert (forall (f : fs) (K : path -> bool), confined f -> confined (filter (fun kv => K kv.1 = true) f)) as Hf.
  { intros f K Hf p c m g Hs [H _]%map_lookup_filter_Some. eauto. }
  apply keeps_bind; [apply reads_keeps; intros g0; apply only_read_dir|].
  intros names. apply keeps_each. intros name _. case_match; [|auto with fs].
  case_match; [|auto with fs]. apply keeps_bind; [|auto with fs]. apply keeps_attempt, keeps_syscall.
  - intros f ft Hc. apply (Hf f (left_behind ft [name])), Hc.
  - intros f a f' Hc Hk. call_cases; intros p c m g Hs [Hp _]%map_lookup_filter_Some; eauto.
Qed.

Context (Htop : forall s, ~ secret [s]).

Lemma confined_links c names : keeps confined (io_each (fun n => link n (via c n)) names).
Proof.
  apply keeps_each. intros n _. apply keeps_bind.
  - apply keeps_attempt, reads_keeps. intros g0. apply only_symlink_metadata.
  - intros [|]; [apply keeps_ret|]. apply confined_only, only_symlink. auto.
Qed.

Lemma confined_swap l prefix version : keeps confined (swap l prefix version).
Proof.
  unfold swap. apply keeps_bind; [apply keeps_attempt, confined_only, only_remove_file; auto|].
  intros _. eapply (hoare_bind _ _ _ (fun _ f => exists t, f !! [l +:+ "_tmp"] = Some (Link t))).
  - apply hoare_syscall; [by intros|]. intros f Hf _. destruct (f !! _) eqn:E; [done|]. simpl.
    rewrite lookup_insert_eq. split; [by apply confined_other|eauto].
  - intros []. apply hoare_syscall; [by intros|]. intros f Hf [t E]. rewrite E.
    assert (confined (<[[l] := Link t]> (delete [l +:+ "_tmp"] f))) as Hc.
    { apply confined_other; [|done]. intros p c m g Hs [_ H]%lookup_delete_Some. eauto. }
    simpl. destruct (f !! [l]) as [[]|]; auto.
Qed.

Lemma confined_publish c build :
  (forall v, keeps confined (build v)) -> keeps confined (publish_chain c build).
Proof.
  intros Hb. unfold publish_chain, next_version, finish.
  apply keeps_bind.
  { apply keeps_bind; [|intros; apply keeps_ret].
    apply keeps_attempt, reads_keeps. intros g0. apply only_read_dir. }
  intros version. apply keeps_bind; [apply confined_only, only_create_dir; auto|].
  intros _. apply keeps_bind; [apply confined_only, only_set_permissions; auto|].
  intros _. apply keeps_bind; [apply Hb|].
  intros _. apply keeps_bind; [apply confined_links|].
  intros _. apply keeps_bind; [apply confined_swap|].
  intros _. apply keeps_bind; [apply reads_keeps; intros g0; apply only_sync|].
  intros _. apply confined_remove_stale.
Qed.
End secrets.

Definition key_file (p : path) : Prop := exists g, p = [g; KEY_FILE].
Definition token_file (p : path) : Prop := exists g a, p = [g; JWT_DIR; a].

Lemma confined_identity umask identity modes f0 v :
  keeps (confined key_file (mode_key modes) f0) (write_identity umask identity modes v).
Proof.
  assert (forall n c m, n <> KEY_FILE ->
    keeps (confined key_file (mode_key modes) f0) (write_file umask [v; n] c m)) as Hw.
  { intros n c m Hn. apply confined_only.
    assert (~ key_file [v; n]) as Hs by (intros [g [= _ ->]]; done).
    intros g0. apply keeps_bind; [by apply only_open_trunc|]. intros _.
    apply keeps_bind; [by apply only_write_all|]. intros _.
    apply keeps_bind; [apply only_sync|]. intros _. by apply only_set_permissions. }
  apply keeps_bind; [apply confined_write_file|]. intros _.
  apply keeps_bind; [apply confined_chgrp_to|]. intros _.
  apply keeps_bind; [by apply Hw|]. intros _. apply keeps_bind; [by apply Hw|]. intros _.
  apply reads_keeps. intros g0. apply only_sync.
Qed.

Lemma confined_tokens umask tokens modes f0 v :
  keeps (confined token_file (mode_key modes) f0) (write_tokens umask tokens modes v).
Proof.
  assert (~ token_file [v; JWT_DIR]) as Hs by (by intros (g & a & ?)).
  apply keeps_bind; [by apply confined_only, only_create_dir|]. intros _.
  apply keeps_bind; [by apply confined_only, only_set_permissions|]. intros _.
  apply keeps_bind; [apply keeps_each; intros kv _; apply keeps_bind;
                     [apply confined_write_file|intros _; apply confined_chgrp_to]|].
  intros _. apply keeps_bind; [|intros _]; apply reads_keeps; intros g0; apply only_sync.
Qed.

(** C21: Secrets are born with their final mode.  From any volume and with any
    faults, in every tree that publishing an identity or tokens leaves behind,
    at every moment of the write, a [tls.key] or token file carries no
    permission bit that the configured key mode does not, whatever the umask;
    files of earlier generations keep the mode they had. *)
Theorem secrets_confined (umask : Z) (identity : Identity) (tokens : gmap string string)
    (modes : Modes) (f0 : fs) (faults : list (option fault)) :
  let wi := (publish_identity umask identity modes (mkWorld f0 faults [])).2 in
  let wt := (publish_tokens umask tokens modes (mkWorld f0 faults [])).2 in
  Forall (confined key_file (mode_key modes) f0) (wfs wi :: whist wi) /\
  Forall (confined token_file (mode_key modes) f0) (wfs wt :: whist wt).
Proof.
  assert (forall secret, confined secret (mode_key modes) f0 f0) as H0.
  { intros secret p c m g _ H. right. eauto. }
  split.
  - eapply keeps_run; [|apply (H0 key_file)|apply surjective_pairing].
    rewrite publish_identity_chain. apply confined_publish; [by intros s [g ?]|].
    intros v. apply confined_identity.
  - eapply keeps_run; [|apply (H0 token_file)|apply surjective_pairing].
    unfold publish_tokens. case_match; [apply keeps_fail|].
    rewrite publish_tokens_chain. apply confined_publish; [by intros s (g & a & ?)|].
    intros v. apply confined_tokens.
Qed.


(** ** Publishing succeeds when the calls do *)

Lemma highest_bound names prefix s n :
  s ∈ names -> version_of s prefix = Some n -> n <= highest names prefix.
Proof.
  intros Hs Hn. induction names as [|x names IH]; [by apply not_elem_of_nil in Hs|].
  apply elem_of_cons in Hs as [<-|Hs]; cbn [highest foldr].
  - rewrite Hn. lia.
  - specialize (IH Hs). unfold highest in IH. destruct (version_of x prefix); lia.
Qed.

Lemma highest_nonneg names prefix : 0 <= highest names prefix.
Proof.
  induction names as [|x names IH]; [done|]. cbn [highest foldr]. unfold highest in IH.
  destruct (version_of x prefix); lia.
Qed.

Section success.
Context (c : chain) (Hc : chain_wf c) (build : string -> io unit) (Hb : forall v, writes v (build v)).
Context (Htotal : forall v, total (fun f => tree_ok f /\ f !! [v] = Some Dir /\
  forall s r, f !! (v :: s :: r) = None) (build v) (fun _ _ => True)).
Context (f0 : fs) (Htree : tree_ok f0) (Hok : chain_ok c f0).
Context (Hroom : highest (children f0 []) (c_prefix c) < u64_max) (Htmp : f0 !! [tmp c] <> Some Dir).

Lemma total_next_version :
  total (fun f => f = f0) (next_version (c_prefix c))
    (fun v f => f = f0 /\ 0 <= v <= u64_max /\ f0 !! [generation (c_prefix c) v] = None).
Proof.
  unfold next_version. eapply (total_bind _ _ (fun r f => f = f0 /\ r = Ok (children f0 []))).
  { apply total_attempt. intros f ->. simpl. done. }
  intros r. apply total_ret. intros f [-> ->]. split; [done|].
  pose proof (highest_nonneg (children f0 []) (c_prefix c)).
  rewrite wrap_small by (unfold u64_max in *; lia). split; [unfold u64_max in *; lia|].
  apply eq_None_not_Some. intros [n E]. apply elem_of_children in E.
  eapply highest_bound in E; [|apply version_of_generation; unfold u64_max in *; lia]. lia.
Qed.

(** Linking, from a tree where the name of the new data link is free to use. *)
Definition linkable (fb f : fs) : Prop := linking c fb f /\ f !! [tmp c] <> Some Dir.

Lemma link_not_dir q n t : keeps (fun f : fs => f !! q <> Some Dir) (link n t).
Proof.
  apply keeps_bind; [apply keeps_attempt, reads_keeps; intros g0; apply only_symlink_metadata|].
  intros [|]; [apply keeps_ret|]. apply keeps_syscall; [done|]. intros f a f' Hf H. call_cases.
  destruct (decide ([n] = q)) as [<-|]; [by rewrite lookup_insert_eq|by rewrite lookup_insert_ne].
Qed.

Lemma total_link fb n :
  n ∈ c_names c ->
  total (linkable fb) (link n (via c n)) (fun _ f => linkable fb f /\ is_Some (f !! [n])).
Proof.
  intros Hn w Hw [Hl Ht].
  assert (exists w', link n (via c n) w = (Ok tt, w') /\ wfaults w' = []) as (w' & E & Hw').
  { unfold link, attempt, fs_symlink_metadata, fs_symlink, mbind, io_bind, syscall. rewrite Hw.
    destruct (wfs w !! [n]) eqn:En; [by eexists|]. cbn [wfaults tail wfs]. rewrite En.
    by eexists. }
  exists tt, w'. split; [done|]. split; [done|].
  destruct (hoare_link c fb n [] Hn w (Ok tt) w' Hl) as (_ & Hl' & Hs); [by intros m ?%not_elem_of_nil|done|].
  destruct (link_not_dir [tmp c] n (via c n) w _ w' Ht I E) as (_ & Ht' & _).
  split; [done|]. apply Hs. left.
Qed.

Lemma total_links fb names before :
  (forall n, n ∈ names -> n ∈ c_names c) ->
  total (fun f => linkable fb f /\ forall m, m ∈ before -> is_Some (f !! [m]))
    (io_each (fun n => link n (via c n)) names)
    (fun _ f => linkable fb f /\ forall m, m ∈ names ++ before -> is_Some (f !! [m])).
Proof.
  intros Hin w Hw [Hl Hb0].
  destruct (total_each (linkable fb) (fun n => link n (via c n)) names) with (w := w)
    as (a & w' & E & Hw' & Hl'); [|done|done|].
  { intros n Hn. eapply total_conseq; [| |by apply total_link, Hin]; [done|]. by intros a f []. }
  exists a, w'. split; [done|]. split; [done|]. split; [done|].
  destruct (hoare_links c fb names before Hin w _ w' (proj1 Hl) Hb0 E) as (_ & _ & Hs).
  exact Hs.
Qed.

Lemma total_swap fb version :
  fb !! [c_link c] <> Some Dir ->
  total (fun f => ready c fb f /\ f !! [tmp c] <> Some Dir) (swap (c_link c) (c_prefix c) version)
    (fun _ _ => True).
Proof.
  intros Hfb. unfold swap. fold (tmp c).
  assert (tmp c <> c_link c) as Hne.
  { intros E. pose proof (cw_fresh c Hc) as [Hn _]%NoDup_cons. apply Hn. apply elem_of_cons.
    left. symmetry. exact E. }
  eapply (total_bind _ _ (fun _ f => f !! [tmp c] = None /\ f !! [c_link c] <> Some Dir)).
  { apply total_attempt. intros f [[(_ & Ha & _) _] Ht].
    assert (f !! [c_link c] <> Some Dir) as Hl.
    { rewrite Ha; [done|]. apply linked_at_apart; [done|left]. }
    destruct (f !! [tmp c]) as [[]|] eqn:E; try done;
      (rewrite lookup_delete_eq, lookup_delete_ne by congruence; done). }
  intros _. eapply (total_bind _ _ (fun _ f => f !! [tmp c] = Some (Link (generation (c_prefix c) version))
    /\ f !! [c_link c] <> Some Dir)).
  { apply total_syscall. intros f [-> Hl]. simpl. eexists _, _. split; [done|].
    rewrite lookup_insert_eq, lookup_insert_ne by congruence. done. }
  intros []. apply total_syscall. intros f [-> Hl]. simpl.
  destruct (f !! [c_link c]) as [[]|]; try done; eauto.
Qed.

Lemma total_remove_stale prefix keep :
  total (fun _ => True) (remove_stale_versions prefix keep) (fun _ _ => True).
Proof.
  eapply (total_bind _ _ (fun _ _ => True)).
  { apply total_syscall. intros f _. simpl. eauto. }
  intros names. apply total_each. intros name _. case_match; [|by apply total_ret].
  case_match; [|by apply total_ret]. eapply (total_bind _ _ (fun _ _ => True)); [|by intros; apply total_ret].
  apply total_attempt. intros f _. by repeat case_match.
Qed.

Lemma total_finish version :
  let v := generation (c_prefix c) version in
  is_generation c v ->
  total (fun fb => f0 !! [v] = None /\ writing f0 v fb /\ built build f0 v fb) (finish c version) (fun _ _ => True).
Proof.
  intros v Hv w Hw (H0 & Hwr & Hbt). set (fb := wfs w) in *.
  destruct (writing_pre c Hc f0 Hok v fb Hv H0 Hwr) as (_ & _ & [Bl _ _]).
  assert (fb !! [c_link c] <> Some Dir) as Hl.
  { rewrite Bl. destruct Hok as [Hu|[g Hp]]; [by rewrite (up_link _ _ Hu)|by rewrite (pb_link _ _ _ Hp)]. }
  assert (fb !! [tmp c] = f0 !! [tmp c]) as Et.
  { apply (writing_other f0 v fb); [apply Hwr|]. apply (own_apart c); [done|apply Hv|right; left]. }
  assert (total (fun f => linkable fb f /\ forall m, m ∈ ([] : list string) -> is_Some (f !! [m]))
    (finish c version) (fun _ _ => True)) as H.
  { unfold finish. eapply total_bind; [by apply total_links|]. intros [].
    apply (total_bind _ _ (fun _ _ => True)); [|intros []; apply (total_bind _ _ (fun _ _ => True));
      [|intros []; apply total_remove_stale]].
    - eapply total_conseq; [| |by apply (total_swap fb)]; [|done].
      intros f [[Hlf Ht] Hall]. split; [|done]. split; [done|]. intros m Hm. apply Hall.
      by rewrite app_nil_r.
    - apply total_syscall. intros f _. simpl. eauto. }
  apply (H w Hw). split; [|by intros m ?%not_elem_of_nil]. split; [|fold fb; by rewrite Et].
  split; [apply Hwr|]. split; [apply agree_refl|]. auto.
Qed.

Lemma publish_chain_total :
  exists w', publish_chain c build (mkWorld f0 [] []) = (Ok tt, w') /\ new_view c build f0 (wfs w').
Proof.
  assert (total (fun f => f = f0) (publish_chain c build) (fun _ _ => True)) as H.
  { unfold publish_chain. eapply total_bind; [apply total_next_version|]. intros version.
    intros w Hw (Hf & Hr & H0). revert w Hw Hf.
    pose proof (version_is_generation c Hc version Hr) as Hv.
    set (v := generation (c_prefix c) version) in *.
    enough (total (fun f => f = f0)
      ((_ ← fs_create_dir [v]; _ ← fs_set_permissions [v] 493; build v) ≫= fun _ => finish c version)
      (fun _ _ => True)) as Hgo.
    { intros w Hw Hf. destruct (Hgo w Hw Hf) as (a & w' & E & Hrest). exists a, w'.
      split; [|done]. rewrite <- E. unfold mbind, io_bind.
      destruct (fs_create_dir _ w) as [[[]|e] w1]; [|done].
      by destruct (fs_set_permissions _ _ w1) as [[[]|e] w2]. }
    eapply total_bind.
    - eapply (total_hoare _ (consistent c build f0) (fun f => f = f0) _ (fun _ _ => True));
        [| |by apply (hoare_build c Hc build Hb f0 Htree Hok version Hr)].
      + eapply (total_bind _ _ (fun _ => fresh f0 v)).
        { apply total_syscall. intros f ->. rewrite H0. simpl. eexists _, _. split; [done|]. by split. }
        intros []. eapply (total_bind _ _ (fun _ => fresh f0 v)).
        { apply total_syscall. intros f [_ ->]. rewrite lookup_insert_eq. simpl.
          rewrite insert_insert_eq. eexists _, _. split; [done|]. by split. }
        intros []. eapply total_conseq; [| |apply Htotal]; [|done].
        intros f Hfr. split; [by eapply fresh_tree|]. split; [|intros; by eapply fresh_empty].
        destruct Hfr as [_ ->]. by rewrite lookup_insert_eq.
      + intros f ->. split; [by apply start_consistent|done].
    - intros []. eapply total_conseq; [| |by apply total_finish]; [|done]. by intros f (_ & _ & ?). }
  destruct (H (mkWorld f0 [] []) eq_refl eq_refl) as ([] & w' & E & _). exists w'. split; [done|].
  eapply publish_chain_run in E as [_ Hv]; [by apply Hv|done..].
Qed.
End success.

Record plain (v : string) (f : fs) : Prop := {
  pl_tree : tree_ok f;
  pl_links : no_links f v;
  pl_dir : f !! [v] = Some Dir;
}.

Lemma plain_insert v f r c m g :
  plain v f -> r <> [] -> is_dir f (parent (v :: r)) = true -> f !! (v :: r) <> Some Dir ->
  plain v (<[v :: r := File c m g]> f).
Proof.
  intros [Ht Hn Hd] Hr Hp Hv. split; [by apply tree_insert|by apply no_links_insert|].
  rewrite lookup_insert_ne; [done|]. by destruct r.
Qed.

Lemma node_at_plain v f r n : plain v f -> f !! (v :: r) = Some n -> node_at f (v :: r) = Ok n.
Proof.
  intros [Ht Hn Hd] H. unfold node_at, link_fuel.
  change (length (v :: r) + 40)%nat with (S (length r + 40)).
  rewrite resolve_dir by done. change ([] ++ [v]) with [v].
  rewrite (resolve_there _ f v [] r n) by (done || lia). unfold mbind, result_bind.
  change (v :: [] ++ r) with (v :: r). by rewrite H.
Qed.

(** One call without faults. *)
Lemma syscall_runs {A : Type} partial (ok : fs -> result IoKind (A * fs)) w a f' :
  wfaults w = [] -> ok (wfs w) = Ok (a, f') ->
  syscall partial ok w = (Ok a, mkWorld f' [] (f' :: whist w)).
Proof. intros Hw E. unfold syscall. by rewrite Hw, E. Qed.

Lemma bind_runs {A B : Type} (m : io A) (k : A -> io B) w a w1 : m w = (Ok a, w1) -> (m ≫= k) w = k a w1.
Proof. intros E. unfold mbind, io_bind. by rewrite E. Qed.

Lemma write_file_runs umask v r c mode w :
  wfaults w = [] -> plain v (wfs w) -> r <> [] -> is_dir (wfs w) (parent (v :: r)) = true ->
  (wfs w !! (v :: r) = None \/ exists c0 m0 g0, wfs w !! (v :: r) = Some (File c0 m0 g0)) ->
  exists w' g, write_file umask (v :: r) c mode w = (Ok tt, w') /\ wfaults w' = [] /\
    wfs w' = <[v :: r := File c mode g]> (wfs w).
Proof.
  intros Hw Hp Hr Hd Hn. set (p := v :: r) in *. unfold write_file.
  assert (exists m g, match wfs w !! p with
    | Some (File _ m g) => Ok (tt, <[p := File "" m g]> (wfs w))
    | Some _ => Err OtherIo
    | None => if is_dir (wfs w) (parent p) then Ok (tt, <[p := File "" (Z.ldiff mode umask) None]> (wfs w))
              else Err NotFound
    end = Ok (tt, <[p := File "" m g]> (wfs w))) as (m & g & E1).
  { destruct Hn as [->|(c0 & m0 & g0 & ->)]; rewrite ?Hd; eauto. }
  erewrite bind_runs; [|apply syscall_runs; [done|exact E1]].
  erewrite bind_runs; [|apply syscall_runs; [done|reflexivity]].
  cbn [wfs wfaults whist]. unfold set_content. rewrite lookup_insert_eq, insert_insert_eq.
  assert (wfs w !! p <> Some Dir) as Hnd by (destruct Hn as [->|(?&?&?&->)]; done).
  pose proof (plain_insert v (wfs w) r c m g Hp Hr Hd Hnd) as Hp'.
  assert (node_at (<[p := File c m g]> (wfs w)) p = Ok (File c m g)) as En.
  { apply (node_at_plain v); [exact Hp'|apply lookup_insert_eq]. }
  erewrite bind_runs; [|apply syscall_runs; [done|]].
  2: { cbn [wfs]. rewrite En. reflexivity. }
  eexists _, g. split; [apply syscall_runs; [done|]|].
  - cbn [wfs]. rewrite lookup_insert_eq. reflexivity.
  - split; [done|]. cbn [wfs chmod_node]. by rewrite insert_insert_eq.
Qed.

Lemma chgrp_to_runs p gid c m g w :
  wfaults w = [] -> wfs w !! p = Some (File c m g) ->
  exists w' g', chgrp_to p gid w = (Ok tt, w') /\ wfaults w' = [] /\
    wfs w' = <[p := File c m g']> (wfs w).
Proof.
  intros Hw Hp. destruct gid as [gid|]; cbn [chgrp_to].
  - eexists _, _. split; [apply syscall_runs; [done|]|]; [by rewrite Hp|done].
  - exists w, g. split; [done|]. split; [done|]. by rewrite insert_id.
Qed.

(** Writing one more file into a directory of a generation, and giving it to
    the group. *)
Lemma write_runs umask v d n c mode gid w :
  wfaults w = [] -> plain v (wfs w) -> is_dir (wfs w) (v :: d) = true -> wfs w !! (v :: d ++ [n]) = None ->
  exists w' g,
    (_ ← write_file umask (v :: d ++ [n]) c mode; chgrp_to (v :: d ++ [n]) gid) w = (Ok tt, w') /\
    wfaults w' = [] /\ wfs w' = <[v :: d ++ [n] := File c mode g]> (wfs w) /\ plain v (wfs w').
Proof.
  intros Hw Hp Hd Hn. assert (d ++ [n] <> []) as Hne by (by destruct d).
  assert (parent (v :: d ++ [n]) = v :: d) as Epar by apply (parent_snoc (v :: d) n).
  destruct (write_file_runs umask v (d ++ [n]) c mode w Hw Hp Hne) as (w1 & g & E1 & Hw1 & F1);
    [by rewrite Epar|by left|].
  destruct (chgrp_to_runs (v :: d ++ [n]) gid c mode g w1) as (w2 & g2 & E2 & Hw2 & F2);
    [done|by rewrite F1, lookup_insert_eq|].
  exists w2, g2. rewrite (bind_runs _ _ _ _ _ E1). split; [done|]. split; [done|].
  rewrite F1, insert_insert_eq in F2. split; [done|]. rewrite F2. apply plain_insert; [done|done| |].
  - by rewrite Epar.
  - by rewrite Hn.
Qed.

Lemma sync_runs v r n w :
  wfaults w = [] -> plain v (wfs w) -> wfs w !! (v :: r) = Some n ->
  fs_sync (v :: r) w = (Ok tt, mkWorld (wfs w) [] (wfs w :: whist w)).
Proof. intros Hw Hp Hn. apply syscall_runs; [done|]. by rewrite (node_at_plain v _ r n). Qed.

Lemma write_identity_total umask identity modes v :
  total (fun f => tree_ok f /\ f !! [v] = Some Dir /\ forall s r, f !! (v :: s :: r) = None)
    (write_identity umask identity modes v) (fun _ _ => True).
Proof.
  intros w Hw (Ht & Hd & He).
  assert (plain v (wfs w)) as Hp.
  { split; [done| |done]. intros [|s r] t; [by rewrite Hd|by rewrite He]. }
  destruct (write_runs umask v [] KEY_FILE (key_pem identity) (mode_key modes) (key_gid modes) w)
    as (w1 & g1 & E1 & Hw1 & F1 & Hp1); [done|done|by apply is_dir_true; right|apply He|].
  destruct (write_runs umask v [] CERT_FILE (cert_chain_pem identity) (mode_cert modes) None w1)
    as (w2 & g2 & E2 & Hw2 & F2 & Hp2);
    [done|done|by apply is_dir_true; right; destruct Hp1|rewrite F1, lookup_insert_ne by done; apply He|].
  destruct (write_runs umask v [] CA_FILE (ca_pem identity) (mode_cert modes) None w2)
    as (w3 & g3 & E3 & Hw3 & F3 & Hp3);
    [done|done|by apply is_dir_true; right; destruct Hp2
    |rewrite F2, F1, !lookup_insert_ne by done; apply He|].
  apply io_bind_Ok in E1 as ([] & wa & Ea & Eb).
  apply io_bind_Ok in E2 as ([] & wc & Ec & [= <-]).
  apply io_bind_Ok in E3 as ([] & wd & Ed & [= <-]).
  exists tt. eexists. split; [|split; [|done]].
  - unfold write_identity. rewrite (bind_runs _ _ _ _ _ Ea), (bind_runs _ _ _ _ _ Eb).
    rewrite (bind_runs _ _ _ _ _ Ec), (bind_runs _ _ _ _ _ Ed).
    apply (sync_runs v [] Dir); [done|done|apply Hp3].
  - done.
Qed.

(** publishing an identity succeeds.  On a well-formed volume whose version
    numbers have not reached the last 64-bit one, when no call fails, the
    publisher returns normally and the new key, certificate chain and trust
    bundle are what every reader finds. *)
Theorem publish_identity_succeeds (umask : Z) (identity : Identity) (modes : Modes) (f0 : fs) :
  volume_ok f0 ->
  highest (children f0 []) VERSION_PREFIX < u64_max ->
  f0 !! [DATA_LINK +:+ "_tmp"] <> Some Dir ->
  exists w', publish_identity umask identity modes (mkWorld f0 [] []) = (Ok tt, w') /\
             seen_identity (wfs w') = all_of identity.
Proof.
  intros [Ht Hi _ _] Hroom Htmp. rewrite publish_identity_chain.
  destruct (publish_chain_total identity_chain identity_chain_wf (write_identity umask identity modes)
    (write_identity_writes umask identity modes) (write_identity_total umask identity modes)
    f0 Ht Hi Hroom Htmp) as (w' & E & Hv).
  exists w'. split; [done|]. by eapply new_view_identity.
Qed.

Lemma publish_identity_succeeds_witness :
  exists w', publish_identity 18 (mkIdentity "K2" "C2" "A2") sample_modes (mkWorld ∅ [] []) = (Ok tt, w') /\
             seen_identity (wfs w') = all_of (mkIdentity "K2" "C2" "A2").
Proof.
  apply (publish_identity_succeeds 18 (mkIdentity "K2" "C2" "A2") sample_modes ∅ empty_volume).
  - vm_compute. reflexivity.
  - vm_compute. discriminate.
Defined.

(** *** Reading back *)

Lemma read_generation_runs f v faults hist identity m1 g1 m2 g2 m3 g3 :
  faults = [] -> plain v f ->
  f !! [v; KEY_FILE] = Some (File (key_pem identity) m1 g1) ->
  f !! [v; CERT_FILE] = Some (File (cert_chain_pem identity) m2 g2) ->
  f !! [v; CA_FILE] = Some (File (ca_pem identity) m3 g3) ->
  valid_utf8 (key_pem identity) = true -> valid_utf8 (cert_chain_pem identity) = true ->
  valid_utf8 (ca_pem identity) = true ->
  (read_generation [v] (mkWorld f faults hist)).1 = Ok identity.
Proof.
  intros -> Hp H1 H2 H3 U1 U2 U3. unfold read_generation, fs_read_to_string, fs_read.
  assert (forall n c m g hist, f !! [v; n] = Some (File c m g) -> valid_utf8 c = true ->
    (c ← syscall nothing (fun f => match node_at f ([v] ++ [n]) with
       | Ok (File c _ _) => Ok (c, f) | Ok _ => Err OtherIo | Err e => Err e end);
     if valid_utf8 c then mret c else io_fail OtherIo) (mkWorld f [] hist)
    = (Ok c, mkWorld f [] (f :: hist))) as Hr.
  { intros n c m g hist' Hn Hu. erewrite bind_runs; [by rewrite Hu|]. apply syscall_runs; [done|].
    change ([v] ++ [n]) with [v; n]. cbn [wfs]. by rewrite (node_at_plain v _ [n] _ Hp Hn). }
  erewrite bind_runs; [|eapply Hr; [exact H1|done]].
  erewrite bind_runs; [|eapply Hr; [exact H2|done]].
  erewrite bind_runs; [|eapply Hr; [exact H3|done]]. by destruct identity.
Qed.

Lemma seen_in_generation f g n c :
  tree_ok f -> published identity_chain f g -> n ∈ c_names identity_chain ->
  content_at f [n] = Some c -> exists m gid, f !! [g; n] = Some (File c m gid).
Proof.
  intros Ht Hp Hn. unfold content_at. rewrite (node_at_published identity_chain f g) by
    (done || apply identity_chain_wf).
  rewrite content_in_generation by (done || apply Hp).
  destruct (f !! [g; n]) as [[c' m gid| |]|]; [|done..]. intros [= ->]. eauto.
Qed.

(** C36: Round trip.  After a publish that returned normally, [read_identity],
    which the trust-bundle refresh uses to rewrite [ca.crt] around the same key,
    reads back exactly the identity that was published. *)
Theorem read_identity_roundtrip (umask : Z) (identity : Identity) (modes : Modes)
    (f0 : fs) (faults : list (option fault)) w' :
  volume_ok f0 ->
  valid_utf8 (key_pem identity) = true -> valid_utf8 (cert_chain_pem identity) = true ->
  valid_utf8 (ca_pem identity) = true ->
  publish_identity umask identity modes (mkWorld f0 faults []) = (Ok tt, w') ->
  (read_identity (mkWorld (wfs w') [] [])).1 = Ok identity.
Proof.
  intros [Ht Hi _ _] U1 U2 U3 E. rewrite publish_identity_chain in E.
  eapply publish_chain_run in E as [Hf Hr];
    [|apply identity_chain_wf|apply write_identity_writes|done|done].
  specialize (Hr eq_refl). apply Forall_cons_iff in Hf as [(Ht' & _) _].
  pose proof (new_view_identity _ _ _ _ _ Hr) as Hs. unfold seen_identity, all_of in Hs.
  injection Hs as S1 S2 S3. destruct Hr as (g & fb & _ & _ & Hp & _).
  destruct (seen_in_generation _ g _ _ Ht' Hp ltac:(left) S1) as (m1 & g1 & F1).
  destruct (seen_in_generation _ g _ _ Ht' Hp ltac:(right; left) S2) as (m2 & g2 & F2).
  destruct (seen_in_generation _ g _ _ Ht' Hp ltac:(right; right; left) S3) as (m3 & g3 & F3).
  assert (plain g (wfs w')) as Hpl by (split; [done|apply Hp|apply Hp]).
  unfold read_identity. cbn [read_identity_go]. erewrite bind_runs; [|apply syscall_runs; [done|]].
  2: { cbn [wfs]. rewrite (pb_link _ _ _ Hp : wfs w' !! [DATA_LINK] = _). reflexivity. }
  destruct (component_plain g) as [-> _]; [apply (pb_gen _ _ _ Hp)|].
  pose proof (read_generation_runs (wfs w') g [] [wfs w'] identity m1 g1 m2 g2 m3 g3
    eq_refl Hpl F1 F2 F3 U1 U2 U3) as Hread.
  unfold mbind, io_bind, attempt. cbn [whist] in *.
  destruct (read_generation [g] _) as [r w2]. cbn in Hread. by rewrite Hread.
Qed.

Lemma read_identity_roundtrip_witness :
  (read_identity (mkWorld published_once [] [])).1 = Ok sample_identity.
Proof.
  apply (read_identity_roundtrip 18 sample_identity sample_modes ∅ []
    (publish_identity 18 sample_identity sample_modes (mkWorld ∅ [] [])).2 empty_volume eq_refl eq_refl eq_refl).
  rewrite (surjective_pairing (publish_identity 18 sample_identity sample_modes (mkWorld ∅ [] []))) at 1.
  f_equal.
Defined.

Lemma node_at_plain_inv v f s r n : plain v f -> node_at f (v :: s :: r) = Ok n -> f !! (v :: s :: r) = Some n.
Proof.
  intros [Ht Hn Hd]. unfold node_at, link_fuel.
  change (length (v :: s :: r) + 40)%nat with (S (length (s :: r) + 40)).
  rewrite resolve_dir by done. change ([] ++ [v]) with [v].
  destruct (resolve _ f [v] (s :: r)) as [q|] eqn:E; [|done]. apply resolve_plain in E as ->; [|done].
  unfold mbind, result_bind. cbn [app]. by intros H%ok_or_Ok.
Qed.

Lemma read_file_Ok p w c w' :
  fs_read_to_string p w = (Ok c, w') -> (exists m g, node_at (wfs w) p = Ok (File c m g)) /\ wfs w' = wfs w.
Proof.
  unfold fs_read_to_string. intros (c' & w1 & H & E)%io_bind_Ok.
  unfold fs_read in H. apply syscall_Ok in H. destruct (node_at (wfs w) p) as [[c1 m g| |]|] eqn:En; simplify_eq.
  destruct (valid_utf8 c'); [|done]. injection E as <- <-. split; [by exists m, g|congruence].
Qed.

Lemma reads_read_generation d : reads (read_generation d).
Proof. unfold read_generation. repeat (apply reads_bind; [auto with reads|intros ?]). auto with reads. Qed.

(** What [read_identity] returns is what every reader sees, whatever faults and
    retries it went through. *)
Lemma read_identity_seen f faults i w' :
  volume_ok f -> read_identity (mkWorld f faults []) = (Ok i, w') -> seen_identity f = all_of i.
Proof.
  intros Hv. unfold read_identity. generalize 4%nat NotFound. generalize (@nil fs). intros hist tries.
  revert faults hist. induction tries as [|tries IH]; intros faults hist e; cbn [read_identity_go]; [done|].
  intros (rel & w1 & Hl & H)%io_bind_Ok. unfold fs_read_link in Hl. apply syscall_Ok in Hl. cbn [wfs] in Hl.
  destruct (f !! [DATA_LINK]) as [[| |g]|] eqn:Eg; simplify_eq.
  destruct Hv as [Ht Hi Hp Hj]. destruct Hi as [Hu|[g Hpub]].
  { by rewrite (up_link _ _ Hu : wfs w1 !! [DATA_LINK] = None) in Eg. }
  rewrite (pb_link _ _ _ Hpub : wfs w1 !! [DATA_LINK] = _) in Eg. injection Eg as <-.
  destruct (component_plain g) as [Hsp _]; [apply (pb_gen _ _ _ Hpub)|]. rewrite Hsp in H.
  assert (plain g (wfs w1)) as Hpl by (split; [done|apply Hpub|apply Hpub]).
  apply io_bind_Ok in H as (r & w2 & Ha & H). unfold attempt in Ha.
  destruct (read_generation [g] w1) as [r0 w20] eqn:Er. injection Ha as <- <-.
  destruct r0 as [i'|[]]; [| |done|done|done].
  2: { pose proof (reads_run _ _ _ _ (reads_read_generation [g]) Er) as E20.
       destruct w20 as [f20 fl20 h20]. cbn in E20. subst f20. by eapply IH. }
  injection H as <- <-. unfold read_generation in Er.
  apply io_bind_Ok in Er as (k & wa & [(m1 & g1 & K1) Ea]%read_file_Ok & Er).
  apply io_bind_Ok in Er as (c & wb & [(m2 & g2 & K2) Eb]%read_file_Ok & Er).
  apply io_bind_Ok in Er as (a & wc & [(m3 & g3 & K3) Ec]%read_file_Ok & [= <- <-]).
  rewrite Eb, Ea in K3. rewrite Ea in K2. cbn [app] in *.
  apply node_at_plain_inv in K1, K2, K3; [|done..].
  assert (Hc : forall n c m gi, n ∈ c_names identity_chain -> wfs w1 !! [g; n] = Some (File c m gi) ->
            content_at (wfs w1) [n] = Some c).
  { intros n c0 m0 gi0 Hn E. unfold content_at.
    rewrite (node_at_published identity_chain (wfs w1) g) by (done || apply identity_chain_wf).
    rewrite content_in_generation by (done || apply Hpub). by rewrite E. }
  unfold seen_identity, all_of. cbn.
  rewrite (Hc KEY_FILE k m1 g1), (Hc CERT_FILE c m2 g2), (Hc CA_FILE a m3 g3);
    done || (repeat (left || right)).
Qed.

(** the name of a volume in the exposure farm is one ordinary path segment:
    never empty, never hidden, with no separator, so it can neither leave the
    farm nor clash with the volume writer's own dot names. *)
Theorem farm_name_safe (volume_id : string) :
  farm_name volume_id <> "" /\ has_char "/" (farm_name volume_id) = false /\
  starts_with "." (farm_name volume_id) = false.
Proof.
  assert (has_char "/" (farm_chars volume_id) = false) as Hs.
  { induction volume_id as [|c s IH]; [done|]. cbn [farm_chars]. destruct (cont c); [done|].
    rewrite has_char_cons, IH, orb_false_r. unfold farm_char.
    destruct (is_ascii_alphanumeric c || _) eqn:E; [|done].
    destruct (Ascii.eqb_spec "/" c) as [<-|]; [done|done]. }
  unfold farm_name. destruct (starts_with "." (farm_chars volume_id)) eqn:Hd.
  { cbn [is_empty String.append]. split; [done|]. split; [|done].
    change (String "v" (farm_chars volume_id)) with ("v" +:+ farm_chars volume_id).
    by rewrite has_char_app, Hs. }
  destruct (farm_chars volume_id); done.
Qed.
