(* ===== verification/Oci.v ===== *)
(** * The bundle cache and the rollout poll  (svidlet/src/policy/oci/store.rs, mod.rs)

    The cache is a tree ([Fs]) rooted at its directory.  A poll reads and
    changes the in-memory state, the metrics and the tree; the registry's
    answers, the clock and the faults of the file system are its environment.
    A digest is used as one path segment, as every digest in a verified manifest
    is ([check_digest_form]). *)

From stdpp Require Import sorting.
From S2P Require Import Prelude RustStr Rollout Tarball Fs Volume.
Open Scope list_scope.
Open Scope Z_scope.

(** ** store.rs *)

Definition VERSIONS : string := "versions".
Definition CURRENT : string := "current".
Definition CURRENT_TMP : string := "current.tmp".
Definition STATE : string := "state.json".
Definition MANIFEST : string := "rollout.toml".

Record State := mkState {
  s_ring : string;
  s_digest : string;
  applied_at : Z;
  last_success : Z;
  last_error : string;
  manifest_etag : string;
  last_sequence : Z;
}.

Definition default_state : State := mkState "" "" 0 0 "" "" 0.

(** [serde_json] on [State], and [basic_toml] on [bundle.toml] ([schema]). *)
Class StoreCodec := {
  state_to_json : State -> string;
  state_of_json : string -> option State;
  toml_schema : string -> option Z;
}.

(** What is written is read back. *)
Class StoreCodecSpec (C : StoreCodec) : Prop := {
  state_json_roundtrip : forall s, state_of_json (state_to_json s) = Some s;
}.

(** [digest.replace(':', "-")]. *)
Definition version_name (digest : string) : string := replace ":" "-" digest.
Definition version_dir (digest : string) : path := [VERSIONS; version_name digest].

Section store.
Context {OC : OciCrypto} {SC : StoreCodec}.
Context (umask : Z).

(** [fs::write]. *)
Definition fs_write (p : path) (content : string) : io unit :=
  _ ← fs_open_trunc umask p 438;
  fs_write_all p content.

(** The store's own result type: [Error::Io] for a failed call. *)
Local Notation store_io A := (io (result OciError A)).
Definition s_ok {A : Type} (a : A) : store_io A := mret (Ok a).
Definition s_err {A : Type} (e : OciError) : store_io A := mret (Err e).
(** [m.map_err(..)?; k]. *)
Definition s_call {A B : Type} (m : io A) (k : A -> store_io B) : store_io B :=
  r ← attempt m;
  match r with Ok a => k a | Err _ => s_err OIo end.
(** [m?; k]. *)
Definition s_bind {A B : Type} (m : store_io A) (k : A -> store_io B) : store_io B :=
  r ← m;
  match r with Ok a => k a | Err e => s_err e end.

Definition store_has (digest : string) : io bool := path_is_dir (version_dir digest).

(** One entry of [write_version]'s loop. *)
Definition write_entry (staging : path) (entry : TarEntry) : store_io unit :=
  if starts_with "/" (Tarball.path entry) then
    _ ← attempt (fs_remove_dir_all staging); s_err ORejected
  else match join_path staging (Tarball.path entry) with
       | None => s_err OIo
       | Some p => s_call (fs_create_dir_all (parent p)) (fun _ => s_call (fs_write p (content entry)) s_ok)
       end.

Fixpoint s_each {A : Type} (f : A -> store_io unit) (xs : list A) : store_io unit :=
  match xs with
  | [] => s_ok tt
  | x :: xs => s_bind (f x) (fun _ => s_each f xs)
  end.

Definition staging_dir (digest : string) : path := [VERSIONS; ".staging-" +:+ version_name digest].

Definition write_version (digest : string) (entries : list TarEntry) : store_io unit :=
  there ← path_exists (version_dir digest);
  if (there : bool) then s_ok tt
  else
    let staging := staging_dir digest in
    _ ← attempt (fs_remove_dir_all staging);
    s_call (fs_create_dir_all staging) (fun _ =>
    s_bind (s_each (write_entry staging) entries) (fun _ =>
    r ← attempt (fs_rename staging (version_dir digest));
    match r with
    | Ok _ => s_ok tt
    | Err _ => _ ← attempt (fs_remove_dir_all staging); s_err OIo
    end)).

Definition store_set_current (digest : string) : store_io unit :=
  there ← store_has digest;
  if negb (there : bool) then s_err OIo
  else
    _ ← attempt (fs_remove_file [CURRENT_TMP]);
    s_call (fs_symlink (VERSIONS +:+ "/" +:+ version_name digest) [CURRENT_TMP]) (fun _ =>
    s_call (fs_rename [CURRENT_TMP] [CURRENT]) s_ok).

(** [collect]: every file below a directory, with its path relative to the
    root; [fuel] bounds the depth. *)
Fixpoint collect_go (fuel : nat) (root rel : path) : store_io (list PolicyDocument) :=
  match fuel with
  | O => s_err OIo
  | S fuel =>
      s_call (fs_read_dir (root ++ rel)) (fun names =>
      (fix each (names : list string) : store_io (list PolicyDocument) :=
         match names with
         | [] => s_ok []
         | name :: names =>
             d ← path_is_dir (root ++ rel ++ [name]);
             s_bind (if (d : bool) then collect_go fuel root (rel ++ [name])
                     else s_call (fs_read (root ++ rel ++ [name])) (fun content =>
                          s_ok [mkDocument (RustStr.join "/" (rel ++ [name])) content]))
               (fun here => s_bind (each names) (fun rest => s_ok (here ++ rest)))
         end) names)
  end.

(** [sort_by] on the names, which are byte strings. *)
Fixpoint doc_insert (d : PolicyDocument) (ds : list PolicyDocument) : list PolicyDocument :=
  match ds with
  | [] => [d]
  | e :: ds' => if String.leb (doc_name d) (doc_name e) then d :: ds else e :: doc_insert d ds'
  end.
Definition sort_documents (ds : list PolicyDocument) : list PolicyDocument := foldr doc_insert [] ds.

(** The depth of the deepest path is a bound on the depth of the walk. *)
Definition depth (f : fs) : nat := foldr (fun p n => Nat.max (length p) n) 0%nat (map_to_list f).*1.
Definition store_collect (root : path) : store_io (list PolicyDocument) := fun w =>
  collect_go (S (depth (wfs w))) root [] w.

Definition store_read (digest : string) : store_io PolicyBundle :=
  s_bind (store_collect (version_dir digest)) (fun documents =>
  let documents := sort_documents documents in
  if bool_decide (documents = []) then s_err ORejected
  else s_ok (mkBundle digest documents)).

(** [prune]; the number of removed versions is only returned. *)
Definition store_prune (keep : nat) (keep_digests : list string) : io Z :=
  let keep := version_name <$> take (keep + 1) keep_digests in
  entries ← attempt (fs_read_dir [VERSIONS]);
  match entries with
  | Err _ => mret 0
  | Ok names =>
      (fix each (names : list string) (removed : Z) : io Z :=
         match names with
         | [] => mret removed
         | name :: names =>
             if starts_with ".staging-" name then
               _ ← attempt (fs_remove_dir_all [VERSIONS; name]); each names removed
             else if existsb (String.eqb name) keep then each names removed
             else r ← attempt (fs_remove_dir_all [VERSIONS; name]);
                  each names (match r with Ok _ => removed + 1 | Err _ => removed end)
         end) names 0
  end.

Definition load_state : io State :=
  r ← attempt (fs_read_to_string [STATE]);
  mret (match r with
        | Ok raw => match state_of_json raw with Some s => s | None => default_state end
        | Err _ => default_state
        end).

(** Write beside, then rename over. *)
Definition replace_file (name content : string) : io unit :=
  _ ← fs_write [name +:+ ".tmp"] content;
  fs_rename [name +:+ ".tmp"] [name].

Definition save_state (state : State) : io unit := replace_file STATE (state_to_json state).
Definition save_manifest (toml : string) : io unit := replace_file MANIFEST toml.

(** ** mod.rs *)

(** [validate]; [schema] is decoded by [basic_toml] after a UTF-8 check. *)
Definition validate (entries : list TarEntry) : result OciError unit :=
  match List.find (fun e => String.eqb (Tarball.path e) "bundle.toml") entries with
  | None => Err ORejected
  | Some manifest =>
      _ ← guard_err (negb (valid_utf8 (content manifest))) OMalformed;
      schema ← ok_or OMalformed (toml_schema (content manifest));
      guard_err (negb (schema =? SUPPORTED_SCHEMA)) ORejected
  end.

Record BundleMetrics := mkBundleMetrics {
  polls : Z;
  swaps : Z;
  manifest_invalid : Z;
  fetch_errors : Z;
  rejected : gmap string Z;
  m_last_success : Z;
}.

(** The parts of [BundleSource] that never change. *)
Record BundleSource := mkSource {
  full_fetch_every : Z;
  max_bytes : Z;
  keep_versions : nat;
  b_cluster : string;
  b_node : string;
  b_key : string;
}.

(** What the registry answers: the manifest of the rollout tag, given the ETag
    that was sent; its single layer; a blob, by digest. *)
Inductive Fetched := Unchanged | Changed (manifest : string) (etag : option string).
Record Registry := mkRegistry {
  reg_manifest : option string -> result OciError Fetched;
  reg_single_layer : string -> result OciError string;
  reg_blob : string -> result OciError string;
}.

(** What changes: the state behind the mutex, the metrics, the disk and how
    often the clock has been read. *)
Record sys := mkSys {
  y_state : State;
  y_metrics : BundleMetrics;
  y_world : world;
  y_ticks : nat;
}.

(** A computation returns normally, fails the poll, or aborts the process
    ([None]: a panic, with [panic = "abort"]). *)
Definition pm (A : Type) : Type := sys -> option (result OciError A) * sys.
#[export] Instance pm_ret : MRet pm := fun A a y => (Some (Ok a), y).
#[export] Instance pm_bind : MBind pm := fun A B k m y =>
  match m y with
  | (Some (Ok a), y) => k a y
  | (Some (Err e), y) => (Some (Err e), y)
  | (None, y) => (None, y)
  end.

Definition pm_res {A : Type} (r : result OciError A) : pm A := fun y => (Some r, y).
Definition pm_abort {A : Type} : pm A := fun y => (None, y).
Definition get_state : pm State := fun y => (Some (Ok (y_state y)), y).
(** A file-system action whose outcome is a value. *)
Definition pm_io {A : Type} (m : io A) : pm (result IoKind A) := fun y =>
  let '(r, w) := m (y_world y) in
  (Some (Ok r), mkSys (y_state y) (y_metrics y) w (y_ticks y)).
Definition pm_store {A : Type} (m : store_io A) : pm A := fun y =>
  let '(r, w) := m (y_world y) in
  (Some (match r with Ok r => r | Err _ => Err OIo end), mkSys (y_state y) (y_metrics y) w (y_ticks y)).
Definition pm_metrics (f : BundleMetrics -> BundleMetrics) : pm unit := fun y =>
  (Some (Ok tt), mkSys (y_state y) (f (y_metrics y)) (y_world y) (y_ticks y)).

Context (clock : nat -> Z).
Definition unix_now : pm Z := fun y =>
  (Some (Ok (clock (y_ticks y))), mkSys (y_state y) (y_metrics y) (y_world y) (S (y_ticks y))).

(** Change the state under the lock, then save a snapshot; a failed save is
    ignored. *)
Definition update_state (f : State -> State) : pm unit := fun y =>
  let s := f (y_state y) in
  let '(_, w) := save_state s (y_world y) in
  (Some (Ok tt), mkSys s (y_metrics y) w (y_ticks y)).

Definition with_etag (etag : string) (s : State) : State :=
  mkState (s_ring s) (s_digest s) (applied_at s) (last_success s) (last_error s) etag (last_sequence s).

Definition remember_etag (etag : option string) : pm unit :=
  match etag with
  | None => mret tt
  | Some etag => update_state (with_etag etag)
  end.

Definition record_sequence (sequence : Z) : pm unit :=
  s ← get_state;
  if last_sequence s <? sequence then
    update_state (fun s => mkState (s_ring s) (s_digest s) (applied_at s) (last_success s)
                             (last_error s) (manifest_etag s) sequence)
  else mret tt.

Definition record_success (etag : option string) : pm unit :=
  now ← unix_now;
  _ ← pm_metrics (fun m => mkBundleMetrics (polls m) (swaps m) (manifest_invalid m) (fetch_errors m)
                             (rejected m) (wrap 64 now));
  update_state (fun s => mkState (s_ring s) (s_digest s) (applied_at s) now ""
                           (match etag with Some etag => etag | None => manifest_etag s end)
                           (last_sequence s)).

Definition set_current (ring digest : string) : pm unit :=
  now ← unix_now;
  update_state (fun s => mkState ring digest now (last_success s) (last_error s)
                           (manifest_etag s) (last_sequence s)).

(** [BundleMetrics::reject] counts a rejection under its reason; the message of
    the error is a parameter. *)
Definition reject (e : OciError) (m : BundleMetrics) : BundleMetrics :=
  mkBundleMetrics (polls m) (swaps m) (manifest_invalid m)
    (if bool_decide (e = OFetch) then wrap 64 (fetch_errors m + 1) else fetch_errors m)
    (<[reason e := wrap 64 (match rejected m !! reason e with Some n => n | None => 0 end + 1)]> (rejected m))
    (m_last_success m).

Definition record_error (e : OciError) (message : string) : pm unit :=
  _ ← pm_metrics (reject e);
  _ ← (if bool_decide (e ∈ [OSignature; OMalformed; OStale])
       then pm_metrics (fun m => mkBundleMetrics (polls m) (swaps m) (wrap 64 (manifest_invalid m + 1))
                                   (fetch_errors m) (rejected m) (m_last_success m))
       else mret tt);
  update_state (fun s => mkState (s_ring s) (s_digest s) (applied_at s) (last_success s)
                           message (manifest_etag s) (last_sequence s)).

Definition pm_has (digest : string) : pm bool :=
  r ← pm_io (store_has digest);
  mret (match r with Ok b => b | Err _ => false end).

Definition current_etag : pm (option string) :=
  s ← get_state;
  if is_empty (s_digest s) then mret None
  else
    there ← pm_has (s_digest s);
    mret (if (there : bool) then if is_empty (manifest_etag s) then None else Some (manifest_etag s) else None).

Definition bump_polls : pm Z := fun y =>
  let n := wrap 64 (polls (y_metrics y) + 1) in
  let m := y_metrics y in
  (Some (Ok n), mkSys (y_state y) (mkBundleMetrics n (swaps m) (manifest_invalid m) (fetch_errors m)
                                     (rejected m) (m_last_success m)) (y_world y) (y_ticks y)).

Definition bump_swaps : pm unit := pm_metrics (fun m =>
  mkBundleMetrics (polls m) (wrap 64 (swaps m + 1)) (manifest_invalid m) (fetch_errors m)
    (rejected m) (m_last_success m)).

(** Fetch, check and unpack a bundle that is not on disk yet. *)
Definition fetch_bundle (src : BundleSource) (reg : Registry) (digest : string) : pm unit :=
  blob ← pm_res (reg_blob reg digest);
  _ ← pm_res (check_digest blob digest);
  entries ← match extract blob (max_bytes src) with
            | Some r => pm_res r
            | None => pm_abort
            end;
  _ ← pm_res (validate entries);
  pm_store (write_version digest entries).

(** Everything from the choice of the ring on. *)
Definition apply_ring (src : BundleSource) (reg : Registry) (ring : Ring) (new_etag : option string) :
    pm (option PolicyBundle) :=
  current ← get_state;
  there ← (if String.eqb (s_digest current) (bundle ring) then pm_has (bundle ring) else mret false);
  if (there : bool) then
    _ ← remember_etag new_etag;
    _ ← (if String.eqb (s_ring current) (ring_name ring) then mret tt
         else set_current (ring_name ring) (bundle ring));
    mret None
  else
    there ← pm_has (bundle ring);
    _ ← (if (there : bool) then mret tt else fetch_bundle src reg (bundle ring));
    _ ← pm_store (store_set_current (bundle ring));
    b ← pm_store (store_read (bundle ring));
    _ ← set_current (ring_name ring) (bundle ring);
    _ ← bump_swaps;
    let keep := filter (fun d => is_empty d = false) [bundle ring; s_digest current] in
    _ ← pm_io (store_prune (Nat.max (keep_versions src) 1) keep);
    _ ← remember_etag new_etag;
    mret (Some b).

(** From a manifest that was fetched to a verified, fresh rollout; [true] of
    the second component when the rollout is frozen is decided by the caller. *)
Definition verified_rollout (src : BundleSource) (reg : Registry) (manifest : string) : pm Rollout :=
  envelope ← pm_res (reg_single_layer reg manifest);
  toml ← pm_res (verify_open (b_key src) envelope);
  rollout ← pm_res (Rollout_parse toml);
  s ← get_state;
  now ← unix_now;
  _ ← pm_res (check_freshness rollout (last_sequence s) now);
  _ ← pm_io (save_manifest toml);
  _ ← record_success None;
  _ ← match sequence rollout with Some sequence => record_sequence sequence | None => mret tt end;
  mret rollout.

Definition poll (src : BundleSource) (reg : Registry) : pm (option PolicyBundle) :=
  n ← bump_polls;
  etag ← (if (0 <? full_fetch_every src) && (n mod full_fetch_every src =? 0) then mret None
          else current_etag);
  fetched ← pm_res (reg_manifest reg etag);
  match fetched with
  | Unchanged => _ ← record_success None; mret None
  | Changed manifest new_etag =>
      rollout ← verified_rollout src reg manifest;
      if freeze rollout then _ ← remember_etag new_etag; mret None
      else
        match rollout_target rollout (b_cluster src) (b_node src) with
        | None => pm_abort
        | Some None => _ ← remember_etag new_etag; mret None
        | Some (Some ring) => apply_ring src reg ring new_etag
        end
  end.

(** One round of the poll loop: a failed poll is recorded; [shown] prints it. *)
Definition poll_round (shown : OciError -> string) (src : BundleSource) (reg : Registry) :
    pm (option PolicyBundle) := fun y =>
  match poll src reg y with
  | (Some (Err e), y) =>
      match record_error e (shown e) y with (_, y) => (Some (Ok None), y) end
  | r => r
  end.

(** [load_current]. *)
Definition load_current : pm (option PolicyBundle) :=
  s ← get_state;
  if is_empty (s_digest s) then mret None
  else
    there ← pm_has (s_digest s);
    if negb (there : bool) then mret None
    else
      fun y => match pm_store (store_read (s_digest s)) y with
               | (Some (Ok b), y) => (Some (Ok (Some b)), y)
               | (_, y) => (Some (Ok None), y)
               end.
End store.

(** ** The current bundle survives *)

Section survives.
Context {OC : OciCrypto} {SC : StoreCodec} (umask : Z).
Context (f0 : fs) (n : string).

(** A version directory with something in it. *)
Definition live : Prop :=
  starts_with ".staging-" n = false /\ f0 !! [VERSIONS; n] = Some Dir /\
  exists s, is_Some (f0 !! [VERSIONS; n; s]).

Context (Hlive : live).

(** It, and everything below it, is as it was. *)
Definition intact (f : fs) : Prop := forall r, f !! (VERSIONS :: n :: r) = f0 !! (VERSIONS :: n :: r).

Definition elsewhere (p : path) : Prop := forall r, p <> VERSIONS :: n :: r.

Lemma intact_only {A : Type} (m : io A) : only elsewhere m -> keeps intact m.
Proof.
  intros Hm. eapply keeps_stable; [exact Hm|]. intros f f' Hf Ha r. rewrite Ha; [auto|].
  intros H. by apply (H r).
Qed.

Lemma elsewhere_top s r : s <> VERSIONS -> elsewhere (s :: r).
Proof. by intros Hs r' [= ? _]. Qed.
Lemma elsewhere_version m r : m <> n -> elsewhere (VERSIONS :: m :: r).
Proof. by intros Hs r' [= ? _]. Qed.
Lemma elsewhere_staging d r : elsewhere (VERSIONS :: (".staging-" +:+ d) :: r).
Proof.
  apply elsewhere_version. intros E. destruct Hlive as [Hs _]. rewrite <- E, starts_with_app in Hs. done.
Qed.

Lemma only_fs_write (S : path -> Prop) p c : S p -> only S (fs_write umask p c).
Proof.
  intros Hp f. apply keeps_bind; [by apply only_open_trunc|]. intros _. by apply only_write_all.
Qed.

Lemma intact_replace_file name c :
  name <> VERSIONS -> name +:+ ".tmp" <> VERSIONS -> keeps intact (replace_file umask name c).
Proof.
  intros Hn Ht. apply keeps_bind; [by apply intact_only, only_fs_write, elsewhere_top|]. intros _.
  apply intact_only, only_rename; intros r; by apply elsewhere_top.
Qed.

Lemma intact_reads {A : Type} (m : io A) : reads m -> keeps intact m.
Proof. apply reads_keeps. Qed.

Lemma keeps_s_call {A B : Type} (I : fs -> Prop) (m : io A) (k : A -> io (result OciError B)) :
  keeps I m -> (forall a, keeps I (k a)) -> keeps I (s_call m k).
Proof.
  intros Hm Hk. apply keeps_bind; [by apply keeps_attempt|]. intros [a|e]; [apply Hk|apply keeps_ret].
Qed.
Lemma keeps_s_bind {A B : Type} (I : fs -> Prop) (m : io (result OciError A))
    (k : A -> io (result OciError B)) :
  keeps I m -> (forall a, keeps I (k a)) -> keeps I (s_bind m k).
Proof. intros Hm Hk. apply keeps_bind; [done|]. intros [a|e]; [apply Hk|apply keeps_ret]. Qed.
Lemma keeps_s_each {A : Type} (I : fs -> Prop) (f : A -> io (result OciError unit)) xs :
  (forall x, keeps I (f x)) -> keeps I (s_each f xs).
Proof.
  intros Hf. induction xs as [|x xs IH]; [apply keeps_ret|]. apply keeps_s_bind; [apply Hf|done].
Qed.

(** The rename that puts a version in place cannot replace a version with
    something in it. *)
Lemma intact_rename d m : keeps intact (fs_rename [VERSIONS; ".staging-" +:+ d] [VERSIONS; m]).
Proof.
  apply keeps_syscall; [done|]. intros f [] f' Hf H r.
  destruct (decide (m = n)) as [->|Hne].
  - exfalso. destruct Hlive as (_ & Hd & s & [x Hs]).
    rewrite (Hf [] : f !! [VERSIONS; n] = _), Hd in H.
    assert (children f [VERSIONS; n] <> []) as Hc.
    { intros E. eapply not_elem_of_nil. rewrite <- E.
      exact (elem_of_children_at f [VERSIONS; n] s x (eq_trans (Hf [s]) Hs)). }
    destruct (f !! [VERSIONS; ".staging-" +:+ d]) as [[]|]; try done.
    rewrite bool_decide_false in H.
    2: { intros [= E]. destruct Hlive as [Hst _]. rewrite <- E in Hst. discriminate Hst. }
    rewrite bool_decide_false in H by done. by destruct (below _ _).
  - rewrite <- (Hf r). eapply rename_Ok; [exact H| |]; apply not_true_iff_false;
      intros [r' E]%below_true; injection E as E.
    + destruct Hlive as [Hst _]. rewrite E in Hst. discriminate Hst.
    + congruence.
Qed.

Lemma intact_remove_staging d : keeps intact (fs_remove_dir_all [VERSIONS; ".staging-" +:+ d]).
Proof. apply intact_only, only_remove_dir_all. intros r. apply elsewhere_staging. Qed.

Lemma intact_create_staging d r : keeps intact (fs_create_dir_all (VERSIONS :: (".staging-" +:+ d) :: r)).
Proof.
  apply intact_only, only_create_dir_all_go. intros [|a [|b l]] t E Hne; [done| |].
  - by intros r' [= ? ?].
  - injection E as <- <- _. apply elsewhere_staging.
Qed.

Lemma intact_write_entry d e : keeps intact (write_entry umask [VERSIONS; ".staging-" +:+ d] e).
Proof.
  unfold write_entry. destruct (starts_with _ _).
  { apply keeps_bind; [apply keeps_attempt, intact_remove_staging|intros; apply keeps_ret]. }
  unfold join_path. destruct (_ || _); [apply keeps_ret|].
  set (rest := filter _ _). destruct rest as [|s rest] using rev_ind; clear -Hlive.
  - apply keeps_s_call; [apply (intact_only (fs_create_dir_all [VERSIONS])), only_create_dir_all_go|].
    { by intros [|a [|b l]] t E Hne. }
    intros _. apply keeps_s_call; [|intros; apply keeps_ret].
    apply intact_only, only_fs_write, elsewhere_staging.
  - assert (parent ([VERSIONS; ".staging-" +:+ d] ++ rest ++ [s]) = VERSIONS :: (".staging-" +:+ d) :: rest) as ->.
    { rewrite app_assoc, parent_snoc. done. }
    apply keeps_s_call; [apply intact_create_staging|]. intros _.
    apply keeps_s_call; [|intros; apply keeps_ret].
    apply intact_only, only_fs_write, elsewhere_staging.
Qed.

Lemma intact_write_version digest entries : keeps intact (write_version umask digest entries).
Proof.
  unfold write_version. apply keeps_bind; [apply intact_reads, reads_exists|]. intros [|]; [apply keeps_ret|].
  apply keeps_bind; [apply keeps_attempt, intact_remove_staging|]. intros _.
  apply keeps_s_call; [apply intact_create_staging|]. intros _.
  apply keeps_s_bind; [apply keeps_s_each; intros e; apply intact_write_entry|]. intros _.
  apply keeps_bind; [apply keeps_attempt, intact_rename|]. intros [|]; [apply keeps_ret|].
  apply keeps_bind; [apply keeps_attempt, intact_remove_staging|intros; apply keeps_ret].
Qed.

Lemma intact_set_current digest : keeps intact (store_set_current digest).
Proof.
  unfold store_set_current. apply keeps_bind; [apply intact_reads, reads_is_dir|].
  intros [|]; [|apply keeps_ret]. cbn [negb].
  apply keeps_bind; [by apply keeps_attempt, intact_only, only_remove_file, elsewhere_top|]. intros _.
  apply keeps_s_call; [by apply intact_only, only_symlink, elsewhere_top|]. intros _.
  apply keeps_s_call; [|intros; apply keeps_ret].
  apply intact_only, only_rename; intros r; by apply elsewhere_top.
Qed.

Lemma reads_collect fuel root rel : reads (collect_go fuel root rel).
Proof.
  intros f. revert rel. induction fuel as [|fuel IH]; intros rel; [apply keeps_ret|]. cbn [collect_go].
  apply keeps_s_call; [apply only_read_dir|]. intros names.
  induction names as [|name names IHn]; [apply keeps_ret|].
  apply keeps_bind; [apply only_is_dir|]. intros d. apply keeps_s_bind.
  - destruct d; [apply IH|]. apply keeps_s_call; [apply reads_read|]. intros c. apply keeps_ret.
  - intros here. apply keeps_s_bind; [exact IHn|]. intros; apply keeps_ret.
Qed.

Lemma intact_read digest : keeps intact (store_read digest).
Proof.
  unfold store_read. apply keeps_s_bind.
  - intros w r w' Hi Hp E. eapply (reads_keeps intact _ (reads_collect _ _ _)); eauto.
  - intros ds. case_bool_decide; apply keeps_ret.
Qed.

Lemma intact_prune keep digests :
  n ∈ version_name <$> take (keep + 1) digests -> keeps intact (store_prune keep digests).
Proof.
  intros Hn. unfold store_prune. apply keeps_bind.
  { apply keeps_attempt, intact_reads. intros f. apply only_read_dir. }
  intros [names|e]; [|apply keeps_ret]. generalize 0 as removed.
  induction names as [|name names IH]; intros removed; [apply keeps_ret|].
  assert (name <> n -> keeps intact (fs_remove_dir_all [VERSIONS; name])) as Hrm.
  { intros Hne. apply intact_only, only_remove_dir_all. intros r. by apply elsewhere_version. }
  destruct (starts_with ".staging-" name) eqn:Hs.
  - apply keeps_bind; [|intros _; apply IH]. apply keeps_attempt, Hrm. intros ->.
    destruct Hlive as [H _]. congruence.
  - destruct (existsb (String.eqb name) _) eqn:He; [apply IH|].
    apply keeps_bind; [|intros r; apply IH]. apply keeps_attempt, Hrm. intros ->.
    apply not_true_iff_false in He. apply He, existsb_exists. exists n.
    split; [by apply list_elem_of_In|apply String.eqb_refl].
Qed.

End survives.

(** ** Reasoning about polls

    [ph J P m Q E]: from a disk with [J] and a state with [P], every tree [m]
    leaves on the disk has [J]; the state has [Q] when it returns normally and
    [E] when it fails the poll. *)
Definition ph {A : Type} (J : fs -> Prop) (P : State -> Prop) (m : pm A) (Q : A -> State -> Prop)
    (E : State -> Prop) : Prop :=
  forall y o y', J (wfs (y_world y)) -> P (y_state y) -> m y = (o, y') ->
    ((exists new, whist (y_world y') = new ++ whist (y_world y) /\ Forall J new) /\ J (wfs (y_world y'))) /\
    match o with
    | Some (Ok a) => Q a (y_state y')
    | Some (Err _) => E (y_state y')
    | None => True
    end.

Section ph_rules.
Context {SC : StoreCodec} (umask : Z) (J : fs -> Prop) (P E : State -> Prop).

Lemma ph_pure {A : Type} (m : pm A) (Q : A -> State -> Prop) :
  (forall y, exists o, m y = (o, snd (m y)) /\ y_world (snd (m y)) = y_world y /\
    y_state (snd (m y)) = y_state y /\
    (P (y_state y) -> match o with
                      | Some (Ok a) => Q a (y_state y) | Some (Err _) => E (y_state y) | None => True end)) ->
  ph J P m Q E.
Proof.
  intros H y o y' Hj Hp Em. destruct (H y) as (o' & Eo & Hw & Hs & Hq). rewrite Em in Eo, Hw, Hs.
  simpl in *. injection Eo as <-. rewrite Hw, Hs. split; [split; [by exists []|done]|]. exact (Hq Hp).
Qed.
Lemma ph_ret {A : Type} (a : A) (Q : A -> State -> Prop) :
  (forall s, P s -> Q a s) -> ph J P (mret a : pm A) Q E.
Proof. intros H. apply ph_pure. intros y. eexists. eauto. Qed.
Lemma ph_res {A : Type} (r : result OciError A) (Q : A -> State -> Prop) :
  (forall s, P s -> match r with Ok a => Q a s | Err _ => E s end) -> ph J P (pm_res r) Q E.
Proof.
  intros H. apply ph_pure. intros y. eexists. split; [done|]. split; [done|]. split; [done|].
  intros Hp%H. by destruct r.
Qed.
Lemma ph_abort {A : Type} (Q : A -> State -> Prop) : ph J P (pm_abort : pm A) Q E.
Proof. apply ph_pure. intros y. by eexists. Qed.
Lemma ph_get (Q : State -> State -> Prop) : (forall s, P s -> Q s s) -> ph J P get_state Q E.
Proof. intros H. apply ph_pure. intros y. eexists. eauto. Qed.
Lemma ph_now clock : ph J P (unix_now clock) (fun _ => P) E.
Proof. apply ph_pure. intros y. eexists. eauto. Qed.
Lemma ph_metrics g : ph J P (pm_metrics g) (fun _ => P) E.
Proof. apply ph_pure. intros y. eexists. eauto. Qed.
Lemma ph_bump : ph J P bump_polls (fun _ => P) E.
Proof. apply ph_pure. intros y. eexists. eauto. Qed.
Lemma ph_io {A : Type} (m : io A) : keeps J m -> ph J P (pm_io m) (fun _ => P) E.
Proof.
  intros Hm y o y' Hj Hp. unfold pm_io. destruct (m (y_world y)) as [r w] eqn:Em. intros [= <- <-].
  destruct (Hm _ _ _ Hj Logic.I Em) as (? & ? & _). done.
Qed.
Lemma ph_store {A : Type} (m : io (result OciError A)) :
  keeps J m -> (forall s, P s -> E s) -> ph J P (pm_store m) (fun _ => P) E.
Proof.
  intros Hm He y o y' Hj Hp. unfold pm_store. destruct (m (y_world y)) as [r w] eqn:Em. intros [= <- <-].
  destruct (Hm _ _ _ Hj Logic.I Em) as (? & ? & _). split; [done|].
  destruct r as [[a|e]|e]; simpl; auto.
Qed.
Lemma ph_bind {A B : Type} (m : pm A) (k : A -> pm B) (R : A -> State -> Prop) (Q : B -> State -> Prop) :
  ph J P m R E -> (forall a, ph J (R a) (k a) Q E) -> ph J P (m ≫= k) Q E.
Proof.
  intros Hm Hk y o y' Hj Hp. unfold mbind, pm_bind. destruct (m y) as [[[a|e]|] y1] eqn:Em.
  2-3: intros [= <- <-]; destruct (Hm _ _ _ Hj Hp Em) as [? ?]; by split.
  intros E2. destruct (Hm _ _ _ Hj Hp Em) as (((n1 & H1 & F1) & Hj1) & Hr).
  destruct (Hk a _ _ _ Hj1 Hr E2) as (((n2 & H2 & F2) & Hj2) & Hq). split; [|done]. split; [|done].
  exists (n2 ++ n1). rewrite H2, H1, app_assoc. split; [done|]. by apply Forall_app.
Qed.
Lemma ph_update g (Q : unit -> State -> Prop) :
  (forall s, keeps J (save_state umask s)) -> (forall s, P s -> Q tt (g s)) ->
  ph J P (update_state umask g) Q E.
Proof.
  intros Hm Hq y o y' Hj Hp. unfold update_state.
  destruct (save_state umask (g (y_state y)) (y_world y)) as [r w] eqn:Em. intros [= <- <-].
  destruct (Hm _ _ _ _ Hj Logic.I Em) as (? & ? & _). split; [done|]. simpl. auto.
Qed.
End ph_rules.

Lemma ph_conseq {A : Type} (J : fs -> Prop) (P P' : State -> Prop) (m : pm A) (Q Q' : A -> State -> Prop)
    (E : State -> Prop) :
  (forall s, P s -> P' s) -> (forall a s, Q' a s -> Q a s) -> ph J P' m Q' E -> ph J P m Q E.
Proof.
  intros HP HQ Hm y o y' Hj Hp Em. destruct (Hm y o y' Hj (HP _ Hp) Em) as [? Ho]. split; [done|].
  destruct o as [[a|e]|]; auto.
Qed.

(** What a failed poll may change of the state: the times, the error text and
    the replay mark, which never goes down. *)
Record held (s0 s : State) : Prop := {
  h_ring : s_ring s = s_ring s0;
  h_digest : s_digest s = s_digest s0;
  h_applied : applied_at s = applied_at s0;
  h_etag : manifest_etag s = manifest_etag s0;
  h_sequence : last_sequence s0 <= last_sequence s;
}.

Section polls.
Context {OC : OciCrypto} {SC : StoreCodec} (umask : Z) (clock : nat -> Z).
Context (src : BundleSource) (reg : Registry).
Context (J : fs -> Prop) (s0 : State).
Context (Jstate : forall s, keeps J (save_state umask s)) (Jmanifest : forall t, keeps J (save_manifest umask t)).
Context (Jwrite : forall d es, keeps J (write_version umask d es)).
Context (Jcurrent : forall d, keeps J (store_set_current d)) (Jread : forall d, keeps J (store_read d)).
Context (Jprune : forall d, keeps J (store_prune (Nat.max (keep_versions src) 1)
  (filter (fun d => is_empty d = false) [d; s_digest s0]))).

Definition monotone (s : State) : Prop := last_sequence s0 <= last_sequence s.
Local Notation E := (held s0).

Lemma ph_has (P : State -> Prop) d : ph J P (pm_has d) (fun _ => P) E.
Proof.
  eapply ph_bind; [apply ph_io, reads_keeps, reads_is_dir|]. intros r. by apply ph_ret.
Qed.

Lemma ph_remember (P : State -> Prop) etag :
  (forall s e, P s -> P (with_etag e s)) -> ph J P (remember_etag umask etag) (fun _ => P) E.
Proof.
  intros H. destruct etag; [|by apply ph_ret]. apply ph_update; [done|]. intros s1 Hs. by apply H.
Qed.

Lemma ph_set_current ring digest : ph J monotone (set_current umask clock ring digest) (fun _ => monotone) E.
Proof.
  eapply ph_bind; [apply ph_now|]. intros now. by apply ph_update.
Qed.

Lemma ph_record_success :
  ph J (held s0) (record_success umask clock None) (fun _ => held s0) E.
Proof.
  eapply ph_bind; [apply ph_now|]. intros now. eapply ph_bind; [apply ph_metrics|]. intros ?.
  apply ph_update; [done|]. intros s [? ? ? ? ?]. by split.
Qed.

Lemma ph_record_sequence q : ph J (held s0) (record_sequence umask q) (fun _ => held s0) E.
Proof.
  eapply (ph_bind _ _ _ _ _ (fun s s' => s' = s /\ held s0 s)); [by apply ph_get|].
  intros s. destruct (Z.ltb_spec (last_sequence s) q).
  - apply ph_update; [done|]. intros s' [-> [? ? ? ? ?]]. split; simpl; auto. lia.
  - apply ph_ret. by intros s' [-> ?].
Qed.

Lemma ph_verified manifest :
  ph J (held s0) (verified_rollout umask clock src reg manifest) (fun _ => held s0) E.
Proof.
  unfold verified_rollout.
  eapply (ph_bind _ _ _ _ _ (fun _ => held s0)); [apply ph_res; intros s Hs; by case_match|]. intros env.
  eapply (ph_bind _ _ _ _ _ (fun _ => held s0)); [apply ph_res; intros s Hs; by case_match|]. intros toml.
  eapply (ph_bind _ _ _ _ _ (fun _ => held s0)); [apply ph_res; intros s Hs; by case_match|]. intros rollout.
  eapply (ph_bind _ _ _ _ _ (fun _ => held s0)); [by apply ph_get|]. intros s.
  eapply ph_bind; [apply ph_now|]. intros now.
  eapply (ph_bind _ _ _ _ _ (fun _ => held s0)); [apply ph_res; intros s' Hs; by case_match|]. intros ?.
  eapply ph_bind; [by apply ph_io|]. intros ?.
  eapply ph_bind; [apply ph_record_success|]. intros ?.
  eapply (ph_bind _ _ _ _ _ (fun _ => held s0)).
  - destruct (sequence rollout); [apply ph_record_sequence|by apply ph_ret].
  - intros ?. by apply ph_ret.
Qed.

Lemma ph_fetch digest : ph J (held s0) (fetch_bundle umask src reg digest) (fun _ => held s0) E.
Proof.
  unfold fetch_bundle.
  eapply (ph_bind _ _ _ _ _ (fun _ => held s0)); [apply ph_res; intros s Hs; by case_match|]. intros blob.
  eapply (ph_bind _ _ _ _ _ (fun _ => held s0)); [apply ph_res; intros s Hs; by case_match|]. intros ?.
  eapply (ph_bind _ _ _ _ _ (fun _ => held s0)).
  { destruct (extract _ _); [apply ph_res; intros s Hs; by case_match|apply ph_abort]. }
  intros entries.
  eapply (ph_bind _ _ _ _ _ (fun _ => held s0)); [apply ph_res; intros s Hs; by case_match|]. intros ?.
  by apply ph_store.
Qed.

Lemma held_monotone s : held s0 s -> monotone s.
Proof. by intros [? ? ? ? ?]. Qed.

Lemma ph_apply ring etag :
  ph J (held s0) (apply_ring umask clock src reg ring etag) (fun _ => monotone) E.
Proof.
  unfold apply_ring.
  eapply (ph_bind _ _ _ _ _ (fun c s => held s0 s /\ s_digest c = s_digest s0)).
  { apply ph_get. intros s Hs. split; [done|apply Hs]. }
  intros c. eapply (ph_bind _ _ _ _ _ (fun _ s => held s0 s /\ s_digest c = s_digest s0)).
  { destruct (String.eqb _ _); [apply ph_has|by apply ph_ret]. }
  intros [|].
  - eapply (ph_bind _ _ _ _ _ (fun _ => monotone)).
    { eapply ph_conseq; [| |by apply (ph_remember monotone)]; [|done]. intros s [Hs _]. by apply held_monotone. }
    intros ?. eapply (ph_bind _ _ _ _ _ (fun _ => monotone)); [|intros ?; by apply ph_ret].
    destruct (String.eqb _ _); [by apply ph_ret|apply ph_set_current].
  - eapply ph_bind; [apply ph_has|]. intros there.
    eapply (ph_bind _ _ _ _ _ (fun _ s => held s0 s /\ s_digest c = s_digest s0)).
    { destruct there; [by apply ph_ret|]. intros y o y' Hj [Hh Hc] Em.
      destruct (ph_fetch (bundle ring) y o y' Hj Hh Em) as [? Ho]. split; [done|].
      destruct o as [[]|]; auto. }
    intros ?. eapply ph_bind; [apply ph_store; [done|by intros s []]|]. intros ?.
    eapply ph_bind; [apply ph_store; [done|by intros s []]|]. intros b.
    eapply (ph_bind _ _ _ _ _ (fun _ s => monotone s /\ s_digest c = s_digest s0)).
    { intros y o y' Hj [Hh Hc] Em.
      destruct (ph_set_current (ring_name ring) (bundle ring) y o y' Hj (held_monotone _ Hh) Em) as [? Ho].
      split; [done|]. destruct o as [[]|]; auto. }
    intros ?. eapply ph_bind; [apply ph_metrics|]. intros ?.
    intros y o y' Hj [Hm Hc]. rewrite Hc. revert y o y' Hj Hm.
    eapply ph_bind; [by apply ph_io|]. intros ?.
    eapply ph_bind; [by apply ph_remember|]. intros ?. by apply ph_ret.
Qed.

Lemma ph_poll : ph J (fun s => s = s0) (poll umask clock src reg) (fun _ => monotone) E.
Proof.
  assert (forall s, s = s0 -> held s0 s) as H0 by (intros s ->; by split).
  apply (ph_conseq _ _ (held s0) _ _ (fun _ => monotone)); [exact H0|done|]. unfold poll.
  eapply ph_bind; [apply ph_bump|]. intros n.
  eapply (ph_bind _ _ _ _ _ (fun _ => held s0)).
  { destruct (_ && _); [by apply ph_ret|]. unfold current_etag.
    eapply (ph_bind _ _ _ _ _ (fun _ => held s0)); [by apply ph_get|]. intros s.
    destruct (is_empty _); [by apply ph_ret|].
    eapply ph_bind; [apply ph_has|]. intros there. by apply ph_ret. }
  intros etag. eapply (ph_bind _ _ _ _ _ (fun _ => held s0)); [apply ph_res; intros s Hs; by case_match|].
  assert (forall e, ph J (held s0) (_ ← remember_etag umask e; mret None) (fun (_ : option PolicyBundle) => monotone) E) as Hrem.
  { intros e. eapply (ph_bind _ _ _ _ _ (fun _ => monotone)); [|intros ?; by apply ph_ret].
    eapply ph_conseq; [apply held_monotone| |by apply ph_remember]. done. }
  intros [|manifest new_etag].
  - eapply ph_bind; [apply ph_record_success|]. intros ?. apply ph_ret, held_monotone.
  - eapply ph_bind; [apply ph_verified|]. intros rollout.
    destruct (freeze rollout); [apply Hrem|].
    destruct (rollout_target _ _ _) as [[ring|]|]; [apply ph_apply|apply Hrem|apply ph_abort].
Qed.
End polls.

(** ** Polls fail stale *)

Section stale.
Context {OC : OciCrypto} {SC : StoreCodec}.

Lemma keep_current keep d d0 :
  d0 <> "" -> version_name d0 ∈ version_name <$> take (Nat.max keep 1 + 1) (filter (fun d => is_empty d = false) [d; d0]).
Proof.
  intros Hd. apply list_elem_of_fmap_2.
  assert (filter (fun d => is_empty d = false) [d; d0] = if is_empty d then [d0] else [d; d0]) as ->.
  { rewrite !filter_cons, filter_nil. destruct (is_empty d0) eqn:E0; [by apply is_empty_true in E0|].
    by destruct (is_empty d). }
  rewrite take_ge by (destruct (is_empty d); simpl; lia).
  destruct (is_empty d); [left|right; left].
Qed.

(** Every program of calls extends the history. *)
Local Notation T := (fun _ : fs => True).
Lemma T_syscall {A : Type} partial (ok : fs -> result IoKind (A * fs)) : keeps T (syscall partial ok).
Proof. by apply keeps_syscall. Qed.
Lemma T_read_to_string p : keeps T (fs_read_to_string p).
Proof. apply keeps_bind; [apply T_syscall|]. intros c. destruct (valid_utf8 c); [apply keeps_ret|apply keeps_fail]. Qed.
Lemma T_only {A : Type} (S : path -> Prop) (m : io A) : only S m -> keeps T m.
Proof. intros Hm. by eapply keeps_stable. Qed.
Lemma T_replace_file umask name c : keeps T (replace_file umask name c).
Proof.
  apply keeps_bind; [by apply (T_only (fun _ => True)), only_fs_write|]. intros _. apply T_syscall.
Qed.
Lemma T_write_entry umask st e : keeps T (write_entry umask st e).
Proof.
  unfold write_entry. destruct (starts_with _ _).
  { apply keeps_bind; [apply keeps_attempt, T_syscall|intros; apply keeps_ret]. }
  destruct (join_path _ _); [|apply keeps_ret].
  apply keeps_s_call; [by apply (T_only (fun _ => True)), only_create_dir_all_go|]. intros _.
  apply keeps_s_call; [by apply (T_only (fun _ => True)), only_fs_write|intros; apply keeps_ret].
Qed.
Lemma T_write_version umask d es : keeps T (write_version umask d es).
Proof.
  unfold write_version. apply keeps_bind; [apply reads_keeps, reads_exists|]. intros [|]; [apply keeps_ret|].
  apply keeps_bind; [apply keeps_attempt, T_syscall|]. intros _.
  apply keeps_s_call; [by apply (T_only (fun _ => True)), only_create_dir_all_go|]. intros _.
  apply keeps_s_bind; [apply keeps_s_each; intros e; apply T_write_entry|]. intros _.
  apply keeps_bind; [apply keeps_attempt, T_syscall|]. intros [|]; [apply keeps_ret|].
  apply keeps_bind; [apply keeps_attempt, T_syscall|intros; apply keeps_ret].
Qed.
Lemma T_set_current d : keeps T (store_set_current d).
Proof.
  unfold store_set_current. apply keeps_bind; [apply reads_keeps, reads_is_dir|].
  intros [|]; [|apply keeps_ret]. cbn [negb].
  apply keeps_bind; [apply keeps_attempt, T_syscall|]. intros _.
  apply keeps_s_call; [apply T_syscall|]. intros _.
  apply keeps_s_call; [apply T_syscall|intros; apply keeps_ret].
Qed.
Lemma T_read d : keeps T (store_read d).
Proof.
  unfold store_read. apply keeps_s_bind.
  - intros w r w' Hi Hp E. eapply (reads_keeps T _ (reads_collect _ _ _)); eauto.
  - intros ds. case_bool_decide; apply keeps_ret.
Qed.
Lemma T_prune keep ds : keeps T (store_prune keep ds).
Proof.
  unfold store_prune. apply keeps_bind; [apply keeps_attempt, T_syscall|].
  intros [names|e]; [|apply keeps_ret]. generalize 0 as removed.
  induction names as [|name names IH]; intros removed; [apply keeps_ret|].
  destruct (starts_with ".staging-" name).
  - apply keeps_bind; [apply keeps_attempt, T_syscall|intros _; apply IH].
  - destruct (existsb (String.eqb name) _); [apply IH|].
    apply keeps_bind; [apply keeps_attempt, T_syscall|intros r; apply IH].
Qed.

Lemma poll_state umask clock src reg y o y' :
  poll umask clock src reg y = (o, y') ->
  match o with
  | Some (Ok _) => monotone (y_state y) (y_state y')
  | Some (Err _) => held (y_state y) (y_state y')
  | None => True
  end.
Proof.
  intros Ep. assert (ph T (fun s => s = y_state y) (poll umask clock src reg)
    (fun _ => monotone (y_state y)) (held (y_state y))) as Hph.
  { apply ph_poll.
    - intros s. apply T_replace_file.
    - intros t. apply T_replace_file.
    - intros d es. apply T_write_version.
    - intros d. apply T_set_current.
    - intros d. apply T_read.
    - intros d. apply T_prune. }
  by destruct (Hph y o y' Logic.I eq_refl Ep) as [_ Ho].
Qed.

(** C25: A poll fails stale.  Whatever the registry answers, whatever the clock
    says and whatever calls fail, (1) a poll that fails leaves the ring, the
    digest in force, when it was applied and the remembered ETag as they were;
    (2) a poll that returns never lowers the replay mark; and (3) the version
    directory of the digest in force is untouched in every tree the poll leaves
    on disk, at every moment, so the node can go on serving the bundle it has. *)
Theorem poll_fails_stale (umask : Z) (clock : nat -> Z) (src : BundleSource) (reg : Registry)
    (y : sys) o y' :
  poll umask clock src reg y = (o, y') -> whist (y_world y) = [] ->
  s_digest (y_state y) <> "" ->
  live (wfs (y_world y)) (version_name (s_digest (y_state y))) ->
  (forall e, o = Some (Err e) -> held (y_state y) (y_state y')) /\
  (o <> None -> last_sequence (y_state y) <= last_sequence (y_state y')) /\
  Forall (intact (wfs (y_world y)) (version_name (s_digest (y_state y))))
     (wfs (y_world y') :: whist (y_world y')).
Proof.
  intros Ep Hh Hd Hl. pose proof (poll_state _ _ _ _ _ _ _ Ep) as Hs.
  split; [|split].
  - by intros e ->.
  - intros Ho. destruct o as [[a|e]|]; [done| |done]. by destruct Hs.
  - assert (ph (intact (wfs (y_world y)) (version_name (s_digest (y_state y)))) (fun s => s = y_state y)
      (poll umask clock src reg) (fun _ => monotone (y_state y)) (held (y_state y))) as Hph.
    { apply ph_poll.
      - intros s. by apply intact_replace_file.
      - intros t. by apply intact_replace_file.
      - intros d es. by apply intact_write_version.
      - intros d. by apply intact_set_current.
      - intros d. apply intact_read.
      - intros d. apply intact_prune; [done|]. by apply keep_current. }
    destruct (Hph y o y' (fun r => eq_refl) eq_refl Ep) as (((new & E & Hf) & Hi) & _).
    rewrite Hh, app_nil_r in E. constructor; [done|]. by rewrite E.
Qed.

(** ** What gets applied *)

Lemma pm_bind_Ok {A B : Type} (m : pm A) (k : A -> pm B) y b y' :
  (m ≫= k) y = (Some (Ok b), y') <-> exists a y1, m y = (Some (Ok a), y1) /\ k a y1 = (Some (Ok b), y').
Proof.
  unfold mbind, pm_bind. split.
  - destruct (m y) as [[[a|e]|] y1]; [|done..]. eauto.
  - intros (a & y1 & -> & ?). done.
Qed.

Lemma pm_res_Ok {A : Type} (r : result OciError A) y a y' :
  pm_res r y = (Some (Ok a), y') -> r = Ok a /\ y' = y.
Proof. unfold pm_res. intros H. by simplify_eq. Qed.

(** A manifest that was opened under the trusted key, parsed, and is fresh
    against the replay mark and the clock. *)
Definition accepted (src : BundleSource) (reg : Registry) (manifest : string) (mark now : Z)
    (rollout : Rollout) : Prop :=
  exists envelope toml,
    reg_single_layer reg manifest = Ok envelope /\
    verify_open (b_key src) envelope = Ok toml /\ Rollout_parse toml = Ok rollout /\
    check_freshness rollout mark now = Ok tt.

Lemma update_state_Ok umask g y a y' :
  update_state umask g y = (a, y') -> a = Some (Ok tt) /\ y_state y' = g (y_state y).
Proof. unfold update_state. destruct (save_state _ _ _). intros [= <- <-]. done. Qed.

(** Nothing below [versions] has changed. *)
Definition same_versions (f0 f : fs) : Prop := forall r, f !! (VERSIONS :: r) = f0 !! (VERSIONS :: r).

Lemma same_versions_replace f0 umask name c :
  name <> VERSIONS -> name +:+ ".tmp" <> VERSIONS -> keeps (same_versions f0) (replace_file umask name c).
Proof.
  intros Hn Ht.
  assert (forall {A : Type} (m : io A), only (fun p => forall r, p <> VERSIONS :: r) m -> keeps (same_versions f0) m) as H.
  { intros A m Hm. eapply keeps_stable; [exact Hm|]. intros f f' Hf Ha r. rewrite Ha; [auto|].
    intros H. by apply (H r). }
  apply keeps_bind; [apply H, only_fs_write; by intros r [= ? _]|]. intros _.
  apply H, only_rename; by intros r r' [= ? _].
Qed.

Lemma pm_has_Ok d y b y' :
  pm_has d y = (Some (Ok b), y') ->
  wfs (y_world y') = wfs (y_world y) /\ y_state y' = y_state y /\
  (b = true -> node_at (wfs (y_world y)) (version_dir d) = Ok Dir).
Proof.
  unfold pm_has. intros (r & y1 & E & E2)%pm_bind_Ok. unfold mret, pm_ret in E2. injection E2 as <- <-.
  unfold pm_io in E. destruct (store_has d (y_world y)) as [r0 w] eqn:Es. injection E as <- <-.
  cbn [y_world y_state].
  destruct (reads_is_dir (version_dir d) (wfs (y_world y)) _ _ _ (agree_refl _ _) Logic.I Es) as (_ & Ha & _).
  apply agree_eq in Ha. split; [done|]. split; [done|]. intros Hb.
  destruct r0 as [[]|]; try done. unfold store_has, path_is_dir in Es.
  apply io_bind_Ok in Es as (r1 & w1 & Ea & Er). unfold attempt in Ea.
  destruct (fs_stat (version_dir d) (y_world y)) as [r2 w2] eqn:Et. injection Ea as <- <-.
  injection Er as Er _. destruct r2 as [[]|]; try done. apply syscall_Ok in Et.
  by destruct (node_at _ _); simplify_eq.
Qed.

(** The bundle's bytes hash to the digest, unpack safely and declare a schema
    this build understands. *)
Definition verified_blob (src : BundleSource) (reg : Registry) (digest : string) : Prop :=
  exists blob entries, reg_blob reg digest = Ok blob /\ sha256_digest blob = digest /\
    extract blob (max_bytes src) = Some (Ok entries) /\ validate entries = Ok tt.

Lemma fetch_bundle_Ok umask src reg d y u y' :
  fetch_bundle umask src reg d y = (Some (Ok u), y') -> verified_blob src reg d /\ y_state y' = y_state y.
Proof.
  unfold fetch_bundle. intros (blob & y1 & [Hb ->]%pm_res_Ok & E)%pm_bind_Ok.
  apply pm_bind_Ok in E as (u1 & y2 & [Hd ->]%pm_res_Ok & E).
  apply pm_bind_Ok in E as (entries & y3 & Ee & E).
  destruct (extract blob (max_bytes src)) as [r|] eqn:Ex; [|done]. apply pm_res_Ok in Ee as [-> ->].
  apply pm_bind_Ok in E as (u2 & y4 & [Hv ->]%pm_res_Ok & E). destruct u1, u2.
  split.
  - exists blob, entries. split; [done|]. split; [|done]. by apply check_digest_Ok.
  - unfold pm_store in E. destruct (write_version _ _ _ _). by simplify_eq.
Qed.

Lemma pm_io_state {A : Type} (m : io A) y o y' : pm_io m y = (o, y') -> y_state y' = y_state y.
Proof. unfold pm_io. destruct (m _). by intros [= _ <-]. Qed.
Lemma pm_store_state {A : Type} (m : io (result OciError A)) y o y' :
  pm_store m y = (o, y') -> y_state y' = y_state y.
Proof. unfold pm_store. destruct (m _). by intros [= _ <-]. Qed.

Lemma store_read_revision d w b w' : store_read d w = (Ok (Ok b), w') -> revision b = d /\ documents b <> [].
Proof.
  unfold store_read, s_bind. intros (r & w1 & _ & E)%io_bind_Ok. destruct r as [ds|]; [|done].
  case_bool_decide; [done|]. by injection E as <- <-.
Qed.

Lemma set_current_state umask clock ring d y o y' :
  set_current umask clock ring d y = (o, y') ->
  s_ring (y_state y') = ring /\ s_digest (y_state y') = d.
Proof.
  unfold set_current, unix_now, mbind, pm_bind. by intros [_ ->]%update_state_Ok.
Qed.

Lemma remember_state umask etag y o y' :
  remember_etag umask etag y = (o, y') ->
  s_ring (y_state y') = s_ring (y_state y) /\ s_digest (y_state y') = s_digest (y_state y).
Proof. destruct etag; simpl; [by intros [_ ->]%update_state_Ok|by intros [= _ <-]]. Qed.

(** A ring's bundle is applied from disk or from a verified blob. *)
Lemma apply_ring_Some umask clock src reg ring etag y b y' :
  apply_ring umask clock src reg ring etag y = (Some (Ok (Some b)), y') ->
  (revision b = bundle ring /\ documents b <> []) /\
  (s_ring (y_state y') = ring_name ring /\ s_digest (y_state y') = bundle ring) /\
  (node_at (wfs (y_world y)) (version_dir (bundle ring)) = Ok Dir \/ verified_blob src reg (bundle ring)).
Proof.
  unfold apply_ring. intros (c & y0 & [= <- <-] & E)%pm_bind_Ok.
  apply pm_bind_Ok in E as (there & y1 & E1 & E).
  assert (wfs (y_world y1) = wfs (y_world y)) as Hw1.
  { destruct (String.eqb _ _); [by apply pm_has_Ok in E1 as (? & _)|by injection E1 as _ <-]. }
  destruct there.
  { apply pm_bind_Ok in E as (? & ? & _ & E). apply pm_bind_Ok in E as (? & ? & _ & [=]). }
  apply pm_bind_Ok in E as (on_disk & y2 & (Hw2 & _ & Hon)%pm_has_Ok & E).
  apply pm_bind_Ok in E as (u & y3 & E3 & E).
  apply pm_bind_Ok in E as ([] & y4 & E4 & E).
  apply pm_bind_Ok in E as (b' & y5 & E5 & E).
  apply pm_bind_Ok in E as ([] & y6 & [Hr Hd]%set_current_state & E).
  apply pm_bind_Ok in E as ([] & y7 & [= <-] & E).
  apply pm_bind_Ok in E as (r & y8 & Hs8%pm_io_state & E).
  apply pm_bind_Ok in E as ([] & y9 & [Hr9 Hd9]%remember_state & [= -> <-]).
  split; [|split].
  - unfold pm_store in E5. destruct (store_read _ _) as [[r5|] w5] eqn:E5'; simplify_eq.
    by eapply store_read_revision.
  - rewrite Hr9, Hd9, Hs8. done.
  - rewrite <- Hw1. destruct on_disk; [left; by apply Hon|right].
    by apply fetch_bundle_Ok in E3 as [? _].
Qed.

Lemma verified_rollout_Ok umask clock src reg manifest y rollout y' :
  verified_rollout umask clock src reg manifest y = (Some (Ok rollout), y') ->
  accepted src reg manifest (last_sequence (y_state y)) (clock (y_ticks y)) rollout /\
  (forall q, sequence rollout = Some q -> q <= last_sequence (y_state y')).
Proof.
  unfold verified_rollout. intros (env & y1 & [He ->]%pm_res_Ok & E)%pm_bind_Ok.
  apply pm_bind_Ok in E as (toml & y2 & [Ht ->]%pm_res_Ok & E).
  apply pm_bind_Ok in E as (ro & y3 & [Hp ->]%pm_res_Ok & E).
  apply pm_bind_Ok in E as (s & y4 & [= <- <-] & E).
  apply pm_bind_Ok in E as (now & y5 & [= <- <-] & E).
  apply pm_bind_Ok in E as ([] & y6 & [Hf ->]%pm_res_Ok & E).
  apply pm_bind_Ok in E as (r & y7 & _ & E).
  apply pm_bind_Ok in E as ([] & y8 & _ & E).
  apply pm_bind_Ok in E as ([] & y9 & E9 & [= -> <-]).
  split; [by exists env, toml|]. intros q Hq. rewrite Hq in E9. unfold record_sequence in E9.
  apply pm_bind_Ok in E9 as (s & ya & [= <- <-] & E9).
  destruct (Z.ltb_spec (last_sequence (y_state y8)) q).
  - apply update_state_Ok in E9 as [_ ->]. done.
  - injection E9 as <-. lia.
Qed.

Lemma poll_Changed umask clock src reg y b y' :
  poll umask clock src reg y = (Some (Ok (Some b)), y') ->
  exists etag manifest new_etag rollout ring y1 y2,
    reg_manifest reg etag = Ok (Changed manifest new_etag) /\
    y_state y1 = y_state y /\ y_ticks y1 = y_ticks y /\ wfs (y_world y1) = wfs (y_world y) /\
    (wfaults (y_world y) = [] -> wfaults (y_world y1) = []) /\
    verified_rollout umask clock src reg manifest y1 = (Some (Ok rollout), y2) /\
    freeze rollout = false /\ rollout_target rollout (b_cluster src) (b_node src) = Some (Some ring) /\
    apply_ring umask clock src reg ring new_etag y2 = (Some (Ok (Some b)), y').
Proof.
  unfold poll. intros (n & y0 & [= <- <-] & E)%pm_bind_Ok.
  apply pm_bind_Ok in E as (etag & y1 & E1 & E).
  assert (y_state y1 = y_state y /\ y_ticks y1 = y_ticks y /\ wfs (y_world y1) = wfs (y_world y) /\
    (wfaults (y_world y) = [] -> wfaults (y_world y1) = [])) as (Hs & Htk & Hw & Hx).
  { destruct (_ && _); [by injection E1 as _ <-|]. unfold current_etag in E1.
    apply pm_bind_Ok in E1 as (s & ya & [= <- <-] & E1).
    destruct (is_empty _); [by injection E1 as _ <-|].
    apply pm_bind_Ok in E1 as (there & yb & Eh & [= _ <-]).
    pose proof Eh as (Hwb & Hsb & _)%pm_has_Ok. split; [done|].
    unfold pm_has, pm_io, mbind, pm_bind in Eh. destruct (store_has _ _) as [rr ww] eqn:Es.
    injection Eh as _ <-. split; [done|]. split; [done|]. eapply spends_none; [|exact Es].
    unfold store_has, path_is_dir, fs_stat. spending. }
  apply pm_bind_Ok in E as (fetched & y2 & [Hf ->]%pm_res_Ok & E).
  destruct fetched as [|manifest new_etag].
  { apply pm_bind_Ok in E as (? & ? & _ & [=]). }
  apply pm_bind_Ok in E as (rollout & y3 & Ev & E).
  destruct (freeze rollout) eqn:Efr; [by apply pm_bind_Ok in E as (? & ? & _ & [=])|].
  destruct (rollout_target _ _ _) as [[ring|]|] eqn:Et; [|by apply pm_bind_Ok in E as (? & ? & _ & [=])|done].
  exists etag, manifest, new_etag, rollout, ring, y1, y3. done.
Qed.

(** ** No replays *)

Lemma apply_ring_mark umask clock src reg ring etag y a y' :
  apply_ring umask clock src reg ring etag y = (Some (Ok a), y') ->
  last_sequence (y_state y) <= last_sequence (y_state y').
Proof.
  intros E.
  assert (held (y_state y) (y_state y)) as H0 by (by split).
  assert (ph T (held (y_state y)) (apply_ring umask clock src reg ring etag)
    (fun _ => monotone (y_state y)) (held (y_state y))) as Hph.
  { apply ph_apply.
    - intros s. apply T_replace_file.
    - intros d es. apply T_write_version.
    - intros d. apply T_set_current.
    - intros d. apply T_read.
    - intros d. apply T_prune. }
  by destruct (Hph y _ y' Logic.I H0 E) as [_ ?].
Qed.

Lemma poll_applies_mark umask clock src reg y b y' :
  poll umask clock src reg y = (Some (Ok (Some b)), y') ->
  exists manifest rollout ring,
    accepted src reg manifest (last_sequence (y_state y)) (clock (y_ticks y)) rollout /\
    rollout_target rollout (b_cluster src) (b_node src) = Some (Some ring) /\
    revision b = bundle ring /\
    (forall q, sequence rollout = Some q -> q <= last_sequence (y_state y')).
Proof.
  intros (etag & manifest & new_etag & rollout & ring & y1 & y2 & Hm & Hs & Htk & Hw & _ & Ev & Hf & Ht & Ea)%poll_Changed.
  pose proof (apply_ring_mark _ _ _ _ _ _ _ _ _ Ea) as Hmark.
  apply apply_ring_Some in Ea as ([Hr Hd] & _).
  apply verified_rollout_Ok in Ev as [Hacc Hseq]. rewrite Hs, Htk in Hacc.
  exists manifest, rollout, ring. do 3 (split; [done|]). intros q Hq. specialize (Hseq q Hq). lia.
Qed.

(** What can happen between two polls of one process: rounds of the poll loop
    with any registry, and anything that does not touch the state in memory
    (the clock, the disk, the metrics). *)
Inductive between (umask : Z) (clock : nat -> Z) (shown : OciError -> string) (src : BundleSource) :
    sys -> sys -> Prop :=
| between_round reg y o y' :
    poll_round umask clock shown src reg y = (Some o, y') -> between umask clock shown src y y'
| between_env y y' : y_state y' = y_state y -> between umask clock shown src y y'.

Lemma between_mark umask clock shown src y y' :
  between umask clock shown src y y' -> last_sequence (y_state y) <= last_sequence (y_state y').
Proof.
  intros [reg ya o yb E|ya yb ->]; [|lia]. unfold poll_round in E.
  destruct (poll umask clock src reg ya) as [[[a|e]|] y1] eqn:Ep; pose proof (poll_state _ _ _ _ _ _ _ Ep) as Hs.
  - injection E as _ <-. exact Hs.
  - destruct (record_error umask e (shown e) y1) as [o1 y2] eqn:Er. injection E as _ <-.
    unfold record_error, pm_metrics, mbind, pm_bind in Er. destruct Hs as [_ _ _ _ Hs].
    case_bool_decide; apply update_state_Ok in Er as [_ ->]; exact Hs.
  - done.
Qed.

Lemma between_rtc_mark umask clock shown src y y' :
  rtc (between umask clock shown src) y y' -> last_sequence (y_state y) <= last_sequence (y_state y').
Proof. induction 1 as [|ya yb yc H%between_mark _ IH]; lia. Qed.

(** C14: No replays.  Once a bundle was applied under a manifest with a sequence,
    every bundle the same process applies later, after any polls, failed ones
    included, and whatever the registry serves, comes from a manifest with a
    sequence at least as high: a genuine but older manifest is never applied. *)
Theorem no_replay (umask : Z) (clock : nat -> Z) (shown : OciError -> string) (src : BundleSource)
    (reg1 reg2 : Registry) (y1 y1' y2 y2' : sys) (b1 b2 : PolicyBundle) :
  poll umask clock src reg1 y1 = (Some (Ok (Some b1)), y1') ->
  rtc (between umask clock shown src) y1' y2 ->
  poll umask clock src reg2 y2 = (Some (Ok (Some b2)), y2') ->
  exists m1 r1 ring1 m2 r2 ring2 now1 now2,
    (accepted src reg1 m1 (last_sequence (y_state y1)) now1 r1 /\
     rollout_target r1 (b_cluster src) (b_node src) = Some (Some ring1) /\ revision b1 = bundle ring1) /\
    (accepted src reg2 m2 (last_sequence (y_state y2)) now2 r2 /\
     rollout_target r2 (b_cluster src) (b_node src) = Some (Some ring2) /\ revision b2 = bundle ring2) /\
    forall q1, sequence r1 = Some q1 -> 0 < q1 -> exists q2, sequence r2 = Some q2 /\ q1 <= q2.
Proof.
  intros (m1 & r1 & ring1 & A1 & T1 & R1 & M1)%poll_applies_mark Hb%between_rtc_mark
         (m2 & r2 & ring2 & A2 & T2 & R2 & _)%poll_applies_mark.
  exists m1, r1, ring1, m2, r2, ring2, (clock (y_ticks y1)), (clock (y_ticks y2)).
  do 2 (split; [done|]). intros q1 Hq Hpos. specialize (M1 q1 Hq).
  destruct A2 as (env & toml & _ & _ & _ & Hf). unfold check_freshness in Hf.
  destruct (sequence r2) as [q2|].
  - exists q2. split; [done|]. apply bind_Ok in Hf as (u & Hg%guard_err_Ok & _).
    destruct (Z.ltb_spec 0 (last_sequence (y_state y2))); [|lia].
    destruct (Z.ltb_spec q2 (last_sequence (y_state y2))); [done|lia].
  - exfalso. apply bind_Ok in Hf as (u & Hg%guard_err_Ok%Z.ltb_ge & _). lia.
Qed.

(** ** The state file *)

(** the state file is replaced, never edited.  Whatever faults the calls
    meet, in every tree that saving a state leaves behind the file that
    [load_state] reads holds its old content or the whole new one, and it holds
    the new one when the save succeeds; so a restart never finds a torn state
    and never forgets the replay mark it had saved. *)
Theorem save_state_atomic (umask : Z) (f0 : fs) (faults : list (option fault)) (s : State) r w' :
  save_state umask s (mkWorld f0 faults []) = (r, w') ->
  f0 !! [STATE +:+ ".tmp"] <> Some Dir ->
  Forall (fun f => f !! [STATE] = f0 !! [STATE] \/
                   exists m g, f !! [STATE] = Some (File (state_to_json s) m g)) (wfs w' :: whist w') /\
  (r = Ok tt -> exists m g, wfs w' !! [STATE] = Some (File (state_to_json s) m g)).
Proof.
  intros E Hd. set (J := fun f : fs => f !! [STATE] = f0 !! [STATE] \/
    exists m g, f !! [STATE] = Some (File (state_to_json s) m g)).
  assert (hoare J (fun f => f !! [STATE] = f0 !! [STATE] /\ f !! [STATE +:+ ".tmp"] <> Some Dir)
    (save_state umask s) (fun _ f => exists m g, f !! [STATE] = Some (File (state_to_json s) m g))
    (fun _ => True)) as H.
  { unfold save_state, replace_file, fs_write.
    eapply (hoare_bind _ _ _ (fun _ f => exists m g, f !! [STATE +:+ ".tmp"] = Some (File (state_to_json s) m g))).
    - eapply (hoare_bind _ _ _ (fun _ f => f !! [STATE] = f0 !! [STATE] /\
        exists m g, f !! [STATE +:+ ".tmp"] = Some (File "" m g))).
      + apply hoare_syscall; [by auto|]. intros f _ [Hf Hnd]. unfold J.
        destruct (f !! [STATE +:+ ".tmp"]) as [[c m g| |t]|]; try done;
          cbn [is_dir parent removelast app String.append]; rewrite lookup_insert_ne, lookup_insert_eq by done;
          eauto 10.
      + intros []. apply hoare_syscall.
        * intros f ft _ [Hf (m & g & Et)]. unfold set_content. rewrite Et. unfold J.
          rewrite lookup_insert_ne by done. auto.
        * intros f _ [Hf (m & g & Et)]. unfold set_content. rewrite Et. unfold J.
          rewrite lookup_insert_ne, lookup_insert_eq by done. eauto.
    - intros []. apply hoare_syscall; [by auto|]. intros f _ (m & g & Et). rewrite Et.
      destruct (f !! [STATE]) as [[]|]; try done; cbn [is_dir parent removelast];
        unfold J; rewrite lookup_insert_eq; eauto 10. }
  destruct (H (mkWorld f0 faults []) r w' (or_introl eq_refl) (conj eq_refl Hd) E) as ((new & Hh & Hf) & Hi & Hr).
  simpl in Hh. rewrite app_nil_r in Hh. subst new. split; [by constructor|]. by intros ->.
Qed.
End stale.

(** ** Witnesses *)

Module OciWitness.
Definition zero_digest : string :=
  "sha256:0000000000000000000000000000000000000000000000000000000000000000".
Definition the_rollout : Rollout :=
  mkRollout 1 false (Some 7) None [mkRing "all" (mkMatch [] None []) zero_digest].

(** A hash that is constantly zero and envelopes that are their payload. *)
#[export] Instance crypto : OciCrypto := {|
  sha256 := fun _ => repeat 0%N 32;
  ed25519_verify := fun _ _ _ => true;
  b64_std := Some;
  json_envelope := fun s => Some (mkEnvelope 1 "ed25519" s "sig");
  toml_rollout := fun _ => Some the_rollout |}.

(** Enough of a codec for the runs below: the sequence is what is kept. *)
#[export] Instance codec : StoreCodec := {|
  state_to_json := fun s => show_u64 (last_sequence s);
  state_of_json := fun s => (fun n => mkState "" "" 0 0 "" "" n) <$> parse_u64 s;
  toml_schema := fun _ => Some 1 |}.

Definition src : BundleSource := mkSource 10 1000 2 "prod" "node-1" "KEY".
Definition blob : string := pack [mkEntry "bundle.toml" "schema = 1"; mkEntry "docs/a.toml" "x"].
Definition reg : Registry :=
  mkRegistry (fun _ => Ok (Changed "m" (Some "etag-1"))) (fun _ => Ok "rollout") (fun _ => Ok blob).
Definition broken : Registry :=
  mkRegistry (fun _ => Err OFetch) (fun _ => Err OFetch) (fun _ => Err OFetch).
Definition clock (n : nat) : Z := 1000 + Z.of_nat n.
Definition disk : fs := {[ [VERSIONS] := Dir ]}.
Definition no_metrics : BundleMetrics := mkBundleMetrics 0 0 0 0 ∅ 0.
Definition y0 : sys := mkSys default_state no_metrics (mkWorld disk [] []) 0.
Definition after : sys := (poll 18 clock src reg y0).2.
Definition the_bundle : PolicyBundle :=
  mkBundle zero_digest [mkDocument "bundle.toml" "schema = 1"; mkDocument "docs/a.toml" "x"].

Example first_poll_applies : (poll 18 clock src reg y0).1 = Some (Ok (Some the_bundle)).
Proof. vm_compute. reflexivity. Qed.
Example second_poll_is_quiet : (poll 18 clock src reg after).1 = Some (Ok None).
Proof. vm_compute. reflexivity. Qed.
Example etag_is_remembered : manifest_etag (y_state after) = "etag-1".
Proof. vm_compute. reflexivity. Qed.

(** The process goes on, the history of its disk starting afresh. *)
Definition running : sys := mkSys (y_state after) (y_metrics after) (mkWorld (wfs (y_world after)) [] []) 5.

Lemma running_live : live (wfs (y_world running)) (version_name (s_digest (y_state running))).
Proof.
  split; [vm_compute; reflexivity|]. split; [vm_compute; reflexivity|].
  exists "bundle.toml". vm_compute. eauto.
Qed.

Lemma poll_fails_stale_witness :
  held (y_state running) (y_state (poll 18 clock src broken running).2).
Proof.
  eapply (poll_fails_stale 18 clock src broken running (poll 18 clock src broken running).1
    (poll 18 clock src broken running).2).
  - apply surjective_pairing.
  - reflexivity.
  - vm_compute. discriminate.
  - apply running_live.
  - vm_compute. reflexivity.
Defined.

(** The same process on an emptied disk, so that the bundle is applied again. *)
Definition emptied : sys := mkSys (y_state after) (y_metrics after) (mkWorld disk [] []) 5.

Lemma no_replay_witness :
  exists m1 r1 ring1 m2 r2 ring2 now1 now2,
    (accepted src reg m1 (last_sequence (y_state y0)) now1 r1 /\
     rollout_target r1 "prod" "node-1" = Some (Some ring1) /\ revision the_bundle = bundle ring1) /\
    (accepted src reg m2 (last_sequence (y_state emptied)) now2 r2 /\
     rollout_target r2 "prod" "node-1" = Some (Some ring2) /\ revision the_bundle = bundle ring2) /\
    forall q1, sequence r1 = Some q1 -> 0 < q1 -> exists q2, sequence r2 = Some q2 /\ q1 <= q2.
Proof.
  apply (no_replay 18 clock reason src reg reg y0 after emptied (poll 18 clock src reg emptied).2
    the_bundle the_bundle).
  - unfold after. rewrite (surjective_pairing (poll 18 clock src reg y0)) at 1.
    f_equal; vm_compute; reflexivity.
  - apply rtc_once, between_env. reflexivity.
  - rewrite (surjective_pairing (poll 18 clock src reg emptied)) at 1. f_equal; vm_compute; reflexivity.
Defined.

Lemma save_state_atomic_witness :
  exists m g, wfs (save_state 18 default_state (mkWorld disk [] [])).2 !! [STATE]
              = Some (File (state_to_json default_state) m g).
Proof.
  apply (save_state_atomic 18 disk [] default_state (save_state 18 default_state (mkWorld disk [] [])).1).
  - apply surjective_pairing.
  - vm_compute. discriminate.
  - vm_compute. reflexivity.
Defined.
End OciWitness.
