(* ===== verification/Contents.v ===== *)
(** * What a version directory holds
    (svidlet/src/policy/oci/store.rs, mod.rs)

    [write_version] unpacks the entries of an archive beside the versions and
    renames the result into place; [read] collects the files below a version.
    Here the two are put together: the documents of a bundle are, name by name
    and byte by byte, the entries of the archive it was unpacked from. *)

From S2P Require Import Prelude RustStr Rollout Tarball Fs Volume Oci.
Local Notation path := (list string).
Open Scope list_scope.
Open Scope Z_scope.

(** The segments an entry is unpacked to. *)
Definition segments (e : TarEntry) : path := split_char "/" (Tarball.path e).
Definition is_file (n : option node) : Prop := exists c m g, n = Some (File c m g).

(** ** Reading *)

Lemma s_bind_Ok {A B : Type} (m : io (result OciError A)) (k : A -> io (result OciError B)) w b w' :
  s_bind m k w = (Ok (Ok b), w') -> exists a w1, m w = (Ok (Ok a), w1) /\ k a w1 = (Ok (Ok b), w').
Proof. unfold s_bind. intros ([a|e] & w1 & E & H)%io_bind_Ok; [by exists a, w1|done]. Qed.
Lemma s_call_Ok {A B : Type} (m : io A) (k : A -> io (result OciError B)) w b w' :
  s_call m k w = (Ok (Ok b), w') -> exists a w1, m w = (Ok a, w1) /\ k a w1 = (Ok (Ok b), w').
Proof.
  unfold s_call. intros (r & w1 & E & H)%io_bind_Ok. unfold attempt in E. destruct (m w) as [r1 w2].
  injection E as <- <-. destruct r1 as [a|e]; [by exists a, w2|done].
Qed.

Lemma path_is_dir_true f g tl w b w' :
  no_links f g -> wfs w = f -> path_is_dir (g :: tl) w = (Ok b, w') -> wfs w' = f /\ (b = true -> f !! (g :: tl) = Some Dir).
Proof.
  intros Hl Hw E. split; [rewrite <- Hw; eapply reads_run; [apply reads_is_dir|exact E]|]. intros ->.
  unfold path_is_dir in E. apply io_bind_Ok in E as (r & w1 & E & H). unfold attempt in E.
  destruct (fs_stat (g :: tl) w) as [r1 w2] eqn:Es. injection E as <- <-. injection H as H _. destruct r1 as [[]|]; try done.
  apply syscall_Ok in Es. rewrite Hw in Es. destruct (node_at f (g :: tl)) as [n|] eqn:En; [|done]. injection Es as -> _.
  by eapply node_at_no_links.
Qed.
Lemma fs_read_file f g tl w c w' :
  no_links f g -> wfs w = f -> fs_read (g :: tl) w = (Ok c, w') -> wfs w' = f /\ exists m gid, f !! (g :: tl) = Some (File c m gid).
Proof.
  intros Hl Hw E. split; [rewrite <- Hw; eapply reads_run; [apply reads_read|exact E]|].
  apply syscall_Ok in E. rewrite Hw in E. destruct (node_at f (g :: tl)) as [[c' m gid| |]|] eqn:En; try done.
  injection E as -> _. exists m, gid. by eapply node_at_no_links.
Qed.
Lemma fs_read_dir_names f g tl w names w' :
  no_links f g -> wfs w = f -> fs_read_dir (g :: tl) w = (Ok names, w') -> wfs w' = f /\ names = children f (g :: tl).
Proof.
  intros Hl Hw E. apply syscall_Ok in E. rewrite Hw in E. destruct (Fs.resolve _ f [] (g :: tl)) as [q|] eqn:Eq; [|done].
  apply (resolve_no_links _ f g [] (g :: tl) tl) in Eq; [|done..]. subst q. cbn in E.
  destruct (bool_decide _); [|done]. by injection E as <- <-.
Qed.

(** A document is a file below the directory. *)
Definition is_doc (f : fs) (root rel : path) (d : PolicyDocument) : Prop :=
  exists r m g, r <> [] /\ doc_name d = RustStr.join "/" (rel ++ r) /\ f !! (root ++ rel ++ r) = Some (File (doc_content d) m g).
(** And every file below it is a document. *)
Definition all_docs (f : fs) (root rel : path) (ds : list PolicyDocument) : Prop :=
  forall r, r <> [] -> is_file (f !! (root ++ rel ++ r)) -> exists d, d ∈ ds /\ doc_name d = RustStr.join "/" (rel ++ r).

Lemma collect_run fuel f g tl rel w ds w' :
  no_links f g -> tree_ok f -> wfs w = f -> collect_go fuel (g :: tl) rel w = (Ok (Ok ds), w') ->
  wfs w' = f /\ Forall (is_doc f (g :: tl) rel) ds /\ all_docs f (g :: tl) rel ds.
Proof.
  intros Hl Ht. revert rel w ds w'. induction fuel as [|fuel IH]; intros rel w ds w' Hw; cbn [collect_go]; [done|].
  intros (names & w1 & E1 & E)%s_call_Ok. cbn [app] in E1. apply (fs_read_dir_names f) in E1 as [Hw1 Hnames]; [|done..].
  assert (Hall : forall r, r <> [] -> is_file (f !! ((g :: tl) ++ rel ++ r)) -> exists s r', r = s :: r' /\ s ∈ names).
  { intros [|s r] Hr (c & m & gid & Hf); [done|]. exists s, r. split; [done|]. rewrite Hnames.
    destruct (decide (r = [])) as [->|Hne].
    - eapply elem_of_children_at. rewrite <- Hf. f_equal. cbn. by rewrite <- app_assoc.
    - apply (tree_above f ((g :: tl) ++ rel ++ [s]) r) in Ht as Hd; [|done|done|rewrite <- !app_assoc; by eexists].
      eapply elem_of_children_at. rewrite <- Hd. f_equal. cbn. by rewrite <- app_assoc. }
  assert (Hgo : wfs w' = f /\ Forall (is_doc f (g :: tl) rel) ds /\
    forall r s r', r = s :: r' -> s ∈ names -> is_file (f !! ((g :: tl) ++ rel ++ r)) -> exists d, d ∈ ds /\ doc_name d = RustStr.join "/" (rel ++ r)).
  2: { destruct Hgo as (H1 & H2 & H3). split; [done|]. split; [done|]. intros r Hr Hf.
       destruct (Hall r Hr Hf) as (s & r' & E' & Hs). eauto. }
  clear Hnames Hall. revert w1 ds w' Hw1 E. induction names as [|name names IHn]; intros w1 ds w' Hw1 E.
  { injection E as <- <-. split; [done|]. split; [done|]. intros r s r' _ Hs. by apply elem_of_nil in Hs. }
  apply io_bind_Ok in E as (b & w2 & E2 & E). cbn [app] in E2. apply (path_is_dir_true f) in E2 as [Hw2 Hb]; [|done..].
  apply s_bind_Ok in E as (here & w3 & E3 & E). apply s_bind_Ok in E as (rest & w4 & E4 & E). injection E as <- <-.
  assert (Hhere : wfs w3 = f /\ Forall (is_doc f (g :: tl) rel) here /\
    forall r', is_file (f !! ((g :: tl) ++ rel ++ name :: r')) -> exists d, d ∈ here /\ doc_name d = RustStr.join "/" (rel ++ name :: r')).
  { destruct b.
    - apply IH in E3 as (H1 & H2 & H3); [|done]. split; [done|]. split.
      + eapply Forall_impl; [exact H2|]. intros d (r & m & gid & Hr & Hn & Hf). exists (name :: r), m, gid.
        split; [done|]. rewrite <- app_assoc in Hn, Hf. by split.
      + intros r' Hf. destruct r' as [|s r'].
        * destruct Hf as (c & m & gid & Hf). specialize (Hb eq_refl). cbn in Hb, Hf. congruence.
        * destruct (H3 (s :: r')) as (d & Hd & Hn); [done|by rewrite <- app_assoc|]. exists d. split; [done|]. by rewrite <- app_assoc in Hn.
    - apply s_call_Ok in E3 as (c & w5 & E5 & E3). injection E3 as <- <-. cbn [app] in E5.
      apply (fs_read_file f) in E5 as [H1 (m & gid & Hf)]; [|done..]. split; [done|]. split.
      + apply Forall_singleton. exists [name], m, gid. done.
      + intros r' Hf'. destruct (decide (r' = [])) as [->|Hne]; [eexists; by split; [left|]|].
        destruct Hf' as (c' & m' & g' & Hf'). exfalso.
        apply (tree_above f ((g :: tl) ++ rel ++ [name]) r') in Ht as Hd; [|done|done|rewrite <- !app_assoc; by eexists].
        cbn in Hd. rewrite Hf in Hd. discriminate Hd. }
  destruct Hhere as (H3 & Hd3 & Ha3). destruct (IHn w3 rest w4 H3 E4) as (H4 & Hd4 & Ha4).
  split; [done|]. split; [by apply Forall_app|]. intros r s r' -> [->|Hs]%elem_of_cons Hf.
  - destruct (Ha3 r' Hf) as (d & Hd & Hn). exists d. split; [apply elem_of_app; by left|done].
  - destruct (Ha4 _ _ _ eq_refl Hs Hf) as (d & Hd & Hn). exists d. split; [apply elem_of_app; by right|done].
Qed.

Lemma doc_insert_perm d ds : doc_insert d ds ≡ₚ d :: ds.
Proof. induction ds as [|e ds IH]; cbn; [done|]. destruct (String.leb _ _); [done|]. rewrite IH. apply Permutation_swap. Qed.
Lemma sort_documents_perm ds : sort_documents ds ≡ₚ ds.
Proof. induction ds as [|d ds IH]; cbn; [done|]. by rewrite doc_insert_perm, IH. Qed.

(** ** Unpacking *)

(** Directories may have been added. *)
Definition added (f f' : fs) : Prop := forall p, f' !! p = f !! p \/ (f !! p = None /\ f' !! p = Some Dir).

Lemma added_refl f : added f f.
Proof. by left. Qed.
Lemma added_trans f f1 f2 : added f f1 -> added f1 f2 -> added f f2.
Proof. intros H1 H2 p. destruct (H1 p) as [E1|[N1 E1]], (H2 p) as [E2|[N2 E2]]; [left|right..]; try split; congruence. Qed.
Lemma added_file f f' p c m g : added f f' -> f' !! p = Some (File c m g) -> f !! p = Some (File c m g).
Proof. intros H Hf. destruct (H p) as [E|[_ E]]; congruence. Qed.
Lemma added_some f f' p n : added f f' -> f !! p = Some n -> f' !! p = Some n.
Proof. intros H Hf. destruct (H p) as [E|[E _]]; congruence. Qed.
Lemma added_no_links f f' g : added f f' -> no_links f g -> no_links f' g.
Proof. intros H Hl r t E. destruct (H (g :: r)) as [E'|[_ E']]; [|congruence]. apply (Hl r t). congruence. Qed.

Lemma reads_attempt_create p w r w1 :
  attempt (fs_create_dir p) w = (Ok r, w1) -> added (wfs w) (wfs w1) /\ (forall u, r = Ok u -> wfs w1 !! p = Some Dir).
Proof.
  unfold attempt, fs_create_dir, syscall. intros E.
  destruct (wfaults w) as [|[ft|] rest]; [|injection E as <- <-; split; [apply added_refl|done]|];
    (destruct (wfs w !! p) as [n|] eqn:El; [injection E as <- <-; split; [apply added_refl|done]|];
     destruct (is_dir _ _); injection E as <- <-; cbn; [|split; [apply added_refl|done]];
     split; [|intros _ _; apply lookup_insert_eq]; intros q; destruct (decide (q = p)) as [->|Hne];
       [right; by rewrite lookup_insert_eq|left; by rewrite lookup_insert_ne]).
Qed.

Lemma create_dir_all_run g at_ rest w u w' :
  no_links (wfs w) g -> (rest <> [] -> exists tl, at_ ++ rest = g :: tl) -> create_dir_all_go at_ rest w = (Ok u, w') ->
  added (wfs w) (wfs w') /\ (rest <> [] -> wfs w' !! (at_ ++ rest) = Some Dir).
Proof.
  revert at_ w. induction rest as [|s rest IH]; intros at_ w Hl Hg; cbn [create_dir_all_go].
  { intros [= _ <-]. split; [apply added_refl|done]. }
  intros (r & w1 & [A1 D1]%reads_attempt_create & E)%io_bind_Ok. apply io_bind_Ok in E as (u1 & w2 & E2 & E).
  destruct (Hg ltac:(done)) as [tl Htl].
  assert (Hpre : exists tl', at_ ++ [s] = g :: tl').
  { destruct at_ as [|a at_]; injection Htl as -> _; by eexists. }
  assert (Hl1 : no_links (wfs w1) g) by (by eapply added_no_links).
  assert (H2 : wfs w2 = wfs w1 /\ wfs w2 !! (at_ ++ [s]) = Some Dir).
  { destruct r as [x|e]; [injection E2 as _ <-; split; [done|by apply (D1 x)]|].
    apply io_bind_Ok in E2 as (b & w3 & E3 & E2). destruct Hpre as [tl' Hpre]. rewrite Hpre in *.
    apply (path_is_dir_true (wfs w1)) in E3 as [Hw3 Hb]; [|done..]. destruct b; [|done]. injection E2 as _ <-.
    rewrite Hw3. split; [done|by apply Hb]. }
  destruct H2 as [H2 D2]. rewrite <- H2 in A1, Hl1.
  destruct (IH (at_ ++ [s]) w2) as [A3 D3]; [done| |exact E|].
  - intros _. exists tl. by rewrite <- app_assoc.
  - split; [by eapply added_trans|]. intros _. destruct rest as [|x rest].
    + by eapply added_some.
    + specialize (D3 ltac:(done)). by rewrite <- app_assoc in D3.
Qed.

Lemma fs_write_run umask p c w u w' :
  fs_write umask p c w = (Ok u, w') ->
  exists m g, wfs w' = <[p := File c m g]> (wfs w) /\
    ((wfs w !! p = None /\ is_dir (wfs w) (parent p) = true) \/ is_file (wfs w !! p)).
Proof.
  unfold fs_write. intros (u1 & w1 & E1%syscall_Ok & E2%syscall_Ok)%io_bind_Ok. injection E2 as _ E2.
  assert (exists m g, wfs w1 = <[p := File "" m g]> (wfs w) /\
    ((wfs w !! p = None /\ is_dir (wfs w) (parent p) = true) \/ is_file (wfs w !! p))) as (m & g & E & H).
  { destruct (wfs w !! p) as [[c0 m0 g0| |]|] eqn:El; try done.
    - injection E1 as _ <-. exists m0, g0. split; [done|]. right. by eexists _, _, _.
    - destruct (is_dir _ _) eqn:Ed; [|done]. injection E1 as _ <-. eexists _, _. split; [done|]. left. by split. }
  exists m, g. split; [|done]. rewrite <- E2, E. unfold set_content. by rewrite lookup_insert_eq, insert_insert_eq.
Qed.

(** The entries of an archive the reader accepted. *)
Definition safe_entry (e : TarEntry) : Prop := safe_path (Tarball.path e).

Lemma safe_segments e : safe_entry e -> segments e <> [] /\ Forall (fun s => s <> "" /\ s <> "." /\ s <> "..") (segments e).
Proof. intros [_ _ H]. split; [apply split_char_nonempty|exact H]. Qed.
Lemma join_safe d e : safe_entry e -> join_path d (Tarball.path e) = Some (d ++ segments e).
Proof.
  intros He. destruct (safe_segments e He) as [_ Hs]. destruct He as [Hr _ _]. unfold join_path. rewrite Hr.
  fold (segments e). cbn [orb].
  replace (existsb (String.eqb "..") (segments e)) with false.
  2: { symmetry. apply not_true_iff_false. intros (x & Hx & Ex%String.eqb_eq)%existsb_exists. subst x.
       eapply Forall_forall in Hs; [|by apply list_elem_of_In]. by destruct Hs as (_ & _ & ?). }
  f_equal. f_equal. induction Hs as [|s l (H1 & H2 & _) _ IH]; [done|]. rewrite filter_cons, IH.
  apply String.eqb_neq in H1, H2. by rewrite H1, H2.
Qed.

(** A directory being filled with the entries [done]. *)
Record exact (st : path) (done : list TarEntry) (f : fs) : Prop := {
  ex_from : forall r c m g, f !! (st ++ r) = Some (File c m g) -> exists e, e ∈ done /\ segments e = r /\ content e = c;
  ex_all : forall e, e ∈ done -> is_file (f !! (st ++ segments e));
}.
(** The cache between two calls. *)
Record well (f : fs) : Prop := { wl_tree : tree_ok f; wl_links : no_links f VERSIONS }.
Record holds (st : path) (done : list TarEntry) (f : fs) : Prop := {
  ho_well : well f;
  ho_dir : f !! st = Some Dir;
  ho_exact : exact st done f;
}.

Lemma exact_same st st' es f f' : (forall r, f' !! (st' ++ r) = f !! (st ++ r)) -> exact st es f -> exact st' es f'.
Proof. intros H [Hf Ha]. split; [intros r c m g; rewrite H; apply Hf|intros e He; rewrite H; by apply Ha]. Qed.
Lemma holds_added st done f f' : added f f' -> tree_ok f' -> holds st done f -> holds st done f'.
Proof.
  intros Ha Ht [[_ Hl] Hd [Hfrom Hall]]. split; [split; [done|by eapply added_no_links]|by eapply added_some|split].
  - intros r c m g Hf. eapply Hfrom. by eapply added_file.
  - intros e (c & m & g & Hf)%Hall. exists c, m, g. by eapply added_some.
Qed.

Section unpack.
Context (umask : Z).

Lemma tree_fs_write p c : p <> [] -> keeps tree_ok (fs_write umask p c).
Proof. intros Hp. apply keeps_bind; [by apply tree_open_trunc|intros _; apply tree_write_all]. Qed.

Lemma write_entry_run s e don w w' :
  let st := [VERSIONS; s] in
  holds st don (wfs w) -> safe_entry e -> write_entry umask st e w = (Ok (Ok tt), w') -> holds st (don ++ [e]) (wfs w').
Proof.
  intros st Hh He. unfold write_entry. rewrite (sp_relative _ He), (join_safe st e He).
  destruct (safe_segments e He) as [Hne _].
  intros (u1 & w1 & E1 & E)%s_call_Ok. apply s_call_Ok in E as ([] & w2 & E2 & E). injection E as <-.
  assert (Hpar : parent (st ++ segments e) = VERSIONS :: s :: removelast (segments e)).
  { unfold parent. by rewrite removelast_app. }
  rewrite Hpar in E1. unfold fs_create_dir_all in E1.
  destruct (tree_create_dir_all_go [] (VERSIONS :: s :: removelast (segments e)) w _ _ (wl_tree _ (ho_well _ _ _ Hh)) Logic.I E1) as (_ & T1 & _).
  apply (create_dir_all_run VERSIONS) in E1 as [A1 D1]; [|apply Hh|intros _; by eexists].
  pose proof (holds_added _ _ _ _ A1 T1 Hh) as [[_ Hl] Hd [Hfrom Hall]].
  destruct (tree_fs_write (st ++ segments e) _ ltac:(done) _ _ _ T1 Logic.I E2) as (_ & T2 & _).
  apply fs_write_run in E2 as (m & g & Ew & _). rewrite Ew in T2 |- *. split; [split; [done|]| |split].
  - intros r t H. destruct (decide (VERSIONS :: r = st ++ segments e)) as [Hq|Hq]; [rewrite Hq in H; by rewrite lookup_insert_eq in H|].
    rewrite lookup_insert_ne in H by congruence. by eapply Hl.
  - rewrite lookup_insert_ne; [done|]. intros E. rewrite <- (app_nil_r st) in E at 2. by apply (inj (app st)) in E.
  - intros r c m' g' H. destruct (decide (segments e = r)) as [<-|Hq].
    + rewrite lookup_insert_eq in H. injection H as <- <- <-. exists e. split; [apply elem_of_app; right; left|done].
    + rewrite lookup_insert_ne in H by (intros E%(inj (app st)); done). apply Hfrom in H as (e' & He1 & He2).
      exists e'. split; [apply elem_of_app; by left|done].
  - intros e' [He1|He1%list_elem_of_singleton]%elem_of_app; [|subst e'; rewrite lookup_insert_eq; by eexists _, _, _].
    destruct (decide (segments e = segments e')) as [->|Hq]; [rewrite lookup_insert_eq; by eexists _, _, _|].
    rewrite lookup_insert_ne by (intros E%(inj (app st)); done). by apply Hall.
Qed.

Lemma write_entries_run s es don w w' :
  let st := [VERSIONS; s] in
  holds st don (wfs w) -> Forall safe_entry es -> s_each (write_entry umask st) es w = (Ok (Ok tt), w') ->
  holds st (don ++ es) (wfs w').
Proof.
  intros st. revert don w. induction es as [|e es IH]; intros don w Hh Hes; cbn [s_each].
  { intros [= <-]. by rewrite app_nil_r. }
  apply Forall_cons_iff in Hes as [He Hes]. intros ([] & w1 & E1 & E)%s_bind_Ok.
  pose proof (write_entry_run _ _ _ _ _ Hh He E1) as H1. pose proof (IH _ _ H1 Hes E) as H2. by rewrite <- app_assoc in H2.
Qed.

(** A fresh staging directory: there was none, or nothing gets in the way of
    removing it. *)
Lemma remove_dir_all_run p w r w1 :
  attempt (fs_remove_dir_all p) w = (Ok r, w1) ->
  (forall q n, wfs w1 !! q = Some n -> wfs w !! q = Some n) /\
  (wfaults w = [] -> (forall t, wfs w !! p <> Some (Link t)) -> wfs w1 !! p = None \/ is_file (wfs w1 !! p)).
Proof.
  unfold attempt, fs_remove_dir_all, syscall. intros E.
  assert (Hsub : forall (K : path -> bool) q n, (filter (fun kv => K kv.1 = true) (wfs w) : fs) !! q = Some n -> wfs w !! q = Some n).
  { by intros K q n [? _]%map_lookup_filter_Some. }
  destruct (wfaults w) as [|[ft|] rest]; [|injection E as <- <-; split; [apply Hsub|done]|];
    (destruct (wfs w !! p) as [[c m g| |t]|] eqn:El; injection E as <- <-; cbn; (split; [try done|])).
  all: try (by intros q n; rewrite without_lookup; case_match).
  all: intros Hn Hl; try done; first [by left|right; rewrite El; by eexists _, _, _|by destruct (Hl t)
    |left; by rewrite without_lookup, below_refl].
Qed.

Lemma fresh_staging s w r w1 u w2 :
  let st := [VERSIONS; s] in
  well (wfs w) -> wfs w !! st = None \/ wfaults w = [] ->
  attempt (fs_remove_dir_all st) w = (Ok r, w1) -> fs_create_dir_all st w1 = (Ok u, w2) -> holds st [] (wfs w2).
Proof.
  intros st [Ht Hl] Hst E1 E2.
  destruct (keeps_attempt _ _ (tree_remove_dir_all st) _ _ _ Ht Logic.I E1) as (_ & T1 & _).
  destruct (tree_create_dir_all_go [] st w1 _ _ T1 Logic.I E2) as (_ & T2 & _).
  apply remove_dir_all_run in E1 as [Hsub Hgone].
  assert (Hl1 : no_links (wfs w1) VERSIONS) by (intros r' t Hr%Hsub; by eapply Hl).
  apply (create_dir_all_run VERSIONS) in E2 as [A2 D2]; [|done|intros _; by eexists]. specialize (D2 ltac:(done)). cbn [app] in D2.
  assert (Hnone : wfs w1 !! st = None).
  { destruct Hst as [Hst|Hw].
    - destruct (wfs w1 !! st) as [n|] eqn:En; [apply Hsub in En; congruence|done].
    - destruct (Hgone Hw (Hl [s])) as [?|(c & m & g & Hf)]; [done|]. apply (added_some _ _ _ _ A2) in Hf. congruence. }
  split; [split; [done|by eapply added_no_links]|done|split; [|by intros e ?%elem_of_nil]].
  intros r' c m g Hf%(added_file _ _ _ _ _ _ A2). destruct (decide (r' = [])) as [->|Hne]; [rewrite app_nil_r in Hf; congruence|].
  apply (tree_above (wfs w1) st r') in T1; [congruence|done|done|by eexists].
Qed.
End unpack.

(** ** Renaming *)

(** Everything there afterwards was there, or was below the source. *)
Lemma rename_from a b w u w' q n :
  fs_rename a b w = (Ok u, w') -> wfs w' !! q = Some n ->
  wfs w !! q = Some n \/ exists r, q = b ++ r /\ wfs w !! (a ++ r) = Some n.
Proof.
  intros E%syscall_Ok Hq. set (f := wfs w) in *.
  assert (Hm : forall g : fs, (forall q n, g !! q = Some n -> f !! q = Some n) -> wfs w' = moved a b f ∪ without a g ->
    f !! q = Some n \/ exists r, q = b ++ r /\ f !! (a ++ r) = Some n).
  { intros g Hg Ew. rewrite Ew in Hq. apply lookup_union_Some_raw in Hq as [Hq|[_ Hq]].
    - right. destruct (below b q) eqn:Eb; [|by rewrite moved_other in Hq]. apply below_true in Eb as [r ->].
      exists r. split; [done|]. by rewrite moved_at in Hq.
    - left. rewrite without_lookup in Hq. destruct (below a q); [done|auto]. }
  destruct (f !! a) as [n1|] eqn:Ea; [|done].
  assert (Hf : wfs w' = <[b := n1]> (delete a f) -> f !! q = Some n \/ exists r, q = b ++ r /\ f !! (a ++ r) = Some n).
  { intros Ew. rewrite Ew in Hq. apply lookup_insert_Some in Hq as [[<- <-]|[_ [_ Hq]%lookup_delete_Some]]; [right|by left].
    exists []. by rewrite !app_nil_r. }
  destruct n1 as [c m g| |t]; [|case_bool_decide; [injection E as _ E; left; by rewrite E|destruct (below a b); [done|]]|].
  2: destruct (f !! b) as [[]|]; try done; [case_bool_decide; [|done]; injection E as _ E|destruct (is_dir _ _); [|done]; injection E as _ E];
     [apply (Hm (delete b f)); [by intros ? ? [_ ?]%lookup_delete_Some|by symmetry]|apply (Hm f); [done|by symmetry]].
  all: destruct (f !! b) as [[]|]; try done; (destruct (is_dir _ _); [|done]); injection E as _ E; apply Hf; by symmetry.
Qed.

(** A directory arrives whole. *)
Lemma rename_dir_at a b w u w' r :
  tree_ok (wfs w) -> wfs w !! a = Some Dir -> a <> b -> b <> [] -> fs_rename a b w = (Ok u, w') ->
  wfs w' !! (b ++ r) = wfs w !! (a ++ r) /\ is_dir (wfs w) (parent b) = true /\ below a b = false /\
  (forall q, below b q = false -> wfs w' !! q = if below a q then None else wfs w !! q).
Proof.
  intros Ht Ha Hne Hb E%syscall_Ok. set (f := wfs w) in *. rewrite Ha, bool_decide_false in E by done.
  destruct (below a b) eqn:Eab; [done|].
  assert (Hm : forall g : fs, g !! (b ++ r) = None -> (forall q, below b q = false -> g !! q = f !! q) -> wfs w' = moved a b f ∪ without a g ->
    wfs w' !! (b ++ r) = f !! (a ++ r) /\ (forall q, below b q = false -> wfs w' !! q = if below a q then None else f !! q)).
  { intros g Hg Hgq ->. split.
    - rewrite lookup_union, moved_at, without_lookup, Hg. by destruct (below a (b ++ r)), (f !! (a ++ r)).
    - intros q Hq. rewrite lookup_union, moved_other, without_lookup, (Hgq q Hq) by done. destruct (below a q); by destruct (f !! q). }
  assert (Hup : f !! b <> Some Dir -> r <> [] -> f !! (b ++ r) = None).
  { intros Hd Hr. destruct (f !! (b ++ r)) eqn:Er; [|done]. destruct Hd. eapply tree_above; [done|done|exact Hr|by eexists]. }
  destruct (f !! b) as [[| |]|] eqn:Eb; try done.
  - case_bool_decide as Hc; [|done]. injection E as _ E. destruct (tree_parent f b Dir Ht Eb) as [_ Hp].
    destruct (Hm (delete b f)) as [H1 H2]; [| |by symmetry|done].
    + destruct r as [|s r]; [rewrite app_nil_r; by rewrite lookup_delete_eq|]. apply lookup_delete_None. right.
      destruct (f !! (b ++ s :: r)) eqn:Er; [|done]. exfalso.
      assert (is_Some (f !! (b ++ [s]))) as [x Hx].
      { destruct r as [|s' r]; [by eexists|]. exists Dir. apply (tree_above f (b ++ [s]) (s' :: r)); [by destruct b|done|done|].
        rewrite <- app_assoc. by eexists. }
      apply elem_of_children_at in Hx. rewrite Hc in Hx. by apply elem_of_nil in Hx.
    + intros q Hq. rewrite lookup_delete_ne; [done|]. intros <-. by rewrite below_refl in Hq.
  - destruct (is_dir f (parent b)); [|done]. injection E as _ E. destruct (Hm f) as [H1 H2]; [|done|by symmetry|done].
    destruct r as [|s r]; [by rewrite app_nil_r|by apply Hup].
Qed.

Lemma keeps_rename (I : fs -> Prop) a b :
  (forall w u w', I (wfs w) -> fs_rename a b w = (Ok u, w') -> I (wfs w')) -> keeps I (fs_rename a b).
Proof.
  intros H. apply keeps_syscall; [done|]. intros f u f' Hf E.
  apply (H (mkWorld f [] []) u (mkWorld f' [] [f']) Hf). unfold fs_rename, syscall. cbn [wfaults wfs whist]. by rewrite E.
Qed.
Lemma tree_rename a b : b <> [] -> keeps tree_ok (fs_rename a b).
Proof.
  intros Hb. apply keeps_rename. intros w u w' Ht E. pose proof E as E0. apply syscall_Ok in E. set (f := wfs w) in *.
  destruct (f !! a) as [n1|] eqn:Ea; [|done].
  assert (Hf : n1 <> Dir -> f !! b <> Some Dir -> is_dir f (parent b) = true -> <[b := n1]> (delete a f) = wfs w' -> tree_ok (wfs w')).
  { intros Hn Hd Hp <-. apply tree_insert; [|done| |].
    - apply tree_delete; [done|congruence].
    - apply is_dir_true. apply is_dir_true in Hp as [Hp|Hp]; [by left|right]. rewrite lookup_delete_ne; [done|]. intros Hpa. rewrite Hpa in Ea. congruence.
    - intros [_ H]%lookup_delete_Some. done. }
  destruct (decide (n1 = Dir)) as [->|Hn].
  2: { destruct n1; try done; (destruct (f !! b) as [[]|] eqn:Eb; try done); (destruct (is_dir f (parent b)) eqn:Ed; [|done]);
       injection E as _ E; by apply Hf. }
  destruct (decide (a = b)) as [->|Hab]; [rewrite bool_decide_true in E by done; injection E as _ E; by rewrite <- E|].
  assert (R : forall r, wfs w' !! (b ++ r) = f !! (a ++ r) /\ is_dir f (parent b) = true /\ below a b = false /\
    (forall q, below b q = false -> wfs w' !! q = if below a q then None else f !! q)) by (intros r; by eapply rename_dir_at).
  destruct (R []) as (_ & Hp & Hbel & Ro). split.
  { rewrite Ro; [destruct (below a []); [done|apply Ht]|]. apply not_true_iff_false. intros [r Hr]%below_true. by destruct b. }
  intros p s n Hq. destruct (decide (p = [])) as [->|Hpn]; [by left|right].
  destruct (below b (p ++ [s])) eqn:Eb.
  - apply below_true in Eb as [r Er]. destruct r as [|s' r _] using rev_ind.
    + rewrite app_nil_r in Er. subst b. rewrite parent_snoc in Hp. apply is_dir_true in Hp as [->|Hp]; [done|].
      rewrite Ro; [destruct (below a p) eqn:Eap; [|done]; by rewrite (below_parent a p s Eap) in Hbel|].
      apply not_true_iff_false. intros [r Hr]%below_true. apply (f_equal length) in Hr. rewrite !length_app in Hr. cbn in Hr. lia.
    + rewrite app_assoc in Er. apply app_inj_tail in Er as [-> ->]. rewrite <- app_assoc in Hq. rewrite (proj1 (R _)), app_assoc in Hq.
      rewrite (proj1 (R r)). apply (proj2 Ht) in Hq as [E'|?]; [|done]. apply app_eq_nil in E' as [-> ->].
      by rewrite (proj1 Ht) in Ea.
  - rewrite Ro in Hq by done. destruct (below a (p ++ [s])) eqn:Eap; [done|].
    apply (proj2 Ht) in Hq as [?|Hq]; [done|]. rewrite Ro; [destruct (below a p) eqn:E'; [by rewrite (below_parent a p s E') in Eap|done]|].
    apply not_true_iff_false. intros E'. by rewrite (below_parent b p s E') in Eb.
Qed.

Lemma keeps_well {A : Type} (m : io A) : keeps tree_ok m -> keeps (fun f => no_links f VERSIONS) m -> keeps well m.
Proof.
  intros H1 H2 w r w' [Ht Hl] _ E. destruct (H1 _ _ _ Ht Logic.I E) as ((n1 & E1 & F1) & T & _), (H2 _ _ _ Hl Logic.I E) as ((n2 & E2 & F2) & L & _).
  rewrite E1 in E2. apply app_inv_tail in E2 as <-. split; [|split; [by split|by destruct r]].
  exists n1. split; [done|]. apply Forall_forall. intros f Hf. rewrite Forall_forall in F1, F2. split; auto.
Qed.

Lemma links_rename a b :
  (forall r r', b ++ r = VERSIONS :: r' -> exists r'', a ++ r = VERSIONS :: r'') -> keeps (fun f => no_links f VERSIONS) (fs_rename a b).
Proof.
  intros Hab. apply keeps_rename. intros w u w' Hl E r t Hr.
  destruct (rename_from _ _ _ _ _ _ _ E Hr) as [H|(r0 & Hq & H)]; [by apply (Hl r t)|].
  destruct (Hab r0 r (eq_sym Hq)) as [r1 H1]. rewrite H1 in H. by apply (Hl r1 t).
Qed.
Lemma links_remove_dir_all p : keeps (fun f => no_links f VERSIONS) (fs_remove_dir_all p).
Proof.
  apply keeps_syscall.
  - intros f ft Hl r t [H _]%map_lookup_filter_Some. by apply (Hl r t).
  - intros f [] f' Hl E r t. destruct (f !! p) as [[]|]; try done; injection E as <-; rewrite without_lookup;
      (destruct (below p _); [done|apply Hl]).
Qed.
Lemma links_elsewhere {A : Type} (m : io A) : only (fun p => forall r, p <> VERSIONS :: r) m -> keeps (fun f => no_links f VERSIONS) m.
Proof.
  intros Hm. eapply keeps_stable; [exact Hm|]. intros f f' Hf Ha r t. rewrite Ha; [apply Hf|]. intros H. by apply (H r).
Qed.
Lemma links_fs_write umask p c : keeps (fun f => no_links f VERSIONS) (fs_write umask p c).
Proof. apply keeps_bind; [apply no_links_open_trunc|intros _; apply no_links_write_all]. Qed.

Section well_ops.
Context {OC : OciCrypto} {SC : StoreCodec} (umask : Z).

Lemma well_reads {A : Type} (m : io A) : reads m -> keeps well m.
Proof. apply reads_keeps. Qed.
Lemma well_remove_dir_all p : keeps well (fs_remove_dir_all p).
Proof. apply keeps_well; [apply tree_remove_dir_all|apply links_remove_dir_all]. Qed.
Lemma well_create_dir_all p : keeps well (fs_create_dir_all p).
Proof. apply keeps_well; [apply tree_create_dir_all_go|apply no_links_create_dir_all_go]. Qed.
Lemma well_fs_write p c : p <> [] -> keeps well (fs_write umask p c).
Proof. intros Hp. apply keeps_well; [by apply tree_fs_write|apply links_fs_write]. Qed.
Lemma well_replace_file name c : name <> VERSIONS -> keeps well (replace_file umask name c).
Proof.
  intros Hn. apply keeps_bind; [by apply well_fs_write|]. intros _. apply keeps_well; [by apply tree_rename|].
  apply links_rename. by intros r r' [= ? _].
Qed.
Lemma well_write_entry s e : keeps well (write_entry umask [VERSIONS; s] e).
Proof.
  unfold write_entry. destruct (starts_with _ _).
  { apply keeps_bind; [apply keeps_attempt, well_remove_dir_all|intros; apply keeps_ret]. }
  unfold join_path. destruct (_ || _); [apply keeps_ret|].
  apply keeps_s_call; [apply well_create_dir_all|]. intros _.
  apply keeps_s_call; [by apply well_fs_write|intros; apply keeps_ret].
Qed.
Lemma well_write_version d es : keeps well (write_version umask d es).
Proof.
  unfold write_version. apply keeps_bind; [apply well_reads, reads_exists|]. intros [|]; [apply keeps_ret|].
  apply keeps_bind; [apply keeps_attempt, well_remove_dir_all|]. intros _.
  apply keeps_s_call; [apply well_create_dir_all|]. intros _.
  apply keeps_s_bind; [apply keeps_s_each; intros e; apply well_write_entry|]. intros _.
  apply keeps_bind; [apply keeps_attempt, keeps_well; [by apply tree_rename|apply links_rename; intros r r' _; by eexists]|].
  intros [|]; [apply keeps_ret|]. apply keeps_bind; [apply keeps_attempt, well_remove_dir_all|intros; apply keeps_ret].
Qed.
Lemma well_set_current d : keeps well (store_set_current d).
Proof.
  unfold store_set_current. apply keeps_bind; [apply well_reads, reads_is_dir|]. intros [|]; [|apply keeps_ret]. cbn [negb].
  apply keeps_bind.
  { apply keeps_attempt, keeps_well; [apply tree_remove_file|]. apply links_elsewhere, only_remove_file. by intros r [= ?]. }
  intros _. apply keeps_s_call.
  { apply keeps_well; [by apply tree_symlink|]. apply links_elsewhere, only_symlink. by intros r [= ?]. }
  intros _. apply keeps_s_call; [|intros; apply keeps_ret]. apply keeps_well; [by apply tree_rename|].
  apply links_rename. by intros r r' [= ? _].
Qed.
Lemma well_read d : keeps well (store_read d).
Proof.
  unfold store_read. apply keeps_s_bind; [|intros ds; case_bool_decide; apply keeps_ret].
  intros w r w' Hi Hp E. eapply (reads_keeps well _ (reads_collect _ _ _)); eauto.
Qed.
Lemma well_prune keep ds : keeps well (store_prune keep ds).
Proof.
  unfold store_prune. apply keeps_bind; [apply keeps_attempt, well_reads; intros f; apply only_read_dir|].
  intros [names|e]; [|apply keeps_ret]. generalize 0 as removed.
  induction names as [|name names IH]; intros removed; [apply keeps_ret|].
  destruct (starts_with ".staging-" name); [|destruct (existsb (String.eqb name) _); [apply IH|]];
    (apply keeps_bind; [apply keeps_attempt, well_remove_dir_all|intros ?; apply IH]).
Qed.
End well_ops.

(** ** A version, from archive to bundle *)

(** The documents are the files below [dir], each under its name. *)
Definition docs_of (f : fs) (dir : path) (ds : list PolicyDocument) : Prop := Forall (is_doc f dir []) ds /\ all_docs f dir [] ds.
(** The documents are the entries, name by name and byte by byte. *)
Record unpacked (es : list TarEntry) (ds : list PolicyDocument) : Prop := {
  un_doc : forall d, d ∈ ds -> exists e, e ∈ es /\ doc_name d = Tarball.path e /\ doc_content d = content e;
  un_entry : forall e, e ∈ es -> exists d, d ∈ ds /\ doc_name d = Tarball.path e;
}.

Lemma docs_perm f dir ds ds' : ds ≡ₚ ds' -> docs_of f dir ds -> docs_of f dir ds'.
Proof.
  intros Hp [H1 H2]. split; [by rewrite <- Hp|]. intros r Hr Hf. destruct (H2 r Hr Hf) as (d & Hd & Hn). exists d. by rewrite <- Hp.
Qed.
Lemma docs_same f f' dir ds : (forall r, f' !! (dir ++ r) = f !! (dir ++ r)) -> docs_of f dir ds -> docs_of f' dir ds.
Proof.
  intros H [H1 H2]. split.
  - eapply Forall_impl; [exact H1|]. intros d (r & m & g & Hr & Hn & Hf). exists r, m, g. by rewrite H.
  - intros r Hr. rewrite H. by apply H2.
Qed.
Lemma docs_exact f dir es ds : Forall safe_entry es -> exact dir es f -> docs_of f dir ds -> unpacked es ds.
Proof.
  intros Hes [Hfrom Hall] [H1 H2]. rewrite Forall_forall in Hes. rewrite Forall_forall in H1. split.
  - intros d (r & m & g & _ & Hn & Hf)%H1. apply Hfrom in Hf as (e & He & Hs & Hc). exists e. split; [done|]. split; [|done].
    cbn in Hn, Hs. rewrite Hn, <- Hs. apply (split_char_join "/").
  - intros e He. destruct (safe_segments e (Hes e He)) as [Hne _]. destruct (H2 (segments e) Hne (Hall e He)) as (d & Hd & Hn).
    exists d. split; [done|]. cbn in Hn. rewrite Hn. apply (split_char_join "/").
Qed.
Lemma docs_there f dir ds : dir <> [] -> tree_ok f -> docs_of f dir ds -> ds <> [] -> f !! dir = Some Dir.
Proof.
  intros Hdir Ht [H1 _] Hne. destruct ds as [|d ds]; [done|]. apply Forall_cons_iff in H1 as [(r & m & g & Hr & _ & Hf) _].
  eapply tree_above; [done|done|exact Hr|]. by eexists.
Qed.

Lemma store_read_run d w b w' :
  well (wfs w) -> store_read d w = (Ok (Ok b), w') -> revision b = d /\ documents b <> [] /\ docs_of (wfs w) (version_dir d) (documents b).
Proof.
  intros [Ht Hl] (ds & w1 & E1 & E)%s_bind_Ok. unfold store_collect in E1.
  apply (collect_run _ (wfs w) VERSIONS [version_name d]) in E1 as (_ & H); [|done..].
  cbn beta zeta in E. case_bool_decide; [done|]. injection E as <- <-. split; [done|]. split; [done|]. cbn [documents].
  eapply docs_perm; [by rewrite sort_documents_perm|exact H].
Qed.

Lemma extract_entries blob max es : extract blob max = Some (Ok es) -> Forall safe_entry es.
Proof.
  unfold extract. destruct (extract_go _ _ _ _ _ _) as [[es'|]|] eqn:E; try done. case_bool_decide; [done|]. intros [= <-].
  apply extract_go_sound in E as [Hf _]; [|lia|done|lia|constructor]. eapply Forall_impl; [exact Hf|]. by intros e [? _].
Qed.

Section write_version.
Context (umask : Z) (d : string) (es : list TarEntry).

Lemma staging_not_version : staging_dir d <> version_dir d.
Proof.
  unfold staging_dir, version_dir. intros [= H]. apply (f_equal String.length) in H. cbn in H. lia.
Qed.

(** A version is complete before it gets its name. *)
Lemma write_version_run w w' :
  well (wfs w) -> Forall safe_entry es -> write_version umask d es w = (Ok (Ok tt), w') ->
  wfs w' = wfs w \/ (wfs w !! staging_dir d = None \/ wfaults w = [] -> exact (version_dir d) es (wfs w')).
Proof.
  intros Hw Hes. unfold write_version. intros (there & w0 & E0 & E)%io_bind_Ok.
  assert (Hf0 : wfs w0 = wfs w) by (eapply reads_run; [apply reads_exists|exact E0]).
  assert (Hs0 : wfaults w = [] -> wfaults w0 = []).
  { eapply spends_none; [|exact E0]. unfold path_exists, fs_stat. spending. }
  destruct there; [injection E as <-; by left|right]. intros Hst. rewrite <- Hf0 in Hw, Hst.
  apply io_bind_Ok in E as (r1 & w1 & E1 & E). apply s_call_Ok in E as (u2 & w2 & E2 & E).
  apply s_bind_Ok in E as ([] & w3 & E3 & E).
  assert (H2 : holds (staging_dir d) [] (wfs w2)) by (eapply fresh_staging; [exact Hw|tauto|exact E1|exact E2]).
  pose proof (write_entries_run umask _ _ _ _ _ H2 Hes E3) as [[T3 L3] D3 X3]. cbn [app] in X3.
  apply io_bind_Ok in E as (r4 & w4 & E4 & E). unfold attempt in E4.
  destruct (fs_rename _ _ w3) as [r5 w5] eqn:E5. injection E4 as <- <-.
  destruct r5 as [u5|]; [injection E as <-|by apply io_bind_Ok in E as (? & ? & _ & [=])].
  eapply exact_same; [|exact X3]. intros r. by eapply rename_dir_at; [|exact D3|apply staging_not_version| |exact E5].
Qed.

(** Until the rename everything happens in the staging directory. *)
Definition in_staging (p : path) : Prop := p = [VERSIONS] \/ exists r, p = staging_dir d ++ r.

Lemma only_run {A : Type} S (m : io A) w r w' : only S m -> m w = (r, w') -> agree S (wfs w) (wfs w').
Proof. intros Hm E. by destruct (Hm (wfs w) _ _ _ (agree_refl _ _) Logic.I E) as (_ & ? & _). Qed.
Lemma staging_create r : only in_staging (fs_create_dir_all (staging_dir d ++ r)).
Proof.
  apply only_create_dir_all_go. intros [|a [|b l]] t E Hne; [done|injection E as <- _; by left|].
  injection E as <- <- _. right. by exists l.
Qed.
Lemma staging_remove : only in_staging (fs_remove_dir_all (staging_dir d)).
Proof. apply only_remove_dir_all. intros r. right. by exists r. Qed.
Lemma staging_entry e : only in_staging (write_entry umask (staging_dir d) e).
Proof.
  intros f. unfold write_entry. destruct (starts_with _ _).
  { apply keeps_bind; [apply keeps_attempt, staging_remove|intros; apply keeps_ret]. }
  unfold join_path. destruct (_ || _); [apply keeps_ret|]. set (rest := filter _ _).
  assert (Hp : only in_staging (fs_create_dir_all (parent (staging_dir d ++ rest)))).
  { destruct rest as [|s rest _] using rev_ind; [|rewrite app_assoc, parent_snoc; apply staging_create].
    apply only_create_dir_all_go. intros [|a [|b l]] t E Hne; [done|injection E as <- _; by left|done]. }
  apply keeps_s_call; [apply Hp|]. intros _. apply keeps_s_call; [|intros; apply keeps_ret].
  apply only_fs_write. right. by eexists.
Qed.
Lemma write_version_frame w r w' :
  write_version umask d es w = (r, w') ->
  agree in_staging (wfs w) (wfs w') \/
  (r = Ok (Ok tt) /\ agree (fun p => in_staging p \/ exists t, p = version_dir d ++ t) (wfs w) (wfs w')).
Proof.
  unfold write_version. unfold mbind at 1, io_bind at 1. destruct (path_exists _ w) as [[there|e] w0] eqn:E0.
  2: { intros [= <- <-]. left. eapply only_run; [|exact E0]. intros f. apply reads_keeps, reads_exists. }
  assert (H0 : wfs w0 = wfs w) by (eapply reads_run; [apply reads_exists|exact E0]). rewrite <- H0.
  destruct there; [intros [= <- <-]; left; apply agree_refl|]. cbn zeta.
  set (pre := s_call (fs_create_dir_all (staging_dir d)) (fun _ => s_each (write_entry umask (staging_dir d)) es)).
  assert (Hpre : only in_staging (_ ← attempt (fs_remove_dir_all (staging_dir d)); pre)).
  { intros f. apply keeps_bind; [apply keeps_attempt, staging_remove|]. intros _. apply keeps_s_call.
    - pose proof (staging_create []) as Hc. rewrite app_nil_r in Hc. apply Hc.
    - intros _. apply keeps_s_each. intros e. apply staging_entry. }
  set (post := fun _ : unit => r ← attempt (fs_rename (staging_dir d) (version_dir d));
    match r with Ok _ => s_ok tt | Err _ => _ ← attempt (fs_remove_dir_all (staging_dir d)); s_err OIo end).
  intros E. assert (Esplit : (s_bind (_ ← attempt (fs_remove_dir_all (staging_dir d)); pre) post) w0 = (r, w')).
  { rewrite <- E. unfold s_bind, pre, s_call, mbind, io_bind, attempt. destruct (fs_remove_dir_all _ w0) as [r1 w1].
    destruct (fs_create_dir_all _ w1) as [[u|e] w2]; [|done]. by destruct (s_each _ _ w2) as [[[]|] w3]. }
  clear E. unfold s_bind, mbind at 1, io_bind at 1 in Esplit. destruct ((_ ← attempt _; pre) w0) as [rp wp] eqn:Ep.
  pose proof (only_run _ _ _ _ _ Hpre Ep) as Ha. destruct rp as [[u|e]|e]; [|injection Esplit as <- <-; by left..].
  unfold post, mbind at 1, io_bind at 1, attempt at 1 in Esplit. destruct (fs_rename _ _ wp) as [[u2|e2] w2] eqn:Er.
  - injection Esplit as <- <-. right. split; [done|]. eapply agree_trans; [eapply agree_mono; [|exact Ha]; by left|].
    eapply only_run; [|exact Er]. apply only_rename; intros r'; [left; right|right]; by exists r'.
  - left. eapply agree_trans; [exact Ha|].
    assert (Hsame : wfs w2 = wfs wp).
    { unfold fs_rename, syscall, nothing in Er. by repeat case_match; simplify_eq. }
    rewrite <- Hsame. eapply (only_run _ (_ ← attempt (fs_remove_dir_all (staging_dir d)); s_err OIo)); [|exact Esplit].
    intros f. apply keeps_bind; [apply keeps_attempt, staging_remove|intros; apply keeps_ret].
Qed.
End write_version.

(** ** Polls, world by world

    [calm W m Q]: from a world with [W], [m] leaves a world with [W], and what
    it returns has [Q]; [calls] is the same of a program of calls. *)
Definition calls {A : Type} (W : world -> Prop) (m : io A) (Q : A -> Prop) : Prop :=
  forall w r w', W w -> m w = (r, w') -> W w' /\ forall a, r = Ok a -> Q a.
Definition calm {A : Type} (W : world -> Prop) (m : pm A) (Q : A -> Prop) : Prop :=
  forall y o y', W (y_world y) -> m y = (o, y') -> W (y_world y') /\ forall a, o = Some (Ok a) -> Q a.
Local Notation any := (fun _ => True).

Lemma calls_keeps {A : Type} (J : fs -> Prop) (m : io A) : keeps J m -> calls (fun w => J (wfs w)) m any.
Proof. intros Hm w r w' Hw E. destruct (Hm _ _ _ Hw Logic.I E) as (_ & ? & _). done. Qed.
Lemma calls_spends {A : Type} (m : io A) : spends m -> calls (fun w => wfaults w = []) m any.
Proof. intros Hm w r w' Hw E. split; [by eapply spends_none|done]. Qed.
Lemma calls_and {A : Type} (W1 W2 : world -> Prop) (m : io A) (Q : A -> Prop) :
  calls W1 m Q -> calls W2 m any -> calls (fun w => W1 w /\ W2 w) m Q.
Proof. intros H1 H2 w r w' [Hw1 Hw2] E. destruct (H1 _ _ _ Hw1 E), (H2 _ _ _ Hw2 E). done. Qed.
Lemma calls_imp {A : Type} (P : Prop) (W : world -> Prop) (m : io A) : calls W m any -> calls (fun w => P -> W w) m any.
Proof. intros H w r w' Hw E. split; [|done]. intros HP. by destruct (H _ _ _ (Hw HP) E). Qed.

Create HintDb calm.
Section calm_rules.
Context (W : world -> Prop).

Lemma calm_still {A : Type} (m : pm A) (Q : A -> Prop) :
  (forall y, y_world (m y).2 = y_world y /\ forall a, (m y).1 = Some (Ok a) -> Q a) -> calm W m Q.
Proof. intros H y o y' Hw E. destruct (H y) as [Hy Hq]. rewrite E in Hy, Hq. cbn in *. by rewrite Hy. Qed.
Lemma calm_ret {A : Type} (a : A) (Q : A -> Prop) : Q a -> calm W (mret a) Q.
Proof. intros Ha. apply calm_still. intros y. split; [done|]. by intros a' [= <-]. Qed.
Lemma calm_res {A : Type} (r : result OciError A) (Q : A -> Prop) : (forall a, r = Ok a -> Q a) -> calm W (pm_res r) Q.
Proof. intros Ha. apply calm_still. intros y. split; [done|]. intros a [= ->]. auto. Qed.
Lemma calm_abort {A : Type} (Q : A -> Prop) : calm W pm_abort Q.
Proof. by apply calm_still. Qed.
Lemma calm_get : calm W get_state any.
Proof. by apply calm_still. Qed.
Lemma calm_now clock : calm W (unix_now clock) any.
Proof. by apply calm_still. Qed.
Lemma calm_metrics g : calm W (pm_metrics g) any.
Proof. by apply calm_still. Qed.
Lemma calm_bump : calm W bump_polls any.
Proof. by apply calm_still. Qed.
Lemma calm_io {A : Type} (m : io A) : calls W m any -> calm W (pm_io m) any.
Proof. intros Hm y o y' Hw. unfold pm_io. destruct (m _) as [r w] eqn:E. intros [= <- <-]. by destruct (Hm _ _ _ Hw E). Qed.
Lemma calm_store {A : Type} (m : io (result OciError A)) (Q : A -> Prop) :
  calls W m (fun r => forall a, r = Ok a -> Q a) -> calm W (pm_store m) Q.
Proof.
  intros Hm y o y' Hw. unfold pm_store. destruct (m _) as [r w] eqn:E. intros [= <- <-]. destruct (Hm _ _ _ Hw E) as [Hw' Hq].
  split; [done|]. intros a H. destruct r as [r|]; [|done]. injection H as ->. by apply (Hq (Ok a)).
Qed.
Lemma calm_bind {A B : Type} (m : pm A) (k : A -> pm B) (R : A -> Prop) (Q : B -> Prop) :
  calm W m R -> (forall a, R a -> calm W (k a) Q) -> calm W (m ≫= k) Q.
Proof.
  intros Hm Hk y o y' Hw. unfold mbind, pm_bind. destruct (m y) as [[[a|e]|] y1] eqn:E; destruct (Hm _ _ _ Hw E) as [H1 H2].
  2-3: intros [= <- <-]; by split. intros E2. by eapply Hk; [apply H2|exact H1|exact E2].
Qed.
Lemma calm_weaken {A : Type} (m : pm A) (R Q : A -> Prop) : (forall a, R a -> Q a) -> calm W m R -> calm W m Q.
Proof. intros H Hm y o y' Hw E. destruct (Hm _ _ _ Hw E). split; eauto. Qed.
End calm_rules.

(** Driven by the head of the program. *)
Ltac calming :=
  repeat match goal with
    | |- calm _ (mbind _ _) _ => eapply calm_bind; [|intros ? ?]
    | |- calm _ (mret _) _ => by apply calm_ret
    | |- calm _ (pm_res _) _ => apply calm_res; by intros ? ?
    | |- calm _ pm_abort _ => apply calm_abort
    | |- calm _ get_state _ => apply calm_get
    | |- calm _ (unix_now _) _ => apply calm_now
    | |- calm _ (pm_metrics _) _ => apply calm_metrics
    | |- calm _ bump_polls _ => apply calm_bump
    | |- calm _ (match ?x with _ => _ end) _ => destruct x eqn:?
    | |- _ => solve [eauto with calm]
    end.

Section calm_poll.
Context {OC : OciCrypto} {SC : StoreCodec} (umask : Z) (clock : nat -> Z) (src : BundleSource) (reg : Registry).
Context (W : world -> Prop).
Context (Whas : forall d, calls W (store_has d) any).
Context (Wstate : forall s, calls W (save_state umask s) any) (Wmanifest : forall t, calls W (save_manifest umask t) any).

Lemma calm_update f : calm W (update_state umask f) any.
Proof.
  intros y o y' Hw. unfold update_state. destruct (save_state _ _ _) as [r w] eqn:E. intros [= <- <-]. by destruct (Wstate _ _ _ _ Hw E).
Qed.
#[local] Hint Resolve calm_update : calm.
Lemma calm_has d : calm W (pm_has d) any.
Proof. unfold pm_has. eapply calm_bind; [by apply calm_io|]. intros ? _. by apply calm_ret. Qed.
Lemma calm_remember etag : calm W (remember_etag umask etag) any.
Proof. unfold remember_etag. calming. Qed.
Lemma calm_set_current ring d : calm W (set_current umask clock ring d) any.
Proof. unfold set_current. calming. Qed.
Lemma calm_success etag : calm W (record_success umask clock etag) any.
Proof. unfold record_success. calming. Qed.
Lemma calm_sequence n : calm W (record_sequence umask n) any.
Proof. unfold record_sequence. calming. Qed.
#[local] Hint Resolve calm_has calm_remember calm_set_current calm_success calm_sequence : calm.
Lemma calm_etag : calm W current_etag any.
Proof. unfold current_etag. calming. Qed.
#[local] Hint Resolve calm_etag : calm.

(** Every bundle a verified rollout names is named by a digest. *)
Definition digests_formed (r : Rollout) : Prop := forall ring, ring ∈ rings r -> check_digest_form (Rollout.bundle ring) = Ok tt.
Lemma calm_verified manifest : calm W (verified_rollout umask clock src reg manifest) digests_formed.
Proof.
  unfold verified_rollout. eapply (calm_bind _ _ _ any); [by apply calm_res|]. intros env _.
  eapply (calm_bind _ _ _ any); [by apply calm_res|]. intros toml _.
  eapply (calm_bind _ _ _ digests_formed).
  { apply calm_res. intros r (_ & _ & H)%Rollout_parse_Ok ring Hr. rewrite Forall_forall in H. by apply check_ring_digest, H. }
  intros r Hr. eapply calm_bind; [apply calm_get|]. intros s _. eapply calm_bind; [apply calm_now|]. intros now _.
  eapply (calm_bind _ _ _ any); [by apply calm_res|]. intros _ _. eapply calm_bind; [by apply calm_io|]. intros _ _.
  eapply calm_bind; [apply calm_success|]. intros _ _. eapply (calm_bind _ _ _ any); [|intros _ _; by apply calm_ret]. calming.
Qed.
End calm_poll.

(** ** What a poll applies *)

Section applied.
Context {OC : OciCrypto} {SC : StoreCodec} (umask : Z) (clock : nat -> Z) (src : BundleSource) (reg : Registry).

(** The registry served, for this digest, an archive with these entries: its
    bytes hash to the digest, unpack safely and declare a schema this build
    understands. *)
Definition archive (digest : string) (es : list TarEntry) : Prop :=
  exists blob, reg_blob reg digest = Ok blob /\ sha256_digest blob = digest /\
    extract blob (max_bytes src) = Some (Ok es) /\ validate es = Ok tt.
Lemma archive_safe digest es : archive digest es -> Forall safe_entry es.
Proof. intros (blob & _ & _ & He & _). by eapply extract_entries. Qed.

Lemma fetch_bundle_run d y u y' :
  fetch_bundle umask src reg d y = (Some (Ok u), y') ->
  exists es, archive d es /\ write_version umask d es (y_world y) = (Ok (Ok tt), y_world y').
Proof.
  unfold fetch_bundle. intros (blob & y1 & [Hb ->]%pm_res_Ok & E)%pm_bind_Ok.
  apply pm_bind_Ok in E as ([] & y2 & [Hd%check_digest_Ok ->]%pm_res_Ok & E).
  apply pm_bind_Ok in E as (es & y3 & Ee & E).
  destruct (extract blob (max_bytes src)) as [r|] eqn:Ex; [|done]. apply pm_res_Ok in Ee as [-> ->].
  apply pm_bind_Ok in E as ([] & y4 & [Hv ->]%pm_res_Ok & E). exists es. split; [by exists blob|].
  unfold pm_store in E. destruct u. destruct (write_version _ _ _ _) as [[[[]|]|] w]; by simplify_eq.
Qed.

Lemma same_versions_only {A : Type} f0 (m : io A) : only (fun p => forall r, p <> VERSIONS :: r) m -> keeps (same_versions f0) m.
Proof.
  intros Hm. eapply keeps_stable; [exact Hm|]. intros f f' Hf Ha r. rewrite Ha; [auto|]. intros H. by apply (H r).
Qed.
Lemma same_versions_set_current f0 d : keeps (same_versions f0) (store_set_current d).
Proof.
  unfold store_set_current. apply keeps_bind; [apply reads_keeps, reads_is_dir|]. intros [|]; [|apply keeps_ret]. cbn [negb].
  apply keeps_bind; [apply keeps_attempt, same_versions_only, only_remove_file; by intros r [= ?]|]. intros _.
  apply keeps_s_call; [apply same_versions_only, only_symlink; by intros r [= ?]|]. intros _.
  apply keeps_s_call; [|intros; apply keeps_ret]. apply same_versions_only, only_rename; by intros r r' [= ? _].
Qed.
Lemma same_versions_docs f f' d ds :
  same_versions f f' -> docs_of f' (version_dir d) ds -> docs_of f (version_dir d) ds.
Proof. intros Hs. apply docs_same. intros r. symmetry. apply Hs. Qed.

Lemma spends_has d : spends (store_has d).
Proof. unfold store_has, path_is_dir, fs_stat. spending. Qed.
Lemma spends_collect fuel root rel : spends (collect_go fuel root rel).
Proof.
  revert rel. induction fuel as [|fuel IH]; intros rel; cbn [collect_go]; [apply spends_ret|]. unfold s_call.
  apply spends_bind; [unfold fs_read_dir; spending|]. intros [names|]; [|apply spends_ret].
  induction names as [|name names IHn]; [apply spends_ret|]. apply spends_bind; [unfold path_is_dir, fs_stat; spending|]. intros d.
  unfold s_bind. apply spends_bind.
  - destruct d; [apply IH|]. apply spends_bind; [unfold fs_read; spending|]. intros [c|]; apply spends_ret.
  - intros [here|]; [|apply spends_ret]. apply spends_bind; [exact IHn|]. intros [rest|]; apply spends_ret.
Qed.
Lemma spends_replace_file name c : spends (replace_file umask name c).
Proof. unfold replace_file, fs_write, fs_open_trunc, fs_write_all, fs_rename. spending. Qed.

(** Reading a version after pointing the current one at it. *)
Lemma current_read d y u y1 b y2 :
  well (wfs (y_world y)) -> pm_store (store_set_current d) y = (Some (Ok u), y1) -> pm_store (store_read d) y1 = (Some (Ok b), y2) ->
  docs_of (wfs (y_world y)) (version_dir d) (documents b).
Proof.
  intros Hw E1 E2. unfold pm_store in E1, E2. destruct (store_set_current d (y_world y)) as [r1 w1] eqn:Ec.
  destruct (well_set_current d _ _ _ Hw Logic.I Ec) as (_ & Hw1 & _).
  destruct (same_versions_set_current (wfs (y_world y)) d _ _ _ (fun r => eq_refl) Logic.I Ec) as (_ & Hs1 & _).
  injection E1 as _ <-. cbn [y_world] in E2. destruct (store_read d w1) as [[r2|] w2] eqn:Er; [|done]. injection E2 as -> _.
  apply store_read_run in Er as (_ & _ & Hd); [|done]. by eapply same_versions_docs.
Qed.

Lemma apply_ring_docs ring etag y b y' :
  well (wfs (y_world y)) -> apply_ring umask clock src reg ring etag y = (Some (Ok (Some b)), y') ->
  let d := Rollout.bundle ring in
  docs_of (wfs (y_world y)) (version_dir d) (documents b) \/
  exists es, archive d es /\
    (wfs (y_world y) !! staging_dir d = None \/ wfaults (y_world y) = [] -> unpacked es (documents b)).
Proof.
  intros Hw E d. unfold apply_ring in E. apply pm_bind_Ok in E as (c & y0 & [= <- <-] & E).
  set (W := fun w => wfs w = wfs (y_world y) /\ (wfaults (y_world y) = [] -> wfaults w = [])).
  assert (HW : forall d, calls W (store_has d) (fun _ => True)).
  { intros d' w r w' [H1 H2] Eh. split; [|done]. split; [rewrite <- H1; eapply reads_run; [apply reads_is_dir|exact Eh]|].
    intros Hf. eapply spends_none; [apply spends_has|exact Eh|auto]. }
  apply pm_bind_Ok in E as (there & y1 & E1 & E).
  assert (H1 : W (y_world y1)).
  { destruct (String.eqb _ _); [by destruct (calm_has W HW _ _ _ _ (conj eq_refl (fun H => H)) E1)|by injection E1 as _ <-]. }
  destruct there; [apply pm_bind_Ok in E as (? & ? & _ & E); by apply pm_bind_Ok in E as (? & ? & _ & [=])|].
  apply pm_bind_Ok in E as (on_disk & y2 & E2 & E). destruct (calm_has W HW _ _ _ _ H1 E2) as [[Hf2 Hx2] _].
  apply pm_bind_Ok in E as (u & y3 & E3 & E). apply pm_bind_Ok in E as ([] & y4 & E4 & E).
  apply pm_bind_Ok in E as (b' & y5 & E5 & E). apply pm_bind_Ok in E as ([] & y6 & _ & E).
  apply pm_bind_Ok in E as ([] & y7 & _ & E). apply pm_bind_Ok in E as (r & y8 & _ & E).
  apply pm_bind_Ok in E as ([] & y9 & _ & [= -> _]). rewrite <- Hf2 in Hw |- *.
  assert (Hdocs : wfs (y_world y3) = wfs (y_world y2) -> docs_of (wfs (y_world y2)) (version_dir d) (documents b)).
  { intros Hf. rewrite <- Hf in Hw |- *. by eapply current_read. }
  destruct on_disk; [injection E3 as _ <-; left; by apply Hdocs|]. apply fetch_bundle_run in E3 as (es & Ha & E3).
  destruct (well_write_version umask d es _ _ _ Hw Logic.I E3) as (_ & Hw3 & _).
  pose proof (archive_safe _ _ Ha) as Hes. destruct (write_version_run _ _ _ _ _ Hw Hes E3) as [Hf|Hx]; [left; by apply Hdocs|].
  right. exists es. split; [done|]. intros Hst. eapply docs_exact; [done|apply Hx; tauto|]. by eapply current_read.
Qed.

(** C17: The trust chain.  A poll hands a new bundle to the policy manager only
    when the rollout manifest it fetched was signed by the trusted key, names a
    ring for this very cluster and node, is not frozen, has not expired, and is
    at least as new as anything verified before; the bundle is the one that ring
    names, and its documents are the files of that version that were already
    unpacked on this node, or the registry served an archive whose bytes hash to
    the digest in the signed manifest and passed the tar and schema checks, and,
    unless a removal of leftovers could fail, the documents are that archive's
    entries, name by name and byte by byte, none missing and none added.
    Afterwards the state names that ring and digest. *)
Theorem poll_applies_verified (y : sys) (b : PolicyBundle) (y' : sys) :
  well (wfs (y_world y)) -> poll umask clock src reg y = (Some (Ok (Some b)), y') ->
  exists etag manifest new_etag rollout ring,
    reg_manifest reg etag = Ok (Changed manifest new_etag) /\
    accepted src reg manifest (last_sequence (y_state y)) (clock (y_ticks y)) rollout /\
    freeze rollout = false /\
    rollout_target rollout (b_cluster src) (b_node src) = Some (Some ring) /\
    revision b = Rollout.bundle ring /\ documents b <> [] /\
    s_ring (y_state y') = ring_name ring /\ s_digest (y_state y') = Rollout.bundle ring /\
    (docs_of (wfs (y_world y)) (version_dir (Rollout.bundle ring)) (documents b) \/
     exists es, archive (Rollout.bundle ring) es /\
       (wfs (y_world y) !! staging_dir (Rollout.bundle ring) = None \/ wfaults (y_world y) = [] ->
        unpacked es (documents b))).
Proof.
  intros Hw (etag & manifest & new_etag & rollout & ring & y1 & y2 & Hm & Hs & Htk & Hw1 & Hx1 & Ev & Hf & Ht & Ea)%poll_Changed.
  exists etag, manifest, new_etag, rollout, ring.
  split; [done|]. split; [rewrite <- Hs, <- Htk; by eapply verified_rollout_Ok in Ev as [? _]|].
  set (W := fun w => (well (wfs w) /\ same_versions (wfs (y_world y)) (wfs w)) /\ (wfaults (y_world y) = [] -> wfaults w = [])).
  assert (HW : forall name c, name <> VERSIONS -> name +:+ ".tmp" <> VERSIONS -> calls W (replace_file umask name c) (fun _ => True)).
  { intros name c H1 H2. apply calls_and; [apply calls_and|by apply calls_imp, calls_spends, spends_replace_file];
      apply calls_keeps; [by apply well_replace_file|by apply same_versions_replace]. }
  assert (H1 : W (y_world y1)) by (split; [split; [by rewrite Hw1|intros r; by rewrite Hw1]|done]).
  destruct (calm_verified umask clock src reg W (fun s => HW STATE _ ltac:(done) ltac:(done)) (fun s => HW MANIFEST _ ltac:(done) ltac:(done)) _ _ _ _ H1 Ev)
    as [[[Hw2 Hs2] Hx2] _].
  pose proof (apply_ring_docs _ _ _ _ _ Hw2 Ea) as Hdocs. apply apply_ring_Some in Ea as ([Hr Hd] & [Hring Hdig] & _).
  do 6 (split; [done|]). destruct Hdocs as [Hdocs|(es & Ha & Hes)]; [left; by eapply same_versions_docs|right].
  exists es. split; [done|]. intros [Hst|Hst]; apply Hes; [left|right; auto]. rewrite <- Hst. apply Hs2.
Qed.
End applied.

(** ** Every version can be accounted for

    Where no call fails, each version on disk is as it was found, is gone, or is
    exactly an archive that was served for its digest. *)

Section calm_applying.
Context {OC : OciCrypto} {SC : StoreCodec} (umask : Z) (clock : nat -> Z) (src : BundleSource) (reg : Registry).
Context (W : world -> Prop) (P : PolicyBundle -> Prop).
Context (Whas : forall d, calls W (store_has d) (fun _ => True)).
Context (Wreplace : forall name c, name <> VERSIONS -> name +:+ ".tmp" <> VERSIONS -> calls W (replace_file umask name c) (fun _ => True)).
Context (Wwrite : forall d es, check_digest_form d = Ok tt -> archive src reg d es -> calls W (write_version umask d es) (fun _ => True)).
Context (Wcurrent : forall d, calls W (store_set_current d) (fun _ => True)).
Context (Wread : forall d, check_digest_form d = Ok tt -> calls W (store_read d) (fun r => forall b, r = Ok b -> P b)).
Context (Wprune : forall keep ds, calls W (store_prune keep ds) (fun _ => True)).

Lemma calm_state s : calls W (save_state umask s) (fun _ => True).
Proof. by apply Wreplace. Qed.
Lemma calm_manifest t : calls W (save_manifest umask t) (fun _ => True).
Proof. by apply Wreplace. Qed.
#[local] Hint Resolve calm_state calm_manifest calm_has calm_remember calm_set_current calm_success calm_etag calm_update : calm.

Lemma calm_store_any {A : Type} (m : io (result OciError A)) : calls W m (fun _ => True) -> calm W (pm_store m) (fun _ => True).
Proof. intros Hm. apply calm_store. intros w r w' Hw E. by destruct (Hm _ _ _ Hw E). Qed.

Lemma calm_fetch d : check_digest_form d = Ok tt -> calm W (fetch_bundle umask src reg d) (fun _ => True).
Proof.
  intros Hform. unfold fetch_bundle. eapply (calm_bind _ _ _ (fun blob => reg_blob reg d = Ok blob)); [by apply calm_res|]. intros blob Hb.
  eapply (calm_bind _ _ _ (fun _ => check_digest blob d = Ok tt)); [apply calm_res; by intros []|]. intros _ Hd%check_digest_Ok.
  eapply (calm_bind _ _ _ (fun es => extract blob (max_bytes src) = Some (Ok es))).
  { destruct (extract _ _) as [r|]; [apply calm_res; by intros es ->|apply calm_abort]. }
  intros es He. eapply (calm_bind _ _ _ (fun _ => validate es = Ok tt)); [apply calm_res; by intros []|]. intros _ Hv.
  apply calm_store_any, Wwrite; [done|]. by exists blob.
Qed.
Lemma calm_apply_ring ring etag :
  check_digest_form (Rollout.bundle ring) = Ok tt ->
  calm W (apply_ring umask clock src reg ring etag) (fun o => forall b, o = Some b -> P b).
Proof.
  intros Hd. unfold apply_ring. eapply calm_bind; [apply calm_get|]. intros c _.
  eapply (calm_bind _ _ _ (fun _ => True)); [calming|]. intros [|] _.
  { eapply calm_bind; [auto with calm|]. intros _ _. eapply (calm_bind _ _ _ (fun _ => True)); [calming|]. intros _ _. by apply calm_ret. }
  eapply calm_bind; [auto with calm|]. intros there _.
  eapply (calm_bind _ _ _ (fun _ => True)); [destruct there; [by apply calm_ret|by apply calm_fetch]|]. intros _ _.
  eapply calm_bind; [by apply calm_store_any|]. intros _ _. eapply calm_bind; [by apply calm_store, Wread|]. intros b Hb.
  eapply calm_bind; [auto with calm|]. intros _ _. eapply calm_bind; [apply calm_metrics|]. intros _ _.
  eapply calm_bind; [by apply calm_io|]. intros _ _. eapply calm_bind; [auto with calm|]. intros _ _. apply calm_ret. by intros b' [= <-].
Qed.
Lemma calm_poll : calm W (poll umask clock src reg) (fun o => forall b, o = Some b -> P b).
Proof.
  unfold poll. eapply calm_bind; [apply calm_bump|]. intros n _.
  eapply (calm_bind _ _ _ (fun _ => True)); [calming|]. intros etag _.
  eapply (calm_bind _ _ _ (fun _ => True)); [by apply calm_res|]. intros fetched _.
  assert (Hrem : forall e, calm W (_ ← remember_etag umask e; mret None) (fun o : option PolicyBundle => forall b, o = Some b -> P b)).
  { intros e. eapply calm_bind; [auto with calm|]. intros _ _. by apply calm_ret. }
  destruct fetched as [|manifest new_etag]; [eapply calm_bind; [auto with calm|]; intros _ _; by apply calm_ret|].
  eapply calm_bind; [apply calm_verified; auto with calm|]. intros rollout Hr. destruct (freeze rollout); [apply Hrem|].
  destruct (rollout_target _ _ _) as [[ring|]|] eqn:Et; [|apply Hrem|apply calm_abort].
  apply calm_apply_ring, Hr. by eapply find_ring_Some.
Qed.
Lemma calm_poll_round shown : calm W (poll_round umask clock shown src reg) (fun o => forall b, o = Some b -> P b).
Proof.
  intros y o y' Hw. unfold poll_round. destruct (poll _ _ _ _ y) as [[[a|e]|] y1] eqn:E; destruct (calm_poll _ _ _ Hw E) as [H1 H2].
  1, 3: intros [= <- <-]; by split. destruct (record_error umask e (shown e) y1) as [o2 y2] eqn:Er. intros [= <- <-].
  split; [|by intros a [= <-]].
  assert (Hc : calm W (record_error umask e (shown e)) (fun _ => True)); [|by destruct (Hc _ _ _ H1 Er)].
  unfold record_error. eapply calm_bind; [apply calm_metrics|]. intros _ _. eapply (calm_bind _ _ _ (fun _ => True)); [calming|].
  intros _ _. auto with calm.
Qed.
End calm_applying.

Section provenance.
Context {OC : OciCrypto} {SC : StoreCodec} (umask : Z).
Context (f0 : fs) (Served : string -> list TarEntry -> Prop).
Context (Hsafe : forall d es, Served d es -> Forall safe_entry es).

Definition from_served (v : string) (f : fs) : Prop := exists d es, version_name d = v /\ Served d es /\ exact [VERSIONS; v] es f.
Definition provenance (f : fs) : Prop := forall v, starts_with ".staging-" v = false ->
  intact f0 v f \/ f !! [VERSIONS; v] = None \/ from_served v f.
(** The cache, on a disk on which no call fails. *)
Definition kept (w : world) : Prop := (well (wfs w) /\ wfaults w = []) /\ provenance (wfs w).

Lemma provenance_at f f' v :
  (forall r, f' !! (VERSIONS :: v :: r) = f !! (VERSIONS :: v :: r)) ->
  intact f0 v f \/ f !! [VERSIONS; v] = None \/ from_served v f -> intact f0 v f' \/ f' !! [VERSIONS; v] = None \/ from_served v f'.
Proof.
  intros H [Hi|[Hn|(d & es & Hv & Hs & Hx)]]; [left; intros r; by rewrite H|right; left; by rewrite (H [])|right; right].
  exists d, es. do 2 (split; [done|]). eapply exact_same; [|exact Hx]. exact H.
Qed.
Lemma provenance_same f f' : same_versions f f' -> provenance f -> provenance f'.
Proof. intros Hs Hp v Hv. eapply provenance_at; [|by apply Hp]. intros r. apply Hs. Qed.

Lemma kept_calls {A : Type} (m : io A) : keeps well m -> spends m -> (forall f, keeps (same_versions f) m) -> calls kept m (fun _ => True).
Proof.
  intros H1 H2 H3 w r w' [[Hw Hx] Hp] E. split; [|done]. destruct (H1 _ _ _ Hw Logic.I E) as (_ & Hw' & _).
  destruct (H3 (wfs w) _ _ _ (fun r => eq_refl) Logic.I E) as (_ & Hs & _).
  split; [split; [done|by eapply spends_none]|by eapply provenance_same].
Qed.
Lemma kept_has d : calls kept (store_has d) (fun _ => True).
Proof. apply kept_calls; [apply well_reads, reads_is_dir|apply spends_has|intros f; apply reads_keeps, reads_is_dir]. Qed.
Lemma kept_replace name c :
  name <> VERSIONS -> name +:+ ".tmp" <> VERSIONS -> calls kept (replace_file umask name c) (fun _ => True).
Proof. intros H1 H2. apply kept_calls; [by apply well_replace_file|apply spends_replace_file|intros f; by apply same_versions_replace]. Qed.
Lemma kept_current d : calls kept (store_set_current d) (fun _ => True).
Proof.
  apply kept_calls; [apply well_set_current| |intros f; apply same_versions_set_current].
  unfold store_set_current, store_has, path_is_dir, s_call, s_ok, s_err. spending.
Qed.

Lemma kept_reading d : calls kept (store_read d) (fun _ => True).
Proof.
  apply kept_calls; [apply well_read| |].
  - unfold store_read, s_bind, s_err, s_ok. apply spends_bind; [|intros ?; spending]. unfold store_collect. intros w1 r1 w1' E1.
    by eapply spends_collect.
  - intros f w1 r1 w1' Hf _ E1. eapply (reads_keeps _ (store_read d)); eauto. intros f1. unfold store_read.
    apply keeps_s_bind; [intros w2 r2 w2' Hi Hp E2; by eapply reads_collect|intros ds; case_bool_decide; apply keeps_ret].
Qed.
(** Reading: the bundle is as the disk had it, or an archive that was served. *)
Lemma kept_read d :
  starts_with ".staging-" (version_name d) = false ->
  calls kept (store_read d) (fun r => forall b, r = Ok b -> revision b = d /\
    (docs_of f0 (version_dir d) (documents b) \/
     exists d' es, version_name d' = version_name d /\ Served d' es /\ unpacked es (documents b))).
Proof.
  intros Hd w r w' Hk E. destruct (kept_reading d _ _ _ Hk E) as [Hk' _].
  split; [done|]. intros rb -> b ->. destruct Hk as [[Hw _] Hp]. apply store_read_run in E as (Hr & Hne & Hdocs); [|done].
  split; [done|]. destruct (Hp _ Hd) as [Hi|[Hn|(d' & es & Hv & Hs & Hx)]].
  - left. eapply docs_same; [|exact Hdocs]. intros r. symmetry. apply (Hi r).
  - apply (docs_there _ (version_dir d)) in Hdocs; [unfold version_dir in Hdocs; congruence|done|apply Hw|done].
  - right. exists d', es. do 2 (split; [done|]). eapply docs_exact; [by eapply Hsafe|exact Hx|exact Hdocs].
Qed.

Lemma spends_s_each {A : Type} (f : A -> io (result OciError unit)) xs : (forall x, spends (f x)) -> spends (s_each f xs).
Proof.
  intros Hf. induction xs as [|x xs IH]; [apply spends_ret|]. cbn [s_each]. unfold s_bind. apply spends_bind; [apply Hf|].
  intros [|]; [exact IH|apply spends_ret].
Qed.
Lemma spends_create_dir_all at_ rest : spends (create_dir_all_go at_ rest).
Proof.
  revert at_. induction rest as [|s rest IH]; intros at_; cbn [create_dir_all_go]; [apply spends_ret|].
  apply spends_bind; [unfold fs_create_dir; spending|]. intros r. apply spends_bind; [|intros ?; apply IH].
  destruct r; [apply spends_ret|]. unfold path_is_dir, fs_stat. spending.
Qed.
Lemma spends_write_version d es : spends (write_version umask d es).
Proof.
  assert (Hrm : forall p, spends (fs_remove_dir_all p)) by (intros p; apply spends_syscall).
  unfold write_version. apply spends_bind; [unfold path_exists, fs_stat; spending|]. intros [|]; [apply spends_ret|]. unfold s_call, s_bind.
  apply spends_bind; [by apply spends_attempt|]. intros _.
  apply spends_bind; [apply spends_attempt, spends_create_dir_all|]. intros [|]; [|apply spends_ret].
  apply spends_bind; [apply spends_s_each|].
  - intros e. unfold write_entry. destruct (starts_with _ _).
    { apply spends_bind; [by apply spends_attempt|intros; apply spends_ret]. }
    destruct (join_path _ _); [|apply spends_ret]. unfold s_call.
    apply spends_bind; [apply spends_attempt, spends_create_dir_all|]. intros [|]; [|apply spends_ret].
    apply spends_bind; [unfold fs_write, fs_open_trunc, fs_write_all; spending|]. intros [|]; apply spends_ret.
  - intros [|]; [|apply spends_ret]. apply spends_bind; [unfold fs_rename; spending|]. intros [|]; [apply spends_ret|].
    apply spends_bind; [by apply spends_attempt|intros; apply spends_ret].
Qed.

Lemma kept_write d es : Served d es -> calls kept (write_version umask d es) (fun _ => True).
Proof.
  intros Hs w r w' [[Hw Hx] Hp] E. split; [|done].
  destruct (well_write_version umask d es _ _ _ Hw Logic.I E) as (_ & Hw' & _).
  split; [split; [done|by eapply spends_none; [apply spends_write_version|exact E|]]|]. intros v Hv.
  assert (Hns : forall t, ~ in_staging d (VERSIONS :: v :: t)).
  { intros t [[=]|[t' Ht]]. assert (Hv' : v = ".staging-" +:+ version_name d) by exact (f_equal (fun p => List.nth 1 p EmptyString) Ht).
    by rewrite Hv', starts_with_app in Hv. }
  destruct (write_version_frame _ _ _ _ _ _ E) as [Ha|[-> Ha]].
  { eapply provenance_at; [|by apply Hp]. intros t. by rewrite Ha. }
  destruct (decide (v = version_name d)) as [->|Hne].
  - destruct (write_version_run _ _ _ _ _ Hw (Hsafe _ _ Hs) E) as [He|He].
    + eapply provenance_at; [|by apply Hp]. intros t. by rewrite He.
    + right; right. exists d, es. do 2 (split; [done|]). apply He. by right.
  - eapply provenance_at; [|by apply Hp]. intros t. rewrite Ha; [done|]. intros [Hi|[t' [= ? _]]]; [by apply (Hns t)|done].
Qed.

Lemma kept_remove v : calls kept (fs_remove_dir_all [VERSIONS; v]) (fun _ => True).
Proof.
  intros w r w' [[Hw Hx] Hp] E. split; [|done]. destruct (well_remove_dir_all _ _ _ _ Hw Logic.I E) as (_ & Hw' & _).
  split; [split; [done|by eapply spends_none; [apply spends_syscall|exact E|]]|]. intros v' Hv'.
  unfold fs_remove_dir_all, syscall in E. rewrite Hx in E.
  assert (Hcase : wfs w' = wfs w \/ wfs w' = without [VERSIONS; v] (wfs w)).
  { destruct (wfs w !! [VERSIONS; v]) as [[]|]; injection E as _ <-; [by left|by right|by right|by left]. }
  destruct Hcase as [->| ->]; [by apply Hp|]. destruct (decide (v' = v)) as [->|Hne].
  - right; left. by rewrite without_lookup, below_refl.
  - eapply provenance_at; [|by apply Hp]. intros t. rewrite without_lookup.
    destruct (below _ _) eqn:Eb; [|done]. apply below_true in Eb as [t' [= ? _]]. done.
Qed.
Lemma calls_bind {A B : Type} W (m : io A) (k : A -> io B) (Q : B -> Prop) :
  calls W m (fun _ => True) -> (forall a, calls W (k a) Q) -> calls W (m ≫= k) Q.
Proof.
  intros Hm Hk w r w' Hw E. unfold mbind, io_bind in E. destruct (m w) as [[a|e] w1] eqn:Em; destruct (Hm _ _ _ Hw Em) as [H1 _].
  - by eapply Hk.
  - injection E as <- <-. by split.
Qed.
Lemma calls_attempt {A : Type} W (m : io A) : calls W m (fun _ => True) -> calls W (attempt m) (fun _ => True).
Proof. intros Hm w r w' Hw E. unfold attempt in E. destruct (m w) as [r1 w1] eqn:Em. injection E as <- <-. by destruct (Hm _ _ _ Hw Em). Qed.
Lemma calls_ret {A : Type} W (a : A) : calls W (mret a) (fun _ => True).
Proof. by intros w r w' Hw [= _ <-]. Qed.
Lemma kept_prune keep ds : calls kept (store_prune keep ds) (fun _ => True).
Proof.
  unfold store_prune. apply calls_bind.
  { apply calls_attempt, kept_calls; [apply well_reads; intros f; apply only_read_dir|apply spends_syscall|].
    intros f. apply reads_keeps. intros f'. apply only_read_dir. }
  intros [names|e]; [|apply calls_ret]. generalize 0 as removed.
  induction names as [|name names IH]; intros removed; [apply calls_ret|].
  destruct (starts_with ".staging-" name); [|destruct (existsb (String.eqb name) _); [apply IH|]];
    (apply calls_bind; [apply calls_attempt, kept_remove|intros ?; apply IH]).
Qed.
End provenance.

Lemma kept_mono f0 (S S' : string -> list TarEntry -> Prop) w : (forall d es, S d es -> S' d es) -> kept f0 S w -> kept f0 S' w.
Proof.
  intros H [Hw Hp]. split; [done|]. intros v Hv. destruct (Hp v Hv) as [?|[?|(d & es & Hd & Hs & Hx)]]; [by left|by right; left|].
  right; right. exists d, es. eauto.
Qed.
Lemma kept_start f0 S w : well (wfs w) -> wfaults w = [] -> wfs w = f0 -> kept f0 S w.
Proof. intros Hw Hx <-. split; [done|]. intros v _. by left. Qed.

(** A digest's version is not a staging directory, and two digests have two. *)
Lemma replace_colon_hex s : all_chars is_ascii_hexdigit s = true -> replace_go ":" "-" 0 s = s.
Proof.
  induction s as [|c s IH]; [done|]. cbn [all_chars]. intros [Hc Hs]%andb_true_iff. cbn [replace_go].
  assert (starts_with ":" (String c s) = false) as ->; [|by rewrite IH].
  unfold starts_with. cbn [strip_prefix]. destruct (Ascii.eqb_spec ":" c) as [<-|]; [done|done].
Qed.
Lemma version_name_form d : check_digest_form d = Ok tt ->
  exists hex, d = "sha256:" +:+ hex /\ version_name d = "sha256-" +:+ hex.
Proof.
  unfold check_digest_form. destruct (strip_prefix "sha256:" d) as [hex|] eqn:Es; [|done].
  intros [_ Hh%negb_false_iff]%guard_err_Ok%orb_false_iff. apply strip_prefix_Some in Es as ->. exists hex. split; [done|].
  unfold version_name, replace. cbn. by rewrite replace_colon_hex.
Qed.
Lemma version_name_inj d d' :
  check_digest_form d = Ok tt -> check_digest_form d' = Ok tt -> version_name d = version_name d' -> d = d'.
Proof.
  intros (x & -> & Ex)%version_name_form (x' & -> & Ex')%version_name_form H. rewrite Ex, Ex' in H. by injection H as ->.
Qed.
Lemma version_not_staging d : check_digest_form d = Ok tt -> starts_with ".staging-" (version_name d) = false.
Proof. by intros (x & _ & ->)%version_name_form. Qed.

(** ** Witness *)

Module ContentsWitness.
Import OciWitness.
Definition the_entries : list TarEntry := [mkEntry "bundle.toml" "schema = 1"; mkEntry "docs/a.toml" "x"].

Lemma disk_well : well disk.
Proof.
  split.
  - split; [reflexivity|]. intros p s n H. unfold disk in H. apply lookup_singleton_Some in H as [E _].
    destruct p as [|x p]; [by left|by destruct p].
  - intros r t H. unfold disk in H. by apply lookup_singleton_Some in H as [_ [=]].
Qed.

(** A node with an empty cache: the documents are those of the archive. *)
Lemma poll_applies_verified_witness :
  exists etag manifest new_etag rollout ring,
    reg_manifest reg etag = Ok (Changed manifest new_etag) /\
    accepted src reg manifest 0 1000 rollout /\ freeze rollout = false /\
    rollout_target rollout "prod" "node-1" = Some (Some ring) /\
    revision the_bundle = Rollout.bundle ring /\ documents the_bundle <> [] /\
    s_ring (y_state after) = ring_name ring /\ s_digest (y_state after) = Rollout.bundle ring /\
    (docs_of disk (version_dir (Rollout.bundle ring)) (documents the_bundle) \/
     exists es, archive src reg (Rollout.bundle ring) es /\
       (disk !! staging_dir (Rollout.bundle ring) = None \/ wfaults (y_world y0) = [] -> unpacked es (documents the_bundle))).
Proof.
  apply (poll_applies_verified 18 clock src reg y0 the_bundle after).
  - exact disk_well.
  - unfold after. rewrite (surjective_pairing (poll 18 clock src reg y0)) at 1.
    f_equal; vm_compute; reflexivity.
Defined.

(** Pruning that is interrupted leaves a part of the version it was removing,
    and [has] and [read] take that part for the whole. *)
Definition interrupted : world :=
  mkWorld (wfs (y_world after)) [None; Some (mkFault OtherIo 0 (fun p => negb (bool_decide (p ∈ [version_dir zero_digest ++ ["docs"]; version_dir zero_digest ++ ["docs"; "a.toml"]]))))] [].
Example partial_prune_is_read_as_whole :
  let w := (store_prune 1 ["sha256:other"] interrupted).2 in
  (store_has zero_digest w).1 = Ok true /\
  (store_read zero_digest w).1 = Ok (Ok (mkBundle zero_digest [mkDocument "bundle.toml" "schema = 1"])).
Proof. vm_compute. split; reflexivity. Qed.
End ContentsWitness.
