(* ===== verification/Registry.v ===== *)
(** * The registry client and the trusted key  (svidlet/src/policy/oci/registry.rs, verify.rs)

    Parsing a reference, the three reads of a pull, and the forms a public key
    may take.  [http_registry] is the client as the poll of [Oci] sees it.  The
    HTTP client is a parameter: a GET of a URL with headers gives the status,
    the [etag] header and the body, [None] where the request or the body's read
    fails. *)

From S2P Require Import Prelude RustStr Errors Rollout Tarball Fs Volume Oci.
Open Scope list_scope.
Open Scope Z_scope.

(** [s.rsplit_once(c)]. *)
Definition rsplit_once (c : ascii) (s : string) : option (string * string) :=
  match split_once c (str_rev s) with
  | Some (b, a) => Some (str_rev a, str_rev b)
  | None => None
  end.

Record Reference := mkReference {
  registry : string;
  repository : string;
  tag : string;
  scheme : string;
}.

Definition is_local (host : string) : bool :=
  String.eqb host "localhost" || String.eqb host "127.0.0.1" || String.eqb host "::1".
Definition host_of (registry : string) : string := default registry (head (split_char ":" registry)).
Definition scheme_of (registry : string) : string := if is_local (host_of registry) then "http" else "https".

(** A colon after the last slash is a tag. *)
Definition split_tag (rest : string) : string * string :=
  match rsplit_once ":" rest with
  | Some (repo, tag) => if negb (has_char "/" tag) && negb (is_empty tag) then (repo, tag) else (rest, "latest")
  | None => (rest, "latest")
  end.

Definition Reference_parse (raw : string) : result OciError Reference :=
  let raw := trim raw in
  let raw := default raw (strip_prefix "oci://" raw) in
  _ ← guard_err (is_empty raw) OConfig;
  '(registry, rest) ← ok_or OConfig (split_once "/" raw);
  _ ← guard_err (is_empty registry || is_empty rest) OConfig;
  let '(repository, tag) := split_tag rest in
  _ ← guard_err (is_empty repository) OConfig;
  Ok (mkReference registry repository tag (scheme_of registry)).

Definition blob_url (r : Reference) (digest : string) : string :=
  scheme r +:+ "://" +:+ registry r +:+ "/v2/" +:+ repository r +:+ "/blobs/" +:+ digest.
Definition manifest_url (r : Reference) : string :=
  scheme r +:+ "://" +:+ registry r +:+ "/v2/" +:+ repository r +:+ "/manifests/" +:+ tag r.

Definition MAX_MANIFEST_BYTES : Z := 1024 * 1024.

Record Answer := mkAnswer { a_status : Z; a_etag : option string; a_body : option string }.

(** [take(n)] and a read to the end: the first [n] bytes. *)
Fixpoint take_bytes (n : nat) (s : string) : string :=
  match n, s with S n, String c s => String c (take_bytes n s) | _, _ => EmptyString end.

Section registry.
Context {O : OciCrypto}.
Context (get : string -> list (string * string) -> option Answer).
(** [serde_json] on a manifest: its layers' digests. *)
Context (dec_layers : string -> option (list string)).
(** The token file at the moment of the call; [None] without one. *)
Context (token_file : option string).
Context (max_blob_bytes : Z).

Definition registry_token : option string :=
  t ← token_file; if is_empty (trim t) then None else Some (trim t).
Definition authorization : list (string * string) :=
  match registry_token with Some t => [("Authorization", "Bearer " +:+ t)] | None => [] end.

Definition success (status : Z) : bool := (200 <=? status) && (status <? 300).
Definition over (limit : Z) (s : string) : bool := limit <? Z.of_nat (String.length s).
Definition read_limited (limit : Z) (body : option string) : result OciError string :=
  b ← ok_or OFetch body; Ok (take_bytes (Z.to_nat (limit + 1)) b).

Definition accept_header : string * string :=
  ("Accept", "application/vnd.oci.image.manifest.v1+json, application/vnd.docker.distribution.manifest.v2+json").

Definition registry_manifest (r : Reference) (etag : option string) : result OciError Fetched :=
  let headers := accept_header :: match etag with Some e => [("If-None-Match", e)] | None => [] end ++ authorization in
  a ← ok_or OFetch (get (manifest_url r) headers);
  if a_status a =? 304 then Ok Unchanged
  else
    _ ← guard_err (negb (success (a_status a))) OFetch;
    body ← read_limited MAX_MANIFEST_BYTES (a_body a);
    _ ← guard_err (negb (valid_utf8 body)) OFetch;
    _ ← guard_err (over MAX_MANIFEST_BYTES body) ORejected;
    _ ← ok_or OMalformed (dec_layers body);
    Ok (Changed body (a_etag a)).

Definition registry_blob (r : Reference) (digest : string) : result OciError string :=
  a ← ok_or OFetch (get (blob_url r digest) authorization);
  _ ← guard_err (negb (success (a_status a))) OFetch;
  body ← read_limited max_blob_bytes (a_body a);
  _ ← guard_err (over max_blob_bytes body) ORejected;
  Ok body.

Definition single_layer (r : Reference) (manifest : string) : result OciError string :=
  layers ← ok_or OMalformed (dec_layers manifest);
  match layers with
  | [digest] =>
      blob ← registry_blob r digest;
      _ ← check_digest blob digest;
      Ok blob
  | _ => Err OMalformed
  end.

(** The registry behind a poll: the rollout's reference and the bundles'. *)
Definition http_registry (rollout_ref bundle_ref : Reference) : Registry :=
  mkRegistry (registry_manifest rollout_ref) (single_layer rollout_ref) (registry_blob bundle_ref).
End registry.

(** ** The trusted key  (verify.rs) *)

(** [str::lines]. *)
Definition strip_cr (l : string) : string :=
  if ends_with (bytes [13%N]) l then String.substring 0 (String.length l - 1) l else l.
Definition lines (s : string) : list string :=
  let ls := split_char "010" s in
  strip_cr <$> (match last ls with Some "" => removelast ls | _ => ls end).

Definition hex_value (c : ascii) : Z :=
  if is_ascii_digit c then digit_val c
  else Z.of_N (byte_of (to_ascii_lower c)) - 87.
(** [u8::from_str_radix(&text[2*i..2*i+2], 16)] for every pair. *)
Fixpoint from_hex (s : string) : string :=
  match s with
  | String a (String b r) => String (ascii_of_N (Z.to_N (16 * hex_value a + hex_value b))) (from_hex r)
  | _ => EmptyString
  end.

Definition last_32 (der : string) : string := String.substring (String.length der - 32) 32 der.

Definition PublicKey_parse {O : OciCrypto} (text : string) : result OciError string :=
  let text := trim text in
  raw ← (if contains_str "-----BEGIN" text then
           let body := join "" (filter (fun l => starts_with "-----" l = false) (lines text)) in
           der ← ok_or OConfig (b64_std (trim body));
           _ ← guard_err (String.length der <? 32)%nat OConfig;
           Ok (last_32 der)
         else if (String.length text =? 64)%nat && all_chars is_ascii_hexdigit text then Ok (from_hex text)
         else ok_or OConfig (b64_std text));
  _ ← guard_err (negb (String.length raw =? 32)%nat) OConfig;
  Ok raw.

(** [BundleSource::new], up to the store: the references and the key. *)
Definition source_of {O : OciCrypto} (rollout_ref bundle_repo public_key public_key_file : option string)
    : result OciError (Reference * Reference * string) :=
  raw ← ok_or OConfig rollout_ref;
  rollout ← Reference_parse raw;
  bundle ← (match bundle_repo with Some repo => Reference_parse repo | None => Ok rollout end);
  text ← ok_or OConfig (match public_key with Some text => Some text | None => public_key_file end);
  key ← PublicKey_parse text;
  Ok (rollout, bundle, key).

(** ** References *)

Lemma rsplit_once_Some c s a b :
  rsplit_once c s = Some (a, b) <-> s = a +:+ String c b /\ has_char c b = false.
Proof.
  assert (Hrev : forall x, has_char c (str_rev x) = has_char c x).
  { intros x. induction x as [|d x IH]; [done|]. change (str_rev (String d x)) with (srev (String d "") x).
    rewrite srev_app, has_char_app, IH, !has_char_cons, has_char_nil, orb_false_r. apply orb_comm. }
  unfold rsplit_once. split.
  - destruct (split_once c (str_rev s)) as [[x y]|] eqn:E; [|done]. intros [= <- <-].
    apply split_once_Some in E as [E Hx]. split; [|by rewrite Hrev].
    rewrite <- (str_rev_rev s), E, str_rev_app. change (str_rev (String c y)) with (srev (String c "") y).
    rewrite srev_app, sapp_assoc. done.
  - intros [-> Hb]. rewrite str_rev_app. change (str_rev (String c b)) with (srev (String c "") b).
    rewrite srev_app, sapp_assoc. cbn [String.append].
    rewrite (proj2 (split_once_Some c _ (str_rev b) (str_rev a))); [by rewrite !str_rev_rev|].
    split; [done|]. by rewrite Hrev.
Qed.

Lemma host_of_no_colon r : has_char ":" (host_of r) = false.
Proof.
  unfold host_of. pose proof (split_char_pieces ":" r) as H. pose proof (split_char_nonempty ":" r) as Hn.
  destruct (split_char ":" r) as [|x xs]; [done|]. cbn. by apply Forall_cons_iff in H as [? _].
Qed.

(** Every URL of the client is the registry's API root and a rest. *)
Lemma starts_with_root s g rest : starts_with (s +:+ "://" +:+ g +:+ "/v2/") (s +:+ "://" +:+ g +:+ "/v2/" +:+ rest) = true.
Proof. apply starts_with_true. exists rest. by rewrite !sapp_assoc. Qed.

(** A typo cannot downgrade a pull.  In a reference that parses, the registry,
    repository and tag are non-empty, the registry has no slash and the tag
    neither, and the scheme is plain HTTP exactly when the host is [localhost]
    or [127.0.0.1]; every URL the client builds from it, and so every request
    that carries the registry token, goes to that scheme and host. *)
Theorem reference_scheme (raw : string) (r : Reference) :
  Reference_parse raw = Ok r ->
  registry r <> "" /\ repository r <> "" /\ tag r <> "" /\
  has_char "/" (registry r) = false /\ has_char "/" (tag r) = false /\
  (scheme r = "http" \/ scheme r = "https") /\
  (scheme r = "http" <-> host_of (registry r) = "localhost" \/ host_of (registry r) = "127.0.0.1") /\
  starts_with (scheme r +:+ "://" +:+ registry r +:+ "/v2/") (manifest_url r) = true /\
  forall digest, starts_with (scheme r +:+ "://" +:+ registry r +:+ "/v2/") (blob_url r digest) = true.
Proof.
  unfold Reference_parse. intros ([] & _ & H)%bind_Ok. apply bind_Ok in H as ([reg rest] & Hs%ok_or_Ok & H).
  apply split_once_Some in Hs as [_ Hslash].
  apply bind_Ok in H as ([] & [Hr%is_empty_false Hrest%is_empty_false]%guard_err_Ok%orb_false_iff & H).
  assert (Ht : (split_tag rest).2 <> "" /\ has_char "/" (split_tag rest).2 = false).
  { unfold split_tag. destruct (rsplit_once ":" rest) as [[a b]|]; [|done].
    destruct (negb (has_char "/" b) && negb (is_empty b)) eqn:E; [|done].
    apply andb_true_iff in E as [E1%negb_true_iff E2%negb_true_iff%is_empty_false]. done. }
  destruct (split_tag rest) as [repo tg]. apply bind_Ok in H as ([] & Hrepo%guard_err_Ok%is_empty_false & [= <-]).
  cbn [registry repository tag scheme fst snd] in *. destruct Ht as [Ht1 Ht2]. do 5 (split; [done|]).
  assert (Hsch : scheme_of reg = "http" <-> host_of reg = "localhost" \/ host_of reg = "127.0.0.1").
  { unfold scheme_of, is_local. pose proof (host_of_no_colon reg) as Hc.
    destruct (String.eqb_spec (host_of reg) "::1") as [E|_]; [by rewrite E in Hc|].
    rewrite orb_false_r, <- !String.eqb_eq, <- orb_true_iff. by destruct (_ || _). }
  split; [unfold scheme_of; destruct (is_local _); auto|]. split; [exact Hsch|].
  split; [|intros digest]; apply starts_with_root.
Qed.

(** ** Keys *)

Fixpoint to_hex (s : string) : string :=
  match s with
  | EmptyString => EmptyString
  | String c s => hex_byte (byte_of c) +:+ to_hex s
  end.

Definition graphic : ascii -> bool := in_range "!" "~".
Definition starts_blank (w : string) : bool :=
  match w with EmptyString => false | String c _ => negb (graphic c) end.

Lemma strip_any_graphic ws s :
  forallb starts_blank ws = true -> all_chars graphic s = true -> strip_any ws s = None.
Proof.
  intros Hw Hs. destruct (strip_any ws s) as [r|] eqn:E; [|done].
  apply strip_any_Some in E as (w & Hin & ->). rewrite forallb_forall in Hw.
  specialize (Hw w (proj1 (list_elem_of_In _ _) Hin)). destruct w as [|c w]; [done|]. cbn in Hs, Hw.
  destruct (graphic c); done.
Qed.

Lemma all_chars_rev f s : all_chars f (str_rev s) = all_chars f s.
Proof.
  induction s as [|c s IH]; [done|]. change (str_rev (String c s)) with (srev (String c "") s).
  rewrite srev_app, all_chars_app, IH. cbn. rewrite andb_true_r. apply andb_comm.
Qed.

Lemma trim_graphic s : all_chars graphic s = true -> trim s = s.
Proof.
  intros H. unfold trim, trim_start, trim_end.
  rewrite (trim_go_id _ white_space) by (by apply strip_any_graphic).
  rewrite trim_go_id by (apply strip_any_graphic; [done|by rewrite all_chars_rev]). apply str_rev_rev.
Qed.

Lemma contains_str_char c p s : has_char c s = false -> contains_str (String c p) s = false.
Proof.
  induction s as [|d s IH]; intros H; [done|]. rewrite has_char_cons in H. apply orb_false_iff in H as [H1 H2].
  cbn [contains_str]. rewrite (IH H2), orb_false_r. apply Ascii.eqb_neq in H1.
  destruct (starts_with _ _) eqn:E; [|done]. by apply starts_with_true in E as [r [= -> _]].
Qed.

(** The two digits of a byte, decided for each of the 256. *)
Lemma hex_byte_ok c :
  exists a b, hex_byte (byte_of c) = String a (String b "") /\
    is_ascii_hexdigit a = true /\ is_ascii_hexdigit b = true /\
    ascii_of_N (Z.to_N (16 * hex_value a + hex_value b)) = c.
Proof. do 2 eexists. split; [reflexivity|]. destruct c as [[] [] [] [] [] [] [] []]; vm_compute; auto. Qed.

Lemma to_hex_ok s :
  from_hex (to_hex s) = s /\ all_chars is_ascii_hexdigit (to_hex s) = true /\
  String.length (to_hex s) = (2 * String.length s)%nat.
Proof.
  induction s as [|c s (H1 & H2 & H3)]; [done|]. destruct (hex_byte_ok c) as (a & b & E & Ha & Hb & Hc).
  cbn [to_hex]. rewrite E. cbn [String.append from_hex all_chars String.length].
  rewrite Hc, H1, H2, H3, Ha, Hb. split_and!; [done..|]. cbn. lia.
Qed.

Lemma hexdigit_graphic c : is_ascii_hexdigit c = true -> graphic c && negb (Ascii.eqb "-" c) = true.
Proof. destruct c as [[] [] [] [] [] [] [] []]; vm_compute; done. Qed.

Lemma hex_text s : all_chars is_ascii_hexdigit s = true -> trim s = s /\ contains_str "-----BEGIN" s = false.
Proof.
  intros H. apply (all_chars_impl _ (fun c => graphic c && negb (Ascii.eqb "-" c))) in H; [|apply hexdigit_graphic].
  split.
  - apply trim_graphic. eapply all_chars_impl; [|exact H]. by intros c [? _]%andb_true_iff.
  - apply contains_str_char. induction s as [|c s IH]; [done|]. cbn [all_chars] in H. rewrite has_char_cons.
    apply andb_true_iff in H as [[_ Hc%negb_true_iff]%andb_true_iff H]. by rewrite Hc, (IH H).
Qed.

(** A trusted key is 32 bytes or nothing: whatever its text, a key that parses
    has the length Ed25519 needs, and the 64-digit hexadecimal form of a 32-byte
    key, with white space around it or not, parses back to exactly that key. *)
Theorem public_key_roundtrip {O : OciCrypto} (text : string) :
  (forall key, PublicKey_parse text = Ok key -> String.length key = 32%nat) /\
  forall key, String.length key = 32%nat -> trim text = to_hex key -> PublicKey_parse text = Ok key.
Proof.
  split.
  - intros key H. unfold PublicKey_parse in H.
    apply bind_Ok in H as (raw & _ & ([] & Hl%guard_err_Ok%negb_false_iff%Nat.eqb_eq & [= <-])%bind_Ok). done.
  - intros key Hl Ht. destruct (to_hex_ok key) as (Hr & Hd & Hn). unfold PublicKey_parse.
    rewrite Ht, (proj2 (hex_text _ Hd)), Hd, Hn, Hl. cbn. by rewrite Hr, Hl.
Qed.

(** ** Pulls *)

Lemma take_bytes_length n s : (String.length (take_bytes n s) <= n)%nat.
Proof. revert s. induction n as [|n IH]; intros [|c s]; cbn; [lia..|]. specialize (IH s). lia. Qed.
Lemma take_bytes_short n s : (String.length (take_bytes n s) < n)%nat -> take_bytes n s = s.
Proof. revert s. induction n as [|n IH]; intros [|c s] H; cbn in *; [lia|lia|done|]. f_equal. apply IH. lia. Qed.

Section pulls.
Context {O : OciCrypto} (get : string -> list (string * string) -> option Answer).
Context (dec_layers : string -> option (list string)) (token_file : option string) (max_blob_bytes : Z).
Context (Hmax : 0 <= max_blob_bytes).

(** A body that passes the limit is the whole body: the cap never truncates. *)
Lemma read_limited_whole limit body b :
  0 <= limit -> read_limited limit body = Ok b -> over limit b = false ->
  body = Some b /\ Z.of_nat (String.length b) <= limit.
Proof.
  intros Hl H Ho. apply bind_Ok in H as (w & Hw%ok_or_Ok & [= <-]). unfold over in Ho. apply Z.ltb_ge in Ho.
  split; [|done]. rewrite Hw. f_equal. symmetry. apply take_bytes_short. lia.
Qed.

(** The layer of an artifact: the manifest names exactly one, the registry was
    asked for that digest and answered with success, the blob is what it sent in
    full and hashes to that digest, and it is within the limit. *)
Theorem single_layer_verified (r : Reference) (manifest blob : string) :
  single_layer get dec_layers token_file max_blob_bytes r manifest = Ok blob ->
  exists digest a,
    dec_layers manifest = Some [digest] /\
    get (blob_url r digest) (authorization token_file) = Some a /\
    200 <= a_status a < 300 /\ a_body a = Some blob /\
    sha256_digest blob = digest /\ Z.of_nat (String.length blob) <= max_blob_bytes.
Proof.
  unfold single_layer. intros (layers & Hl%ok_or_Ok & H)%bind_Ok. destruct layers as [|digest [|]]; [done| |done].
  apply bind_Ok in H as (b & Hb & ([] & Hd%check_digest_Ok & [= <-])%bind_Ok). unfold registry_blob in Hb.
  apply bind_Ok in Hb as (a & Ha%ok_or_Ok & Hb). apply bind_Ok in Hb as ([] & Hs%guard_err_Ok%negb_false_iff & Hb).
  apply bind_Ok in Hb as (body & Hbody & ([] & Ho%guard_err_Ok & [= <-])%bind_Ok).
  apply read_limited_whole in Hbody as [Hw Hlen]; [|done|done].
  apply andb_true_iff in Hs as [?%Z.leb_le ?%Z.ltb_lt]. by exists digest, a.
Qed.
End pulls.

(** ** Witnesses *)

Module RegistryWitness.
Import OciWitness.

Definition the_ref : Reference := mkReference "ghcr.io:443" "acme/rollout" "stable" "https".

Example port_and_tag : Reference_parse " oci://ghcr.io:443/acme/rollout:stable " = Ok the_ref.
Proof. vm_compute. reflexivity. Qed.
Example default_tag :
  Reference_parse "localhost:5000/rollout" = Ok (mkReference "localhost:5000" "rollout" "latest" "http").
Proof. vm_compute. reflexivity. Qed.
Example ipv6_loopback_is_remote :
  Reference_parse "[::1]:5000/rollout" = Ok (mkReference "[::1]:5000" "rollout" "latest" "https").
Proof. vm_compute. reflexivity. Qed.

Lemma reference_scheme_witness :
  scheme the_ref = "http" <-> host_of (registry the_ref) = "localhost" \/ host_of (registry the_ref) = "127.0.0.1".
Proof. apply (reference_scheme "oci://ghcr.io:443/acme/rollout:stable" the_ref). vm_compute. reflexivity. Defined.

(** A registry that answers every blob with eight bytes, to callers with the token. *)
Definition get (url : string) (headers : list (string * string)) : option Answer :=
  match headers with [("Authorization", "Bearer s3cret")] => Some (mkAnswer 200 None (Some "contents")) | _ => None end.
Definition layers (m : string) : option (list string) := Some [zero_digest].
Definition token_text : string := "s3cret" +:+ newline.

Lemma single_layer_verified_witness :
  exists digest a,
    layers "m" = Some [digest] /\ get (blob_url the_ref digest) (authorization (Some token_text)) = Some a /\
    200 <= a_status a < 300 /\ a_body a = Some "contents" /\
    sha256_digest "contents" = digest /\ Z.of_nat (String.length "contents") <= 8.
Proof.
  apply (single_layer_verified get layers (Some token_text) 8 ltac:(lia) the_ref "m").
  vm_compute. reflexivity.
Defined.

Definition the_key : string := "0123456789abcdef0123456789ABCDEF".
Lemma public_key_roundtrip_witness : PublicKey_parse (newline +:+ to_hex the_key) = Ok the_key.
Proof. apply public_key_roundtrip; vm_compute; reflexivity. Defined.
End RegistryWitness.
