(* ===== verification/NodeStore.v ===== *)
(** * The node's renewal list  (svidlet/src/rand.rs, svidlet/src/store.rs)

    The SplitMix64 generator behind the jitter, and the map of published
    volumes with the instant each is due for renewal.  The generator's state is
    one process-wide atomic; it is passed explicitly here, as is the map behind
    the store's mutex (every method is one critical section).

    Machine integers are written out at their width: the release profile does
    not check overflow, so [i64] and [u64] arithmetic wraps.  The [f64]
    arithmetic of the jitter is the IEEE binary64 arithmetic of [SpecFloat]. *)

From Stdlib Require Import Floats.SpecFloat.
From S2P Require Import Prelude RustStr Template.
Open Scope list_scope.
Open Scope Z_scope.

(** ** rand.rs *)

Module Rand.

Definition GAMMA : Z := 0x9E3779B97F4A7C15.

(** [seed | 1]: the state after seeding. *)
Definition seed (s : Z) : Z := Z.lor s 1.

Definition next_u64 (STATE : Z) : Z * Z :=
  let z := wrap 64 (STATE + GAMMA) in
  let z := wrap 64 (Z.lxor z (Z.shiftr z 30) * 0xBF58476D1CE4E5B9) in
  let z := wrap 64 (Z.lxor z (Z.shiftr z 27) * 0x94D049BB133111EB) in
  (Z.lxor z (Z.shiftr z 31), wrap 64 (STATE + GAMMA)).

(** [None] is a panic: the span of the whole [i64] range wraps to zero. *)
Definition range_i64 (low high STATE : Z) : option Z * Z :=
  if high <=? low then (Some low, STATE)
  else
    let span := wrap 64 (wrap 64 (wrap_i64 (high - low)) + 1) in
    let '(x, STATE) := next_u64 STATE in
    (if span =? 0 then None else Some (wrap_i64 (low + wrap_i64 (x mod span))), STATE).

(** *** binary64 *)

Notation f64 := spec_float.
Definition f_add : f64 -> f64 -> f64 := SFadd 53 1024.
Definition f_sub : f64 -> f64 -> f64 := SFsub 53 1024.
Definition f_mul : f64 -> f64 -> f64 := SFmul 53 1024.
Definition f_div : f64 -> f64 -> f64 := SFdiv 53 1024.

(** [n as f64]: round to nearest, ties to even. *)
Definition f_of_int (n : Z) : f64 := binary_normalize 53 1024 n 0 false.

(** [x as i64]: truncation towards zero, saturating; NaN is 0. *)
Definition f_to_i64 (x : f64) : Z :=
  match x with
  | S754_zero _ | S754_nan => 0
  | S754_infinity s => if s then i64_min else i64_max
  | S754_finite s m e =>
      let a := if 0 <=? e then Z.pos m * 2 ^ e else Z.pos m / 2 ^ (- e) in
      clamp_i64 (if s then - a else a)
  end.

Definition unit (STATE : Z) : f64 * Z :=
  let '(x, STATE) := next_u64 STATE in
  (f_div (f_of_int (Z.shiftr x 11)) (f_of_int (2 ^ 53)), STATE).

End Rand.

(** ** Paths as keys

    [PathBuf] equality compares components: repeated separators, a trailing
    separator and [.] segments do not count. *)
Definition PathBuf : Type := bool * list string.

#[export] Instance PathBuf_eq_dec : EqDecision PathBuf := prod_eq_dec.
#[export] Instance PathBuf_countable : Countable PathBuf := prod_countable.

Definition components (s : string) : list string :=
  let keep := List.filter (fun c => negb (is_empty c) && negb (String.eqb c ".")) in
  match split_char "/" s with
  | "." :: rest => "." :: keep rest
  | cs => keep cs
  end.

Definition PathBuf_from (s : string) : PathBuf := (starts_with "/" s, components s).

(** ** store.rs *)

Record PodRef := mkPodRef {
  pod_name : string;
  pod_namespace : string;
  pod_uid : string;
  pod_service_account : string;
}.

Record Entry := mkEntry {
  volume_id : string;
  target_path : PathBuf;
  spiffe_id : SpiffeId;
  pod : PodRef;
  not_before : Z;
  not_after : Z;
  renew_at : Z;
  failures : Z;
  pod_token : option string;
}.

Definition is_due (e : Entry) (now : Z) : bool := renew_at e <=? now.

Definition jittered_renew_at (not_before not_after : Z) (fraction : Rand.f64 * Rand.f64) (STATE : Z)
    : Z * Z :=
  let lifetime := Rand.f_of_int (Z.max (wrap_i64 (not_after - not_before)) 1) in
  let '(lo, hi) := fraction in
  let '(u, STATE) := Rand.unit STATE in
  let point := Rand.f_add lo (Rand.f_mul (Rand.f_sub hi lo) u) in
  (wrap_i64 (not_before + Rand.f_to_i64 (Rand.f_mul lifetime point)), STATE).

(** [backoff_secs]: the generator cannot panic on this range. *)
Definition BASE : Z := 30.
Definition CAP : Z := 600.
Definition backoff_secs (failures STATE : Z) : option Z * Z :=
  let exp := saturating_mul_i64 BASE (Z.shiftl 1 (Z.min failures 5)) in
  let capped := Z.min exp CAP in
  let spread := Z.quot capped 4 in
  Rand.range_i64 (capped - spread) (capped + spread) STATE.

Module Store.

Notation Store := (@gmap PathBuf PathBuf_eq_dec PathBuf_countable Entry).

Definition insert (entry : Entry) (s : Store) : Store := <[target_path entry := entry]> s.
Definition remove (target : PathBuf) (s : Store) : option Entry * Store := (s !! target, delete target s).
Definition get (target : PathBuf) (s : Store) : option Entry := s !! target.

Definition with_token (token : option string) (e : Entry) : Entry :=
  match token with
  | None => e
  | Some _ => mkEntry (volume_id e) (target_path e) (spiffe_id e) (pod e) (not_before e) (not_after e)
                (renew_at e) (failures e) token
  end.
Definition set_pod_token (target : PathBuf) (token : option string) (s : Store) : Store :=
  alter (with_token token) target s.

(** The values, in the map's own order. *)
Definition all (s : Store) : list Entry := (map_to_list s).*2.

(** [sort_by_key(|e| e.renew_at)], which is stable. *)
Fixpoint insert_by_deadline (e : Entry) (l : list Entry) : list Entry :=
  match l with
  | [] => [e]
  | x :: l' => if renew_at e <=? renew_at x then e :: l else x :: insert_by_deadline e l'
  end.
Definition sort_by_deadline (l : list Entry) : list Entry := foldr insert_by_deadline [] l.

Definition due (now : Z) (s : Store) : list Entry :=
  sort_by_deadline (List.filter (fun e => is_due e now) (all s)).

Definition min_option (a : option Z) (b : Z) : option Z :=
  match a with None => Some b | Some x => Some (Z.min x b) end.
Definition earliest_expiry (s : Store) : option Z := foldl min_option None (not_after <$> all s).

Definition renewed (not_before not_after renew_at : Z) (e : Entry) : Entry :=
  mkEntry (volume_id e) (target_path e) (spiffe_id e) (pod e) not_before not_after renew_at 0 (pod_token e).
Definition record_renewal (target : PathBuf) (not_before not_after renew_at : Z) (s : Store) : Store :=
  alter (renewed not_before not_after renew_at) target s.

Definition failed (failures renew_at : Z) (e : Entry) : Entry :=
  mkEntry (volume_id e) (target_path e) (spiffe_id e) (pod e) (not_before e) (not_after e)
    renew_at failures (pod_token e).

(** The failure count, the new map and the generator's state; [None] is a
    panic. *)
Definition record_failure (target : PathBuf) (now : Z) (s : Store) (STATE : Z) : option (Z * Store * Z) :=
  match s !! target with
  | None => Some (0, s, STATE)
  | Some e =>
      let n := saturating_add_u32 (failures e) 1 in
      let '(backoff, STATE) := backoff_secs n STATE in
      b ← backoff;
      Some (n, <[target := failed n (wrap_i64 (now + b)) e]> s, STATE)
  end.

End Store.

(** ** Properties *)

Lemma next_u64_range st : 0 <= (Rand.next_u64 st).1 < 2 ^ 64.
Proof.
  unfold Rand.next_u64. cbn [fst]. set (z := wrap 64 _).
  assert (Hz : 0 <= z < 2 ^ 64) by (apply wrap_range; lia). clearbody z.
  assert (Hs : 0 <= Z.shiftr z 31) by (apply Z.shiftr_nonneg; lia).
  split; [apply Z.lxor_nonneg; lia|].
  destruct (decide (Z.lxor z (Z.shiftr z 31) = 0)) as [->|Hne]; [lia|].
  assert (0 < Z.lxor z (Z.shiftr z 31)) by (assert (0 <= Z.lxor z (Z.shiftr z 31)) by (apply Z.lxor_nonneg; lia); lia).
  apply Z.log2_lt_pow2; [done|].
  eapply Z.le_lt_trans; [apply Z.log2_lxor; lia|]. apply Z.max_lub_lt.
  - destruct (decide (z = 0)) as [->|]; [cbn; lia|apply Z.log2_lt_pow2; lia].
  - destruct (decide (Z.shiftr z 31 = 0)) as [->|]; [cbn; lia|]. apply Z.log2_lt_pow2; [lia|].
    rewrite Z.shiftr_div_pow2 by lia. apply Z.div_lt_upper_bound; lia.
Qed.

Lemma wrap_sub_small x : 0 <= x < 2 ^ 64 -> wrap 64 (wrap_i64 x) = x.
Proof.
  intros H. unfold wrap, wrap_i64.
  rewrite Zminus_mod_idemp_l. replace (x + 2 ^ 63 - 2 ^ 63) with x by lia. by apply Z.mod_small.
Qed.

Lemma wrap_i64_add low r : wrap_i64 (low + wrap_i64 r) = wrap_i64 (low + r).
Proof.
  unfold wrap_i64. f_equal.
  replace (low + ((r + 2 ^ 63) mod 2 ^ 64 - 2 ^ 63) + 2 ^ 63) with (low + (r + 2 ^ 63) mod 2 ^ 64) by lia.
  rewrite Zplus_mod_idemp_r. f_equal. lia.
Qed.

Lemma range_i64_in low high st :
  in_i64 low -> in_i64 high -> low <= high -> high - low < u64_max ->
  exists x, (Rand.range_i64 low high st).1 = Some x /\ low <= x <= high.
Proof.
  unfold in_i64, i64_min, i64_max, u64_max, Rand.range_i64. intros Hl Hh Hle Hspan.
  destruct (Z.leb_spec high low) as [|Hlt]; [exists low; by split; [|lia]|].
  pose proof (next_u64_range st) as Hr. destruct (Rand.next_u64 st) as [x st']. cbn [fst] in *.
  rewrite wrap_sub_small by lia. rewrite (wrap_small 64) by lia.
  destruct (Z.eqb_spec (high - low + 1) 0); [lia|].
  eexists; split; [done|]. rewrite wrap_i64_add.
  assert (0 <= x mod (high - low + 1) < high - low + 1) by (apply Z.mod_pos_bound; lia).
  set (r := x mod (high - low + 1)) in *. clearbody r.
  rewrite wrap_i64_id; unfold in_i64, i64_min, i64_max; lia.
Qed.

(** Any range but the whole of [i64] is sampled within its ends, at full
    machine width: the subtraction may wrap, the result does not.  Only the
    whole range makes the span zero, and panics. *)
Theorem range_i64_bounds (low high st : Z) :
  in_i64 low -> in_i64 high -> low <= high ->
  match (Rand.range_i64 low high st).1 with
  | Some x => low <= x <= high
  | None => low = i64_min /\ high = i64_max
  end.
Proof.
  intros Hl Hh Hle. destruct (decide (high - low < u64_max)) as [Hs|Hs].
  - destruct (range_i64_in low high st) as (x & -> & ?); auto.
  - unfold in_i64, i64_min, i64_max, u64_max, Rand.range_i64 in *.
    destruct (Z.leb_spec high low); [lia|].
    destruct (Rand.next_u64 st) as [x st']. cbn [fst].
    assert (high - low = 2 ^ 64 - 1) as -> by lia. rewrite wrap_sub_small by lia.
    change (wrap 64 (2 ^ 64 - 1 + 1) =? 0) with true. cbv beta iota. lia.
Qed.

Lemma range_i64_bounds_witness :
  match (Rand.range_i64 i64_min 5 12345).1 with
  | Some x => i64_min <= x <= 5
  | None => i64_min = i64_min /\ 5 = i64_max
  end.
Proof.
  apply (range_i64_bounds i64_min 5 12345); unfold in_i64, i64_min, i64_max; lia.
Defined.

(** The documented schedule: 30 s doubled per consecutive failure, at most ten
    minutes. *)
Definition nominal_backoff (failures : Z) : Z := Z.min 600 (30 * 2 ^ failures).

Lemma capped_nominal n : 0 <= n ->
  Z.min (saturating_mul_i64 BASE (Z.shiftl 1 (Z.min n 5))) CAP = nominal_backoff n.
Proof.
  intros Hn. unfold nominal_backoff, BASE, CAP. destruct (decide (n < 5)) as [Hlt|Hge].
  - assert (n = 0 \/ n = 1 \/ n = 2 \/ n = 3 \/ n = 4) as [->|[->|[->|[->| ->]]]] by lia; reflexivity.
  - rewrite (Z.min_r n 5) by lia. change (saturating_mul_i64 30 (Z.shiftl 1 5)) with 960.
    assert (2 ^ 5 <= 2 ^ n) by (apply Z.pow_le_mono_r; lia). lia.
Qed.

Lemma nominal_range n : 0 <= n -> 30 <= nominal_backoff n <= 600.
Proof. intros Hn. unfold nominal_backoff. assert (0 < 2 ^ n) by (by apply Z.pow_pos_nonneg). lia. Qed.

Definition around (b x : Z) : Prop := b - Z.quot b 4 <= x <= b + Z.quot b 4.

Lemma backoff_secs_around n st :
  0 <= n -> exists b, (backoff_secs n st).1 = Some b /\ around (nominal_backoff n) b.
Proof.
  intros Hn. unfold backoff_secs, around. rewrite capped_nominal by done.
  pose proof (nominal_range n Hn) as Hr. set (b := nominal_backoff n) in *. clearbody b.
  assert (0 <= Z.quot b 4 <= b) by (split; [apply Z.quot_pos; lia|apply Z.quot_le_upper_bound; lia]).
  apply range_i64_in; unfold in_i64, i64_min, i64_max, u64_max; lia.
Qed.

Lemma insert_by_deadline_perm e l : Store.insert_by_deadline e l ≡ₚ e :: l.
Proof. induction l as [|x l IH]; cbn; [done|]. destruct (_ <=? _); [done|]. rewrite IH. by constructor. Qed.

Lemma sort_by_deadline_perm l : Store.sort_by_deadline l ≡ₚ l.
Proof. induction l as [|x l IH]; cbn; [done|]. by rewrite insert_by_deadline_perm, IH. Qed.

Definition by_deadline (a b : Entry) : Prop := renew_at a <= renew_at b.

Lemma insert_by_deadline_sorted e l :
  StronglySorted by_deadline l -> StronglySorted by_deadline (Store.insert_by_deadline e l).
Proof.
  induction 1 as [|x l Hs IH Hx]; cbn; [by repeat constructor|].
  destruct (Z.leb_spec (renew_at e) (renew_at x)).
  - constructor; [by constructor|]. constructor; [done|].
    eapply Forall_impl; [exact Hx|]. unfold by_deadline. intros; lia.
  - constructor; [done|]. rewrite insert_by_deadline_perm. constructor; [unfold by_deadline; lia|done].
Qed.

Lemma sort_by_deadline_sorted l : StronglySorted by_deadline (Store.sort_by_deadline l).
Proof. induction l; cbn; [constructor|by apply insert_by_deadline_sorted]. Qed.

Lemma elem_all e (s : Store.Store) : e ∈ Store.all s <-> exists k, s !! k = Some e.
Proof.
  unfold Store.all. rewrite list_elem_of_fmap. split.
  - intros ([k e'] & -> & H%elem_of_map_to_list). by exists k.
  - intros (k & H). exists (k, e). split; [done|by apply elem_of_map_to_list].
Qed.

(** Every entry is filed under its own target path. *)
Definition store_wf (s : Store.Store) : Prop := map_Forall (fun k e => target_path e = k) s.

Lemma store_wf_empty : store_wf ∅.
Proof. apply map_Forall_empty. Qed.
Lemma store_wf_insert e s : store_wf s -> store_wf (Store.insert e s).
Proof. intros H. by apply map_Forall_insert_2. Qed.
Lemma store_wf_delete k s : store_wf s -> store_wf (delete k s).
Proof. intros H. by apply map_Forall_delete. Qed.
Lemma store_wf_alter (f : Entry -> Entry) k s :
  (forall e, target_path (f e) = target_path e) -> store_wf s -> store_wf (alter f k s).
Proof.
  intros Hf H k' e'. rewrite lookup_alter. case_decide as Hk; [subst|apply H].
  intros (e & He & ->)%fmap_Some. rewrite Hf. by apply H.
Qed.

(** [due] returns every entry whose renewal instant has come, each once, the
    oldest deadline first. *)
Theorem due_spec (now : Z) (s : Store.Store) :
  Store.due now s ≡ₚ List.filter (fun e => is_due e now) (Store.all s) /\
  StronglySorted by_deadline (Store.due now s) /\
  (forall e, e ∈ Store.due now s <-> renew_at e <= now /\ exists k, s !! k = Some e).
Proof.
  unfold Store.due. split; [apply sort_by_deadline_perm|]. split; [apply sort_by_deadline_sorted|].
  intros e. rewrite sort_by_deadline_perm, list_elem_of_In, filter_In, <- list_elem_of_In, elem_all.
  unfold is_due. rewrite Z.leb_le. tauto.
Qed.

Lemma record_failure_some t now (s : Store.Store) st e :
  s !! t = Some e -> 0 <= failures e <= u32_max -> 0 <= now < 2 ^ 62 ->
  exists n b st', n = Z.min u32_max (failures e + 1) /\ around (nominal_backoff n) b /\
    Store.record_failure t now s st = Some (n, <[t := Store.failed n (now + b) e]> s, st').
Proof.
  intros He Hf Hnow. unfold Store.record_failure. rewrite He.
  set (n := saturating_add_u32 (failures e) 1).
  assert (Hn : 0 <= n) by (unfold n, saturating_add_u32, u32_max in *; lia).
  destruct (backoff_secs_around n st Hn) as (b & Hb & Ha). destruct (backoff_secs n st) as [o st'].
  cbn [fst] in Hb. subst o. exists n, b, st'. split; [done|]. split; [done|]. cbn.
  rewrite wrap_i64_id; [done|].
  pose proof (nominal_range n Hn). unfold around in Ha.
  assert (0 <= Z.quot (nominal_backoff n) 4 <= nominal_backoff n)
    by (split; [apply Z.quot_pos; lia|apply Z.quot_le_upper_bound; lia]).
  unfold in_i64, i64_min, i64_max. lia.
Qed.

Lemma around_bounds n b : 1 <= n -> around (nominal_backoff n) b -> 45 <= b <= 750.
Proof.
  intros Hn Ha. assert (60 <= nominal_backoff n <= 600).
  { unfold nominal_backoff. assert (2 ^ 1 <= 2 ^ n) by (apply Z.pow_le_mono_r; lia). lia. }
  unfold around in Ha.
  assert (4 * Z.quot (nominal_backoff n) 4 <= nominal_backoff n) by (apply Z.mul_quot_le; lia).
  assert (0 <= Z.quot (nominal_backoff n) 4) by (apply Z.quot_pos; lia). lia.
Qed.

(** A failed renewal touches one entry, and of it only the failure count and
    the next attempt: the certificate's window, the identity and the pod token
    stay.  The next attempt is within 25% of 30 s doubled per consecutive
    failure, at most ten minutes - so the first retry comes 45 to 75 s later,
    and no retry later than 750 s. *)
Theorem record_failure_spec (t : PathBuf) (now : Z) (s : Store.Store) (st : Z) (e : Entry) :
  s !! t = Some e -> 0 <= failures e <= u32_max -> 0 <= now < 2 ^ 62 ->
  exists n e' s' st',
    Store.record_failure t now s st = Some (n, s', st') /\
    s' !! t = Some e' /\ (forall t', t' <> t -> s' !! t' = s !! t') /\
    n = Z.min u32_max (failures e + 1) /\ failures e' = n /\
    around (nominal_backoff n) (renew_at e' - now) /\ 45 <= renew_at e' - now <= 750 /\
    (volume_id e', target_path e', spiffe_id e', pod e') = (volume_id e, target_path e, spiffe_id e, pod e) /\
    (not_before e', not_after e', pod_token e') = (not_before e, not_after e, pod_token e).
Proof.
  intros He Hf Hnow. destruct (record_failure_some t now s st e He Hf Hnow) as (n & b & st' & Hn & Ha & Hr).
  exists n, (Store.failed n (now + b) e), (<[t := Store.failed n (now + b) e]> s), st'.
  split; [done|]. rewrite lookup_insert_eq. split; [done|].
  split; [intros; by rewrite lookup_insert_ne|]. split; [done|]. split; [done|].
  cbn [renew_at Store.failed]. replace (now + b - now) with b by lia. split; [done|]. split; [|done].
  eapply around_bounds; [|exact Ha]. unfold u32_max in *. lia.
Qed.

Module StoreWitness.
Definition target : PathBuf := PathBuf_from "/var/lib/kubelet/pods/u1/volumes/kubernetes.io~csi/v/mount".
Definition entry : Entry :=
  mkEntry "v1" target (mkSpiffeId "spiffe://example.org/ns/a/sa/b") (mkPodRef "p" "a" "u1" "b")
    1000 87400 44200 0 (Some "token").
Definition store : Store.Store := {[ target := entry ]}.

Lemma record_failure_spec_witness :
  exists n e' s' st',
    Store.record_failure target 44200 store 1 = Some (n, s', st') /\
    s' !! target = Some e' /\ (forall t', t' <> target -> s' !! t' = store !! t') /\
    n = Z.min u32_max (failures entry + 1) /\ failures e' = n /\
    around (nominal_backoff n) (renew_at e' - 44200) /\ 45 <= renew_at e' - 44200 <= 750 /\
    (volume_id e', target_path e', spiffe_id e', pod e')
      = (volume_id entry, target_path entry, spiffe_id entry, pod entry) /\
    (not_before e', not_after e', pod_token e') = (not_before entry, not_after entry, pod_token entry).
Proof.
  apply (record_failure_spec target 44200 store 1 entry);
    [vm_compute; reflexivity|cbn; unfold u32_max; lia|lia].
Defined.

(** The jitter of a day-long certificate at the default fractions 0.5 and 0.6
    lands between them. *)
Example jitter_within : forall k, (k < 8)%nat ->
  let half := Rand.f_div (Rand.f_of_int 1) (Rand.f_of_int 2) in
  let six := Rand.f_div (Rand.f_of_int 6) (Rand.f_of_int 10) in
  let r := (jittered_renew_at 1000 87400 (half, six) (Z.of_nat k * 999999937)).1 in
  1000 + 43200 <= r <= 1000 + 51840.
Proof. intros k Hk. do 8 (destruct k as [|k]; [vm_compute; split; discriminate|]). lia. Qed.
End StoreWitness.
