(* ===== verification/Rounding.v ===== *)
(** * What rounding an [f64] may do

    Facts on the binary64 arithmetic of [SpecFloat], for numbers that are not
    negative, as far as the schedules of the program need them: an operation
    rounds its exact result, never past a number that has a representation, and
    by little.

    Everything is kept in integers: a number is given by its value in units of
    [2^-K], fine enough for products. *)

From Stdlib Require Import Floats.SpecFloat.
From S2P Require Import Prelude RustStr NodeStore.
Open Scope list_scope.
Open Scope Z_scope.

(** ** Values *)

Definition K : Z := 2200.
Definition unit_ : Z := 2 ^ K.
#[global] Opaque K.

Lemma K_val : K = 2200.
Proof. reflexivity. Qed.

(** [m * 2^e]. *)
Definition scaled (m e : Z) : Z := m * 2 ^ (e + K).

(** A number of the format: zero, or positive and finite. *)
Definition frep (x : spec_float) : Prop :=
  match x with
  | S754_zero _ => True
  | S754_finite false m e => Z.pos m < 2 ^ 53 /\ -1074 <= e
  | _ => False
  end.
Definition fval (x : spec_float) : Z :=
  match x with
  | S754_finite _ m e => scaled (Z.pos m) e
  | _ => 0
  end.
(** The values the format has, the ones just past a power of two included. *)
Definition rep (v : Z) : Prop := exists m e, v = scaled m e /\ 0 <= m <= 2 ^ 53 /\ -1074 <= e.

Lemma frep_rep x : frep x -> rep (fval x).
Proof.
  destruct x as [s| | |[] m e]; cbn; try done.
  - intros _. exists 0, 0. split; [done|]. split; lia.
  - intros [Hm He]. exists (Z.pos m), e. split; [done|]. split; lia.
Qed.

Lemma pow2_pos n : 0 <= n -> 0 < 2 ^ n.
Proof. intros. by apply Z.pow_pos_nonneg. Qed.
Lemma pow2_mono a b : a <= b -> 2 ^ a <= 2 ^ b.
Proof. intros. by apply Z.pow_le_mono_r. Qed.
Lemma pow2_split a b : 0 <= a -> 0 <= b -> 2 ^ (a + b) = 2 ^ a * 2 ^ b.
Proof. intros. by apply Z.pow_add_r. Qed.
Lemma pow2_S n : 0 <= n -> 2 ^ (n + 1) = 2 * 2 ^ n.
Proof. intros. rewrite pow2_split by lia. lia. Qed.
Lemma unit_pos : 0 < unit_.
Proof. apply pow2_pos. rewrite K_val. lia. Qed.

Lemma fval_nonneg x : frep x -> 0 <= fval x.
Proof.
  destruct x as [s| | |[] m e]; cbn; try done. intros [_ He]. unfold scaled.
  assert (0 < 2 ^ (e + K)) by (apply pow2_pos; rewrite K_val; lia). lia.
Qed.
(** The same number with another exponent. *)
Lemma scaled_shift m e n : 0 <= n -> - K <= e -> scaled (m * 2 ^ n) e = scaled m (e + n).
Proof. intros. unfold scaled. replace (e + n + K) with (n + (e + K)) by lia. rewrite (pow2_split n (e + K)) by lia. ring. Qed.

(** ** Digits *)

Lemma digits2_pos_spec p : 2 ^ (Z.pos (digits2_pos p) - 1) <= Z.pos p < 2 ^ Z.pos (digits2_pos p).
Proof.
  induction p as [p IH|p IH|]; cbn [digits2_pos]; [| |cbn; lia];
    rewrite Pos2Z.inj_succ; set (d := Z.pos (digits2_pos p)) in *;
    replace (Z.succ d - 1) with (d - 1 + 1) by lia; replace (Z.succ d) with (d + 1) by lia;
    assert (1 <= d) by lia; clearbody d; rewrite !pow2_S by lia; lia.
Qed.
Lemma digits_le p n : 0 <= n -> Z.pos p < 2 ^ n -> Z.pos (digits2_pos p) <= n.
Proof.
  intros Hn Hp. pose proof (digits2_pos_spec p) as [H _]. set (d := Z.pos (digits2_pos p)) in *. clearbody d.
  destruct (Z.le_gt_cases d n); [done|]. pose proof (pow2_mono n (d - 1) ltac:(lia)). lia.
Qed.

(** ** Shifting right, with the bits that fall off *)

(** [r] is the first bit lost and [s] whether any after it was set. *)
Definition shifted (M n : Z) (w : shr_record) : Prop :=
  exists low, M = shr_m w * 2 ^ n + (if shr_r w then 2 ^ (n - 1) else 0) + low /\
    0 <= 2 * low < 2 ^ n /\ (shr_s w = false -> low = 0) /\ (shr_s w = true -> 0 < low) /\
    0 <= shr_m w /\ (n = 0 -> shr_r w = false).

Lemma shifted_init M : 0 <= M -> shifted M 0 (shr_record_of_loc M loc_Exact).
Proof. intros H. exists 0. cbn. split_and!; try done; lia. Qed.

Lemma shr_1_half w : 0 <= shr_m w ->
  exists b : bool, shr_m w = 2 * shr_m (shr_1 w) + Z.b2z b /\ shr_r (shr_1 w) = b /\ shr_s (shr_1 w) = shr_r w || shr_s w /\
    0 <= shr_m (shr_1 w).
Proof.
  destruct w as [m r s]. cbn. intros Hm. destruct m as [|[p|p|]|p]; cbn.
  - exists false. by split_and!.
  - exists true. split_and!; try done; lia.
  - exists false. split_and!; try done; lia.
  - exists true. by split_and!.
  - lia.
Qed.

Lemma shifted_step M n w : 0 <= n -> shifted M n w -> shifted M (n + 1) (shr_1 w).
Proof.
  intros Hn (low & HM & Hlow & Hf & Ht & Hm & H0). destruct (shr_1_half w Hm) as (b & Em & Er & Es & Hm').
  exists ((if shr_r w then 2 ^ (n - 1) else 0) + low). rewrite Em in HM. rewrite Er, Es.
  replace (n + 1 - 1) with n by lia. rewrite pow2_S by lia.
  assert (Hh : shr_r w = true -> 2 * 2 ^ (n - 1) = 2 ^ n /\ 0 < 2 ^ (n - 1)).
  { intros Hr. assert (n <> 0) by (intros ->; by rewrite H0 in Hr). rewrite <- pow2_S by lia.
    replace (n - 1 + 1) with n by lia. split; [done|apply pow2_pos; lia]. }
  pose proof (pow2_pos n Hn). destruct (shr_r w), (shr_s w); cbn [orb]; try (specialize (Hh eq_refl));
    try (specialize (Hf eq_refl)); try (specialize (Ht eq_refl)); split_and!; try done; try lia;
    destruct b; cbn [Z.b2z] in *; nia.
Qed.

Lemma shifted_iter M p n w : 0 <= n -> shifted M n w -> shifted M (n + Z.pos p) (SpecFloat.iter_pos shr_1 p w).
Proof.
  revert n w. induction p as [p IH|p IH|]; intros n w Hn H; cbn [SpecFloat.iter_pos].
  - replace (n + Z.pos p~1) with (n + 1 + Z.pos p + Z.pos p) by lia.
    apply IH; [lia|]. apply IH; [lia|]. by apply shifted_step.
  - replace (n + Z.pos p~0) with (n + Z.pos p + Z.pos p) by lia. apply IH; [lia|]. by apply IH.
  - by apply shifted_step.
Qed.

Lemma shr_shifted M w e n :
  shifted M 0 w -> exists w', shr w e n = (w', e + Z.max n 0) /\ shifted M (Z.max n 0) w'.
Proof.
  intros H. unfold shr. destruct n as [|p|p].
  - exists w. by rewrite Z.add_0_r.
  - exists (SpecFloat.iter_pos shr_1 p w). split; [done|]. by apply (shifted_iter M p 0).
  - exists w. by rewrite Z.add_0_r.
Qed.

(** Rounding to nearest picks one of the two neighbours, and the nearer. *)
Lemma shifted_round M n w :
  0 <= n -> shifted M n w ->
  let r := round_nearest_even (shr_m w) (loc_of_shr_record w) in
  shr_m w <= r <= shr_m w + 1 /\ 2 * Z.abs (r * 2 ^ n - M) <= 2 ^ n /\ shr_m w * 2 ^ n <= M.
Proof.
  intros Hn (low & HM & Hlow & Hf & Ht & Hm & H0). cbn zeta.
  assert (Hh : shr_r w = true -> 2 * 2 ^ (n - 1) = 2 ^ n).
  { intros Hr. assert (n <> 0) by (intros ->; by rewrite H0 in Hr). rewrite <- pow2_S by lia. f_equal. lia. }
  pose proof (pow2_pos n Hn). destruct w as [m [] []]; cbn in *; try (specialize (Hh eq_refl)); try (specialize (Hf eq_refl)).
  - split_and!; lia.
  - destruct (Z.even m); split_and!; lia.
  - split_and!; lia.
  - split_and!; lia.
Qed.

(** ** Rounding *)

Lemma fexp_val x : fexp 53 1024 x = Z.max (x - 53) (-1074).
Proof. reflexivity. Qed.

(** The tail of [binary_round_aux]: a mantissa that rounded up to a power of two
    is renormalised. *)
Definition settled_at (sx : bool) (R e : Z) : spec_float :=
  let '(w, e2) := shr_fexp 53 1024 R e loc_Exact in
  match shr_m w with
  | Z0 => S754_zero sx
  | Zpos m => if e2 <=? 1024 - 53 then S754_finite sx m e2 else S754_infinity sx
  | _ => S754_nan
  end.

Lemma settled_spec R e :
  0 <= R <= 2 ^ 53 -> -1074 <= e <= 900 -> frep (settled_at false R e) /\ fval (settled_at false R e) = scaled R e.
Proof.
  intros HR He. unfold settled_at, shr_fexp. rewrite fexp_val. destruct (decide (R = 2 ^ 53)) as [->|Hne].
  - change (Zdigits2 (2 ^ 53)) with 54. replace (Z.max (54 + e - 53) (-1074) - e) with 1 by lia.
    cbn [shr shr_record_of_loc SpecFloat.iter_pos]. change (shr_1 _) with (Build_shr_record (2 ^ 52) false false).
    cbn [shr_m]. change (2 ^ 52) with (Z.pos 4503599627370496). destruct (Z.leb_spec (e + 1) (1024 - 53)); [|lia].
    split; [cbn; lia|]. cbn [fval]. change (2 ^ 53) with (Z.pos 4503599627370496 * 2 ^ 1).
    rewrite scaled_shift by (rewrite ?K_val; lia). done.
  - assert (Hn : Z.max (Zdigits2 R + e - 53) (-1074) - e <= 0).
    { destruct R as [|p|p]; cbn [Zdigits2]; [lia| |lia]. pose proof (digits_le p 53 ltac:(lia) ltac:(lia)). lia. }
    assert (E : forall w, shr w e (Z.max (Zdigits2 R + e - 53) (-1074) - e) = (w, e)).
    { intros w. unfold shr. destruct (_ - e); [done|lia|done]. }
    rewrite E. cbn [shr_record_of_loc shr_m]. destruct R as [|p|p]; [by split| |lia].
    destruct (Z.leb_spec e (1024 - 53)); [|lia]. split; [cbn; lia|done].
Qed.

(** What an operation may make of the exact value [X]: a number of the format,
    never past one that has a representation, and within half a unit in the
    last place (below 2). *)
Record rounds (X : Z) (x : spec_float) : Prop := {
  rd_rep : frep x;
  rd_le : forall v, rep v -> X <= v -> fval x <= v;
  rd_ge : forall v, rep v -> v <= X -> v <= fval x;
  rd_near : X < 2 * unit_ -> 2 ^ 53 * (fval x - X) <= unit_;
}.

Lemma rounds_exact x : frep x -> rounds (fval x) x.
Proof. intros H. split; [done|done|done|]. intros _. pose proof unit_pos. lia. Qed.

(** A representable number against a unit in the last place of 2^e. *)
Lemma rep_unit v e :
  rep v -> -1074 <= e -> (exists F, v = scaled F e) \/ (-1074 < e /\ v <= scaled (2 ^ 52) e).
Proof.
  intros (m & f & -> & Hm & Hf) He. destruct (decide (e <= f)) as [Hef|Hef].
  - left. exists (m * 2 ^ (f - e)). rewrite scaled_shift by (rewrite ?K_val; lia). f_equal. lia.
  - right. split; [lia|]. unfold scaled. replace (e + K) with (f + K + (e - f)) by lia.
    rewrite (pow2_split (f + K) (e - f)) by (rewrite ?K_val; lia).
    assert (2 ^ 1 <= 2 ^ (e - f)) by (apply pow2_mono; lia). assert (0 < 2 ^ (f + K)) by (apply pow2_pos; rewrite K_val; lia). nia.
Qed.

(** The digits of a number below [2^b]. *)
Lemma scaled_below m e b :
  - K <= e -> 0 <= b -> scaled (Z.pos m) e < 2 ^ b * unit_ -> Z.pos (digits2_pos m) + e <= b.
Proof.
  intros He Hb H. pose proof (digits2_pos_spec m) as [Hlo _]. set (d := Z.pos (digits2_pos m)) in *.
  destruct (Z.le_gt_cases (d + e) b) as [|Hgt]; [done|]. exfalso. unfold scaled, unit_ in H.
  assert (1 <= d) by (unfold d; lia). clearbody d. rewrite <- pow2_split in H by (rewrite ?K_val; lia).
  pose proof (pow2_mono (b + K) (d - 1 + (e + K)) ltac:(lia)) as Hp. rewrite (pow2_split (d - 1) (e + K)) in Hp by lia.
  assert (0 < 2 ^ (e + K)) by (apply pow2_pos; lia). nia.
Qed.

(** The first half of [binary_round_aux], and its result. *)
Lemma round_parts m e :
  - K <= e -> scaled (Z.pos m) e < 2 ^ 64 * unit_ ->
  exists R e' : Z, binary_round_aux 53 1024 false (Z.pos m) e loc_Exact = settled_at false R e' /\
    0 <= R <= 2 ^ 53 /\ -1074 <= e' <= 100 /\ 2 * Z.abs (scaled R e' - scaled (Z.pos m) e) <= 2 ^ (e' + K) /\
    (scaled R e' = scaled (Z.pos m) e \/ e' = -1074 \/ 2 ^ 52 <= R /\ scaled (2 ^ 52) e' <= scaled (Z.pos m) e) /\
    (scaled (Z.pos m) e < 2 * unit_ -> scaled R e' = scaled (Z.pos m) e \/ e' <= -52).
Proof.
  intros He Hbig. pose proof (digits2_pos_spec m) as [Hlo Hhi]. pose proof (scaled_below m e 64 He ltac:(lia) Hbig) as Hd.
  pose proof (scaled_below m e 1 He ltac:(lia)) as Hd2. change (2 ^ 1) with 2 in Hd2.
  unfold binary_round_aux, shr_fexp at 1. rewrite fexp_val. cbn [Zdigits2]. set (d := Z.pos (digits2_pos m)) in *.
  assert (Hd1 : 1 <= d) by (unfold d; lia). clearbody d. set (n := Z.max (d + e - 53) (-1074) - e).
  assert (Hsh : exists w, shr (shr_record_of_loc (Z.pos m) loc_Exact) e n = (w, e + Z.max n 0) /\ shifted (Z.pos m) (Z.max n 0) w).
  { apply shr_shifted. apply shifted_init. lia. }
  destruct Hsh as (w & Ew & Hw). rewrite Ew. set (k := Z.max n 0) in *. assert (Ek : 0 <= k) by lia.
  destruct (shifted_round _ _ _ Ek Hw) as (HR & Hnear & Hfl). cbn zeta in HR, Hnear.
  destruct Hw as (low & HM & Hlow & _ & _ & Hm0 & _).
  set (R := round_nearest_even (shr_m w) (loc_of_shr_record w)) in *. exists R, (e + k).
  pose proof (pow2_pos k Ek) as Hpk. assert (HeK : 0 < 2 ^ (e + K)) by (apply pow2_pos; lia).
  assert (Esc : scaled R (e + k) = R * 2 ^ k * 2 ^ (e + K)).
  { rewrite <- scaled_shift by lia. done. }
  assert (Eunit : 2 ^ (e + k + K) = 2 ^ k * 2 ^ (e + K)).
  { replace (e + k + K) with (k + (e + K)) by lia. by rewrite pow2_split by lia. }
  assert (Hexact : n <= 0 -> scaled R (e + k) = scaled (Z.pos m) e).
  { intros Hn. rewrite Esc. unfold scaled. f_equal. assert (k = 0) as Hk by lia. rewrite Hk in *. change (2 ^ 0) with 1 in *. lia. }
  (* the quotient fits *)
  assert (Hq : shr_m w < 2 ^ 53).
  { assert (Hdk : d <= 53 + k) by lia. pose proof (pow2_mono d (53 + k) Hdk) as Hp. rewrite (pow2_split 53 k) in Hp by lia. nia. }
  split; [reflexivity|]. split; [lia|]. split; [lia|]. split; [|split].
  - rewrite Esc, Eunit. unfold scaled. replace (R * 2 ^ k * 2 ^ (e + K) - Z.pos m * 2 ^ (e + K)) with ((R * 2 ^ k - Z.pos m) * 2 ^ (e + K)) by ring.
    rewrite Z.abs_mul, (Z.abs_eq (2 ^ (e + K))) by lia. nia.
  - destruct (Z.le_gt_cases n 0) as [Hn|Hn]; [left; by apply Hexact|]. right.
    destruct (decide (e + k = -1074)) as [|Hnm]; [by left|]. right.
    assert (Hdk : d - 1 = 52 + k) by lia. rewrite Hdk, (pow2_split 52 k) in Hlo by lia.
    assert (Hlow' : low + (if shr_r w then 2 ^ (k - 1) else 0) < 2 ^ k).
    { destruct (shr_r w); [|lia]. pose proof (pow2_S (k - 1) ltac:(lia)) as Hs. replace (k - 1 + 1) with k in Hs by lia. lia. }
    assert (Hq2 : 2 ^ 52 <= shr_m w).
    { destruct (Z.le_gt_cases (2 ^ 52) (shr_m w)) as [|Hlt]; [done|]. exfalso.
      assert ((shr_m w + 1) * 2 ^ k <= 2 ^ 52 * 2 ^ k) by (apply Z.mul_le_mono_nonneg_r; lia). lia. }
    split; [lia|]. rewrite <- scaled_shift by lia. unfold scaled. apply Z.mul_le_mono_nonneg_r; lia.
  - intros H2. specialize (Hd2 H2). destruct (Z.le_gt_cases n 0) as [Hn|Hn]; [left; by apply Hexact|]. right. lia.
Qed.

(** Among multiples of the unit, the nearest is on the same side. *)
Lemma nearest_le R F e X : - K <= e -> 2 * Z.abs (scaled R e - X) <= 2 ^ (e + K) -> X <= scaled F e -> scaled R e <= scaled F e.
Proof.
  unfold scaled. intros He Hn Hx. assert (0 < 2 ^ (e + K)) by (apply pow2_pos; lia). apply Z.mul_le_mono_nonneg_r; [lia|].
  destruct (Z.le_gt_cases R F); [done|]. nia.
Qed.
Lemma nearest_ge R F e X : - K <= e -> 2 * Z.abs (scaled R e - X) <= 2 ^ (e + K) -> scaled F e <= X -> scaled F e <= scaled R e.
Proof.
  unfold scaled. intros He Hn Hx. assert (0 < 2 ^ (e + K)) by (apply pow2_pos; lia). apply Z.mul_le_mono_nonneg_r; [lia|].
  destruct (Z.le_gt_cases F R); [done|]. nia.
Qed.

Lemma round_aux_rounds m e :
  - K <= e -> scaled (Z.pos m) e < 2 ^ 64 * unit_ ->
  rounds (scaled (Z.pos m) e) (binary_round_aux 53 1024 false (Z.pos m) e loc_Exact).
Proof.
  intros He Hb. destruct (round_parts m e He Hb) as (R & e' & -> & HR & He' & Hnear & Hnorm & Hsmall).
  set (X := scaled (Z.pos m) e) in *. destruct (settled_spec R e' HR ltac:(lia)) as [Hrep Hv].
  assert (HeK : - K <= e') by (rewrite K_val; lia).
  split; [done|rewrite Hv..].
  - intros v Hr Hx. destruct (rep_unit v e' Hr ltac:(lia)) as [(F & ->)|[Hm Hle]]; [by eapply nearest_le|].
    destruct Hnorm as [->|[Hem|[_ Hge]]]; [done|lia|]. assert (v = scaled (2 ^ 52) e') as -> by lia. by eapply nearest_le.
  - intros v Hr Hx. destruct (rep_unit v e' Hr ltac:(lia)) as [(F & ->)|[Hm Hle]]; [by eapply nearest_ge|].
    destruct Hnorm as [->|[Hem|[H52 _]]]; [done|lia|]. etrans; [exact Hle|]. unfold scaled.
    apply Z.mul_le_mono_nonneg_r; [|done]. apply Z.lt_le_incl, pow2_pos. lia.
  - intros H2. destruct (Hsmall H2) as [->|He2]; [pose proof unit_pos; lia|].
    pose proof (pow2_mono (e' + K) (K - 52) ltac:(lia)) as Hp. unfold unit_.
    assert (E52 : 2 ^ K = 2 ^ (K - 52) * 2 ^ 52) by (rewrite <- pow2_split by (rewrite ?K_val; lia); f_equal; lia). lia.
Qed.

(** ** The operations *)

Lemma pos_iter_xO m p : Z.pos (Pos.iter xO m p) = Z.pos m * 2 ^ Z.pos p.
Proof.
  revert m. induction p as [|p IH] using Pos.peano_ind; intros m; [cbn; lia|].
  rewrite Pos.iter_succ, Pos2Z.inj_xO, IH, Pos2Z.inj_succ, Z.pow_succ_r by lia. ring.
Qed.
Lemma shl_align_spec m e e' :
  - K <= e -> - K <= e' -> (shl_align m e e').2 = Z.min e e' /\
  scaled (Z.pos (shl_align m e e').1) (shl_align m e e').2 = scaled (Z.pos m) e.
Proof.
  intros He He'. unfold shl_align. destruct (e' - e) as [|p|p] eqn:E; cbn [fst snd]; [split; [lia|done]..|].
  split; [lia|]. rewrite pos_iter_xO, scaled_shift by lia. f_equal. lia.
Qed.

Lemma binary_round_rounds m e :
  - K <= e -> scaled (Z.pos m) e < 2 ^ 64 * unit_ -> rounds (scaled (Z.pos m) e) (binary_round 53 1024 false m e).
Proof.
  intros He Hb. unfold binary_round. rewrite fexp_val. set (e' := Z.max _ _).
  assert (He' : - K <= e') by (rewrite K_val; lia).
  destruct (shl_align_spec m e e' He He') as [E2 Es]. destruct (shl_align m e e') as [mz ez]. cbn [fst snd] in *.
  rewrite <- Es in Hb |- *. apply round_aux_rounds; [|done]. lia.
Qed.

Lemma normalize_rounds M e s :
  0 <= M -> - K <= e -> scaled M e < 2 ^ 64 * unit_ -> rounds (scaled M e) (binary_normalize 53 1024 M e s).
Proof.
  intros HM He Hb. destruct M as [|m|m]; [|by apply binary_round_rounds|lia].
  apply (rounds_exact (S754_zero s)). done.
Qed.

Lemma finite_low m e : frep (S754_finite false m e) -> - K <= e.
Proof. intros [_ H]. rewrite K_val. lia. Qed.

Lemma add_rounds x y :
  frep x -> frep y -> fval x + fval y < 2 ^ 64 * unit_ -> rounds (fval x + fval y) (Rand.f_add x y).
Proof.
  intros Hx Hy Hb. destruct x as [sx|sx| |[] mx ex], y as [sy|sy| |[] my ey]; try done.
  - destruct sx, sy; by apply (rounds_exact (S754_zero _)).
  - by apply (rounds_exact (S754_finite false my ey)).
  - cbn [fval]. rewrite Z.add_0_r. by apply (rounds_exact (S754_finite false mx ex)).
  - unfold Rand.f_add. cbn [SFadd cond_Zopp fval] in *. pose proof (finite_low _ _ Hx) as Lx. pose proof (finite_low _ _ Hy) as Ly.
    destruct (shl_align_spec mx ex (Z.min ex ey) Lx ltac:(lia)) as [E1 S1].
    destruct (shl_align_spec my ey (Z.min ex ey) Ly ltac:(lia)) as [E2 S2].
    destruct (shl_align mx ex _) as [m1 e1], (shl_align my ey _) as [m2 e2]. cbn [fst snd] in *.
    assert (Es : scaled (Z.pos mx) ex + scaled (Z.pos my) ey = scaled (Z.pos m1 + Z.pos m2) (Z.min ex ey)).
    { rewrite <- S1, <- S2, E1, E2. replace (Z.min ex (Z.min ex ey)) with (Z.min ex ey) by lia.
      replace (Z.min ey (Z.min ex ey)) with (Z.min ex ey) by lia. unfold scaled. ring. }
    rewrite Es in Hb |- *. apply normalize_rounds; [lia|lia|done].
Qed.

Lemma sub_rounds x y :
  frep x -> frep y -> fval y <= fval x -> fval x < 2 ^ 64 * unit_ -> rounds (fval x - fval y) (Rand.f_sub x y).
Proof.
  intros Hx Hy Hle Hb. destruct x as [sx|sx| |[] mx ex], y as [sy|sy| |[] my ey]; try done.
  - destruct sx, sy; by apply (rounds_exact (S754_zero _)).
  - exfalso. cbn in Hle. unfold scaled in Hle. pose proof (finite_low _ _ Hy) as Ly.
    assert (0 < 2 ^ (ey + K)) by (apply pow2_pos; lia). nia.
  - cbn [fval]. rewrite Z.sub_0_r. by apply (rounds_exact (S754_finite false mx ex)).
  - unfold Rand.f_sub. cbn [SFsub cond_Zopp fval] in *. pose proof (finite_low _ _ Hx) as Lx. pose proof (finite_low _ _ Hy) as Ly.
    destruct (shl_align_spec mx ex (Z.min ex ey) Lx ltac:(lia)) as [E1 S1].
    destruct (shl_align_spec my ey (Z.min ex ey) Ly ltac:(lia)) as [E2 S2].
    destruct (shl_align mx ex _) as [m1 e1], (shl_align my ey _) as [m2 e2]. cbn [fst snd] in *.
    assert (Es : scaled (Z.pos mx) ex - scaled (Z.pos my) ey = scaled (Z.pos m1 - Z.pos m2) (Z.min ex ey)).
    { rewrite <- S1, <- S2, E1, E2. replace (Z.min ex (Z.min ex ey)) with (Z.min ex ey) by lia.
      replace (Z.min ey (Z.min ex ey)) with (Z.min ex ey) by lia. unfold scaled. ring. }
    assert (Hpos : 0 < 2 ^ (Z.min ex ey + K)) by (apply pow2_pos; lia).
    pose proof (fval_nonneg _ Hy) as H0. cbn [fval] in H0.
    rewrite Es. apply normalize_rounds; [|lia|lia]. assert (0 <= scaled (Z.pos m1 - Z.pos m2) (Z.min ex ey)) as Hn by lia.
    unfold scaled in Hn. nia.
Qed.

Lemma mul_rounds x y :
  frep x -> frep y -> fval x * fval y < 2 ^ 64 * unit_ * unit_ ->
  exists P, P * unit_ = fval x * fval y /\ rounds P (Rand.f_mul x y).
Proof.
  intros Hx Hy Hb. destruct x as [sx|sx| |[] mx ex], y as [sy|sy| |[] my ey]; try done.
  - exists 0. split; [done|]. by apply (rounds_exact (S754_zero _)).
  - exists 0. split; [done|]. by apply (rounds_exact (S754_zero _)).
  - exists 0. cbn [fval]. split; [lia|]. by apply (rounds_exact (S754_zero _)).
  - exists (scaled (Z.pos (mx * my)) (ex + ey)). destruct Hx as [Hmx Hex], Hy as [Hmy Hey]. cbn [fval] in *.
    assert (Es : scaled (Z.pos (mx * my)) (ex + ey) * unit_ = scaled (Z.pos mx) ex * scaled (Z.pos my) ey).
    { unfold scaled, unit_. rewrite Pos2Z.inj_mul.
      transitivity (Z.pos mx * Z.pos my * (2 ^ (ex + ey + K) * 2 ^ K)); [ring|].
      transitivity (Z.pos mx * Z.pos my * (2 ^ (ex + K) * 2 ^ (ey + K))); [|ring]. f_equal.
      rewrite <- !pow2_split by (rewrite ?K_val; lia). f_equal. lia. }
    split; [done|]. apply round_aux_rounds; [rewrite K_val; lia|]. rewrite <- Es in Hb. pose proof unit_pos. nia.
Qed.

(** ** Integers *)

Lemma scaled_int n : scaled n 0 = n * unit_.
Proof. reflexivity. Qed.
Lemma rep_scaled m e : 0 <= m <= 2 ^ 53 -> -1074 <= e -> rep (scaled m e).
Proof. intros. by exists m, e. Qed.

Lemma f_of_int_spec n : 0 <= n <= 2 ^ 53 -> frep (Rand.f_of_int n) /\ fval (Rand.f_of_int n) = n * unit_.
Proof.
  intros Hn. pose proof unit_pos as Hu. pose proof (rep_scaled n 0 Hn ltac:(lia)) as Hr.
  destruct (normalize_rounds n 0 false) as [Hrep Hle Hge _]; [lia|rewrite K_val; lia|rewrite scaled_int; nia|].
  split; [done|]. rewrite <- scaled_int. apply Z.le_antisymm; auto with lia.
Qed.

(** The integer part of [M * 2^e]. *)
Definition whole_part (M e : Z) : Z := if 0 <=? e then M * 2 ^ e else M / 2 ^ (- e).
Lemma whole_part_val M e : - K <= e -> whole_part M e = scaled M e / unit_.
Proof.
  intros He. unfold whole_part, scaled, unit_. destruct (Z.leb_spec 0 e) as [H0|H0].
  - rewrite pow2_split, Z.mul_assoc by (rewrite ?K_val; lia). rewrite Z.div_mul; [done|].
    apply Z.neq_sym, Z.lt_neq, pow2_pos. rewrite K_val. lia.
  - replace (2 ^ K) with (2 ^ (- e) * 2 ^ (e + K)) by (rewrite <- pow2_split by lia; f_equal; lia).
    rewrite Z.div_mul_cancel_r; [done| |]; apply Z.neq_sym, Z.lt_neq, pow2_pos; lia.
Qed.

(** [x as i64] is the integer part. *)
Lemma f_to_i64_spec x : frep x -> fval x < 2 ^ 62 * unit_ -> Rand.f_to_i64 x = fval x / unit_.
Proof.
  intros Hx Hb. pose proof (fval_nonneg x Hx) as H0. pose proof unit_pos as Hu.
  destruct x as [s|s| |[] m e]; try done. cbn [Rand.f_to_i64 fval] in *.
  fold (whole_part (Z.pos m) e). rewrite whole_part_val by (by eapply finite_low).
  assert (0 <= scaled (Z.pos m) e / unit_ < 2 ^ 62).
  { split; [apply Z.div_pos; lia|apply Z.div_lt_upper_bound; lia]. }
  unfold clamp_i64, i64_min, i64_max. lia.
Qed.

(** ** The unit draw *)

Lemma div_by_2_53 x : frep x -> unit_ <= fval x -> fval x < 2 ^ 53 * unit_ ->
  frep (Rand.f_div x (Rand.f_of_int (2 ^ 53))) /\ fval (Rand.f_div x (Rand.f_of_int (2 ^ 53))) <= unit_.
Proof.
  intros Hx Hlo Hhi. pose proof unit_pos as Hu.
  change (Rand.f_of_int (2 ^ 53)) with (S754_finite false 4503599627370496 1).
  destruct x as [s|s| |[] m e]; try done. cbn [fval] in *. pose proof (finite_low _ _ Hx) as Lx.
  pose proof (scaled_below m e 53 Lx ltac:(lia) Hhi) as Hd. destruct Hx as [Hm He].
  pose proof (digits_le m 53 ltac:(lia) Hm) as Hd53. pose proof (digits2_pos_spec m) as [_ Hdm].
  assert (He0 : 0 < Z.pos (digits2_pos m) + e).
  { destruct (Z.le_gt_cases (Z.pos (digits2_pos m) + e) 0) as [Hneg|]; [|done]. exfalso. set (d := Z.pos (digits2_pos m)) in *.
    unfold scaled, unit_ in Hlo. pose proof (pow2_mono (d + (e + K)) K ltac:(lia)) as Hp. rewrite (pow2_split d (e + K)) in Hp by lia.
    assert (0 < 2 ^ (e + K)) by (apply pow2_pos; lia). nia. }
  unfold Rand.f_div. cbn [SFdiv xorb]. unfold SFdiv_core_binary. rewrite fexp_val. cbn [Zdigits2].
  change (Z.pos (digits2_pos 4503599627370496)) with 53. set (d := Z.pos (digits2_pos m)) in *.
  replace (Z.min (Z.max (d + e - (53 + 1) - 53) (-1074)) (e - 1)) with (d + e - 107) by lia.
  set (s := e - 1 - (d + e - 107)). assert (Es : s = 52 + (54 - d)) by lia.
  assert (Em : match s with Zpos _ => Z.shiftl (Z.pos m) s | Z0 => Z.pos m | Zneg _ => 0 end
               = Z.pos m * 2 ^ (54 - d) * 4503599627370496).
  { assert (0 < s) by lia. destruct s as [|p|p]; [lia| |lia]. rewrite Z.shiftl_mul_pow2 by lia. rewrite Es, pow2_split by lia.
    change 4503599627370496 with (2 ^ 52). ring. }
  rewrite Em. clear Em. assert (Hpd : 0 < 2 ^ (54 - d)) by (apply pow2_pos; lia).
  assert (Edm : Z.div_eucl (Z.pos m * 2 ^ (54 - d) * 4503599627370496) 4503599627370496 = (Z.pos m * 2 ^ (54 - d), 0)).
  { rewrite (surjective_pairing (Z.div_eucl _ _)). f_equal; [by apply Z.div_mul|by apply Z.mod_mul]. }
  rewrite Edm. change (new_location 4503599627370496 0) with loc_Exact.
  destruct (Z.pos m * 2 ^ (54 - d)) as [|q|q] eqn:Eq; [lia| |lia].
  assert (Ex : scaled (Z.pos q) (d + e - 107) * 2 ^ 53 = scaled (Z.pos m) e).
  { rewrite <- Eq. rewrite scaled_shift by (rewrite ?K_val; lia). unfold scaled. rewrite <- Z.mul_assoc.
    rewrite <- pow2_split by (rewrite ?K_val; lia). do 2 f_equal. lia. }
  destruct (round_aux_rounds q (d + e - 107)) as [Hr Hle _ _]; [rewrite K_val; lia|lia|].
  split; [done|]. apply Hle; [|lia]. rewrite <- (Z.mul_1_l unit_), <- scaled_int. apply rep_scaled; lia.
Qed.

(** The draw is a number of the format between 0 and 1. *)
Lemma unit_spec st : frep (Rand.unit st).1 /\ fval (Rand.unit st).1 <= unit_.
Proof.
  unfold Rand.unit. pose proof (next_u64_range st) as Hr. destruct (Rand.next_u64 st) as [x st']. cbn [fst] in *.
  assert (Hk : 0 <= Z.shiftr x 11 < 2 ^ 53).
  { rewrite Z.shiftr_div_pow2 by lia. split; [apply Z.div_pos; lia|apply Z.div_lt_upper_bound; lia]. }
  set (k := Z.shiftr x 11) in *. clearbody k. pose proof unit_pos as Hu. destruct (decide (k = 0)) as [->|Hk0].
  - split; [done|]. change (fval _) with 0. lia.
  - destruct (f_of_int_spec k ltac:(lia)) as [Hf Ev]. apply div_by_2_53; [done|rewrite Ev; nia|rewrite Ev; nia].
Qed.

(** ** Comparing *)

Lemma valid_frep m e : valid_binary 53 1024 (S754_finite false m e) = true -> frep (S754_finite false m e).
Proof.
  cbn [valid_binary frep]. unfold bounded, canonical_mantissa. rewrite fexp_val, andb_true_iff, Z.eqb_eq. intros [Hc _].
  pose proof (digits2_pos_spec m) as [_ Hm]. pose proof (pow2_mono (Z.pos (digits2_pos m)) 53 ltac:(lia)). lia.
Qed.
Lemma compare_val m1 e1 m2 e2 :
  valid_binary 53 1024 (S754_finite false m1 e1) = true -> valid_binary 53 1024 (S754_finite false m2 e2) = true ->
  SFcompare (S754_finite false m1 e1) (S754_finite false m2 e2) = Some (scaled (Z.pos m1) e1 ?= scaled (Z.pos m2) e2).
Proof.
  intros H1 H2. pose proof (finite_low _ _ (valid_frep _ _ H1)) as L1. pose proof (finite_low _ _ (valid_frep _ _ H2)) as L2.
  assert (Hlt : forall m m' e e', valid_binary 53 1024 (S754_finite false m e) = true ->
    valid_binary 53 1024 (S754_finite false m' e') = true -> - K <= e -> e < e' -> scaled (Z.pos m) e < scaled (Z.pos m') e').
  { clear. intros m m' e e' H H' L He. destruct (valid_frep _ _ H) as [Hm Hmin]. cbn [valid_binary] in H'.
    unfold bounded, canonical_mantissa in H'. rewrite fexp_val, andb_true_iff, Z.eqb_eq in H'. destruct H' as [Hc' _].
    pose proof (digits2_pos_spec m') as [Hm' _]. assert (Hd : Z.pos (digits2_pos m') = 53) by lia. rewrite Hd in Hm'. change (53 - 1) with 52 in Hm'.
    unfold scaled. replace (e' + K) with (e + K + (e' - e)) by lia. rewrite (pow2_split (e + K) (e' - e)) by lia.
    assert (2 ^ 1 <= 2 ^ (e' - e)) by (apply pow2_mono; lia). assert (Hp : 0 < 2 ^ (e + K)) by (apply pow2_pos; lia).
    assert (H53 : 2 ^ 53 <= Z.pos m' * 2 ^ (e' - e)) by nia. revert H53 Hp Hm. generalize (2 ^ (e' - e)) (2 ^ (e + K)).
    intros P Q H53 Hp Hm. nia. }
  cbn [SFcompare]. f_equal. symmetry. destruct (Z.compare_spec e1 e2) as [->|He|He].
  - unfold scaled. rewrite <- Zmult_compare_compat_r by (apply Z.lt_gt, pow2_pos; lia). done.
  - by apply Z.compare_lt_iff, Hlt.
  - by apply Z.compare_gt_iff, Hlt.
Qed.

(** ** Results are numbers of the format *)

Lemma digits_unique p d : 0 < d -> 2 ^ (d - 1) <= Z.pos p < 2 ^ d -> Z.pos (digits2_pos p) = d.
Proof.
  intros Hd [Hlo Hhi]. pose proof (digits_le p d ltac:(lia) Hhi). pose proof (digits2_pos_spec p) as [_ H2].
  destruct (Z.le_gt_cases d (Z.pos (digits2_pos p))); [lia|].
  pose proof (pow2_mono (Z.pos (digits2_pos p)) (d - 1) ltac:(lia)). lia.
Qed.

Lemma shr_1_div w : 0 <= shr_m w -> 0 <= shr_m (shr_1 w) /\ shr_m (shr_1 w) = shr_m w / 2.
Proof.
  intros H. destruct (shr_1_half w H) as (b & E & _ & _ & H'). split; [done|].
  rewrite E. generalize (shr_m (shr_1 w)). intros k. destruct b; cbn [Z.b2z]; Z.to_euclidean_division_equations; lia.
Qed.
Lemma shr_iter_div p w : 0 <= shr_m w ->
  0 <= shr_m (SpecFloat.iter_pos shr_1 p w) /\ shr_m (SpecFloat.iter_pos shr_1 p w) = shr_m w / 2 ^ Z.pos p.
Proof.
  revert w. induction p as [p IH|p IH|]; intros w H; cbn [SpecFloat.iter_pos].
  - destruct (shr_1_div w H) as [H1 E1]. destruct (IH _ H1) as [H2 E2]. destruct (IH _ H2) as [H3 E3].
    split; [done|]. rewrite E3, E2, E1, !Z.div_div by (try apply pow2_pos; lia). f_equal.
    replace (Z.pos p~1) with (1 + Z.pos p + Z.pos p) by lia. rewrite !pow2_split by lia. ring.
  - destruct (IH _ H) as [H2 E2]. destruct (IH _ H2) as [H3 E3]. split; [done|].
    rewrite E3, E2, !Z.div_div by (try apply pow2_pos; lia). f_equal.
    replace (Z.pos p~0) with (Z.pos p + Z.pos p) by lia. by rewrite pow2_split by lia.
  - by apply shr_1_div.
Qed.

(** A mantissa within reach of the format, at its exponent. *)
Definition in_format (R e : Z) : Prop :=
  0 <= R <= 2 ^ 53 /\ -1074 <= e /\ (e = -1074 \/ 2 ^ 52 <= R).

Lemma settled_valid sx R e : in_format R e -> valid_binary 53 1024 (settled_at sx R e) = true.
Proof.
  intros (HR & He & Hn). unfold settled_at, shr_fexp. rewrite fexp_val. destruct (decide (R = 2 ^ 53)) as [->|Hne].
  - change (Zdigits2 (2 ^ 53)) with 54. replace (Z.max (54 + e - 53) (-1074) - e) with 1 by lia.
    cbn [shr shr_record_of_loc SpecFloat.iter_pos]. change (shr_1 _) with (Build_shr_record (2 ^ 52) false false).
    cbn [shr_m]. change (2 ^ 52) with (Z.pos 4503599627370496). destruct (Z.leb_spec (e + 1) (1024 - 53)); [|done].
    cbn [valid_binary]. unfold bounded, canonical_mantissa. rewrite fexp_val. change (Z.pos (digits2_pos _)) with 53.
    rewrite andb_true_iff, Z.eqb_eq, Z.leb_le. lia.
  - destruct R as [|p|p]; [|cbn [Zdigits2]|lia].
    { assert (E : forall w, shr w e (Z.max (Zdigits2 0 + e - 53) (-1074) - e) = (w, e)).
      { intros w. unfold shr. cbn [Zdigits2]. destruct (_ - e) eqn:En; [done|lia|done]. }
      by rewrite E. }
    pose proof (digits_le p 53 ltac:(lia) ltac:(lia)) as Hd.
    assert (Hc : Z.max (Z.pos (digits2_pos p) + e - 53) (-1074) = e).
    { destruct Hn as [->|H52]; [lia|]. assert (Z.pos (digits2_pos p) = 53) by (apply digits_unique; lia). lia. }
    rewrite Hc. replace (e - e) with 0 by lia. cbn [shr shr_record_of_loc shr_m].
    destruct (Z.leb_spec e (1024 - 53)); [|done]. cbn [valid_binary]. unfold bounded, canonical_mantissa. rewrite fexp_val.
    rewrite andb_true_iff, Z.eqb_eq, Z.leb_le. lia.
Qed.

Lemma digits_bounds M : 0 <= M -> M < 2 ^ Zdigits2 M /\ (0 < Zdigits2 M -> 2 ^ (Zdigits2 M - 1) <= M) /\ 0 <= Zdigits2 M.
Proof.
  intros H. destruct M as [|p|p]; cbn [Zdigits2]; [cbn; lia| |lia]. pose proof (digits2_pos_spec p). lia.
Qed.

Lemma round_nearest_step m l : m <= round_nearest_even m l <= m + 1.
Proof. destruct l as [|[]]; cbn; try lia. destruct (Z.even m); lia. Qed.

Lemma round_aux_valid sx M e l :
  0 <= M -> e <= fexp 53 1024 (Zdigits2 M + e) -> valid_binary 53 1024 (binary_round_aux 53 1024 sx M e l) = true.
Proof.
  intros HM He. rewrite fexp_val in He. unfold binary_round_aux, shr_fexp at 1. rewrite fexp_val.
  destruct (digits_bounds M HM) as (Hhi & Hlo & Hd0). set (d := Zdigits2 M) in *. clearbody d.
  set (e' := Z.max (d + e - 53) (-1074)) in *. set (n := e' - e). assert (Hn0 : 0 <= n) by lia.
  assert (Hs : exists w, shr (shr_record_of_loc M l) e n = (w, e') /\ 0 <= shr_m w /\ shr_m w = M / 2 ^ n).
  { assert (Hm0 : shr_m (shr_record_of_loc M l) = M) by (by destruct l as [|[]]). unfold shr. destruct n as [|p|p] eqn:En; [| |lia].
    - exists (shr_record_of_loc M l). rewrite Hm0, Z.pow_0_r, Z.div_1_r. replace e' with e by lia. done.
    - destruct (shr_iter_div p (shr_record_of_loc M l)) as [Hp Ep]; [by rewrite Hm0|]. eexists. split; [f_equal; lia|].
      split; [exact Hp|]. by rewrite Ep, Hm0. }
  destruct Hs as (w & -> & Hw0 & Ew). pose proof (round_nearest_step (shr_m w) (loc_of_shr_record w)) as HR.
  set (R := round_nearest_even _ _) in *. apply (settled_valid sx R e'). pose proof (pow2_pos n Hn0) as Hpn.
  assert (Hq : shr_m w < 2 ^ 53).
  { rewrite Ew. apply Z.div_lt_upper_bound; [lia|]. rewrite Z.mul_comm, <- pow2_split by lia.
    pose proof (pow2_mono d (53 + n) ltac:(lia)). lia. }
  split; [lia|]. split; [lia|]. destruct (Z.le_gt_cases (d + e - 53) (-1074)) as [Hsub|Hnorm]; [left; lia|]. right.
  assert (Hdn : d - 1 = n + 52) by lia. specialize (Hlo ltac:(lia)). rewrite Hdn, pow2_split in Hlo by lia.
  assert (2 ^ 52 <= shr_m w) by (rewrite Ew; apply Z.div_le_lower_bound; lia). lia.
Qed.

Lemma normalize_valid M e s : valid_binary 53 1024 (binary_normalize 53 1024 M e s) = true.
Proof.
  assert (H : forall sx m, valid_binary 53 1024 (binary_round 53 1024 sx m e) = true).
  { intros sx m. unfold binary_round. rewrite fexp_val. set (f := Z.max _ _). unfold shl_align.
    destruct (f - e) as [|p|p] eqn:E; [apply round_aux_valid; [lia|rewrite fexp_val; cbn [Zdigits2]; lia]..|].
    apply round_aux_valid; [lia|]. rewrite fexp_val. cbn [Zdigits2].
    pose proof (digits2_pos_spec m) as [Hlo Hhi].
    assert (Hd : Z.pos (digits2_pos (Pos.iter xO m p)) = Z.pos (digits2_pos m) + Z.pos p).
    { apply digits_unique; [lia|]. rewrite pos_iter_xO. pose proof (pow2_pos (Z.pos p) ltac:(lia)).
      replace (Z.pos (digits2_pos m) + Z.pos p - 1) with (Z.pos (digits2_pos m) - 1 + Z.pos p) by lia.
      rewrite (pow2_split (_ - 1)), (pow2_split (Z.pos (digits2_pos m))) by lia. nia. }
    lia. }
  destruct M; cbn; auto.
Qed.

Lemma div_valid sx m1 e1 sy m2 e2 :
  valid_binary 53 1024 (Rand.f_div (S754_finite sx m1 e1) (S754_finite sy m2 e2)) = true.
Proof.
  unfold Rand.f_div. cbn [SFdiv]. unfold SFdiv_core_binary. cbn [Zdigits2]. rewrite fexp_val.
  pose proof (digits2_pos_spec m1) as [H1 _]. pose proof (digits2_pos_spec m2) as [_ H2].
  set (d1 := Z.pos (digits2_pos m1)) in *. set (d2 := Z.pos (digits2_pos m2)) in *.
  assert (0 < d1) by (unfold d1; lia). assert (0 < d2) by (unfold d2; lia). clearbody d1 d2.
  set (e' := Z.min _ _). set (s := e1 - e2 - e'). assert (Hs : 0 <= s) by lia.
  set (m' := match s with Zpos _ => Z.shiftl (Z.pos m1) s | Z0 => Z.pos m1 | Zneg _ => 0 end).
  assert (Em : m' = Z.pos m1 * 2 ^ s).
  { unfold m'. destruct s as [|p|p]; [cbn; lia| |lia]. rewrite Z.shiftl_mul_pow2 by lia. done. }
  rewrite (surjective_pairing (Z.div_eucl m' (Z.pos m2))). change (Z.div_eucl m' (Z.pos m2)).1 with (m' / Z.pos m2).
  set (q := m' / Z.pos m2).
  assert (Hps : 0 < 2 ^ s) by (by apply pow2_pos). assert (Hq0 : 0 <= q) by (apply Z.div_pos; lia).
  apply round_aux_valid; [exact Hq0|]. destruct (digits_bounds q Hq0) as (Hq & _ & Hdq).
  assert (Hdig : d1 + s - d2 <= Zdigits2 q).
  { destruct (Z.le_gt_cases (d1 + s - d2) (Zdigits2 q)) as [|Hlt]; [done|]. exfalso.
    assert (Hm : m' < Z.pos m2 * 2 ^ (d1 + s - d2 - 1)).
    { pose proof (Z.mul_succ_div_gt m' (Z.pos m2) ltac:(lia)) as Hg. fold q in Hg.
      pose proof (pow2_mono (Zdigits2 q) (d1 + s - d2 - 1) ltac:(lia)). nia. }
    assert (Hp : 2 ^ (d1 - 1 + s) = 2 ^ d2 * 2 ^ (d1 + s - d2 - 1)) by (rewrite <- pow2_split by lia; f_equal; lia).
    rewrite (pow2_split (d1 - 1) s) in Hp by lia. pose proof (pow2_pos (d1 + s - d2 - 1) ltac:(lia)). nia. }
  rewrite fexp_val. lia.
Qed.

(** ** Signs *)

Lemma round_aux_opp sx M e l :
  binary_round_aux 53 1024 (negb sx) M e l = SFopp (binary_round_aux 53 1024 sx M e l).
Proof.
  unfold binary_round_aux. destruct (shr_fexp 53 1024 M e l) as [w e1]. destruct (shr_fexp 53 1024 _ e1 loc_Exact) as [w' e2].
  destruct (shr_m w'); [done| |done]. by destruct (e2 <=? 1024 - 53).
Qed.
Lemma normalize_opp M e : 0 < M -> binary_normalize 53 1024 (- M) e false = SFopp (binary_normalize 53 1024 M e false).
Proof.
  intros HM. destruct M as [|m|m]; [lia| |lia]. change (- Z.pos m) with (Z.neg m).
  cbn [binary_normalize]. unfold binary_round. destruct (shl_align _ _ _) as [mz ez].
  apply (round_aux_opp false).
Qed.

(** A difference the other way round. *)
Lemma sub_opp x y : frep x -> frep y -> fval x < fval y -> Rand.f_sub x y = SFopp (Rand.f_sub y x).
Proof.
  intros Hx Hy Hlt. destruct x as [sx|sx| |[] mx ex], y as [sy|sy| |[] my ey]; try done.
  unfold Rand.f_sub. cbn [SFsub cond_Zopp fval] in *. rewrite (Z.min_comm ey ex).
  pose proof (finite_low _ _ Hx) as Lx. pose proof (finite_low _ _ Hy) as Ly.
  destruct (shl_align_spec mx ex (Z.min ex ey) Lx ltac:(lia)) as [E1 S1].
  destruct (shl_align_spec my ey (Z.min ex ey) Ly ltac:(lia)) as [E2 S2].
  destruct (shl_align mx ex _) as [m1 e1], (shl_align my ey _) as [m2 e2]. cbn [fst snd] in *.
  rewrite <- normalize_opp; [f_equal; lia|]. rewrite <- S1, <- S2, E1, E2 in Hlt.
  replace (Z.min ex (Z.min ex ey)) with (Z.min ex ey) in Hlt by lia.
  replace (Z.min ey (Z.min ex ey)) with (Z.min ex ey) in Hlt by lia. unfold scaled in Hlt.
  assert (0 < 2 ^ (Z.min ex ey + K)) by (apply pow2_pos; lia). nia.
Qed.
Lemma mul_opp x y : frep x -> frep y -> Rand.f_mul (SFopp x) y = SFopp (Rand.f_mul x y).
Proof.
  intros Hx Hy. destruct x as [sx|sx| |[] mx ex], y as [sy|sy| |[] my ey]; try done; try (by destruct sx, sy); try (by destruct sx).
  apply (round_aux_opp false).
Qed.
Lemma add_opp m e y : frep y -> Rand.f_add (S754_finite false m e) (SFopp y) = Rand.f_sub (S754_finite false m e) y.
Proof. intros Hy. by destruct y as [sy|sy| |[] my ey]. Qed.

Lemma add_valid m e y : frep y -> valid_binary 53 1024 (S754_finite false m e) = true ->
  valid_binary 53 1024 (Rand.f_add (S754_finite false m e) y) = true.
Proof. intros Hy Vx. destruct y as [sy|sy| |[] my ey]; try done. apply normalize_valid. Qed.
Lemma sub_valid m e y : frep y -> valid_binary 53 1024 (S754_finite false m e) = true ->
  valid_binary 53 1024 (Rand.f_sub (S754_finite false m e) y) = true.
Proof. intros Hy Vx. destruct y as [sy|sy| |[] my ey]; try done. apply normalize_valid. Qed.
(** A positive value is that of a finite number. *)
Lemma finite_of_pos x : frep x -> 0 < fval x -> exists m e, x = S754_finite false m e.
Proof. destruct x as [s|s| |[] m e]; cbn [frep fval]; try done; try lia. intros _ _. by exists m, e. Qed.
Lemma f_of_int_valid n : valid_binary 53 1024 (Rand.f_of_int n) = true.
Proof. apply normalize_valid. Qed.

(** [<] between two numbers of the format. *)
Lemma ltb_val x y : frep x -> frep y -> valid_binary 53 1024 x = true -> valid_binary 53 1024 y = true ->
  SFltb x y = (fval x <? fval y).
Proof.
  intros Hx Hy Vx Vy.
  assert (Hpos : forall m e, frep (S754_finite false m e) -> 0 < scaled (Z.pos m) e).
  { intros m e [_ He]. unfold scaled. assert (0 < 2 ^ (e + K)) by (apply pow2_pos; rewrite K_val; lia). lia. }
  destruct x as [sx|sx| |[] mx ex], y as [sy|sy| |[] my ey]; try done; cbn [fval].
  - symmetry. apply Z.ltb_lt. by apply Hpos.
  - symmetry. apply Z.ltb_ge. apply Z.lt_le_incl. by apply Hpos.
  - unfold SFltb. rewrite compare_val by done. unfold Z.ltb. by destruct (_ ?= _).
Qed.
