(* ===== verification/FloatText.v ===== *)
(** * Printing an [f64]  (what the metrics pages use of [core::fmt])

    [Display for f64] prints the shortest decimal that reads back as the same
    number, without an exponent; of the decimals of that length the one closest
    to it.  Also [Duration::as_secs_f64] and the decimal literals of the
    sources. *)

From S2P Require Import Prelude RustStr NodeStore.
From Stdlib Require Import Floats.SpecFloat.
Open Scope list_scope.
Open Scope Z_scope.

Notation f64 := spec_float.

(** The [f64] nearest to [d * 10^p], ties to even.  A quotient is cut at 66 bits
    with a sticky bit below, enough for the rounding to see. *)
Definition of_decimal (d p : Z) : f64 :=
  if 0 <=? p then Rand.f_of_int (d * 10 ^ p)
  else
    let den := 10 ^ (- p) in
    let s := Z.max 0 (66 + Z.log2 den - Z.log2 d) in
    let q := d * 2 ^ s / den in
    let sticky := if d * 2 ^ s mod den =? 0 then 0 else 1 in
    binary_normalize 53 1024 (2 * q + sticky) (- (s + 1)) false.

Definition f64_eqb (x y : f64) : bool :=
  match SFcompare x y with Some Eq => true | _ => false end.

(** Numerator and denominator of a positive number. *)
Definition fraction (m : positive) (e : Z) : Z * Z :=
  if 0 <=? e then (Z.pos m * 2 ^ e, 1) else (Z.pos m, 2 ^ (- e)).

(** The decimal exponent: the least [k] with [num / den < 10^k].  [fuel] counts
    decimal places; the smallest [f64] has 324. *)
Fixpoint up_exponent (fuel : nat) (num den k : Z) : Z :=
  match fuel with
  | O => k
  | S fuel => if num <? den then k else up_exponent fuel num (den * 10) (k + 1)
  end.
Fixpoint down_exponent (fuel : nat) (num den k : Z) : Z :=
  match fuel with
  | O => k
  | S fuel => if num * 10 <? den then down_exponent fuel (num * 10) den (k - 1) else k
  end.
Definition exponent (num den : Z) : Z :=
  if den <=? num then up_exponent 400 num den 0 else down_exponent 400 num den 0.

(** The [n]-digit decimal to print for [x = num / den < 10^k], if one of the two
    around [x] reads back. *)
Definition candidate (x : f64) (num den k n : Z) : option Z :=
  let '(a, b) := if k <=? n then (num * 10 ^ (n - k), den) else (num, den * 10 ^ (k - n)) in
  let lo := a / b in
  let rest := a mod b in
  let reads d := f64_eqb (of_decimal d (k - n)) x in
  match reads lo, reads (lo + 1) with
  | true, true => Some (if 2 * rest <? b then lo else lo + 1)
  | true, false => Some lo
  | false, true => Some (lo + 1)
  | false, false => None
  end.

(** Seventeen digits always read back. *)
Fixpoint shortest (fuel : nat) (x : f64) (num den k n : Z) : Z * Z :=
  match fuel with
  | O => (default 0 (candidate x num den k n), n)
  | S fuel =>
      match candidate x num den k n with
      | Some d => (d, n)
      | None => shortest fuel x num den k (n + 1)
      end
  end.

Fixpoint zeros (n : nat) : string := match n with O => "" | S n => String "0" (zeros n) end.
Fixpoint take_chars (n : nat) (s : string) : string :=
  match n, s with S n, String c s => String c (take_chars n s) | _, _ => "" end.
Fixpoint drop_chars (n : nat) (s : string) : string :=
  match n, s with S n, String _ s => drop_chars n s | _, _ => s end.

(** The digits [d] of the number [0.d * 10^k], in positional notation. *)
Definition positional (d : string) (k : Z) : string :=
  let n := Z.of_nat (String.length d) in
  if k <=? 0 then "0." +:+ zeros (Z.to_nat (- k)) +:+ d
  else if n <=? k then d +:+ zeros (Z.to_nat (k - n))
  else take_chars (Z.to_nat k) d +:+ "." +:+ drop_chars (Z.to_nat k) d.

Definition show_f64 (x : f64) : string :=
  match x with
  | S754_nan => "NaN"
  | S754_infinity s => if s then "-inf" else "inf"
  | S754_zero s => if s then "-0" else "0"
  | S754_finite s m e =>
      let '(num, den) := fraction m e in
      let k := exponent num den in
      let '(d, n) := shortest 16 (S754_finite false m e) num den k 1 in
      let digits := show_u64 d in
      (* rounding up to the next power of ten leaves one digit *)
      (if s then "-" else "") +:+
      (if n <? Z.of_nat (String.length digits) then positional "1" (k + 1) else positional digits k)
  end.

(** [std::time::Duration]: seconds, and nanoseconds below a second. *)
Record Duration := mkDuration { secs : Z; nanos : Z }.
Definition as_secs_f64 (d : Duration) : f64 :=
  Rand.f_add (Rand.f_of_int (secs d)) (Rand.f_div (Rand.f_of_int (nanos d)) (Rand.f_of_int 1000000000)).
(** [as_micros() as u64]. *)
Definition as_micros (d : Duration) : Z := wrap 64 (secs d * 1000000 + nanos d / 1000).

(** ** Order

    [<=] on the numbers the pages compare: anything below a positive bound is
    below a larger one. *)

Lemma leb_trans (x : f64) m1 e1 m2 e2 :
  SFleb (S754_finite false m1 e1) (S754_finite false m2 e2) = true ->
  SFleb x (S754_finite false m1 e1) = true -> SFleb x (S754_finite false m2 e2) = true.
Proof.
  unfold SFleb. destruct x as [s|[]| |[] m e]; cbn; try done.
  change (Pos.compare_cont Eq m1 m2) with (m1 ?= m2)%positive. change (Pos.compare_cont Eq m m1) with (m ?= m1)%positive.
  change (Pos.compare_cont Eq m m2) with (m ?= m2)%positive.
  destruct (Z.compare_spec e1 e2), (Z.compare_spec e e1), (Z.compare_spec e e2); try done; try lia.
  subst. destruct (Pos.compare_spec m1 m2), (Pos.compare_spec m m1), (Pos.compare_spec m m2); try done; lia.
Qed.

(** ** Samples, as the standard library prints them *)

Example show_bounds :
  show_f64 <$> [of_decimal 5 (-3); of_decimal 1 (-2); of_decimal 25 (-3); of_decimal 5 (-2); of_decimal 1 (-1);
                of_decimal 25 (-2); of_decimal 5 (-1); of_decimal 1 0; of_decimal 5 0]
  = ["0.005"; "0.01"; "0.025"; "0.05"; "0.1"; "0.25"; "0.5"; "1"; "5"].
Proof. vm_compute. reflexivity. Qed.
Example show_numbers :
  show_f64 <$> [Rand.f_of_int 0; Rand.f_of_int 100; Rand.f_of_int (-7); Rand.f_of_int 9007199254740993;
                Rand.f_div (Rand.f_of_int 1) (Rand.f_of_int 3); Rand.f_div (Rand.f_of_int 9220000) (Rand.f_of_int 1000000);
                of_decimal 1 21; of_decimal 1 (-7); of_decimal 123456789 (-4)]
  = ["0"; "100"; "-7"; "9007199254740992"; "0.3333333333333333"; "9.22"; "1000000000000000000000"; "0.0000001"; "12345.6789"].
Proof. vm_compute. reflexivity. Qed.
