(* ===== verification/NodeConfig.v ===== *)
(** * Configuration of the node's two processes  (svidlet/src/config.rs, log.rs)

    [Config] is the CSI plugin's, [PolicyConfig] the policy daemon's; both come
    from the environment, given as a function from names to values.  Paths are
    strings, durations whole seconds, [f64] the binary64 of [NodeStore].  An
    error carries a message only. *)

From Stdlib Require Import Floats.SpecFloat.
From S2P Require Import Prelude RustStr Errors Template NodeStore.
Open Scope list_scope.
Open Scope Z_scope.

Inductive ConfigError := CfgError.

(** ** log.rs *)

Inductive Level := LError | LWarn | LInfo | LDebug.

Definition Level_parse (s : string) : option Level :=
  let s := lower (trim s) in
  if String.eqb s "error" then Some LError
  else if String.eqb s "warn" || String.eqb s "warning" then Some LWarn
  else if String.eqb s "info" then Some LInfo
  else if String.eqb s "debug" || String.eqb s "trace" then Some LDebug
  else None.

(** ** Volume-context keys *)

Module vc.
Definition POD_NAME : string := "csi.storage.k8s.io/pod.name".
Definition POD_NAMESPACE : string := "csi.storage.k8s.io/pod.namespace".
Definition POD_UID : string := "csi.storage.k8s.io/pod.uid".
Definition SERVICE_ACCOUNT : string := "csi.storage.k8s.io/serviceAccount.name".
Definition EPHEMERAL : string := "csi.storage.k8s.io/ephemeral".
Definition SERVICE_ACCOUNT_TOKENS : string := "csi.storage.k8s.io/serviceAccount.tokens".
End vc.

(** ** Settings *)

Inductive AuthSettings :=
| AppRole (mount role_id secret_id_path : string)
| Kubernetes (mount role token_path : string)
| Token (path : string).

Definition AuthSettings_method (a : AuthSettings) : string :=
  match a with AppRole _ _ _ => "approle" | Kubernetes _ _ _ => "kubernetes" | Token _ => "token" end.

Record VaultSettings := mkVault {
  v_address : string;
  v_namespace : option string;
  v_ca_cert_path : option string;
  v_timeout : Z;
  v_pki_mount : string;
  v_pki_role : string;
  v_auth : AuthSettings;
}.

Record BrokerSettings := mkBroker {
  sign_url : string;
  token_url : string;
  broker_ca_cert_path : string;
  node_token_path : string;
  pod_token_audience : string;
  broker_timeout : Z;
  jwt_enabled : bool;
  jwt_refresh_interval : Z;
}.

Record PolicyGate := mkGate { required : bool; initial_timeout : Z }.

Record Config := mkConfig {
  driver_name : string;
  node_name : string;
  trust_domain : string;
  cluster : string;
  csi_socket : string;
  registration_socket : string;
  advertised_endpoint : string;
  kubelet_root : string;
  volumes_dir : string;
  spiffe_id_template : string;
  spiffe_id_pattern : option string;
  vault : VaultSettings;
  broker : option BrokerSettings;
  policy : PolicyGate;
  policy_gid : option Z;
  cert_ttl : Z;
  renew_fraction : Rand.f64 * Rand.f64;
  renew_check_interval : Z;
  startup_spread : Z;
  ca_refresh_interval : Z;
  readopt_interval : Z;
  tmpfs_size : string;
  key_mode : Z;
  cfg_key_gid : option Z;
  cert_mode : Z;
  metrics_addr : string;
  log_level : Level;
}.

Record BundleSettings := mkBundleSettings {
  rollout_ref : option string;
  bundle_repo : option string;
  public_key : option string;
  public_key_path : option string;
  bundle_ca_cert_path : option string;
  bundle_token_path : option string;
  bundle_timeout : Z;
  poll_interval : Z;
  poll_jitter : Z;
  directory : string;
  keep_versions : Z;
  max_bytes : Z;
  full_fetch_every : Z;
}.

Record PolicySettings := mkStream {
  s_enabled : bool;
  s_endpoint : option string;
  s_ca_cert_path : option string;
  s_token_path : option string;
  reconnect_backoff : Z;
}.

Record PolicyConfig := mkPolicyConfig {
  p_node_name : string;
  p_cluster : string;
  p_trust_domain : string;
  p_volumes_dir : string;
  p_spiffe_id_template : string;
  p_spiffe_id_pattern : option string;
  stream : PolicySettings;
  bundle : option BundleSettings;
  scan_interval : Z;
  file_mode : Z;
  p_metrics_addr : string;
  p_log_level : Level;
}.

(** ** Numbers *)

(** [s.chars().last()], as far as an ASCII character is concerned, and the rest
    before it. *)
Fixpoint unsnoc (s : string) : option (string * ascii) :=
  match s with
  | EmptyString => None
  | String c EmptyString => Some (EmptyString, c)
  | String c r => (fun '(t, d) => (String c t, d)) <$> unsnoc r
  end.

Definition parse_duration (text : string) : option Z :=
  let text := trim text in
  '(init, c) ← unsnoc text;
  '(digits, multiplier) ←
    (if Ascii.eqb c "s" then Some (init, 1)
     else if Ascii.eqb c "m" then Some (init, 60)
     else if Ascii.eqb c "h" then Some (init, 3600)
     else if Ascii.eqb c "d" then Some (init, 86400)
     else if is_ascii_digit c then Some (text, 1)
     else None);
  value ← parse_u64 (trim digits);
  checked_mul_u64 value multiplier.

(** [str::parse::<f64>]: an optional sign, then [inf], [infinity] or [nan] in
    any case, or decimal digits with an optional point and exponent; the value
    is the nearest binary64, ties to even. *)
Fixpoint span_digits (s : string) : string * string :=
  match s with
  | String c r => if is_ascii_digit c then let '(d, r) := span_digits r in (String c d, r) else (EmptyString, s)
  | EmptyString => (EmptyString, EmptyString)
  end.
Definition int_of (s : string) : Z := default 0 (digits_val 10 is_ascii_digit 0 s).
Definition take_sign (s : string) : bool * string :=
  match s with
  | String c r => if Ascii.eqb c "-" then (true, r) else if Ascii.eqb c "+" then (false, r) else (false, s)
  | EmptyString => (false, s)
  end.
Definition parse_exponent (s : string) : option Z :=
  match s with
  | EmptyString => Some 0
  | String c r =>
      if Ascii.eqb c "e" || Ascii.eqb c "E" then
        let '(neg, r) := take_sign r in
        let '(ds, rest) := span_digits r in
        if is_empty ds || negb (is_empty rest) then None else Some (if neg then - int_of ds else int_of ds)
      else None
  end.
Definition decimal (neg : bool) (m e : Z) : Rand.f64 :=
  if m =? 0 then S754_zero neg
  else if 0 <=? e then binary_normalize 53 1024 (if neg then - (m * 10 ^ e) else m * 10 ^ e) 0 neg
  else Rand.f_div (S754_finite neg (Z.to_pos m) 0) (S754_finite false (Z.to_pos (10 ^ (- e))) 0).
Definition parse_f64 (s : string) : option Rand.f64 :=
  let '(neg, s) := take_sign s in
  let l := lower s in
  if String.eqb l "inf" || String.eqb l "infinity" then Some (S754_infinity neg)
  else if String.eqb l "nan" then Some S754_nan
  else
    let '(ip, r) := span_digits s in
    let '(fp, r) := match r with
                    | String c r' => if Ascii.eqb c "." then span_digits r' else (EmptyString, r)
                    | EmptyString => (EmptyString, r)
                    end in
    if is_empty ip && is_empty fp then None
    else e ← parse_exponent r;
         Some (decimal neg (int_of (ip +:+ fp)) (e - Z.of_nat (String.length fp))).

(** ** [Env] *)

Section env.
Context (get : string -> option string).

Definition env_opt (key : string) : option string :=
  v ← get key;
  if is_empty (trim v) then None else Some (trim v).

Definition env_or (key default : string) : string := from_option id default (env_opt key).

Definition env_req (key : string) : result ConfigError string := ok_or CfgError (env_opt key).

(** Each typed reader: the default when unset, an error when unreadable. *)
Definition env_read {A : Type} (parse : string -> option A) (key : string) (default : A)
    : result ConfigError A :=
  match env_opt key with
  | None => Ok default
  | Some v => ok_or CfgError (parse v)
  end.

Definition env_duration : string -> Z -> result ConfigError Z := env_read parse_duration.

Definition parse_bool (v : string) : option bool :=
  let v := lower v in
  if existsb (String.eqb v) ["true"; "yes"; "1"; "on"] then Some true
  else if existsb (String.eqb v) ["false"; "no"; "0"; "off"] then Some false
  else None.
Definition env_bool : string -> bool -> result ConfigError bool := env_read parse_bool.

(** [usize] is 64 bits wide. *)
Definition env_count : string -> Z -> result ConfigError Z := env_read parse_u64.
Definition env_float : string -> Rand.f64 -> result ConfigError Rand.f64 := env_read parse_f64.

(** [trim_start_matches("0o")]: every leading occurrence. *)
Fixpoint trim_start_0o (s : string) : string :=
  match s with
  | String a (String b r) => if Ascii.eqb a "0" && Ascii.eqb b "o" then trim_start_0o r else s
  | _ => s
  end.
Definition parse_mode (v : string) : option Z :=
  m ← parse_uint u32_max 8 (trim_start_0o v);
  if m <=? 511 then Some m else None.
Definition env_mode : string -> Z -> result ConfigError Z := env_read parse_mode.

(** [SVIDLET_POLICY_GID] and [SVIDLET_KEY_GID]. *)
Definition env_gid (key : string) : result ConfigError (option Z) :=
  match env_opt key with
  | None => Ok None
  | Some v => g ← ok_or CfgError (parse_u32 v); Ok (Some g)
  end.

Definition env_level (key : string) : result ConfigError Level := env_read Level_parse key LInfo.

(** ** The sections *)

Definition bundle_settings : result ConfigError (option BundleSettings) :=
  match env_opt "SVIDLET_BUNDLE_ROLLOUT_REF" with
  | None => Ok None
  | Some ref =>
      let public_key := env_opt "SVIDLET_BUNDLE_PUBLIC_KEY" in
      let public_key_path := env_opt "SVIDLET_BUNDLE_PUBLIC_KEY_FILE" in
      _ ← guard_err (bool_decide (public_key = None) && bool_decide (public_key_path = None)) CfgError;
      timeout ← env_duration "SVIDLET_BUNDLE_TIMEOUT" 30;
      poll_interval ← env_duration "SVIDLET_BUNDLE_POLL_INTERVAL" 60;
      poll_jitter ← env_duration "SVIDLET_BUNDLE_POLL_JITTER" 30;
      keep_versions ← env_count "SVIDLET_BUNDLE_KEEP_VERSIONS" 2;
      max_bytes ← env_count "SVIDLET_BUNDLE_MAX_BYTES" (1024 * 1024);
      full_fetch_every ← env_count "SVIDLET_BUNDLE_FULL_FETCH_EVERY" 60;
      Ok (Some (mkBundleSettings (Some ref) (env_opt "SVIDLET_BUNDLE_REPO") public_key public_key_path
        (env_opt "SVIDLET_BUNDLE_CACERT") (env_opt "SVIDLET_BUNDLE_TOKEN_FILE")
        timeout poll_interval poll_jitter (env_or "SVIDLET_BUNDLE_DIR" "/var/lib/svidlet/policy")
        keep_versions max_bytes full_fetch_every))
  end.

Definition broker_settings : result ConfigError BrokerSettings :=
  let base := "https://svidlet-broker.svidlet-system.svc" in
  timeout ← env_duration "SVIDLET_BROKER_TIMEOUT" 10;
  jwt_enabled ← env_bool "SVIDLET_JWT_ENABLED" true;
  jwt_refresh_interval ← env_duration "SVIDLET_JWT_REFRESH_INTERVAL" 900;
  Ok (mkBroker (env_or "SVIDLET_BROKER_URL" (base +:+ ":8443")) (env_or "SVIDLET_BROKER_TOKEN_URL" (base +:+ ":8444"))
        (env_or "SVIDLET_BROKER_CACERT" "/etc/svidlet/broker/ca.crt")
        (env_or "SVIDLET_BROKER_TOKEN_FILE" "/var/run/secrets/svidlet/broker/token")
        (env_or "SVIDLET_BROKER_AUDIENCE" "svidlet-broker") timeout jwt_enabled jwt_refresh_interval).

Definition VaultSettings_unused : VaultSettings := mkVault "" None None 10 "" "" (Token "").

(** [KubernetesAuth::DEFAULT_TOKEN_PATH]. *)
Definition DEFAULT_TOKEN_PATH : string := "/var/run/secrets/kubernetes.io/serviceaccount/token".

Definition vault_auth : result ConfigError AuthSettings :=
  let m := env_or "SVIDLET_VAULT_AUTH" "approle" in
  if String.eqb m "approle" then
    role_id ← env_req "SVIDLET_ROLE_ID";
    Ok (AppRole (env_or "SVIDLET_APPROLE_MOUNT" "approle") role_id
          (env_or "SVIDLET_SECRET_ID_FILE" "/etc/svidlet/vault/secret-id"))
  else if String.eqb m "kubernetes" then
    role ← env_req "SVIDLET_VAULT_K8S_ROLE";
    Ok (Kubernetes (env_or "SVIDLET_VAULT_K8S_MOUNT" "kubernetes") role
          (env_or "SVIDLET_VAULT_K8S_TOKEN_FILE" DEFAULT_TOKEN_PATH))
  else if String.eqb m "token" then
    Ok (Token (env_or "SVIDLET_VAULT_TOKEN_FILE" "/etc/svidlet/vault/token"))
  else Err CfgError.

Definition vault_settings (cluster : string) : result ConfigError VaultSettings :=
  auth ← vault_auth;
  address ← env_req "VAULT_ADDR";
  timeout ← env_duration "SVIDLET_VAULT_TIMEOUT" 10;
  Ok (mkVault address (env_opt "VAULT_NAMESPACE") (env_opt "VAULT_CACERT") timeout
        (env_or "SVIDLET_PKI_MOUNT" "pki") (env_or "SVIDLET_PKI_ROLE" ("spiffe-" +:+ cluster)) auth).
End env.

(** ** The two configurations *)

Definition half : Rand.f64 := decimal false 5 (-1).
Definition seven_tenths : Rand.f64 := decimal false 7 (-1).
Definition f_one : Rand.f64 := Rand.f_of_int 1.

Section config.
Context {R : RegexLite}.

Definition Config_id_policy (c : Config) : result ConfigError IdPolicy :=
  map_err (fun _ => CfgError) (IdPolicy_new (spiffe_id_template c) (spiffe_id_pattern c)).

Definition fractions_ok (lo hi : Rand.f64) : bool :=
  SFltb (S754_zero false) lo && SFleb lo hi && SFltb hi f_one.

Definition Config_from_source (get : string -> option string) : result ConfigError Config :=
  let driver_name := env_or get "SVIDLET_DRIVER_NAME" "csi.svidlet.io" in
  cluster ← env_req get "SVIDLET_CLUSTER";
  let csi_socket := env_or get "SVIDLET_CSI_SOCKET"
    ("/var/lib/kubelet/plugins/" +:+ driver_name +:+ "/csi.sock") in
  let registration_socket := env_or get "SVIDLET_REGISTRATION_SOCKET"
    ("/var/lib/kubelet/plugins_registry/" +:+ driver_name +:+ "-reg.sock") in
  let advertised_endpoint := env_or get "SVIDLET_ADVERTISED_ENDPOINT" csi_socket in
  renew_min ← env_float get "SVIDLET_RENEW_MIN_FRACTION" half;
  renew_max ← env_float get "SVIDLET_RENEW_MAX_FRACTION" seven_tenths;
  _ ← guard_err (negb (fractions_ok renew_min renew_max)) CfgError;
  let template := env_or get "SVIDLET_SPIFFE_ID_TEMPLATE" DEFAULT_TEMPLATE in
  let pattern := env_opt get "SVIDLET_SPIFFE_ID_PATTERN" in
  let issuer := env_or get "SVIDLET_ISSUER" "vault" in
  _ ← guard_err (negb (String.eqb issuer "vault") && negb (String.eqb issuer "broker")) CfgError;
  node_name ← env_req get "NODE_NAME";
  trust_domain ← env_req get "SVIDLET_TRUST_DOMAIN";
  vault ← (if String.eqb issuer "vault" then vault_settings get cluster else Ok VaultSettings_unused);
  broker ← (if String.eqb issuer "broker" then Some <$> broker_settings get else Ok None);
  policy_gid ← env_gid get "SVIDLET_POLICY_GID";
  required ← env_bool get "SVIDLET_POLICY_REQUIRED" false;
  initial_timeout ← env_duration get "SVIDLET_POLICY_INITIAL_TIMEOUT" 10;
  cert_ttl ← env_duration get "SVIDLET_CERT_TTL" 86400;
  renew_check_interval ← env_duration get "SVIDLET_RENEW_CHECK_INTERVAL" 30;
  startup_spread ← env_duration get "SVIDLET_STARTUP_SPREAD" 300;
  ca_refresh_interval ← env_duration get "SVIDLET_CA_REFRESH_INTERVAL" 3600;
  readopt_interval ← env_duration get "SVIDLET_READOPT_INTERVAL" 60;
  key_mode ← env_mode get "SVIDLET_KEY_MODE" 416;
  key_gid ← env_gid get "SVIDLET_KEY_GID";
  cert_mode ← env_mode get "SVIDLET_CERT_MODE" 420;
  log_level ← env_level get "SVIDLET_LOG_LEVEL";
  let cfg := {|
    driver_name := driver_name; node_name := node_name; trust_domain := trust_domain; cluster := cluster;
    csi_socket := csi_socket; registration_socket := registration_socket;
    advertised_endpoint := advertised_endpoint;
    kubelet_root := env_or get "SVIDLET_KUBELET_ROOT" "/var/lib/kubelet";
    volumes_dir := env_or get "SVIDLET_VOLUMES_DIR" "/var/lib/svidlet/volumes";
    spiffe_id_template := template; spiffe_id_pattern := pattern;
    vault := vault; broker := broker; policy := mkGate required initial_timeout; policy_gid := policy_gid;
    cert_ttl := cert_ttl; renew_fraction := (renew_min, renew_max);
    renew_check_interval := renew_check_interval; startup_spread := startup_spread;
    ca_refresh_interval := ca_refresh_interval; readopt_interval := readopt_interval;
    tmpfs_size := env_or get "SVIDLET_TMPFS_SIZE" "1m";
    key_mode := key_mode; cfg_key_gid := key_gid; cert_mode := cert_mode;
    metrics_addr := env_or get "SVIDLET_METRICS_ADDR" "0.0.0.0:9464"; log_level := log_level |} in
  _ ← guard_err (bool_decide (is_Some policy_gid) && bool_decide (policy_gid = key_gid)) CfgError;
  _ ← guard_err (required && bool_decide (policy_gid = None)) CfgError;
  _ ← Config_id_policy cfg;
  Ok cfg.

Definition PolicyConfig_id_policy (c : PolicyConfig) : result ConfigError IdPolicy :=
  map_err (fun _ => CfgError) (IdPolicy_new (p_spiffe_id_template c) (p_spiffe_id_pattern c)).

Definition PolicyConfig_from_source (get : string -> option string) : result ConfigError PolicyConfig :=
  node_name ← env_req get "NODE_NAME";
  cluster ← env_req get "SVIDLET_CLUSTER";
  trust_domain ← env_req get "SVIDLET_TRUST_DOMAIN";
  enabled ← env_bool get "SVIDLET_POLICY_ENABLED" true;
  backoff ← env_duration get "SVIDLET_POLICY_RECONNECT_BACKOFF" 1;
  bundle ← bundle_settings get;
  scan_interval ← env_duration get "SVIDLET_POLICY_SCAN_INTERVAL" 5;
  file_mode ← env_mode get "SVIDLET_POLICY_FILE_MODE" 420;
  log_level ← env_level get "SVIDLET_LOG_LEVEL";
  let endpoint := env_opt get "SVIDLET_POLICY_ENDPOINT" in
  let cfg := {|
    p_node_name := node_name; p_cluster := cluster; p_trust_domain := trust_domain;
    p_volumes_dir := env_or get "SVIDLET_VOLUMES_DIR" "/var/lib/svidlet/volumes";
    p_spiffe_id_template := env_or get "SVIDLET_SPIFFE_ID_TEMPLATE" DEFAULT_TEMPLATE;
    p_spiffe_id_pattern := env_opt get "SVIDLET_SPIFFE_ID_PATTERN";
    stream := mkStream enabled endpoint (env_opt get "SVIDLET_POLICY_CACERT")
                (env_opt get "SVIDLET_POLICY_TOKEN_FILE") backoff;
    bundle := bundle; scan_interval := scan_interval; file_mode := file_mode;
    p_metrics_addr := env_or get "SVIDLET_POLICY_METRICS_ADDR" "0.0.0.0:9465"; p_log_level := log_level |} in
  _ ← guard_err (enabled && bool_decide (is_Some endpoint) && bool_decide (is_Some bundle)) CfgError;
  _ ← PolicyConfig_id_policy cfg;
  Ok cfg.
End config.

Definition enabled (c : PolicyConfig) : bool :=
  s_enabled (stream c) && (bool_decide (is_Some (s_endpoint (stream c))) || bool_decide (is_Some (bundle c))).
Definition stream_enabled (c : PolicyConfig) : bool :=
  s_enabled (stream c) && bool_decide (is_Some (s_endpoint (stream c))).
Definition bundle_enabled (c : PolicyConfig) : bool := s_enabled (stream c) && bool_decide (is_Some (bundle c)).

(** ** What a loaded configuration guarantees *)

Section readers.
Context (get : string -> option string).

Lemma node_env_opt_nonempty k v : env_opt get k = Some v -> v <> "".
Proof.
  unfold env_opt. destruct (get k) as [w|]; cbn; [|done].
  destruct (is_empty (trim w)) eqn:He; [done|]. intros [= <-]. by apply is_empty_false.
Qed.

Lemma env_or_nonempty k d : d <> "" -> env_or get k d <> "".
Proof. unfold env_or. destruct (env_opt get k) eqn:E; [|done]. intros _. by eapply node_env_opt_nonempty. Qed.

Lemma env_req_nonempty k v : env_req get k = Ok v -> v <> "".
Proof. intros H%ok_or_Ok. by eapply node_env_opt_nonempty. Qed.

Lemma env_read_range {A : Type} (parse : string -> option A) (P : A -> Prop) k d a :
  P d -> (forall v x, parse v = Some x -> P x) -> env_read get parse k d = Ok a -> P a.
Proof.
  unfold env_read. intros Hd Hp H. destruct (env_opt get k); simplify_eq; [|done].
  apply ok_or_Ok in H. eauto.
Qed.

Lemma parse_duration_in v n : parse_duration v = Some n -> in_u64 n.
Proof.
  unfold parse_duration. intros ([i c] & _ & H)%bind_Some. apply bind_Some in H as ([d m] & Hm & H).
  apply bind_Some in H as (x & Hx & (-> & ?)%checked_mul_u64_Some).
  apply parse_uint_range in Hx; [|done]. assert (0 <= m) by (repeat case_match; simplify_eq; lia).
  unfold in_u64 in *. nia.
Qed.

Lemma env_duration_in k d n : in_u64 d -> env_duration get k d = Ok n -> in_u64 n.
Proof. intros Hd. apply env_read_range; [done|apply parse_duration_in]. Qed.

Definition in_mode (m : Z) : Prop := 0 <= m <= 511.
Lemma parse_mode_in v m : parse_mode v = Some m -> in_mode m.
Proof.
  unfold parse_mode. intros (x & Hx & H)%bind_Some. apply parse_uint_range in Hx; [|done].
  destruct (Z.leb_spec x 511); simplify_eq. unfold in_mode. lia.
Qed.
Lemma env_mode_in k d m : in_mode d -> env_mode get k d = Ok m -> in_mode m.
Proof. intros Hd. apply env_read_range; [done|apply parse_mode_in]. Qed.
End readers.

Record config_wf (c : Config) : Prop := {
  cw_names : node_name c <> "" /\ trust_domain c <> "" /\ cluster c <> "" /\ driver_name c <> "";
  (** The policy daemon's group never owns [tls.key]. *)
  cw_groups : is_Some (policy_gid c) -> policy_gid c <> cfg_key_gid c;
  (** Policy is only required when the daemon can write it. *)
  cw_required : required (policy c) = true -> is_Some (policy_gid c);
  (** A node behind a broker holds no Vault credential. *)
  cw_issuer : is_Some (broker c) -> vault c = VaultSettings_unused;
  cw_fractions : fractions_ok (renew_fraction c).1 (renew_fraction c).2 = true;
  cw_modes : in_mode (key_mode c) /\ in_mode (cert_mode c);
  cw_times : in_u64 (cert_ttl c) /\ in_u64 (startup_spread c) /\ in_u64 (initial_timeout (policy c)) /\
             in_u64 (renew_check_interval c) /\ in_u64 (readopt_interval c);
}.

(** Takes apart a chain of [?]s. *)
Ltac run_binds H :=
  repeat match type of H with
         | mbind _ _ = Ok _ => let a := fresh "v" in let E := fresh "E" in apply bind_Ok in H as (a & E & H)
         end.

Ltac conjs t := match goal with |- _ /\ _ => split; conjs t | |- _ => t end.

Lemma IdPolicy_new_wf {R : RegexLite} t pat p :
  IdPolicy_new t pat = Ok p -> template_wf (template p) /\ raw (template p) = t.
Proof.
  unfold IdPolicy_new. intros (t' & H%compile_wf & E)%bind_Ok. destruct pat; [|by injection E as <-].
  apply bind_Ok in E as (re & _ & [= <-]). exact H.
Qed.

(** C39: A configuration that loads has an identity policy that compiles, names for
    node, cluster and trust domain, renewal fractions [0 < min <= max < 1], and
    file modes and times in range; the policy daemon's group is not the key's
    group, policy is required only when the daemon has a group to write with,
    and with a broker configured no Vault settings are read at all. *)
Theorem node_config_wf {R : RegexLite} (get : string -> option string) (c : Config) :
  Config_from_source get = Ok c ->
  config_wf c /\ exists p, Config_id_policy c = Ok p /\ template_wf (template p).
Proof.
  unfold Config_from_source. intros H. run_binds H. injection H as <-.
  apply guard_err_Ok in E2, E3, E20, E21. apply negb_false_iff in E2.
  split; [|eexists; split; [exact E22|]].
  - split; cbn [node_name trust_domain cluster driver_name policy_gid cfg_key_gid required policy broker vault
        renew_fraction key_mode cert_mode cert_ttl startup_spread initial_timeout renew_check_interval
        readopt_interval fst snd].
    + conjs ltac:(eauto using env_req_nonempty, env_or_nonempty).
    + intros Hs Heq. by rewrite !bool_decide_eq_true_2 in E20.
    + intros ->. cbn in E21. apply bool_decide_eq_false in E21. by apply not_eq_None_Some.
    + intros [b ->]. destruct (String.eqb_spec (env_or get "SVIDLET_ISSUER" "vault") "vault") as [Ev|]; [|by simplify_eq].
      by rewrite Ev in E7.
    + exact E2.
    + conjs ltac:(eapply env_mode_in; [|eassumption]; unfold in_mode; lia).
    + conjs ltac:(eapply env_duration_in; [|eassumption]; unfold in_u64, u64_max; lia).
  - apply map_err_Ok, IdPolicy_new_wf in E22. apply E22.
Qed.

Definition sample_env (k : string) : option string :=
  if String.eqb k "SVIDLET_CLUSTER" then Some "a"
  else if String.eqb k "NODE_NAME" then Some "node-1"
  else if String.eqb k "SVIDLET_TRUST_DOMAIN" then Some "example.org"
  else if String.eqb k "SVIDLET_ISSUER" then Some "broker"
  else if String.eqb k "SVIDLET_POLICY_GID" then Some "2000"
  else if String.eqb k "SVIDLET_POLICY_REQUIRED" then Some "yes"
  else if String.eqb k "SVIDLET_RENEW_MIN_FRACTION" then Some "0.6"
  else if String.eqb k "SVIDLET_BUNDLE_ROLLOUT_REF" then Some "reg/policy:rollout"
  else if String.eqb k "SVIDLET_BUNDLE_PUBLIC_KEY" then Some "KEY"
  else None.

#[local] Existing Instance MiniRegex.engine.

Definition sample_config : Config :=
  match Config_from_source sample_env with
  | Ok c => c
  | Err _ => {| driver_name := ""; node_name := ""; trust_domain := ""; cluster := ""; csi_socket := "";
                registration_socket := ""; advertised_endpoint := ""; kubelet_root := ""; volumes_dir := "";
                spiffe_id_template := ""; spiffe_id_pattern := None; vault := VaultSettings_unused;
                broker := None; policy := mkGate false 0; policy_gid := None; cert_ttl := 0;
                renew_fraction := (half, half); renew_check_interval := 0; startup_spread := 0;
                ca_refresh_interval := 0; readopt_interval := 0; tmpfs_size := ""; key_mode := 0;
                cfg_key_gid := None; cert_mode := 0; metrics_addr := ""; log_level := LInfo |}
  end.

Lemma node_config_wf_witness :
  broker sample_config <> None /\ config_wf sample_config.
Proof.
  assert (E : Config_from_source sample_env = Ok sample_config) by (vm_compute; reflexivity).
  split; [vm_compute; discriminate|]. exact (proj1 (node_config_wf sample_env sample_config E)).
Defined.

(** The policy daemon never runs both sources: a weaker, transport-trusted
    stream cannot override signed bundles.  Bundles are never pulled without a
    key to verify them with. *)
Theorem policy_config_exclusive {R : RegexLite} (get : string -> option string) (c : PolicyConfig) :
  PolicyConfig_from_source get = Ok c ->
  ~ (stream_enabled c = true /\ bundle_enabled c = true) /\
  (forall b, bundle c = Some b -> is_Some (public_key b) \/ is_Some (public_key_path b)) /\
  (exists p, PolicyConfig_id_policy c = Ok p /\ template_wf (template p)).
Proof.
  unfold PolicyConfig_from_source. intros H. run_binds H. injection H as <-.
  apply guard_err_Ok in E8. split; [|split].
  - unfold stream_enabled, bundle_enabled. cbn. intros [Hs Hb].
    apply andb_true_iff in Hs as [-> Hs], Hb as [_ Hb]. by rewrite Hs, Hb in E8.
  - cbn. intros b ->. unfold bundle_settings in E4. destruct (env_opt get "SVIDLET_BUNDLE_ROLLOUT_REF"); [|done].
    run_binds E4. injection E4 as <-. cbn. apply guard_err_Ok, andb_false_iff in E10.
    rewrite !bool_decide_eq_false in E10. by rewrite !not_eq_None_Some in E10.
  - eexists. split; [exact E9|]. by apply map_err_Ok, IdPolicy_new_wf in E9 as [? _].
Qed.

Definition sample_policy_config : PolicyConfig :=
  match PolicyConfig_from_source sample_env with
  | Ok c => c
  | Err _ => mkPolicyConfig "" "" "" "" "" None (mkStream false None None None 0) None 0 0 "" LInfo
  end.

Lemma policy_config_exclusive_witness :
  bundle_enabled sample_policy_config = true /\
  ~ (stream_enabled sample_policy_config = true /\ bundle_enabled sample_policy_config = true).
Proof.
  assert (E : PolicyConfig_from_source sample_env = Ok sample_policy_config) by (vm_compute; reflexivity).
  split; [vm_compute; reflexivity|]. exact (proj1 (policy_config_exclusive sample_env sample_policy_config E)).
Defined.
