(* ===== verification/Jitter.v ===== *)
(** * Random points in time
    (svidlet/src/store.rs, renew.rs, policy/oci/mod.rs, config.rs)

    The renewal point is a product of [f64]s: a random fraction, between the two
    the configuration names, of the certificate's lifetime.  The pauses of the
    poll loop and of the token loop are [f64]s too.  What the rounding of each
    operation can do is in [Rounding]; together they keep each point in its
    window. *)

From Stdlib Require Import Floats.SpecFloat.
From S2P Require Import Prelude RustStr Template NodeStore Rounding FloatText NodeConfig.
Open Scope list_scope.
Open Scope Z_scope.

(** The whole seconds in the fraction [x] of [L] seconds. *)
Definition portion (L : Z) (x : Rand.f64) : Z :=
  match x with
  | S754_finite false m e => whole_part (L * Z.pos m) e
  | _ => 0
  end.

Lemma portion_val L x : frep x -> portion L x = L * fval x / unit_.
Proof.
  destruct x as [s|s| |[] m e]; try done; cbn [portion fval]; intros Hx.
  - by rewrite Z.mul_0_r, Z.div_0_l by (pose proof unit_pos; lia).
  - rewrite whole_part_val by (by eapply finite_low). unfold scaled. by rewrite Z.mul_assoc.
Qed.

(** What the configuration's check of the two fractions comes to. *)
Lemma fractions_val lo hi :
  valid_binary 53 1024 lo = true -> valid_binary 53 1024 hi = true -> fractions_ok lo hi = true ->
  frep lo /\ frep hi /\ 0 < fval lo /\ fval lo <= fval hi /\ fval hi < unit_.
Proof.
  intros Vl Vh [[H0 Hle]%andb_true_iff H1]%andb_true_iff.
  change f_one with (S754_finite false 4503599627370496 (-52)) in H1.
  destruct lo as [sl|sl| |[] ml el]; try done; destruct hi as [sh|sh| |[] mh eh]; try done; try (by destruct sh); try (by destruct sl); try (by destruct sl, sh).
  unfold SFleb in Hle. unfold SFltb in H1. rewrite compare_val in Hle by done. rewrite compare_val in H1 by done.
  pose proof (valid_frep _ _ Vl) as Rl. pose proof (valid_frep _ _ Vh) as Rh. cbn [fval].
  assert (E1 : scaled (Z.pos 4503599627370496) (-52) = unit_).
  { change (Z.pos 4503599627370496) with (1 * 2 ^ 52). rewrite scaled_shift by (rewrite ?K_val; lia). unfold scaled, unit_.
    change (-52 + 52 + K) with (0 + K). rewrite Z.add_0_l. lia. }
  rewrite E1 in H1. do 2 (split; [done|]). split; [|split].
  - unfold scaled. pose proof (pow2_pos (el + K) ltac:(pose proof (finite_low _ _ Rl); lia)). lia.
  - destruct (Z.compare_spec (scaled (Z.pos ml) el) (scaled (Z.pos mh) eh)); [lia|lia|done].
  - destruct (Z.compare_spec (scaled (Z.pos mh) eh) unit_); [done|lia|done].
Qed.

(** The fraction that is drawn. *)
Lemma point_bounds lo hi u :
  frep lo -> frep hi -> frep u -> fval lo <= fval hi -> fval hi < unit_ -> fval u <= unit_ ->
  let point := Rand.f_add lo (Rand.f_mul (Rand.f_sub hi lo) u) in
  frep point /\ fval lo <= fval point /\ 2 ^ 52 * (fval point - fval hi) <= unit_.
Proof.
  intros Rl Rh Ru Hle Hh Hu. pose proof unit_pos as U. pose proof (fval_nonneg _ Rl) as Pl. pose proof (fval_nonneg _ Ru) as Pu.
  pose proof (sub_rounds hi lo Rh Rl Hle ltac:(lia)) as [Rd Dle _ Dn]. set (d := Rand.f_sub hi lo) in *.
  specialize (Dn ltac:(lia)). pose proof (fval_nonneg _ Rd) as Pd.
  destruct (mul_rounds d u Rd Ru) as (P & EP & [Rp Ple _ _]); [nia|]. set (p := Rand.f_mul d u) in *.
  assert (HP : P <= fval d) by nia. pose proof (Ple _ (frep_rep _ Rd) HP) as Hp. pose proof (fval_nonneg _ Rp) as Pp.
  destruct (add_rounds lo p Rl Rp ltac:(lia)) as [Rq _ Qge Qn]. cbn zeta. split; [done|].
  split; [apply Qge; [by apply frep_rep|lia]|]. specialize (Qn ltac:(lia)). lia.
Qed.

(** The longest lifetime for which the arithmetic is precise to a second. *)
Definition MAX_LIFETIME : Z := 2 ^ 49.

Lemma renewal_offset L lo hi u :
  1 <= L <= MAX_LIFETIME -> frep lo -> frep hi -> frep u -> fval lo <= fval hi -> fval hi < unit_ -> fval u <= unit_ ->
  portion L lo <= Rand.f_to_i64 (Rand.f_mul (Rand.f_of_int L) (Rand.f_add lo (Rand.f_mul (Rand.f_sub hi lo) u)))
    <= portion L hi + 1 /\ portion L hi < L /\ 0 <= portion L lo.
Proof.
  unfold MAX_LIFETIME. intros HL Rl Rh Ru Hle Hh Hu. pose proof unit_pos as U. pose proof (fval_nonneg _ Rl) as Pl. pose proof (fval_nonneg _ Rh) as Ph.
  destruct (point_bounds lo hi u Rl Rh Ru Hle Hh Hu) as (Rq & Qlo & Qhi). set (q := Rand.f_add _ _) in *.
  destruct (f_of_int_spec L ltac:(lia)) as [RL EL]. pose proof (fval_nonneg _ Rq) as Pq.
  rewrite !portion_val by assumption. set (A := L * fval lo / unit_). set (B := L * fval hi / unit_).
  pose proof (Z.mul_div_le (L * fval lo) unit_ U) as HA. pose proof (Z.mul_succ_div_gt (L * fval hi) unit_ U) as HB.
  fold A in HA. fold B in HB.
  assert (HBL : B < L) by (apply Z.div_lt_upper_bound; nia). assert (HA0 : 0 <= A) by (apply Z.div_pos; nia).
  assert (HB0 : 0 <= B) by (apply Z.div_pos; nia). assert (HAB : A <= B) by (apply Z.div_le_mono; nia).
  destruct (mul_rounds (Rand.f_of_int L) q RL Rq) as (Y & EY & [Rz Zle Zge _]).
  { rewrite EL. pose proof (Z.mul_pos_pos _ _ U U) as UU. apply Z.le_lt_trans with (2 ^ 49 * unit_ * (2 * unit_)); [|lia].
    apply Z.mul_le_mono_nonneg; [apply Z.mul_nonneg_nonneg; lia|apply Z.mul_le_mono_nonneg_r; lia|lia|lia]. }
  set (z := Rand.f_mul _ q) in *. assert (EY' : Y = L * fval q).
  { apply (Z.mul_cancel_r _ _ unit_); [lia|]. rewrite EY, EL. ring. }
  assert (Hlow : A * unit_ <= fval z).
  { rewrite <- scaled_int. apply Zge; [apply rep_scaled; lia|]. rewrite scaled_int, EY'. assert (L * fval lo <= L * fval q) by (apply Z.mul_le_mono_nonneg_l; lia). lia. }
  assert (E8 : scaled 1 (-3) * 8 = unit_).
  { unfold scaled, unit_. change 8 with (2 ^ 3). rewrite Z.mul_1_l, <- pow2_split by (rewrite ?K_val; lia). f_equal; lia. }
  assert (Hup : fval z <= scaled (8 * B + 9) (-3)).
  { apply Zle; [apply rep_scaled; lia|]. replace (scaled (8 * B + 9) (-3)) with ((8 * B + 9) * scaled 1 (-3)) by (unfold scaled; ring).
    rewrite EY'. set (S8 := scaled 1 (-3)) in *.
    assert (Hd : L * (2 ^ 52 * (fval q - fval hi)) <= L * unit_) by (apply Z.mul_le_mono_nonneg_l; lia).
    assert (HLu : L * unit_ <= 2 ^ 49 * unit_) by (apply Z.mul_le_mono_nonneg_r; lia). lia. }
  replace (scaled (8 * B + 9) (-3)) with ((8 * B + 9) * scaled 1 (-3)) in Hup by (unfold scaled; ring).
  assert (Hup' : 8 * fval z <= (8 * B + 9) * unit_) by nia.
  rewrite f_to_i64_spec; [|exact Rz|nia]. split; [|split; assumption].
  split; [apply Z.div_le_lower_bound; lia|]. apply Z.lt_succ_r, Z.div_lt_upper_bound; [lia|]. nia.
Qed.

Lemma jittered_in_window nb na lo hi st :
  0 <= nb < na -> na < 2 ^ 62 -> na - nb <= MAX_LIFETIME ->
  valid_binary 53 1024 lo = true -> valid_binary 53 1024 hi = true -> fractions_ok lo hi = true ->
  let at_ := (jittered_renew_at nb na (lo, hi) st).1 in
  nb + portion (na - nb) lo <= at_ <= nb + portion (na - nb) hi + 1 /\ nb <= at_ <= na.
Proof.
  intros Hn Hna HL Vl Vh Hf. destruct (fractions_val lo hi Vl Vh Hf) as (Rl & Rh & _ & Hle & Hh).
  unfold jittered_renew_at. destruct (unit_spec st) as [Ru Hu]. destruct (Rand.unit st) as [u st']. cbn [fst] in *.
  rewrite (wrap_i64_id (na - nb)) by (unfold in_i64, i64_min, i64_max; lia). rewrite Z.max_l by lia.
  destruct (renewal_offset (na - nb) lo hi u ltac:(lia) Rl Rh Ru Hle Hh Hu) as ([H1 H2] & H3 & H4).
  set (o := Rand.f_to_i64 _) in *. clearbody o.
  rewrite wrap_i64_id by (unfold in_i64, i64_min, i64_max; lia). lia.
Qed.

(** ** The fractions of a configuration *)

Lemma decimal_valid neg m e : valid_binary 53 1024 (decimal neg m e) = true.
Proof. unfold decimal. destruct (m =? 0); [done|]. destruct (0 <=? e); [apply normalize_valid|apply div_valid]. Qed.
Lemma parse_f64_valid s x : parse_f64 s = Some x -> valid_binary 53 1024 x = true.
Proof.
  unfold parse_f64. destruct (take_sign s) as [neg s1]. destruct (_ || _); [by intros [= <-]|].
  destruct (String.eqb _ _); [by intros [= <-]|]. destruct (span_digits s1) as [ip r].
  destruct (match r with String c r' => _ | EmptyString => _ end) as [fp r2]. destruct (_ && _); [done|].
  intros (e & _ & [= <-])%bind_Some. apply decimal_valid.
Qed.
Lemma env_float_valid get k d x :
  valid_binary 53 1024 d = true -> env_float get k d = Ok x -> valid_binary 53 1024 x = true.
Proof.
  intros Hd. unfold env_float, env_read. destruct (env_opt get k) as [v|]; [intros H%ok_or_Ok; by eapply parse_f64_valid|by intros [= <-]].
Qed.

Lemma config_fractions {R : RegexLite} get cfg :
  Config_from_source get = Ok cfg ->
  valid_binary 53 1024 (renew_fraction cfg).1 = true /\ valid_binary 53 1024 (renew_fraction cfg).2 = true /\
  fractions_ok (renew_fraction cfg).1 (renew_fraction cfg).2 = true.
Proof.
  unfold Config_from_source. intros H. apply bind_Ok in H as (cl & _ & H).
  apply bind_Ok in H as (lo & Hlo & H). apply bind_Ok in H as (hi & Hhi & H).
  apply bind_Ok in H as ([] & Hf%guard_err_Ok%negb_false_iff & H).
  apply env_float_valid in Hlo; [|apply decimal_valid]. apply env_float_valid in Hhi; [|apply decimal_valid].
  run_binds H. by injection H as <-.
Qed.

(** C13: Every certificate is scheduled for renewal in time.  Under any configuration that starts,
    and whatever the generator draws, the renewal of a certificate valid from
    [nb] to [na] - up to 2^49 seconds - is scheduled no earlier than the whole
    seconds in the configured minimum fraction of its lifetime, at most a second
    past those in the maximum, and in any case while it is valid, through every
    rounding of the [f64] arithmetic. *)
Theorem renewal_in_window {R : RegexLite} (get : string -> option string) (cfg : Config) (nb na st : Z) :
  Config_from_source get = Ok cfg -> 0 <= nb < na -> na < 2 ^ 62 -> na - nb <= MAX_LIFETIME ->
  let at_ := (jittered_renew_at nb na (renew_fraction cfg) st).1 in
  nb + portion (na - nb) (renew_fraction cfg).1 <= at_ <= nb + portion (na - nb) (renew_fraction cfg).2 + 1 /\
  nb <= at_ <= na.
Proof.
  intros (Vl & Vh & Hf)%config_fractions Hn Hna HL. revert Vl Vh Hf. destruct (renew_fraction cfg) as [lo hi]. intros Vl Vh Hf.
  by apply jittered_in_window.
Qed.

(** ** Pauses *)

(** The integer nearest to [num / den], ties to even. *)
Definition round_half_even (num den : Z) : Z :=
  let q := num / den in
  match 2 * (num mod den) ?= den with
  | Lt => q
  | Eq => if Z.even q then q else q + 1
  | Gt => q + 1
  end.

(** [Duration::from_secs_f64], to the nearest nanosecond; [None] is its panic. *)
Definition from_secs_f64 (x : Rand.f64) : option Duration :=
  match x with
  | S754_zero _ => Some (mkDuration 0 0)
  | S754_finite false m e =>
      let n := if 0 <=? e then Z.pos m * 2 ^ e * 10 ^ 9 else round_half_even (Z.pos m * 10 ^ 9) (2 ^ (- e)) in
      if n <? 2 ^ 64 * 10 ^ 9 then Some (mkDuration (n / 10 ^ 9) (n mod 10 ^ 9)) else None
  | _ => None
  end.

(** [f64::min] and [f64::max]: the other one, if one is not a number. *)
Definition f_min (x y : Rand.f64) : Rand.f64 :=
  match x, y with
  | S754_nan, _ => y
  | _, S754_nan => x
  | _, _ => if SFltb y x then y else x
  end.
Definition f_max (x y : Rand.f64) : Rand.f64 :=
  match x, y with
  | S754_nan, _ => y
  | _, S754_nan => x
  | _, _ => if SFltb x y then y else x
  end.

Definition f_two : Rand.f64 := Rand.f_of_int 2.

(** The pause between two polls: [interval ± jitter], at least a second. *)
Definition jittered (interval jitter : Duration) (STATE : Z) : option Duration * Z :=
  let base := as_secs_f64 interval in
  let spread := f_min (as_secs_f64 jitter) base in
  let '(u, STATE) := Rand.unit STATE in
  let offset := Rand.f_mul (Rand.f_sub (Rand.f_mul u f_two) f_one) spread in
  (from_secs_f64 (f_max (Rand.f_add base offset) f_one), STATE).

(** The interval of the token loop, which does not run without one. *)
Definition token_interval (cfg : Config) (has_broker : bool) : option Z :=
  b ← broker cfg;
  if jwt_enabled b && has_broker then Some (jwt_refresh_interval b) else None.

Definition tenth : Rand.f64 := decimal false 1 (-1).
Definition mul_f64 (d : Duration) (x : Rand.f64) : option Duration := from_secs_f64 (Rand.f_mul x (as_secs_f64 d)).
(** [Duration + Duration]: [None] is the overflow's panic. *)
Definition duration_add (a b : Duration) : option Duration :=
  let n := nanos a + nanos b in
  let s := secs a + secs b + n / 10 ^ 9 in
  if s <=? u64_max then Some (mkDuration s (n mod 10 ^ 9)) else None.
(** The pause between two check-ins: up to a tenth longer than the interval. *)
Definition token_pause (interval : Z) (STATE : Z) : option Duration * Z :=
  let '(u, STATE) := Rand.unit STATE in
  (jitter ← mul_f64 (mkDuration interval 0) (Rand.f_mul tenth u);
   duration_add (mkDuration interval 0) jitter, STATE).

Definition total_nanos (d : Duration) : Z := secs d * 10 ^ 9 + nanos d.

Lemma round_half_even_bounds num den a b :
  0 < den -> a * den <= num -> num <= b * den -> a <= round_half_even num den <= b.
Proof.
  intros Hd Ha Hb. unfold round_half_even. pose proof (Z.div_mod num den ltac:(lia)) as E. pose proof (Z.mod_pos_bound num den Hd) as Hm.
  assert (Hq : a <= num / den <= b).
  { split; [apply Z.div_le_lower_bound; lia|apply Z.div_le_upper_bound; lia]. }
  assert (Hr : 0 < num mod den -> num / den + 1 <= b) by (intros; nia).
  destruct (Z.compare_spec (2 * (num mod den)) den); [destruct (Z.even _)|..]; lia.
Qed.

(** A number between two counts of nanoseconds is a pause between them. *)
Lemma from_secs_bounds x a b :
  frep x -> 0 <= a -> b < 2 ^ 64 * 10 ^ 9 -> a * unit_ <= fval x * 10 ^ 9 <= b * unit_ ->
  exists d, from_secs_f64 x = Some d /\ a <= total_nanos d <= b /\ 0 <= nanos d < 10 ^ 9.
Proof.
  intros Hx Ha Hb Hv. pose proof unit_pos as U. destruct x as [s|s| |[] m e]; try done.
  - exists (mkDuration 0 0). split; [done|]. cbn [fval] in Hv. unfold total_nanos. cbn [secs nanos]. split; [nia|lia].
  - cbn [from_secs_f64 fval] in *. set (n := if 0 <=? e then _ else _). pose proof (finite_low _ _ Hx) as Lx.
    assert (Hn : a <= n <= b).
    { unfold n, scaled, unit_ in *. destruct (Z.leb_spec 0 e) as [He|He].
      - rewrite pow2_split in Hv by (rewrite ?K_val; lia). set (E := 2 ^ e) in *. set (u := 2 ^ K) in *. clearbody E u.
        replace (Z.pos m * (E * u) * 10 ^ 9) with (Z.pos m * E * 10 ^ 9 * u) in Hv by ring. nia.
      - assert (EK : 2 ^ K = 2 ^ (- e) * 2 ^ (e + K)) by (rewrite <- pow2_split by lia; f_equal; lia). rewrite EK in Hv.
        pose proof (pow2_pos (- e) ltac:(lia)) as Pe. pose proof (pow2_pos (e + K) ltac:(lia)) as Pk.
        apply round_half_even_bounds; [done|..]; set (E := 2 ^ (- e)) in *; set (u := 2 ^ (e + K)) in *; clearbody E u; nia. }
    clearbody n. destruct (Z.ltb_spec n (2 ^ 64 * 10 ^ 9)); [|lia]. eexists. split; [done|]. unfold total_nanos. cbn [secs nanos].
    pose proof (Z.div_mod n (10 ^ 9) ltac:(lia)). pose proof (Z.mod_pos_bound n (10 ^ 9) ltac:(lia)). lia.
Qed.

Lemma as_secs_whole n : 0 <= n <= 2 ^ 53 -> as_secs_f64 (mkDuration n 0) = Rand.f_of_int n.
Proof.
  intros Hn. unfold as_secs_f64. cbn [secs nanos]. change (Rand.f_div _ _) with (S754_zero false).
  destruct (decide (n = 0)) as [->|Hn0]; [done|]. destruct (f_of_int_spec n Hn) as [Hr Ev]. pose proof unit_pos as U.
  destruct (finite_of_pos _ Hr) as (m & e & ->); [rewrite Ev; nia|done].
Qed.

(** [2u - 1], up to its sign. *)
Lemma centred u :
  frep u -> fval u <= unit_ ->
  exists a, frep a /\ fval a <= unit_ /\
    (Rand.f_sub (Rand.f_mul u f_two) f_one = a \/ Rand.f_sub (Rand.f_mul u f_two) f_one = SFopp a).
Proof.
  intros Ru Hu. pose proof unit_pos as U. pose proof (fval_nonneg _ Ru) as Pu.
  destruct (f_of_int_spec 2 ltac:(lia)) as [R2 E2]. destruct (f_of_int_spec 1 ltac:(lia)) as [R1 E1].
  destruct (mul_rounds u f_two Ru R2) as (P & EP & [Rr Hle _ _]); [unfold f_two; rewrite E2; nia|]. unfold f_two in EP. rewrite E2 in EP.
  assert (HP : P = fval u * 2) by nia. set (r := Rand.f_mul u f_two) in *.
  assert (Hr : fval r <= 2 * unit_).
  { rewrite <- scaled_int. apply Hle; [apply rep_scaled; lia|rewrite scaled_int; lia]. }
  assert (Hone : rep unit_) by (rewrite <- (Z.mul_1_l unit_), <- scaled_int; apply rep_scaled; lia).
  pose proof (fval_nonneg _ Rr) as Pr. unfold f_one. destruct (Z.le_gt_cases unit_ (fval r)) as [Hge|Hlt].
  - destruct (sub_rounds r (Rand.f_of_int 1) Rr R1 ltac:(lia) ltac:(lia)) as [Rs Hs _ _]. eexists. split; [exact Rs|].
    split; [apply Hs; [done|lia]|by left].
  - rewrite sub_opp by (try done; lia). destruct (sub_rounds (Rand.f_of_int 1) r R1 Rr ltac:(lia) ltac:(lia)) as [Rs Hs _ _].
    eexists. split; [exact Rs|]. split; [apply Hs; [done|lia]|by right].
Qed.

(** Base and offset together, for a spread of [S] seconds. *)
Lemma offset_bounds I S a :
  1 <= I <= 2 ^ 52 -> 0 <= S <= I -> frep a -> fval a <= unit_ ->
  let p := Rand.f_mul a (Rand.f_of_int S) in
  frep p /\
  forall w, w = Rand.f_add (Rand.f_of_int I) p \/ w = Rand.f_sub (Rand.f_of_int I) p ->
  frep w /\ valid_binary 53 1024 w = true /\ (I - S) * unit_ <= fval w <= (I + S) * unit_.
Proof.
  intros HI HS Ra Ha p. pose proof unit_pos as U. pose proof (fval_nonneg _ Ra) as Pa.
  destruct (f_of_int_spec I ltac:(lia)) as [RI EI]. destruct (f_of_int_spec S ltac:(lia)) as [RS ES].
  destruct (mul_rounds a (Rand.f_of_int S) Ra RS) as (P & EP & [Rp Hle _ _]).
  { rewrite ES. apply Z.le_lt_trans with (unit_ * (2 ^ 52 * unit_)); [|nia].
    apply Z.mul_le_mono_nonneg; [lia|lia|nia|apply Z.mul_le_mono_nonneg_r; lia]. }
  assert (HP : P <= S * unit_) by (rewrite ES in EP; nia).
  fold p in Rp, Hle. assert (Hp : fval p <= S * unit_).
  { rewrite <- scaled_int. apply Hle; [apply rep_scaled; lia|by rewrite scaled_int]. }
  assert (Hint : forall n, 0 <= n <= 2 ^ 53 -> rep (n * unit_)).
  { intros n Hn. rewrite <- scaled_int. apply rep_scaled; lia. }
  pose proof (fval_nonneg _ Rp) as Pp. pose proof (f_of_int_valid I) as VI. split; [done|]. intros w Hw.
  assert (HIS : S * unit_ <= I * unit_) by (apply Z.mul_le_mono_nonneg_r; lia).
  assert (HIu : I * unit_ <= 2 ^ 52 * unit_) by (apply Z.mul_le_mono_nonneg_r; lia).
  destruct (finite_of_pos _ RI) as (m & e & Em); [rewrite EI; nia|]. rewrite Em in RI, EI, VI, Hw.
  destruct Hw as [->| ->].
  - destruct (add_rounds _ p RI Rp ltac:(lia)) as [Rw Wle Wge _]. split; [done|]. split; [by apply add_valid|].
    split; [etrans; [|apply (Wge (I * unit_)); [apply Hint; lia|lia]]; nia|apply Wle; [apply Hint; lia|lia]].
  - destruct (sub_rounds _ p RI Rp ltac:(lia) ltac:(lia)) as [Rw Wle Wge _]. split; [done|]. split; [by apply sub_valid|].
    split; [apply Wge; [apply Hint; lia|lia]|etrans; [apply (Wle (I * unit_)); [apply Hint; lia|lia]|]; nia].
Qed.

Lemma f_min_int a b : 0 <= a <= 2 ^ 53 -> 0 <= b <= 2 ^ 53 -> f_min (Rand.f_of_int a) (Rand.f_of_int b) = Rand.f_of_int (Z.min a b).
Proof.
  intros Ha Hb. destruct (f_of_int_spec a Ha) as [Ra Ea]. destruct (f_of_int_spec b Hb) as [Rb Eb]. pose proof unit_pos as U.
  assert (E : f_min (Rand.f_of_int a) (Rand.f_of_int b) =
    if SFltb (Rand.f_of_int b) (Rand.f_of_int a) then Rand.f_of_int b else Rand.f_of_int a).
  { unfold f_min. by destruct (Rand.f_of_int a) as [| | |], (Rand.f_of_int b) as [| | |]. }
  rewrite E, ltb_val by (try done; apply f_of_int_valid). rewrite Ea, Eb.
  destruct (Z.ltb_spec (b * unit_) (a * unit_)); f_equal; nia.
Qed.

Lemma f_max_one w : frep w -> valid_binary 53 1024 w = true -> frep (f_max w f_one) /\ fval (f_max w f_one) = Z.max (fval w) unit_.
Proof.
  intros Rw Vw. destruct (f_of_int_spec 1 ltac:(lia)) as [R1 E1].
  assert (E : f_max w f_one = if SFltb w f_one then f_one else w).
  { unfold f_max. change f_one with (S754_finite false 4503599627370496 (-52)). by destruct w as [| | |]. }
  rewrite E, ltb_val by (try done; apply f_of_int_valid). unfold f_one. rewrite E1, Z.mul_1_l.
  destruct (Z.ltb_spec (fval w) unit_); (split; [done|]); lia.
Qed.

(** The pause between two polls stays in its window: for an interval of [I]
    and a jitter of [J] whole seconds, whatever the generator draws, it is
    within [I ± min J I], to the nanosecond, never under a second, and computing
    it does not panic. *)
Theorem poll_pause_bounds (I J st : Z) :
  1 <= I <= 2 ^ 52 -> 0 <= J <= 2 ^ 53 ->
  exists d, (jittered (mkDuration I 0) (mkDuration J 0) st).1 = Some d /\
    Z.max 1 (I - Z.min J I) * 10 ^ 9 <= total_nanos d <= (I + Z.min J I) * 10 ^ 9.
Proof.
  intros HI HJ. unfold jittered. rewrite !as_secs_whole, f_min_int by lia. set (S := Z.min J I).
  destruct (unit_spec st) as [Ru Hu]. destruct (Rand.unit st) as [u st']. cbn [fst] in *.
  destruct (centred u Ru Hu) as (a & Ra & Ha & Hsgn). destruct (offset_bounds I S a ltac:(lia) ltac:(lia) Ra Ha) as [Rp Hoff].
  set (w := Rand.f_add (Rand.f_of_int I) _).
  assert (Hw : frep w /\ valid_binary 53 1024 w = true /\ (I - S) * unit_ <= fval w <= (I + S) * unit_).
  { apply Hoff. unfold w. destruct (f_of_int_spec S ltac:(lia)) as [RS _]. destruct Hsgn as [->| ->]; [by left|right].
    rewrite mul_opp by done. destruct (f_of_int_spec I ltac:(lia)) as [RI EI]. pose proof unit_pos as U.
    destruct (finite_of_pos _ RI) as (m & e & ->); [rewrite EI; nia|]. by apply add_opp. }
  destruct Hw as (Rw & Vw & Hw). clearbody w. destruct (f_max_one w Rw Vw) as [Rm Em]. pose proof unit_pos as U.
  destruct (from_secs_bounds (f_max w f_one) (Z.max 1 (I - S) * 10 ^ 9) ((I + S) * 10 ^ 9)) as (d & Ed & Hd & _); [done|lia|lia| |by exists d].
  rewrite Em. destruct (Z.max_spec 1 (I - S)) as [[_ ->]|[_ ->]]; nia.
Qed.

(** An interval of zero is a pause of a second. *)
Lemma poll_pause_some (I J st : Z) :
  0 <= I <= 2 ^ 52 -> 0 <= J <= 2 ^ 53 -> is_Some (jittered (mkDuration I 0) (mkDuration J 0) st).1.
Proof.
  intros HI HJ. destruct (decide (1 <= I)) as [H1|H1].
  { destruct (poll_pause_bounds I J st ltac:(lia) HJ) as (d & -> & _). by eexists. }
  assert (I = 0) as -> by lia. unfold jittered. rewrite !as_secs_whole, f_min_int, Z.min_r by lia.
  destruct (unit_spec st) as [Ru Hu]. destruct (Rand.unit st) as [u st']. cbn [fst] in *.
  destruct (centred u Ru Hu) as (a & Ra & _ & Hsgn). change (Rand.f_of_int 0) with (S754_zero false).
  destruct Hsgn as [->| ->]; destruct a as [[]|s| |[] m e]; try done; vm_compute; by eexists.
Qed.

Lemma token_pause_some (I st : Z) :
  0 <= I <= 2 ^ 52 ->
  exists d, (token_pause I st).1 = Some d /\ I * 10 ^ 9 <= total_nanos d <= I * 10 ^ 9 + I * 125000000.
Proof.
  intros HI. unfold token_pause, mul_f64. rewrite as_secs_whole by lia. destruct (unit_spec st) as [Ru Hu].
  destruct (Rand.unit st) as [u st']. cbn [fst] in *. pose proof unit_pos as U. pose proof (fval_nonneg _ Ru) as Pu.
  assert (Ht : frep tenth /\ 8 * fval tenth <= unit_).
  { assert (Vt : valid_binary 53 1024 tenth = true) by apply decimal_valid.
    change tenth with (S754_finite false 7205759403792794 (-56)) in *. split; [by apply valid_frep|]. cbn [fval]. unfold scaled, unit_.
    assert (EK : 2 ^ K = 2 ^ 56 * 2 ^ (-56 + K)) by (rewrite <- pow2_split by (rewrite ?K_val; lia); f_equal; lia).
    pose proof (pow2_pos (-56 + K) ltac:(rewrite K_val; lia)). rewrite EK. lia. }
  destruct Ht as [Rt Ht]. pose proof (fval_nonneg _ Rt) as Pt.
  assert (E8 : scaled 1 (-3) * 8 = unit_).
  { unfold scaled, unit_. change 8 with (2 ^ 3). rewrite Z.mul_1_l, <- pow2_split by (rewrite ?K_val; lia). f_equal; lia. }
  destruct (mul_rounds tenth u Rt Ru) as (P & EP & [Rp Hle _ _]); [nia|]. set (p := Rand.f_mul tenth u) in *.
  assert (Hp : fval p <= scaled 1 (-3)) by (apply Hle; [apply rep_scaled; lia|nia]). pose proof (fval_nonneg _ Rp) as Pp.
  destruct (f_of_int_spec I ltac:(lia)) as [RI EI].
  destruct (mul_rounds p (Rand.f_of_int I) Rp RI) as (Q & EQ & [Rq Hq _ _]).
  { rewrite EI. apply Z.le_lt_trans with (unit_ * (2 ^ 52 * unit_)); [|nia].
    apply Z.mul_le_mono_nonneg; [lia|lia|nia|apply Z.mul_le_mono_nonneg_r; lia]. }
  set (q := Rand.f_mul p _) in *. pose proof (fval_nonneg _ Rq) as Pq.
  assert (Hv : 8 * fval q <= I * unit_).
  { assert (EQ' : Q = I * fval p) by (rewrite EI in EQ; nia).
    assert (fval q <= scaled I (-3)) as Hs.
    { apply Hq; [apply rep_scaled; lia|]. rewrite EQ'. replace (scaled I (-3)) with (I * scaled 1 (-3)) by (unfold scaled; ring). nia. }
    replace (scaled I (-3)) with (I * scaled 1 (-3)) in Hs by (unfold scaled; ring). nia. }
  destruct (from_secs_bounds q 0 (I * 125000000) Rq ltac:(lia) ltac:(lia)) as (d & -> & Hd & Hn); [nia|].
  cbn [mbind option_bind]. unfold duration_add, total_nanos in *. cbn [secs nanos]. rewrite Z.add_0_l.
  rewrite Z.div_small, Z.add_0_r, Z.mod_small by lia. destruct (Z.leb_spec (I + secs d) u64_max); [|unfold u64_max in *; lia].
  eexists. split; [done|]. cbn [secs nanos]. lia.
Qed.

(** The pause between two token check-ins is the interval and up to an eighth
    of it more (the code's tenth, with room for its rounding), and computing it
    does not panic. *)
Theorem token_pause_bounds (I st : Z) :
  0 <= I <= 2 ^ 52 ->
  exists d, (token_pause I st).1 = Some d /\ I * 10 ^ 9 <= total_nanos d <= I * 10 ^ 9 + I * 125000000.
Proof. apply token_pause_some. Qed.

(** The largest interval the configuration accepts is one the pause cannot be
    computed for: rounded to an [f64] it is 2^64 seconds, one more than a
    [Duration] holds, and [from_secs_f64] panics. *)
Example huge_interval_panics :
  parse_duration "18446744073709551615s" = Some (2 ^ 64 - 1) /\
  (jittered (mkDuration (2 ^ 64 - 1) 0) (mkDuration 0 0) 1).1 = None.
Proof. vm_compute. done. Qed.

(** So it is with the pause of the token loop. *)
Example token_pause_overflows : (token_pause (2 ^ 64 - 1) 1).1 = None.
Proof. vm_compute. done. Qed.

(** The defaults, a minute and half a minute, on one draw. *)
Example default_pause :
  exists d, (jittered (mkDuration 60 0) (mkDuration 30 0) 1).1 = Some d /\ 30 <= secs d < 90.
Proof. eexists. split; [vm_compute; reflexivity|cbn; lia]. Qed.

(** ** Witness: a day's certificate *)

Module JitterWitness.
#[local] Existing Instance MiniRegex.engine.

Example day_portions : portion 86400 (renew_fraction sample_config).1 = 51839 /\ portion 86400 (renew_fraction sample_config).2 = 60479.
Proof. vm_compute. done. Qed.

Lemma renewal_in_window_witness :
  let at_ := (jittered_renew_at 1000 87400 (renew_fraction sample_config) 12345).1 in 52839 <= at_ <= 61480 /\ 1000 <= at_ <= 87400.
Proof.
  assert (E : Config_from_source sample_env = Ok sample_config) by (vm_compute; reflexivity).
  pose proof day_portions as [Hlo Hhi].
  destruct (renewal_in_window sample_env sample_config 1000 87400 12345 E ltac:(lia) ltac:(lia) ltac:(unfold MAX_LIFETIME; lia)) as [H1 H2].
  cbn zeta. change (87400 - 1000) with 86400 in H1. rewrite Hlo, Hhi in H1. split; [|exact H2].
  generalize dependent ((jittered_renew_at 1000 87400 (renew_fraction sample_config) 12345).1). intros. lia.
Defined.
End JitterWitness.
