(* ===== verification/Policy.v ===== *)
(** * Policy bundles and the policy manager
    (svidlet/src/policy/mod.rs, svidlet/src/policy/grpc.rs)

    [PolicyBundle::build] is the gate every bundle from the gRPC stream passes;
    [PolicyManager] holds what this node wants and what it has.  Each method is
    given as the state change it makes when it runs alone: the two mutexes and
    the two [Notify]s are fields of one record.  The subscription task of the
    gRPC client is a step relation, because its correctness is about what
    happens between its reads and its wait. *)

From S2P Require Import Prelude RustStr Template Fs Volume NodeStore NodeConfig.
Open Scope list_scope.
Open Scope Z_scope.

#[export] Instance PolicyDocument_eq_dec : EqDecision PolicyDocument.
Proof. solve_decision. Defined.
#[export] Instance PolicyBundle_eq_dec : EqDecision PolicyBundle.
Proof. solve_decision. Defined.

(** ** PolicyBundle *)

Inductive NameError := EmptyName | NotAFileName | HasSeparator | StartsWithDot | Twice.

Definition check_document_name (name : string) : result NameError unit :=
  _ ← guard_err (is_empty name) EmptyName;
  _ ← guard_err (String.eqb name "." || String.eqb name "..") NotAFileName;
  _ ← guard_err (has_char "/" name || has_char "\" name || has_char "000" name) HasSeparator;
  guard_err (starts_with "." name) StartsWithDot.

(** [BTreeMap<String, Vec<u8>>]: an association list kept sorted by key. *)
Definition by_name : Type := list (string * string).

(** [insert]: whether the key was there, and the map. *)
Fixpoint bt_insert (k v : string) (m : by_name) : bool * by_name :=
  match m with
  | [] => (false, [(k, v)])
  | (k', v') :: m' =>
      match String.compare k k' with
      | Eq => (true, (k, v) :: m')
      | Lt => (false, (k, v) :: m)
      | Gt => let '(old, m') := bt_insert k v m' in (old, (k', v') :: m')
      end
  end.

Fixpoint collect (docs : list PolicyDocument) (m : by_name) : result NameError by_name :=
  match docs with
  | [] => Ok m
  | doc :: docs =>
      _ ← check_document_name (doc_name doc);
      let '(old, m) := bt_insert (doc_name doc) (doc_content doc) m in
      _ ← guard_err old Twice;
      collect docs m
  end.

Definition build (rev : string) (docs : list PolicyDocument) : result NameError PolicyBundle :=
  m ← collect docs [];
  Ok (mkBundle rev ((fun kv => mkDocument kv.1 kv.2) <$> m)).

Definition bundle_is_empty (b : PolicyBundle) : bool :=
  match documents b with [] => true | _ => false end.
Definition total_bytes (b : PolicyBundle) : Z :=
  foldr Z.add 0 ((fun d => Z.of_nat (String.length (doc_content d))) <$> documents b).

(** ** PolicyManager *)

Module PolicyManager.

Record PolicyMetrics := mkPolicyMetrics {
  updates_received : Z;
  rejected_updates : Z;
  connected : bool;
}.

Record Manager := mkManager {
  settings : PolicyConfig;
  wanted : gset string;
  bundles : gmap string PolicyBundle;
  fleet : option PolicyBundle;
  dirty : gset string;
  wanted_notifies : nat;    (* calls of wanted_changed.notify_waiters() *)
  bundle_notifies : nat;
  metrics : PolicyMetrics;
}.

Definition new (c : PolicyConfig) : Manager :=
  mkManager c ∅ ∅ None ∅ 0 0 (mkPolicyMetrics 0 0 false).

Definition with_state (w : gset string) (b : gmap string PolicyBundle) (f : option PolicyBundle)
    (m : Manager) : Manager :=
  mkManager (settings m) w b f (dirty m) (wanted_notifies m) (bundle_notifies m) (metrics m).
Definition with_dirty (d : gset string) (m : Manager) : Manager :=
  mkManager (settings m) (wanted m) (bundles m) (fleet m) d (wanted_notifies m) (bundle_notifies m) (metrics m).
Definition notify_wanted (m : Manager) : Manager :=
  mkManager (settings m) (wanted m) (bundles m) (fleet m) (dirty m) (S (wanted_notifies m)) (bundle_notifies m)
    (metrics m).
Definition notify_bundle (m : Manager) : Manager :=
  mkManager (settings m) (wanted m) (bundles m) (fleet m) (dirty m) (wanted_notifies m) (S (bundle_notifies m))
    (metrics m).
Definition with_metrics (k : PolicyMetrics) (m : Manager) : Manager :=
  mkManager (settings m) (wanted m) (bundles m) (fleet m) (dirty m) (wanted_notifies m) (bundle_notifies m) k.
Definition count_update (m : Manager) : Manager :=
  with_metrics (mkPolicyMetrics (wrap 64 (updates_received (metrics m) + 1))
                  (rejected_updates (metrics m)) (connected (metrics m))) m.

Definition subscribe (id : string) (m : Manager) : Manager :=
  if enabled (settings m) then
    if bool_decide (id ∈ wanted m) then m
    else notify_wanted (with_state ({[id]} ∪ wanted m) (bundles m) (fleet m) m)
  else m.

Definition unsubscribe (id : string) (m : Manager) : Manager :=
  if enabled (settings m) then
    let removed := bool_decide (id ∈ wanted m) in
    let m := with_state (wanted m ∖ {[id]}) (delete id (bundles m)) (fleet m) m in
    let m := with_dirty (dirty m ∖ {[id]}) m in
    if removed then notify_wanted m else m
  else m.

(** A [BTreeSet]'s elements, in its order. *)
Definition in_order (s : gset string) : list string := merge_sort String.le (elements s).

Definition wanted_list (m : Manager) : list (string * string) :=
  (fun id => (id, from_option revision "" (bundles m !! id))) <$> in_order (wanted m).

Definition bundle (id : string) (m : Manager) : option PolicyBundle :=
  match bundles m !! id with Some b => Some b | None => fleet m end.

(** Recording a bundle takes three steps, and the locks are released in between:
    the state, the dirty set, and the waiters. *)
Inductive writer :=
| StoreFleet (b : PolicyBundle)
| StoreBundle (id : string) (b : PolicyBundle)
| MarkDirty (affected : gset string)
| Announce.

Definition writer_step (t : writer) (m : Manager) : Manager * option writer :=
  match t with
  | StoreFleet b =>
      let m := count_update m in
      if bool_decide (fleet m = Some b) then (m, None)
      else
        let m := with_state (wanted m) (bundles m) (Some b) m in
        (m, Some (MarkDirty (filter (fun id => bundles m !! id = None) (wanted m))))
  | StoreBundle id b =>
      let m := count_update m in
      if negb (bool_decide (id ∈ wanted m)) then (m, None)
      else if bool_decide (bundles m !! id = Some b) then (m, None)
      else (with_state (wanted m) (<[id := b]> (bundles m)) (fleet m) m, Some (MarkDirty {[id]}))
  | MarkDirty affected => (with_dirty (affected ∪ dirty m) m, Some Announce)
  | Announce => (notify_bundle m, None)
  end.

(** What is left to do once the state has changed. *)
Definition finish (t : writer) (m : Manager) : Manager :=
  let '(m, t) := writer_step t m in
  match t with Some t => (writer_step t m).1 | None => m end.

Definition apply_fleet (b : PolicyBundle) (m : Manager) : bool * Manager :=
  match writer_step (StoreFleet b) m with
  | (m, None) => (false, m)
  | (m, Some t) => (true, finish t m)
  end.

Definition apply (id : string) (b : PolicyBundle) (m : Manager) : bool * Manager :=
  match writer_step (StoreBundle id b) m with
  | (m, None) => (false, m)
  | (m, Some t) => (true, finish t m)
  end.

Definition reject (m : Manager) : Manager :=
  with_metrics (mkPolicyMetrics (updates_received (metrics m))
                  (wrap 64 (rejected_updates (metrics m) + 1)) (connected (metrics m))) m.

Definition take_dirty (m : Manager) : list string * Manager := (in_order (dirty m), with_dirty ∅ m).

Definition set_connected (c : bool) (m : Manager) : Manager :=
  with_metrics (mkPolicyMetrics (updates_received (metrics m)) (rejected_updates (metrics m)) c) m.

End PolicyManager.
Import PolicyManager.

(** ** grpc.rs: one update from the stream *)

Record PolicyUpdate := mkUpdate {
  u_spiffe_id : string;
  u_revision : string;
  u_documents : list PolicyDocument;
  u_empty : bool;
}.

Definition grpc_apply (u : PolicyUpdate) (m : Manager) : Manager :=
  if is_empty (u_spiffe_id u) then reject m
  else match build (u_revision u) (u_documents u) with
       | Ok b => if bundle_is_empty b && negb (u_empty u) then reject m
                 else (apply (u_spiffe_id u) b m).2
       | Err _ => reject m
       end.

(** ** grpc.rs: keeping the backend's subscriptions in step *)

Inductive Message :=
| Subscribe (id known_revision : string)
| Unsubscribe (id : string).

(** The sending half of the channel: how many more sends succeed before the
    stream closes, if it does. *)
Definition tx : Type := option nat.
Definition send (t : tx) : bool * tx :=
  match t with
  | None => (true, None)
  | Some O => (false, Some O)
  | Some (S n) => (true, Some n)
  end.

Definition contains (id : string) (ids : list string) : bool := existsb (String.eqb id) ids.

(** The first loop: [None] when the stream closed and the task returned. *)
Fixpoint send_new (wanted : list (string * string)) (sent : list string) (t : tx)
    : option (list string) * list Message * tx :=
  match wanted with
  | [] => (Some sent, [], t)
  | (id, rev) :: wanted =>
      if contains id sent then send_new wanted sent t
      else match send t with
           | (false, t) => (None, [], t)
           | (true, t) =>
               let '(r, ms, t) := send_new wanted (sent ++ [id]) t in (r, Subscribe id rev :: ms, t)
           end
  end.

(** [sent.retain(..)]: what stays, and the messages that reached the stream. *)
Fixpoint retain (ids sent : list string) (t : tx) : list string * list Message * tx :=
  match sent with
  | [] => ([], [], t)
  | id :: sent =>
      if contains id ids then
        let '(kept, ms, t) := retain ids sent t in (id :: kept, ms, t)
      else
        let '(ok, t) := send t in
        let '(kept, ms, t) := retain ids sent t in
        (kept, (if ok then [Unsubscribe id] else []) ++ ms, t)
  end.

(** One pass of the loop, up to [changed.await]. *)
Definition sync_round (m : Manager) (sent : list string) (t : tx) : option (list string) * list Message * tx :=
  match send_new (wanted_list m) sent t with
  | (None, ms, t) => (None, ms, t)
  | (Some sent, ms, t) =>
      let '(kept, ms', t) := retain (wanted_list m).*1 sent t in (Some kept, ms ++ ms', t)
  end.

(** ** What a built bundle is *)

(** A single, ordinary path segment outside the volume writer's own names. *)
Definition safe_name (name : string) : bool :=
  negb (is_empty name) && negb (starts_with "." name) &&
  negb (has_char "/" name) && negb (has_char "\" name) && negb (has_char "000" name).

Lemma check_document_name_Ok name u : check_document_name name = Ok u <-> safe_name name = true.
Proof.
  unfold check_document_name, safe_name. rewrite bind_Ok. setoid_rewrite bind_Ok.
  setoid_rewrite bind_Ok. setoid_rewrite guard_err_Ok.
  destruct (String.eqb_spec name ".") as [->|]; [cbn; naive_solver|].
  destruct (String.eqb_spec name "..") as [->|]; [cbn; naive_solver|].
  destruct (is_empty name), (has_char "/" name), (has_char "\" name), (has_char "000" name),
    (starts_with "." name); cbn; naive_solver.
Qed.

Definition names_sorted (m : by_name) : Prop := StronglySorted String.le m.*1.

Lemma compare_refl k : String.compare k k = Eq.
Proof.
  pose proof (String.compare_antisym k k) as H. destruct (String.compare k k); done.
Qed.

Lemma compare_le k k' : String.compare k k' <> Gt -> String.le k k'.
Proof. intros H. unfold String.le, String.leb. by destruct (String.compare k k'). Qed.

Lemma bt_insert_spec k v m :
  names_sorted m ->
  ((bt_insert k v m).1 = true <-> k ∈ m.*1) /\
  (k ∉ m.*1 -> (bt_insert k v m).2 ≡ₚ (k, v) :: m /\ names_sorted (bt_insert k v m).2).
Proof.
  unfold names_sorted. induction m as [|[k' v'] m IH]; intros Hs; cbn in *.
  { split; [rewrite elem_of_nil; naive_solver|]. intros _. split; [done|]. repeat constructor. }
  inversion Hs as [|? ? Hs' Hk']; subst. specialize (IH Hs') as [IH1 IH2].
  destruct (String.compare k k') eqn:E; cbn.
  - apply String.compare_eq_iff in E as ->. rewrite elem_of_cons. naive_solver.
  - assert (Hle : String.le k k') by (apply compare_le; congruence).
    assert (Hn : k ∉ k' :: m.*1).
    { rewrite elem_of_cons. intros [->|Hin]; [by rewrite compare_refl in E|].
      rewrite Forall_forall in Hk'. specialize (Hk' _ Hin).
      rewrite (anti_symm String.le k k') in E by done. by rewrite compare_refl in E. }
    split; [naive_solver|]. intros _. split; [done|]. constructor; [done|].
    constructor; [done|]. eapply Forall_impl; [exact Hk'|]. intros x Hx. by transitivity k'.
  - assert (Hle : String.le k' k).
    { apply compare_le. rewrite String.compare_antisym, E. done. }
    destruct (bt_insert k v m) as [old m'] eqn:Em. cbn in *.
    assert (k <> k') by (intros ->; by rewrite compare_refl in E).
    rewrite elem_of_cons. split; [naive_solver|]. intros Hn.
    destruct IH2 as [Hp Hm']; [naive_solver|]. split; [rewrite Hp; by constructor|].
    constructor; [done|]. rewrite Hp. cbn. by constructor.
Qed.

Definition pairs (docs : list PolicyDocument) : by_name := (fun d => (doc_name d, doc_content d)) <$> docs.

Lemma pairs_names docs : (pairs docs).*1 = doc_name <$> docs.
Proof. unfold pairs. by rewrite <- list_fmap_compose. Qed.

Lemma collect_Ok docs m m' :
  names_sorted m -> collect docs m = Ok m' ->
  names_sorted m' /\ m' ≡ₚ pairs docs ++ m /\ Forall (fun d => safe_name (doc_name d) = true) docs /\
  NoDup (doc_name <$> docs) /\ Forall (fun d => doc_name d ∉ m.*1) docs.
Proof.
  revert m. induction docs as [|doc docs IH]; intros m Hs; cbn.
  { intros [= <-]. repeat split; done || constructor. }
  intros (u & Hu%check_document_name_Ok & H)%bind_Ok.
  destruct (bt_insert_spec (doc_name doc) (doc_content doc) m Hs) as [Hold Hnew].
  destruct (bt_insert _ _ m) as [old m1]. cbn in *.
  apply bind_Ok in H as (? & ->%guard_err_Ok & H).
  destruct Hnew as [Hp Hs1]; [naive_solver|].
  apply IH in H as (Hs' & Hp' & Hsafe & Hnd & Hnot); [|done].
  assert (Hnot' : Forall (fun d => doc_name d <> doc_name doc /\ doc_name d ∉ m.*1) docs).
  { eapply Forall_impl; [exact Hnot|]. intros d. cbn. rewrite Hp. cbn. rewrite elem_of_cons. naive_solver. }
  repeat split.
  - done.
  - rewrite Hp', Hp. by rewrite Permutation_middle.
  - by constructor.
  - constructor; [|done]. intros (d & Hd & Hin)%list_elem_of_fmap.
    rewrite Forall_forall in Hnot'. by destruct (Hnot' d Hin).
  - constructor; [naive_solver|]. eapply Forall_impl; [exact Hnot'|]. naive_solver.
Qed.

Lemma collect_total docs m :
  names_sorted m -> Forall (fun d => safe_name (doc_name d) = true) docs ->
  NoDup (doc_name <$> docs) -> Forall (fun d => doc_name d ∉ m.*1) docs -> exists m', collect docs m = Ok m'.
Proof.
  revert m. induction docs as [|doc docs IH]; intros m Hs Hsafe Hnd Hnot; cbn; [by eexists|].
  inversion Hsafe as [|? ? Hd Hsafe']; inversion Hnd as [|? ? Hin Hnd']; inversion Hnot as [|? ? Hd' Hnot']; subst.
  rewrite (proj2 (check_document_name_Ok _ tt) Hd). cbn.
  destruct (bt_insert_spec (doc_name doc) (doc_content doc) m Hs) as [Hold Hnew].
  destruct (bt_insert _ _ m) as [old m1]. cbn in *. destruct (Hnew Hd') as [Hp Hs1].
  assert (old = false) as -> by (destruct old; naive_solver). cbn. apply IH; [done..|].
  rewrite Forall_forall in Hnot'. apply Forall_forall. intros d Hdin. rewrite Hp. cbn. rewrite elem_of_cons.
  intros [Heq|Hm]; [|by apply (Hnot' d)]. apply Hin. rewrite <- Heq. by apply list_elem_of_fmap_2.
Qed.

Lemma map_pairs m : pairs ((fun kv => mkDocument kv.1 kv.2) <$> m) = m.
Proof. unfold pairs. induction m as [|[k v] m IH]; cbn; [done|]. by rewrite IH. Qed.

Lemma unpair_pairs docs : (fun kv => mkDocument kv.1 kv.2) <$> pairs docs = docs.
Proof. unfold pairs. induction docs as [|[k v] docs IH]; cbn; [done|]. by rewrite IH. Qed.

(** What a bundle that passed [build] guarantees. *)
Record bundle_wf (b : PolicyBundle) : Prop := {
  bw_safe : Forall (fun d => safe_name (doc_name d) = true) (documents b);
  bw_unique : NoDup (doc_name <$> documents b);
  bw_sorted : StronglySorted String.le (doc_name <$> documents b);
}.

Lemma build_Ok rev docs b :
  build rev docs = Ok b -> bundle_wf b /\ revision b = rev /\ documents b ≡ₚ docs.
Proof.
  unfold build. intros (m & H & [= <-])%bind_Ok.
  apply collect_Ok in H as (Hs & Hp & Hsafe & Hnd & _); [|constructor]. rewrite app_nil_r in Hp.
  assert (Hperm : (fun kv => mkDocument kv.1 kv.2) <$> m ≡ₚ docs) by (rewrite Hp, unpair_pairs; done).
  split; [|done]. split; cbn.
  - by rewrite Hperm.
  - by rewrite Hperm.
  - rewrite <- pairs_names, map_pairs. exact Hs.
Qed.

Lemma names_inj docs d d' :
  NoDup (doc_name <$> docs) -> d ∈ docs -> d' ∈ docs -> doc_name d = doc_name d' -> d = d'.
Proof.
  induction docs as [|x docs IH]; cbn; [by intros _ ?%elem_of_nil|].
  intros [Hx Hn]%NoDup_cons. rewrite !elem_of_cons.
  intros [->|Hd] [->|Hd'] E; [done| | |by apply IH]; exfalso; apply Hx.
  - rewrite E. by apply list_elem_of_fmap_2.
  - rewrite <- E. by apply list_elem_of_fmap_2.
Qed.

Lemma sorted_by docs :
  StronglySorted String.le (doc_name <$> docs) ->
  StronglySorted (fun a b => String.le (doc_name a) (doc_name b)) docs.
Proof.
  induction docs as [|x docs IH]; cbn; intros H; inversion H as [|? ? Hs Hx]; subst; constructor; [by apply IH|].
  by rewrite Forall_fmap in Hx.
Qed.

(** [PolicyBundle::build] accepts exactly the updates whose document names are
    distinct single path segments, outside the dot-names the volume writer
    keeps for itself and free of separators and NUL; the bundle it makes has
    the update's revision and its documents, sorted by name - so the order in
    which a backend sends them never changes the bundle. *)
Theorem build_spec (rev : string) (docs : list PolicyDocument) :
  ((exists b, build rev docs = Ok b) <->
     Forall (fun d => safe_name (doc_name d) = true) docs /\ NoDup (doc_name <$> docs)) /\
  (forall b, build rev docs = Ok b -> bundle_wf b /\ revision b = rev /\ documents b ≡ₚ docs) /\
  (forall docs' b b', docs' ≡ₚ docs -> build rev docs = Ok b -> build rev docs' = Ok b' -> b' = b).
Proof.
  split; [split|split].
  - intros (b & [[] [_ Hp]]%build_Ok). by rewrite <- Hp.
  - intros [Hs Hn]. destruct (collect_total docs []) as [m E];
      [constructor|done|done|apply Forall_true; intros ?; apply not_elem_of_nil|].
    eexists. unfold build. by rewrite E.
  - intros b. apply build_Ok.
  - intros docs' b b' Hp [[] [Hr Hd]]%build_Ok [[] [Hr' Hd']]%build_Ok.
    destruct b as [r ds], b' as [r' ds']. cbn in *. subst. f_equal.
    assert (Hperm : ds' ≡ₚ ds) by (by rewrite Hd', Hd).
    apply (StronglySorted_unique_strong (fun a b => String.le (doc_name a) (doc_name b)));
      [| | |done].
    + intros d1 d2 H1 H2 Hle Hle'. rewrite Hperm in H1.
      by apply (names_inj ds), (anti_symm String.le).
    + by apply sorted_by.
    + by apply sorted_by.
Qed.

(** ** The documents of a built bundle in a volume *)

Lemma safe_name_join name : safe_name name = true -> join_path [] name = Some [name].
Proof.
  unfold safe_name. rewrite !andb_true_iff, !negb_true_iff. intros [[[[He Hd] Hs] _] _].
  unfold join_path. rewrite (split_char_no _ _ Hs). cbn [existsb].
  assert (starts_with "/" name = false) as ->.
  { destruct (starts_with "/" name) eqn:E; [|done]. apply starts_with_true in E as [r ->].
    by rewrite has_char_app in Hs. }
  assert (String.eqb ".." name = false) as -> by (apply String.eqb_neq; by intros <-).
  cbn [orb app]. rewrite filter_cons_True; [done|].
  assert (String.eqb name "" = false) as -> by (destruct name; done).
  assert (String.eqb name "." = false) as ->; [apply String.eqb_neq; by intros ->|done].
Qed.

Lemma documents_at_safe docs :
  Forall (fun d => safe_name (doc_name d) = true) docs ->
  documents_at [] docs = list_to_map ((fun d => ([doc_name d], doc_content d)) <$> reverse docs).
Proof.
  intros Hs. unfold documents_at. f_equal. rewrite <- (reverse_Permutation docs) in Hs.
  induction (reverse docs) as [|d ds IH]; [done|]. inversion Hs as [|? ? Hd Hs']; subst. cbn.
  rewrite (safe_name_join _ Hd). cbn. by rewrite IH.
Qed.

Lemma documents_at_wf b q c :
  bundle_wf b -> documents_at [] (documents b) !! q = Some c <->
    exists name, q = [name] /\ mkDocument name c ∈ documents b.
Proof.
  intros [Hs Hn _]. rewrite documents_at_safe by done. rewrite <- elem_of_list_to_map.
  - rewrite list_elem_of_fmap. setoid_rewrite elem_of_reverse. split.
    + intros ([name c'] & [= -> ->] & Hin). by exists name.
    + intros (name & -> & Hin). by exists (mkDocument name c).
  - rewrite <- list_fmap_compose. cbn. rewrite reverse_Permutation.
    apply (NoDup_fmap_2 (fun n => [n])) in Hn. by rewrite <- list_fmap_compose in Hn.
Qed.

(** From update to volume: when a bundle that [build] accepted is published
    normally, [policy/] holds exactly the update's documents, each as a file
    directly in it under its own name - nothing else at any depth - and
    [policy.revision] names the update's revision. *)
Theorem built_bundle_published (umask : Z) (rev : string) (docs : list PolicyDocument) (b : PolicyBundle)
    (mode : Z) (f0 : fs) (faults : list (option fault)) w' :
  build rev docs = Ok b -> volume_ok f0 ->
  publish_policy umask b mode (mkWorld f0 faults []) = (Ok tt, w') ->
  (forall q c, seen_policy (wfs w') q = Some c <-> exists name, q = [name] /\ mkDocument name c ∈ docs) /\
  content_at (wfs w') [REVISION_FILE] = Some (rev +:+ newline).
Proof.
  intros (Hwf & <- & Hd)%build_Ok Hv E. apply publish_policy_run in E as [_ H]; [|done].
  destruct (H eq_refl) as [Hq Hr]. split; [|done]. intros q c. rewrite Hq, documents_at_wf by done.
  by setoid_rewrite Hd.
Qed.

Definition two_docs : list PolicyDocument := [mkDocument "b.rego" "deny"; mkDocument "a.rego" "allow"].

Lemma built_bundle_published_witness :
  exists b w', build "r1" two_docs = Ok b /\
    publish_policy 18 b 420 (mkWorld ∅ [] []) = (Ok tt, w') /\
    (forall q c, seen_policy (wfs w') q = Some c <-> exists name, q = [name] /\ mkDocument name c ∈ two_docs) /\
    content_at (wfs w') [REVISION_FILE] = Some ("r1" +:+ newline).
Proof.
  set (b := mkBundle "r1" [mkDocument "a.rego" "allow"; mkDocument "b.rego" "deny"]).
  assert (Hb : build "r1" two_docs = Ok b) by (vm_compute; reflexivity).
  set (run := publish_policy 18 b 420 (mkWorld ∅ [] [])).
  assert (E : run = (Ok tt, run.2)).
  { rewrite (surjective_pairing run) at 1. f_equal; vm_compute; reflexivity. }
  exists b, run.2. split; [exact Hb|]. split; [exact E|].
  exact (built_bundle_published 18 "r1" two_docs b 420 ∅ [] run.2 Hb empty_volume E).
Defined.

(** ** The manager *)

Inductive mgr_step : Manager -> Manager -> Prop :=
| step_subscribe id m : mgr_step m (subscribe id m)
| step_unsubscribe id m : mgr_step m (unsubscribe id m)
| step_update u m : mgr_step m (grpc_apply u m)
| step_fleet b m : mgr_step m (apply_fleet b m).2
| step_take m : mgr_step m (take_dirty m).2
| step_connected c m : mgr_step m (set_connected c m).

Record manager_ok (m : Manager) : Prop := {
  mo_bundles : dom (bundles m) ⊆ wanted m;
  mo_dirty : dirty m ⊆ wanted m;
  mo_wf : map_Forall (fun _ b => bundle_wf b) (bundles m);
  mo_off : enabled (settings m) = false -> wanted m = ∅;
}.

Lemma manager_ok_new c : manager_ok (new c).
Proof. split; [set_solver|set_solver|apply map_Forall_empty|done]. Qed.

(** What an update from the stream is worth. *)
Definition accepted (u : PolicyUpdate) : option PolicyBundle :=
  match build (u_revision u) (u_documents u) with
  | Ok b => if is_empty (u_spiffe_id u) || (bundle_is_empty b && negb (u_empty u)) then None else Some b
  | Err _ => None
  end.

Lemma grpc_apply_cases u m :
  (accepted u = None /\ grpc_apply u m = reject m) \/
  (exists b, accepted u = Some b /\ build (u_revision u) (u_documents u) = Ok b /\
     grpc_apply u m = (apply (u_spiffe_id u) b m).2).
Proof.
  unfold grpc_apply, accepted. destruct (build _ _) as [b|]; destruct (is_empty _); cbn [orb]; try by left.
  destruct (_ && _); [by left|]. right. by exists b.
Qed.

Lemma apply_cases id b m :
  (apply id b m = (false, count_update m) /\ (id ∉ wanted m \/ bundles m !! id = Some b)) \/
  (id ∈ wanted m /\ (apply id b m).1 = true /\
   wanted (apply id b m).2 = wanted m /\ fleet (apply id b m).2 = fleet m /\
   settings (apply id b m).2 = settings m /\
   bundles (apply id b m).2 = <[id := b]> (bundles m) /\ dirty (apply id b m).2 = {[id]} ∪ dirty m).
Proof.
  unfold apply, writer_step. destruct (bool_decide_reflect (id ∈ wanted (count_update m))); cbn [negb];
    [|left; split; [done|by left]].
  case_bool_decide; [left; split; [done|by right]|]. by right.
Qed.

Lemma mgr_step_ok m m' : manager_ok m -> mgr_step m m' -> manager_ok m'.
Proof.
  intros Hok Hs. destruct Hs as [id m|id m|u m|b m|m|c m]; pose proof Hok as [Hb Hd Hw Ho].
  - unfold subscribe. destruct (enabled (settings m)) eqn:E; [|done]. case_bool_decide; [done|].
    split; cbn; [set_solver|set_solver|done|congruence].
  - unfold unsubscribe. destruct (enabled (settings m)) eqn:E; [|done].
    assert (manager_ok (with_dirty (dirty m ∖ {[id]})
      (with_state (wanted m ∖ {[id]}) (delete id (bundles m)) (fleet m) m))) as [].
    { split; cbn; [rewrite dom_delete_L; set_solver|set_solver|by apply map_Forall_delete|congruence]. }
    case_bool_decide; by split.
  - destruct (grpc_apply_cases u m) as [[_ ->]|(b & _ & (Hwf & _)%build_Ok & ->)]; [by split|].
    destruct (apply_cases (u_spiffe_id u) b m) as [[-> _]|(Hin & _ & Ew & _ & Es & Eb & Ed)]; [by split|].
    split; [rewrite Ew, Eb, dom_insert_L; set_solver|rewrite Ew, Ed; set_solver| |by rewrite Ew, Es].
    rewrite Eb. by apply map_Forall_insert_2.
  - unfold apply_fleet, writer_step. case_bool_decide; [by split|]. split; cbn; [done| |done|done].
    apply union_least; [|done]. intros x Hx. by apply elem_of_filter in Hx as [_ ?].
  - split; cbn; [done|set_solver|done|done].
  - by split.
Qed.

(** Through any sequence of calls the manager holds bundles, and dirty marks,
    only for identities this node still wants, every bundle from the stream is
    well formed, and a disabled manager wants nothing. *)
Theorem manager_invariant (c : PolicyConfig) (m : Manager) :
  rtc mgr_step (new c) m -> manager_ok m.
Proof.
  assert (H : forall m0 m', rtc mgr_step m0 m' -> manager_ok m0 -> manager_ok m').
  { induction 1; eauto using mgr_step_ok. }
  intros Hr. exact (H _ _ Hr (manager_ok_new c)).
Qed.

Definition stream_config : PolicyConfig :=
  mkPolicyConfig "node-1" "a" "d" "/var/lib/svidlet/volumes" DEFAULT_TEMPLATE None
    (mkStream true (Some "https://policy") None None 1) None 5 420 "" LInfo.

Lemma manager_invariant_witness :
  manager_ok (grpc_apply (mkUpdate "spiffe://d/a" "r1" two_docs false)
                (subscribe "spiffe://d/a" (new stream_config))).
Proof.
  apply (manager_invariant stream_config). eapply rtc_l; [apply step_subscribe|].
  eapply rtc_l; [apply step_update|apply rtc_refl].
Defined.

(** An update from the stream touches at most the bundle of the identity it
    names.  It takes effect only when it names an identity this node hosts, its
    documents are well formed, and it has documents or says it means to have
    none - and then the identity is marked for rewriting.  Everything else
    leaves what the node holds as it was. *)
Theorem stream_update_safe (u : PolicyUpdate) (m : Manager) :
  let m' := grpc_apply u m in
  wanted m' = wanted m /\ fleet m' = fleet m /\
  (forall id, id <> u_spiffe_id u -> bundles m' !! id = bundles m !! id) /\
  (bundles m' <> bundles m ->
     u_spiffe_id u ∈ wanted m /\ u_spiffe_id u ∈ dirty m' /\
     exists b, bundles m' !! u_spiffe_id u = Some b /\ bundle_wf b /\ revision b = u_revision u /\
       documents b ≡ₚ u_documents u /\ (u_documents u = [] -> u_empty u = true)).
Proof.
  cbn zeta. destruct (grpc_apply_cases u m) as [[_ ->]|(b & Ha & Hb & ->)]; [done|].
  destruct (apply_cases (u_spiffe_id u) b m) as [[-> _]|(Hin & _ & -> & -> & _ & -> & ->)]; [done|].
  split; [done|]. split; [done|]. split; [intros; by rewrite lookup_insert_ne|]. intros _.
  split; [done|]. split; [set_solver|]. exists b. rewrite lookup_insert_eq.
  pose proof Hb as (Hwf & Hr & Hd)%build_Ok. repeat split; try done; try apply Hwf.
  intros E. unfold accepted in Ha. rewrite Hb in Ha. rewrite E in Hd. apply Permutation_nil_r in Hd.
  unfold bundle_is_empty in Ha. rewrite Hd in Ha. by destruct (u_empty u), (is_empty _).
Qed.

(** ** The subscription task *)

Definition backend (told : gset string) (ms : list Message) : gset string :=
  foldl (fun told m => match m with
                       | Subscribe id _ => {[id]} ∪ told
                       | Unsubscribe id => told ∖ {[id]}
                       end) told ms.

Lemma contains_true id ids : contains id ids = true <-> id ∈ ids.
Proof.
  unfold contains. rewrite existsb_exists. setoid_rewrite String.eqb_eq. setoid_rewrite <- list_elem_of_In.
  naive_solver.
Qed.
Lemma contains_false id ids : contains id ids = false <-> id ∉ ids.
Proof. rewrite <- contains_true. destruct (contains id ids); naive_solver. Qed.

Lemma elem_in_order id s : id ∈ in_order s <-> id ∈ s.
Proof. unfold in_order. by rewrite merge_sort_Permutation, elem_of_elements. Qed.

Lemma send_new_open wl sent told :
  told = list_to_set sent -> NoDup sent ->
  exists sent' ms, send_new wl sent None = (Some sent', ms, None) /\ NoDup sent' /\
    backend told ms = list_to_set sent' /\ (forall id, id ∈ sent' <-> id ∈ sent \/ id ∈ wl.*1) /\
    (forall m, m ∈ ms -> exists id rev, m = Subscribe id rev /\ (id, rev) ∈ wl /\ id ∉ sent).
Proof.
  revert sent told. induction wl as [|[id rev] wl IH]; intros sent told -> Hn; cbn [send_new].
  { exists sent, []. split; [done|]. split; [done|]. split; [done|]. split; [|by intros m ?%elem_of_nil].
    intros id. cbn. rewrite elem_of_nil. naive_solver. }
  destruct (contains id sent) eqn:E.
  - apply contains_true in E. destruct (IH sent _ eq_refl Hn) as (s' & ms & -> & Hd & Hb & Hs & Hm).
    exists s', ms. split; [done|]. split; [done|]. split; [done|]. split.
    + intros x. rewrite Hs. cbn. rewrite elem_of_cons. naive_solver.
    + intros x (i & r & -> & ? & ?)%Hm. exists i, r. split; [done|]. split; [by right|done].
  - apply contains_false in E. cbn.
    destruct (IH (sent ++ [id]) _ eq_refl) as (s' & ms & -> & Hd & Hb & Hs & Hm).
    { apply NoDup_app. split; [done|]. split; [|apply NoDup_singleton]. set_solver. }
    exists s', (Subscribe id rev :: ms). split; [done|]. split; [done|]. cbn. split; [|split].
    + rewrite <- Hb. f_equal. rewrite list_to_set_app_L. set_solver.
    + intros x. rewrite Hs, elem_of_app, list_elem_of_singleton, elem_of_cons. naive_solver.
    + intros x [->|(i & r & -> & ? & Hn')%Hm]%elem_of_cons.
      * exists id, rev. split; [done|]. split; [left|done].
      * exists i, r. split; [done|]. split; [by right|]. rewrite elem_of_app in Hn'. naive_solver.
Qed.

Lemma retain_open ids sent (told : gset string) :
  NoDup sent ->
  exists kept ms, retain ids sent None = (kept, ms, None) /\ NoDup kept /\
    (forall id, id ∈ kept <-> id ∈ sent /\ id ∈ ids) /\
    (forall id, id ∈ backend told ms <-> id ∈ told /\ (id ∈ sent -> id ∈ ids)) /\
    (forall m, m ∈ ms -> exists id, m = Unsubscribe id /\ id ∈ sent /\ id ∉ ids).
Proof.
  revert told. induction sent as [|x sent IH]; intros told Hn; cbn [retain].
  { exists [], []. split; [done|]. split; [constructor|]. split; [set_solver|]. split; cbn; set_solver. }
  apply NoDup_cons in Hn as [Hx Hn]. destruct (contains x ids) eqn:E.
  - apply contains_true in E. destruct (IH told Hn) as (k & ms & -> & Hk & Hin & Hb & Hm).
    exists (x :: k), ms. split; [done|]. split; [constructor; [rewrite Hin; naive_solver|done]|].
    split; [|split].
    + intros id. rewrite elem_of_cons, Hin. set_solver.
    + intros id. rewrite Hb. set_solver.
    + intros m (i & -> & ? & ?)%Hm. exists i. set_solver.
  - apply contains_false in E. cbn [send].
    destruct (IH (told ∖ {[x]}) Hn) as (k & ms & -> & Hk & Hin & Hb & Hm).
    exists k, (Unsubscribe x :: ms). split; [done|]. split; [done|]. split; [|split].
    + intros id. rewrite Hin, elem_of_cons. split; [naive_solver|]. intros [[->|?] ?]; [done|naive_solver].
    + intros id. cbn. rewrite Hb. set_solver.
    + intros m [->|(i & -> & ? & ?)%Hm]%elem_of_cons; [exists x|exists i]; set_solver.
Qed.

Definition known_revision (m : Manager) (id : string) : string := from_option revision "" (bundles m !! id).

Lemma wanted_list_ids m : (wanted_list m).*1 = in_order (wanted m).
Proof. unfold wanted_list. rewrite <- list_fmap_compose. apply list_fmap_id. Qed.

Lemma elem_wanted_list m id rev :
  (id, rev) ∈ wanted_list m <-> id ∈ wanted m /\ rev = known_revision m id.
Proof.
  unfold wanted_list. rewrite list_elem_of_fmap. setoid_rewrite elem_in_order.
  split; [intros (i & [= -> ->] & ?)|intros [? ->]; exists id]; done.
Qed.

Lemma sync_round_open m sent :
  NoDup sent ->
  exists kept ms, sync_round m sent None = (Some kept, ms, None) /\ NoDup kept /\
    list_to_set kept = wanted m /\ backend (list_to_set sent) ms = wanted m /\
    Forall (fun x => match x with
                     | Subscribe id rev => id ∈ wanted m /\ id ∉ sent /\ rev = known_revision m id
                     | Unsubscribe id => id ∈ sent /\ id ∉ wanted m
                     end) ms.
Proof.
  intros Hn. unfold sync_round.
  destruct (send_new_open (wanted_list m) sent _ eq_refl Hn) as (s1 & ms1 & -> & Hn1 & Hb1 & Hs1 & Hm1).
  destruct (retain_open (wanted_list m).*1 s1 (list_to_set s1) Hn1) as (k & ms2 & -> & Hk & Hin & Hb2 & Hm2).
  setoid_rewrite wanted_list_ids in Hs1. setoid_rewrite wanted_list_ids in Hin.
  setoid_rewrite wanted_list_ids in Hb2. setoid_rewrite wanted_list_ids in Hm2.
  setoid_rewrite elem_in_order in Hs1. setoid_rewrite elem_in_order in Hin.
  setoid_rewrite elem_in_order in Hb2. setoid_rewrite elem_in_order in Hm2.
  exists k, (ms1 ++ ms2). split; [done|]. split; [done|]. split; [|split].
  - apply set_eq. intros id. rewrite elem_of_list_to_set, Hin, Hs1. naive_solver.
  - unfold backend in *. rewrite foldl_app, Hb1. apply set_eq. intros id.
    rewrite Hb2, elem_of_list_to_set, Hs1. naive_solver.
  - apply Forall_app. split; apply Forall_forall.
    + intros x (id & rev & -> & Hw%elem_wanted_list & Hs)%Hm1. naive_solver.
    + intros x (id & -> & Hs & Hw)%Hm2. naive_solver.
Qed.

(** While the stream is open, one pass of the subscription task leaves the
    backend subscribed to exactly what the node wants: it subscribes what is
    new, each with the revision the node already holds, unsubscribes what is
    gone, and sends nothing about the rest. *)
Theorem sync_round_spec (m : Manager) (sent : list string) :
  NoDup sent ->
  exists kept ms, sync_round m sent None = (Some kept, ms, None) /\ NoDup kept /\
    list_to_set kept = wanted m /\ backend (list_to_set sent) ms = wanted m /\
    Forall (fun x => match x with
                     | Subscribe id rev => id ∈ wanted m /\ id ∉ sent /\ rev = known_revision m id
                     | Unsubscribe id => id ∈ sent /\ id ∉ wanted m
                     end) ms.
Proof. apply sync_round_open. Qed.

Lemma sync_round_spec_witness :
  exists kept ms, sync_round (subscribe "spiffe://d/a" (new stream_config)) ["spiffe://d/b"] None
      = (Some kept, ms, None) /\ NoDup kept /\
    list_to_set kept = wanted (subscribe "spiffe://d/a" (new stream_config)) /\
    backend (list_to_set ["spiffe://d/b"]) ms = wanted (subscribe "spiffe://d/a" (new stream_config)) /\
    Forall (fun x => match x with
                     | Subscribe id rev => id ∈ wanted (subscribe "spiffe://d/a" (new stream_config)) /\
                         id ∉ ["spiffe://d/b"] /\
                         rev = known_revision (subscribe "spiffe://d/a" (new stream_config)) id
                     | Unsubscribe id => id ∈ ["spiffe://d/b"] /\
                         id ∉ wanted (subscribe "spiffe://d/a" (new stream_config))
                     end) ms.
Proof.
  apply (sync_round_spec (subscribe "spiffe://d/a" (new stream_config)) ["spiffe://d/b"]).
  apply NoDup_singleton.
Defined.

Lemma mgr_step_wanted m m' :
  mgr_step m m' -> (wanted_notifies m <= wanted_notifies m')%nat /\
    (wanted m' <> wanted m -> (wanted_notifies m < wanted_notifies m')%nat).
Proof.
  intros H. destruct H as [id m|id m|u m|b m|m|c m].
  - unfold subscribe. destruct (enabled _); [|naive_solver]. case_bool_decide; cbn; [naive_solver|split; lia].
  - unfold unsubscribe. destruct (enabled _); [|naive_solver]. case_bool_decide; cbn; [split; lia|].
    split; [done|]. intros []. set_solver.
  - destruct (grpc_apply_cases u m) as [[_ ->]|(b & _ & _ & ->)]; [cbn; naive_solver|].
    unfold apply, writer_step. repeat case_match; simplify_eq; cbn; naive_solver.
  - unfold apply_fleet, writer_step. repeat case_match; simplify_eq; cbn; naive_solver.
  - cbn. naive_solver.
  - cbn. naive_solver.
Qed.

(** *** Waking up

    [manager.wanted_changed()] is an [async fn]: calling it runs nothing, and
    [Notify::notified()] is first called when the returned future is polled,
    at [changed.await].  So the task's cycle is: read and send, with nothing
    registered; register; sleep until woken. *)
Section wake.
(** Whether a [Notified] created after [k] calls of [notify_waiters] is ready
    after [n] calls (tokio). *)
Context (woken : nat -> nat -> bool).
Context (woken_before : forall k n, (k < n)%nat -> woken k n = true).
Context (woken_never_late : forall n, woken n n = false).

Inductive phase := Run | Unregistered | Waiting (k : nat).

Record task := mkTask { t_manager : Manager; t_phase : phase; t_sent : list string }.

(** [calm] rules out calls on the manager between the task's read and its
    registration. *)
Inductive task_step (calm : bool) : task -> task -> Prop :=
| task_pass m sent kept ms :
    sync_round m sent None = (Some kept, ms, None) ->
    task_step calm (mkTask m Run sent) (mkTask m Unregistered kept)
| task_register m sent :
    task_step calm (mkTask m Unregistered sent) (mkTask m (Waiting (wanted_notifies m)) sent)
| task_wake m k sent :
    woken k (wanted_notifies m) = true ->
    task_step calm (mkTask m (Waiting k) sent) (mkTask m Run sent)
| task_call m m' p sent :
    mgr_step m m' -> (calm = true -> p <> Unregistered) ->
    task_step calm (mkTask m p sent) (mkTask m' p sent).

(** What holds at each point of the task's cycle when nothing is called on the
    manager between the read and the registration. *)
Definition task_ok (t : task) : Prop :=
  NoDup (t_sent t) /\
  match t_phase t with
  | Run => True
  | Unregistered => list_to_set (t_sent t) = wanted (t_manager t)
  | Waiting k => (k <= wanted_notifies (t_manager t))%nat /\
      (list_to_set (t_sent t) = wanted (t_manager t) \/ (k < wanted_notifies (t_manager t))%nat)
  end.

Lemma task_step_ok t t' : task_ok t -> task_step true t t' -> task_ok t'.
Proof using.
  clear woken_before woken_never_late.
  unfold task_ok. intros [Hn Hp] Hs. destruct Hs as [m sent kept ms E|m sent|m k sent E|m m' p sent Hm Hc]; cbn in *.
  - destruct (sync_round_open m sent Hn) as (k & ms' & E' & Hk & Hw & _).
    rewrite E in E'. injection E' as <- _. done.
  - auto.
  - done.
  - split; [done|]. destruct (mgr_step_wanted _ _ Hm) as [Hle Hlt]. destruct p as [| |k]; [done|naive_solver|].
    destruct Hp as [Hk Hp]. split; [lia|]. destruct (decide (wanted m' = wanted m)) as [->|Hne].
    + destruct Hp; [by left|right; lia].
    + specialize (Hlt Hne). right. lia.
Qed.

(** If no call lands between the task's read and its registration, the task
    sleeps only while the backend has been told everything: a sleeping task
    that is not woken has sent exactly the wanted set. *)
Theorem sync_no_lost_wakeup (c : PolicyConfig) (t : task) (k : nat) :
  rtc (task_step true) (mkTask (new c) Run []) t ->
  t_phase t = Waiting k -> woken k (wanted_notifies (t_manager t)) = false ->
  list_to_set (t_sent t) = wanted (t_manager t).
Proof using woken_before.
  intros Hr Hp Hw.
  assert (H : forall t0 t', rtc (task_step true) t0 t' -> task_ok t0 -> task_ok t').
  { induction 1; eauto using task_step_ok. }
  destruct (H _ _ Hr) as [_ Hok]; [split; [constructor|done]|]. rewrite Hp in Hok.
  destruct Hok as [_ [Hs|Hlt]]; [done|]. by rewrite woken_before in Hw.
Qed.

(** Without that restriction a wakeup is lost.  A subscription made after the
    task has read the wanted set, and before its future is first polled, leaves
    the task asleep with the identity never sent to the backend: nothing but a
    later change of the wanted set wakes it. *)
Theorem sync_lost_wakeup (c : PolicyConfig) (id : string) :
  enabled c = true ->
  exists t k, rtc (task_step false) (mkTask (new c) Run []) t /\
    t_phase t = Waiting k /\ woken k (wanted_notifies (t_manager t)) = false /\
    id ∈ wanted (t_manager t) /\ id ∉ t_sent t.
Proof using woken_never_late.
  clear woken_before. intros He. exists (mkTask (subscribe id (new c)) (Waiting 1) []), 1%nat.
  assert (Hs : wanted_notifies (subscribe id (new c)) = 1%nat /\ id ∈ wanted (subscribe id (new c))).
  { unfold subscribe. cbn [settings new]. rewrite He, bool_decide_eq_false_2 by (cbn; set_solver).
    cbn. split; [done|set_solver]. }
  destruct Hs as [Hn Hin]. split.
  - eapply rtc_l; [apply (task_pass false (new c) [] [] []); reflexivity|].
    eapply rtc_l; [apply (task_call false (new c) (subscribe id (new c)) Unregistered []);
      [apply step_subscribe|done]|].
    eapply rtc_l; [apply task_register|]. rewrite Hn. apply rtc_refl.
  - cbn. rewrite Hn. split; [done|]. split; [apply woken_never_late|]. split; [done|apply not_elem_of_nil].
Qed.
End wake.

Lemma sync_no_lost_wakeup_witness :
  list_to_set (C := gset string) [] = wanted (new stream_config).
Proof.
  apply (sync_no_lost_wakeup Nat.ltb (fun k n H => proj2 (Nat.ltb_lt k n) H) stream_config
           (mkTask (new stream_config) (Waiting 0) []) 0); [|reflexivity|reflexivity].
  eapply rtc_l; [apply (task_pass Nat.ltb true (new stream_config) [] [] []); reflexivity|].
  eapply rtc_l; [apply task_register|apply rtc_refl].
Defined.

Lemma sync_lost_wakeup_witness :
  exists t k, rtc (task_step Nat.ltb false) (mkTask (new stream_config) Run []) t /\
    t_phase t = Waiting k /\ Nat.ltb k (wanted_notifies (t_manager t)) = false /\
    "spiffe://d/a" ∈ wanted (t_manager t) /\ "spiffe://d/a" ∉ t_sent t.
Proof. apply (sync_lost_wakeup Nat.ltb Nat.ltb_irrefl stream_config "spiffe://d/a"). reflexivity. Defined.
