(* ===== verification/PolicyWait.v ===== *)
(** * Waiting for a bundle  (svidlet/src/policy/mod.rs)

    [PolicyManager::wait_for] looks for a bundle, registers for the next change,
    looks again and only then sleeps.  The waiter is a state machine of its own;
    the steps of the other tasks on the manager may fall between any two of its
    steps, and a task that records a bundle may be anywhere between storing it
    and announcing it. *)

From S2P Require Import Prelude RustStr NodeConfig Volume Policy.
Import PolicyManager.
Open Scope list_scope.
Open Scope Z_scope.

(** The small readers of the manager. *)
Definition subscription_count (m : Manager) : nat := size (wanted m).
Definition fleet_bundle (m : Manager) : option PolicyBundle := fleet m.

Section wait.
(** Whether a [Notified] created after [k] calls of [notify_waiters] is ready
    after [n] calls (tokio): it is not polled before [timeout_at] does, but a
    direct call of [notified()] counts from its creation. *)
Context (woken : nat -> nat -> bool).
Context (woken_before : forall k n, (k < n)%nat -> woken k n = true).
Context (spiffe_id : string).

Inductive wait_phase :=
| Looking                              (* the head of the loop *)
| Registering                          (* found nothing *)
| LookingAgain (k : nat)               (* registered at [k] *)
| Sleeping (k : nat)
| Returned (r : option PolicyBundle).

(** [w_writers]: the tasks that are recording a bundle. *)
Record waiter := mkWaiter { w_manager : Manager; w_phase : wait_phase; w_timeouts : Z; w_writers : list writer }.

Definition found (m : Manager) (otherwise : wait_phase) : wait_phase :=
  match bundle spiffe_id m with Some b => Returned (Some b) | None => otherwise end.

(** The calls on the manager that record no bundle. *)
Inductive other_step : Manager -> Manager -> Prop :=
| other_subscribe id m : other_step m (subscribe id m)
| other_unsubscribe id m : other_step m (unsubscribe id m)
| other_reject m : other_step m (reject m)
| other_take m : other_step m (take_dirty m).2
| other_connected c m : other_step m (set_connected c m).

(** The deadline may pass at any time; a timeout is taken only when the
    notification is not there, since the inner future is polled first. *)
Inductive wait_step : waiter -> waiter -> Prop :=
| wait_look m n ws : wait_step (mkWaiter m Looking n ws) (mkWaiter m (found m Registering) n ws)
| wait_register m n ws : wait_step (mkWaiter m Registering n ws) (mkWaiter m (LookingAgain (bundle_notifies m)) n ws)
| wait_look_again m k n ws : wait_step (mkWaiter m (LookingAgain k) n ws) (mkWaiter m (found m (Sleeping k)) n ws)
| wait_wake m k n ws :
    woken k (bundle_notifies m) = true -> wait_step (mkWaiter m (Sleeping k) n ws) (mkWaiter m Looking n ws)
| wait_timeout m k n ws :
    woken k (bundle_notifies m) = false ->
    wait_step (mkWaiter m (Sleeping k) n ws) (mkWaiter m (Returned None) (wrap 64 (n + 1)) ws)
| wait_starts_fleet b m p n ws : wait_step (mkWaiter m p n ws) (mkWaiter m p n (StoreFleet b :: ws))
| wait_starts_update id b m p n ws : wait_step (mkWaiter m p n ws) (mkWaiter m p n (StoreBundle id b :: ws))
| wait_writer t m p n ws1 ws2 :
    wait_step (mkWaiter m p n (ws1 ++ t :: ws2))
      (mkWaiter (writer_step t m).1 p n (ws1 ++ option_list (writer_step t m).2 ++ ws2))
| wait_others m m' p n ws : other_step m m' -> wait_step (mkWaiter m p n ws) (mkWaiter m' p n ws).

Definition waiting (c : PolicyConfig) (w : waiter) : Prop := rtc wait_step (mkWaiter (new c) Looking 0 []) w.

(** A task that has stored a bundle and has not announced it. *)
Definition unannounced (t : writer) : Prop := match t with MarkDirty _ | Announce => True | _ => False end.

Lemma other_step_bundle m m' :
  other_step m m' -> bundle_notifies m' = bundle_notifies m /\ (bundle spiffe_id m = None -> bundle spiffe_id m' = None).
Proof using.
  clear woken_before. unfold bundle. intros H. destruct H as [id m|id m|m|m|c m]; try done.
  - unfold subscribe. repeat case_match; cbn; naive_solver.
  - unfold unsubscribe. destruct (enabled _); [|naive_solver]. case_bool_decide; cbn; (split; [done|]);
      (destruct (bundles m !! spiffe_id) eqn:E; [done|]); intros Hf; rewrite lookup_delete;
      case_decide; rewrite ?E, Hf; done.
Qed.
(** A bundle does not appear unless a task is about to announce it, and a task
    that is about to does. *)
Lemma writer_step_bundle t m :
  let m' := (writer_step t m).1 in
  (bundle_notifies m <= bundle_notifies m')%nat /\
  (bundle spiffe_id m = None -> bundle spiffe_id m' <> None -> exists t', (writer_step t m).2 = Some t' /\ unannounced t') /\
  (unannounced t -> (bundle_notifies m < bundle_notifies m')%nat \/ exists t', (writer_step t m).2 = Some t' /\ unannounced t').
Proof using.
  clear woken_before. destruct t as [b|id b|ids|]; unfold writer_step, bundle; cbn zeta.
  - case_bool_decide; cbn; [naive_solver|]. split; [done|]. split; [|done]. intros _ _. by eexists.
  - destruct (negb _); [cbn; naive_solver|]. case_bool_decide; cbn; [naive_solver|]. split; [done|]. split; [|done]. intros _ _. by eexists.
  - cbn. split; [done|]. split; [done|]. intros _. right. by eexists.
  - cbn. split; [lia|]. split; [done|]. intros _. left. lia.
Qed.

(** What holds between registering and sleeping. *)
Definition wait_ok (w : waiter) : Prop :=
  match w_phase w with
  | LookingAgain k => (k <= bundle_notifies (w_manager w))%nat
  | Sleeping k => (k <= bundle_notifies (w_manager w))%nat /\
      (bundle spiffe_id (w_manager w) = None \/ (k < bundle_notifies (w_manager w))%nat \/ Exists unannounced (w_writers w))
  | _ => True
  end.

Lemma exists_middle {A : Type} (P : A -> Prop) l1 x l2 : Exists P (l1 ++ x :: l2) <-> Exists P l1 \/ P x \/ Exists P l2.
Proof. by rewrite Exists_app, Exists_cons. Qed.

Lemma wait_step_ok w w' : wait_ok w -> wait_step w w' -> wait_ok w'.
Proof using.
  clear woken_before.
  unfold wait_ok. intros Hw Hs.
  destruct Hs as [m n ws|m n ws|m k n ws|m k n ws E|m k n ws E|b m p n ws|id b m p n ws|t m p n ws1 ws2|m m' p n ws Hm]; cbn in *.
  - unfold found. by destruct (bundle _ _).
  - done.
  - unfold found. destruct (bundle _ _) eqn:E; [done|]. split; [done|by left].
  - done.
  - done.
  - destruct p as [| |k|k|r]; try done. rewrite Exists_cons. naive_solver.
  - destruct p as [| |k|k|r]; try done. rewrite Exists_cons. naive_solver.
  - destruct (writer_step_bundle t m) as (Hle & Happ & Hann). cbn in Hle, Happ, Hann. destruct p as [| |k|k|r]; try done; [lia|].
    destruct Hw as [Hk Hw]. split; [lia|].
    assert (Hput : forall t', (writer_step t m).2 = Some t' -> unannounced t' -> Exists unannounced (ws1 ++ option_list (writer_step t m).2 ++ ws2)).
    { intros t' -> Ht'. cbn. apply exists_middle. auto. }
    destruct Hw as [Hn|[Hn|Hn]]; [| lia|].
    + destruct (bundle spiffe_id (writer_step t m).1) eqn:E; [|by left]. right; right.
      destruct (Happ Hn ltac:(done)) as (t' & H1 & H2). by eapply Hput.
    + right. apply exists_middle in Hn as [Hn|[Hn|Hn]].
      * right. apply Exists_app. by left.
      * destruct (Hann Hn) as [?|(t' & H1 & H2)]; [left; lia|right; by eapply Hput].
      * right. rewrite !Exists_app. auto.
  - destruct (other_step_bundle _ _ Hm) as [-> Hb]. destruct p as [| |k|k|r]; try done. naive_solver.
Qed.

Lemma waiting_ok c w : waiting c w -> wait_ok w.
Proof using.
  clear woken_before.
  intros H. assert (Hr : forall a b, rtc wait_step a b -> wait_ok a -> wait_ok b).
  { induction 1; eauto using wait_step_ok. }
  by eapply Hr; [exact H|].
Qed.

(** C30: No update is missed while waiting for one.  Whatever the other tasks do
    between any two steps of the waiter, and wherever they are between storing a
    bundle and announcing it: while it sleeps and nobody is about to announce a
    bundle, either it has been notified or there is no bundle for its identity;
    so once there is one and its announcement is out, the sleeper is woken, and
    every step it takes then brings it to return that bundle; and it gives up,
    which is counted, only while there is no bundle or one is not announced yet. *)
Theorem wait_for_misses_nothing (c : PolicyConfig) (w : waiter) (k : nat) :
  waiting c w -> w_phase w = Sleeping k ->
  (Forall (fun t => ~ unannounced t) (w_writers w) -> forall b, bundle spiffe_id (w_manager w) = Some b ->
     woken k (bundle_notifies (w_manager w)) = true /\
     wait_step w (mkWaiter (w_manager w) Looking (w_timeouts w) (w_writers w)) /\
     forall w', wait_step (mkWaiter (w_manager w) Looking (w_timeouts w) (w_writers w)) w' ->
       w_phase w' = Looking \/ w' = mkWaiter (w_manager w) (Returned (Some b)) (w_timeouts w) (w_writers w)) /\
  (forall w', wait_step w w' -> w_phase w' = Returned None ->
     w_timeouts w' = wrap 64 (w_timeouts w + 1) /\
     (bundle spiffe_id (w_manager w') = None \/ Exists unannounced (w_writers w'))).
Proof using woken_before.
  intros Hw%waiting_ok Hp. unfold wait_ok in Hw. rewrite Hp in Hw. destruct Hw as [_ Hw].
  destruct w as [m p n ws]. cbn in *. subst p.
  assert (Hn : woken k (bundle_notifies m) = false -> bundle spiffe_id m = None \/ Exists unannounced ws).
  { intros E. destruct Hw as [?|[Hlt|?]]; [by left| |by right]. by rewrite woken_before in E. }
  split.
  - intros Hws b Hb. destruct (woken k (bundle_notifies m)) eqn:E.
    + split; [done|]. split; [by apply wait_wake|]. intros w' Hs. inversion Hs; subst; cbn; auto.
      right. unfold found. by rewrite Hb.
    + exfalso. destruct (Hn eq_refl) as [?|Hex]; [congruence|]. apply Exists_exists in Hex as (t & Ht & Hu).
      rewrite Forall_forall in Hws. by eapply Hws.
  - intros w' Hs Hr. inversion Hs; subst; cbn in *; try done. auto.
Qed.
End wait.

(** ** Witness: an update that lands just before the waiter sleeps *)

Module PolicyWaitWitness.
Definition id : string := "spiffe://d/a".
Definition m0 : Manager := subscribe id (new stream_config).
Definition the_bundle : PolicyBundle := mkBundle "r1" [mkDocument "a.rego" "allow"].
(** Stored, marked, announced. *)
Definition m1 : Manager := (writer_step (StoreBundle id the_bundle) m0).1.
Definition m2 : Manager := (writer_step (MarkDirty {[id]}) m1).1.
Definition m3 : Manager := (writer_step Announce m2).1.
Definition asleep : waiter := mkWaiter m3 (Sleeping 0) 0 [].

Example three_steps_are_apply : (apply id the_bundle m0).2 = m3.
Proof. vm_compute. reflexivity. Qed.

(** Registered, looked again, and then the update came. *)
Lemma falls_asleep : waiting Nat.ltb id stream_config asleep.
Proof.
  eapply rtc_l; [apply wait_others, (other_subscribe id)|].
  eapply rtc_l; [apply wait_look|]. eapply rtc_l; [apply wait_register|].
  eapply rtc_l; [apply (wait_starts_update _ _ id the_bundle)|].
  eapply rtc_l; [apply wait_look_again|]. eapply rtc_l; [apply (wait_writer _ _ _ _ _ _ [] [])|].
  eapply rtc_l; [apply (wait_writer _ _ _ _ _ _ [] [])|]. eapply rtc_l; [apply (wait_writer _ _ _ _ _ _ [] [])|]. apply rtc_refl.
Qed.

Lemma wait_for_misses_nothing_witness :
  bundle id m3 = Some the_bundle /\ Nat.ltb 0 (bundle_notifies m3) = true.
Proof.
  destruct (wait_for_misses_nothing Nat.ltb (fun k n H => proj2 (Nat.ltb_lt k n) H) id stream_config asleep 0
    falls_asleep eq_refl) as [Hb _].
  assert (E : bundle id m3 = Some the_bundle) by (vm_compute; reflexivity).
  exact (conj E (proj1 (Hb (Forall_nil_2 _) the_bundle E))).
Defined.
End PolicyWaitWitness.
