(* ===== verification/Stream.v ===== *)
(** * The policy stream's connections  (svidlet/src/policy/grpc.rs)

    [Policy] has what one update and one pass of the subscription task do.  Here
    are the connections they happen on: connecting, the bearer token, one stream
    from its opening to its end, and the loop that reconnects.

    What the transport (tonic) and the file system answer to one connection is a
    [Session]; the loop is run on a list of them.  While a connection lasts, the
    subscription task's passes, the other threads of the process and the updates
    come in any order, which is the session's list of turns. *)

From S2P Require Import Prelude RustStr Template Fs Volume NodeStore NodeConfig Policy.
Import PolicyManager.
Open Scope list_scope.
Open Scope Z_scope.

Inductive StreamError := BadEndpoint | CannotRead | TlsRefused | NotConnected | EmptyToken | NotAHeader | WatchRefused | StreamBroke.

(** ** One connection *)

Inductive turn :=
| Sync                                      (* the subscription task runs once *)
| Others (act : Manager -> Manager)         (* another thread of the process *)
| Update (u : PolicyUpdate).

Record Session := mkSession {
  se_files : string -> option string;       (* what a file holds now; None: unreadable *)
  se_endpoint_ok : bool;                    (* Endpoint::from_shared *)
  se_tls_ok : option string -> bool;        (* tls_config, with the extra root *)
  se_reachable : bool;
  se_header_ok : string -> bool;            (* MetadataValue's parser *)
  se_channel : tx;
  se_opening : list turn;                   (* until the backend accepts the stream *)
  se_accepted : bool;
  se_turns : list turn;
  se_clean : bool;                          (* the end of the stream, or an error *)
}.

(** The TLS roots a channel was made with: [None] for plain text. *)
Definition connect (c : PolicySettings) (endpoint : string) (s : Session) : result StreamError (option (option string)) :=
  _ ← guard_err (negb (se_endpoint_ok s)) BadEndpoint;
  tls ← (if starts_with "https://" endpoint then
           pem ← match s_ca_cert_path c with
                 | Some path => Some <$> ok_or CannotRead (se_files s path)
                 | None => Ok None
                 end;
           _ ← guard_err (negb (se_tls_ok s pem)) TlsRefused;
           Ok (Some pem)
         else Ok None);
  _ ← guard_err (negb (se_reachable s)) NotConnected;
  Ok tls.

Definition bearer_token (c : PolicySettings) (s : Session) : result StreamError (option string) :=
  match s_token_path c with
  | None => Ok None
  | Some path =>
      raw ← ok_or CannotRead (se_files s path);
      let trimmed := trim raw in
      _ ← guard_err (is_empty trimmed) EmptyToken;
      let value := "Bearer " +:+ trimmed in
      _ ← guard_err (negb (se_header_ok s value)) NotAHeader;
      Ok (Some value)
  end.

(** The state of an open connection: the manager, what the subscription task
    has sent ([None] once it has returned), its channel, and every message. *)
Record Conn := mkConn {
  c_manager : Manager;
  c_sent : option (list string);
  c_tx : tx;
  c_messages : list Message;
}.

Definition take_turn (c : Conn) (t : turn) : Conn :=
  match t with
  | Sync =>
      match c_sent c with
      | Some sent =>
          let '(sent, ms, t) := sync_round (c_manager c) sent (c_tx c) in
          mkConn (c_manager c) sent t (c_messages c ++ ms)
      | None => c
      end
  | Others act => mkConn (act (c_manager c)) (c_sent c) (c_tx c) (c_messages c)
  | Update u => mkConn (grpc_apply u (c_manager c)) (c_sent c) (c_tx c) (c_messages c)
  end.
Definition take_turns (c : Conn) (ts : list turn) : Conn := foldl take_turn c ts.

(** Before the backend accepts, no update can arrive. *)
Definition not_update (t : turn) : bool := match t with Update _ => false | _ => true end.

(** A stream the node asked for: its [authorization] header and its messages. *)
Record Asked := mkAsked { a_header : option string; a_messages : list Message }.

Definition run_stream (endpoint : string) (s : Session) (m : Manager)
    : result StreamError unit * Manager * option Asked :=
  let c := stream (settings m) in
  match (_ ← connect c endpoint s; bearer_token c s) with
  | Err e => (Err e, m, None)
  | Ok header =>
      let o := take_turns (mkConn m (Some []) (se_channel s) []) (List.filter not_update (se_opening s)) in
      if se_accepted s then
        let o := mkConn (set_connected true (c_manager o)) (c_sent o) (c_tx o) (c_messages o) in
        let o := take_turns o (se_turns s) in
        (if se_clean s then Ok tt else Err StreamBroke, c_manager o, Some (mkAsked header (c_messages o)))
      else (Err WatchRefused, c_manager o, Some (mkAsked header (c_messages o)))
  end.

(** ** The loop *)

Definition MAX_BACKOFF : Z := 60.

Record Loop := mkLoop {
  l_manager : Manager;
  l_reconnects : Z;
  l_backoff : Z;
  l_waits : list Z;
  l_outcomes : list bool;
  l_asked : list (option Asked);
}.

(** One time round, after the sleep; [None] is the panic of [backoff * 2]. *)
Definition round (endpoint : string) (base : Z) (l : Loop) (s : Session) : option Loop :=
  let '(r, m, asked) := run_stream endpoint s (l_manager l) in
  let '(ok, backoff, reconnects) :=
    match r with
    | Ok _ => (true, base, l_reconnects l)
    | Err _ => (false, l_backoff l, wrap 64 (l_reconnects l + 1))
    end in
  let m := set_connected false m in
  twice ← checked_mul_u64 backoff 2;
  Some (mkLoop m reconnects (Z.min twice MAX_BACKOFF) (l_waits l ++ [backoff]) (l_outcomes l ++ [ok]) (l_asked l ++ [asked])).

Fixpoint rounds (endpoint : string) (base : Z) (l : Loop) (ss : list Session) : option Loop :=
  match ss with
  | [] => Some l
  | s :: ss => l ← round endpoint base l s; rounds endpoint base l ss
  end.

Definition watch_loop (m : Manager) (reconnects : Z) (ss : list Session) : option Loop :=
  let base := reconnect_backoff (stream (settings m)) in
  let start := mkLoop m reconnects base [] [] [] in
  if negb (stream_enabled (settings m)) then Some start
  else match s_endpoint (stream (settings m)) with
       | None => Some start
       | Some endpoint => rounds endpoint base start ss
       end.

(** ** What the loop waits *)

(** The delay after [k] rounds without a clean end. *)
Definition delay (base : Z) (k : nat) : Z :=
  match k with O => base | S _ => Z.min (base * 2 ^ Z.of_nat k) MAX_BACKOFF end.
Fixpoint delays (base : Z) (k : nat) (outcomes : list bool) : list Z :=
  match outcomes with
  | [] => []
  | true :: os => base :: delays base 1 os
  | false :: os => delay base k :: delays base (S k) os
  end.

Lemma delay_step base k : 0 <= base -> Z.min (delay base k * 2) MAX_BACKOFF = delay base (S k).
Proof.
  intros Hb. unfold delay, MAX_BACKOFF. destruct k as [|k]; [cbn; f_equal; lia|].
  rewrite (Nat2Z.inj_succ (S k)), Z.pow_succ_r by lia. lia.
Qed.
Lemma delay_bounds base k : 0 <= base -> Z.min base 60 <= delay base k <= Z.max base 60.
Proof.
  intros Hb. destruct k as [|k]; cbn [delay]; [lia|]. unfold MAX_BACKOFF.
  assert (1 <= 2 ^ Z.of_nat (S k)) by (apply (Z.pow_le_mono_r 2 0); lia). nia.
Qed.
Lemma delays_bounds base outcomes k : 0 <= base -> Forall (fun w => Z.min base 60 <= w <= Z.max base 60) (delays base k outcomes).
Proof.
  intros Hb. revert k. induction outcomes as [|[] os IH]; intros k; cbn; constructor; auto; [lia|by apply delay_bounds].
Qed.

(** ** Opening a stream *)

Lemma bearer_token_Ok c s h :
  bearer_token c s = Ok h <->
  match s_token_path c with
  | None => h = None
  | Some path => exists raw, se_files s path = Some raw /\ trim raw <> "" /\ h = Some ("Bearer " +:+ trim raw) /\
                   se_header_ok s ("Bearer " +:+ trim raw) = true
  end.
Proof.
  unfold bearer_token. destruct (s_token_path c) as [p|]; [|naive_solver].
  destruct (se_files s p) as [raw|]; cbn [ok_or mbind result_bind]; [|by split; [|intros (? & ? & _)]].
  destruct (trim raw) as [|a r] eqn:E; cbn [is_empty guard_err mbind result_bind];
    [split; [done|]; intros (? & [= <-] & Hne & _); congruence|].
  destruct (se_header_ok s _) eqn:Eh; cbn [guard_err negb mbind result_bind].
  - split; [intros [= <-]|intros (raw' & [= <-] & _ & -> & _); by rewrite E].
    exists raw. rewrite E. split_and!; done.
  - split; [done|]. intros (raw' & [= <-] & _ & _ & H). rewrite E in H. congruence.
Qed.

Lemma grpc_apply_settings u m : settings (grpc_apply u m) = settings m.
Proof. unfold grpc_apply, apply, writer_step, reject. repeat case_match; simplify_eq; done. Qed.

Lemma take_turns_cons c t ts : take_turns c (t :: ts) = take_turns (take_turn c t) ts.
Proof. done. Qed.

(** Other threads never change the configuration. *)
Definition keeps_settings (t : turn) : Prop := match t with Others act => forall m, settings (act m) = settings m | _ => True end.
Definition session_ok (s : Session) : Prop := Forall keeps_settings (se_opening s ++ se_turns s).

Lemma take_turns_settings ts c : Forall keeps_settings ts -> settings (c_manager (take_turns c ts)) = settings (c_manager c).
Proof.
  intros H. revert c. induction H as [|t ts Ht _ IH]; intros c; [done|]. rewrite take_turns_cons, (IH (take_turn c t)).
  destruct t as [|act|u]; cbn [take_turn]; [|apply Ht|apply grpc_apply_settings]. destruct (c_sent c); [|done].
  by destruct (sync_round _ _ _) as [[s ms] tx].
Qed.

Lemma run_stream_settings endpoint s m r m' a :
  session_ok s -> run_stream endpoint s m = (r, m', a) -> settings m' = settings m.
Proof.
  unfold session_ok. rewrite Forall_app. intros [Ho Ht]. unfold run_stream. destruct (mbind _ _) as [h|]; [|by intros [= <- <- <-]].
  assert (Ho' : Forall keeps_settings (List.filter not_update (se_opening s))).
  { apply Forall_forall. intros t [Hin _]%list_elem_of_In%filter_In. rewrite Forall_forall in Ho. by apply Ho, list_elem_of_In. }
  destruct (se_accepted s); intros [= <- <- <-]; [|by rewrite take_turns_settings].
  rewrite take_turns_settings by done. cbn. by rewrite take_turns_settings.
Qed.

(** The header a stream was asked for with. *)
Definition header_ok (c : PolicySettings) (s : Session) (a : Asked) : Prop :=
  match s_token_path c with
  | None => a_header a = None
  | Some path => exists raw, se_files s path = Some raw /\ trim raw <> "" /\ a_header a = Some ("Bearer " +:+ trim raw)
  end.

Lemma run_stream_header endpoint s m r m' a :
  run_stream endpoint s m = (r, m', Some a) -> header_ok (stream (settings m)) s a.
Proof.
  unfold run_stream. destruct (mbind _ _) as [h|] eqn:E; [|done]. apply bind_Ok in E as (tls & _ & Hb%bearer_token_Ok).
  assert (H : forall ms, header_ok (stream (settings m)) s (mkAsked h ms)).
  { intros ms. unfold header_ok. destruct (s_token_path _); [naive_solver|done]. }
  destruct (se_accepted s); intros [= _ _ <-]; apply H.
Qed.

(** ** Subscriptions are made again on every connection *)

Definition in_step (c : Conn) : Prop :=
  c_tx c = None /\ exists sent, c_sent c = Some sent /\ NoDup sent /\ backend ∅ (c_messages c) = list_to_set sent.

Lemma take_turn_in_step c t : in_step c -> in_step (take_turn c t).
Proof.
  intros (Htx & sent & Hs & Hn & Hb). destruct t as [|act|u]; [|by split; [|exists sent]..]. cbn. rewrite Hs, Htx.
  destruct (sync_round_open (c_manager c) sent Hn) as (kept & ms & -> & Hk & Hw & Hm & _).
  split; [done|]. exists kept. do 2 (split; [done|]). cbn. unfold backend in *. by rewrite foldl_app, Hb, Hm.
Qed.
Lemma take_turns_in_step ts c : in_step c -> in_step (take_turns c ts).
Proof. revert c. induction ts as [|t ts IH]; intros c H; [done|]. rewrite take_turns_cons. by apply IH, take_turn_in_step. Qed.
Lemma sync_told c : in_step c -> backend ∅ (c_messages (take_turn c Sync)) = wanted (c_manager (take_turn c Sync)).
Proof.
  intros (Htx & sent & Hs & Hn & Hb). cbn. rewrite Hs, Htx.
  destruct (sync_round_open (c_manager c) sent Hn) as (kept & ms & -> & Hk & Hw & Hm & _).
  cbn. unfold backend in *. by rewrite foldl_app, Hb, Hm.
Qed.

(** Whatever earlier connections told the backend, on a connection whose
    channel stays open every pass of the subscription task leaves the messages
    of this connection alone subscribing to exactly what the node wants at that
    moment: a reconnection resubscribes everything, and nothing else. *)
Theorem connection_resubscribes (m : Manager) (ts : list turn) :
  let c := take_turns (mkConn m (Some []) None []) (ts ++ [Sync]) in
  backend ∅ (c_messages c) = wanted (c_manager c).
Proof.
  cbn zeta. unfold take_turns. rewrite foldl_app. apply sync_told, take_turns_in_step.
  split; [done|]. exists []. split; [done|]. split; [constructor|done].
Qed.

(** ** The loop *)

Lemma wrap_id n : in_u64 n -> wrap 64 n = n.
Proof. unfold in_u64, u64_max. intros H. apply wrap_small. lia. Qed.

(** What the rounds over some sessions added to the books. *)
Record rounds_ok (base : Z) (k : nat) (l l' : Loop) (ss : list Session) (os : list bool) (asks : list (option Asked)) : Prop := {
  ro_outcomes : l_outcomes l' = l_outcomes l ++ os;
  ro_waits : l_waits l' = l_waits l ++ delays base k os;
  ro_asked : l_asked l' = l_asked l ++ asks;
  ro_length : length os = length ss;
  ro_reconnects : l_reconnects l' = wrap 64 (l_reconnects l + Z.of_nat (length (List.filter negb os)));
  ro_headers : Forall2 (fun s o => forall a, o = Some a -> header_ok (stream (settings (l_manager l))) s a) ss asks;
  ro_settings : settings (l_manager l') = settings (l_manager l);
}.

Lemma round_run endpoint base k l s :
  0 <= base < 2 ^ 63 -> l_backoff l = delay base k -> in_u64 (l_reconnects l) -> session_ok s ->
  exists (ok : bool) a l', round endpoint base l s = Some l' /\ l_manager l' = set_connected false (run_stream endpoint s (l_manager l)).1.2 /\
    l_backoff l' = delay base (if ok then 1 else S k)%nat /\ in_u64 (l_reconnects l') /\
    rounds_ok base k l l' [s] [ok] [a].
Proof.
  intros Hb Hk Hr Hs. unfold round. destruct (run_stream endpoint s (l_manager l)) as [[r m'] a] eqn:E.
  apply run_stream_settings in E as Hset; [|done]. pose proof (delay_bounds base k ltac:(lia)) as Hd.
  assert (Hh : Forall2 (fun s o => forall a, o = Some a -> header_ok (stream (settings (l_manager l))) s a) [s] [a]).
  { repeat constructor. intros a' ->. by eapply run_stream_header. }
  unfold checked_mul_u64. destruct r as [[]|e].
  - rewrite (proj2 (Z.leb_le (base * 2) u64_max)) by (unfold u64_max; lia). cbn [mbind option_bind].
    eexists true, a, _. split; [done|]. split; [done|]. split; [exact (delay_step base 0 ltac:(lia))|]. split; [done|].
    split; try done. cbn. by rewrite Z.add_0_r, wrap_id.
  - rewrite (proj2 (Z.leb_le (l_backoff l * 2) u64_max)) by (rewrite Hk; unfold u64_max; lia). cbn [mbind option_bind].
    eexists false, a, _. split; [done|]. split; [done|]. cbn [l_backoff l_reconnects]. split; [by rewrite Hk, delay_step by lia|].
    split; [unfold in_u64, wrap, u64_max; pose proof (Z.mod_pos_bound (l_reconnects l + 1) (2 ^ 64)); lia|].
    split; try done. cbn. by rewrite Hk.
Qed.

Lemma watch_rounds_run endpoint base ss l k :
  0 <= base < 2 ^ 63 -> l_backoff l = delay base k -> in_u64 (l_reconnects l) -> Forall session_ok ss ->
  exists l' os asks, rounds endpoint base l ss = Some l' /\ rounds_ok base k l l' ss os asks.
Proof.
  intros Hb Hk Hr Hss. revert l k Hk Hr. induction Hss as [|s ss Hs _ IH]; intros l k Hk Hr; cbn [rounds].
  { exists l, [], []. split; [done|]. split; cbn; rewrite ?app_nil_r, ?Z.add_0_r, ?wrap_id; done || constructor. }
  destruct (round_run endpoint base k l s Hb Hk Hr Hs) as (ok & a & l1 & -> & _ & Hk1 & Hr1 & [O1 W1 A1 _ R1 H1 S1]).
  destruct (IH l1 _ Hk1 Hr1) as (l' & os & asks & E & [O2 W2 A2 N2 R2 H2 S2]). cbn [mbind option_bind].
  exists l', (ok :: os), (a :: asks). split; [exact E|]. rewrite S1 in H2. split.
  - by rewrite O2, O1, <- app_assoc.
  - rewrite W2, W1, <- app_assoc. by destruct ok.
  - by rewrite A2, A1, <- app_assoc.
  - cbn. by rewrite N2.
  - rewrite R2, R1. unfold wrap. rewrite Zplus_mod_idemp_l. f_equal. destruct ok; cbn; lia.
  - constructor; [|done]. by inversion H1.
  - by rewrite S2, S1.
Qed.

(** C29: The daemon never stops trying, and never waits longer than a minute or the
    configured delay, whichever is more: the delays are the configured one
    after a clean end of the stream, and else the double of the one before, up
    to a minute.  Every failure is counted.  A stream is asked for without an
    authorization header only when no token file is configured; with one, it
    carries the token that the file holds at that very connection. *)
Theorem stream_reconnects (m : Manager) (endpoint : string) (reconnects : Z) (ss : list Session) :
  stream_enabled (settings m) = true -> s_endpoint (stream (settings m)) = Some endpoint ->
  0 <= reconnect_backoff (stream (settings m)) < 2 ^ 63 -> in_u64 reconnects -> Forall session_ok ss ->
  let base := reconnect_backoff (stream (settings m)) in
  exists l, watch_loop m reconnects ss = Some l /\ length (l_outcomes l) = length ss /\
    l_waits l = delays base 0 (l_outcomes l) /\
    Forall (fun w => Z.min base 60 <= w <= Z.max base 60) (l_waits l) /\
    l_reconnects l = wrap 64 (reconnects + Z.of_nat (length (List.filter negb (l_outcomes l)))) /\
    Forall2 (fun s o => forall a, o = Some a -> header_ok (stream (settings m)) s a) ss (l_asked l).
Proof.
  intros He Hp Hb Hr Hss base. unfold watch_loop. rewrite He, Hp. cbn [negb].
  destruct (watch_rounds_run endpoint base ss (mkLoop m reconnects base [] [] []) 0 Hb eq_refl Hr Hss)
    as (l & os & asks & E & [O W A N R H _]). cbn in O, W, A, R, H.
  exists l. split; [exact E|]. rewrite O, W, A. split_and!; try done. apply delays_bounds. lia.
Qed.

(** ** An outage changes nothing that is held *)

Definition quiet (t : turn) : Prop := t = Sync.
Lemma take_turns_quiet ts c : Forall quiet ts -> c_manager (take_turns c ts) = c_manager c.
Proof.
  intros H. revert c. induction H as [|t ts -> _ IH]; intros c; [done|]. rewrite take_turns_cons, (IH (take_turn c Sync)). cbn.
  destruct (c_sent c); [|done]. by destruct (sync_round _ _ _) as [[s ms] tx].
Qed.

(** However often the stream breaks, what the node wants and holds stays as it
    is until an update or another thread changes it. *)
Theorem outage_keeps_policy (endpoint : string) (base : Z) (l l' : Loop) (ss : list Session) :
  Forall (fun s => Forall quiet (se_opening s ++ se_turns s)) ss -> rounds endpoint base l ss = Some l' ->
  wanted (l_manager l') = wanted (l_manager l) /\ bundles (l_manager l') = bundles (l_manager l) /\
  fleet (l_manager l') = fleet (l_manager l) /\ dirty (l_manager l') = dirty (l_manager l).
Proof.
  intros H. revert l. induction H as [|s ss [Ho Ht]%Forall_app _ IH]; intros l; cbn [rounds]; [by intros [= ->]|].
  intros (l1 & E1 & E)%bind_Some. apply IH in E as (-> & -> & -> & ->). unfold round in E1.
  assert (Hm : exists c, set_connected false (run_stream endpoint s (l_manager l)).1.2 = set_connected c (l_manager l)).
  { exists false. unfold run_stream. destruct (mbind _ _); [|done].
    assert (Ho' : Forall quiet (List.filter not_update (se_opening s))).
    { apply Forall_forall. intros t [Hin _]%list_elem_of_In%filter_In. rewrite Forall_forall in Ho. by apply Ho, list_elem_of_In. }
    destruct (se_accepted s); cbn [fst snd]; by repeat (rewrite take_turns_quiet by done; cbn [c_manager]). }
  destruct Hm as [c Hm]. destruct (run_stream endpoint s (l_manager l)) as [[r m'] a]. cbn [fst snd] in Hm.
  destruct r as [[]|]; apply bind_Some in E1 as (tw & _ & [= <-]); cbn [l_manager]; by rewrite Hm.
Qed.

(** ** Witnesses *)

Module StreamWitness.
Definition config : PolicyConfig :=
  mkPolicyConfig "node-1" "a" "d" "/v" DEFAULT_TEMPLATE None
    (mkStream true (Some "https://policy:443") (Some "/ca") (Some "/token") 10) None 5 420 "" LInfo.
Definition start : Manager := subscribe "spiffe://d/a" (new config).
Definition session (token : option string) (accepted clean : bool) : Session :=
  mkSession (fun p => if String.eqb p "/token" then token else Some "CA") true (fun _ => true) true (fun _ => true) None
    [Sync] accepted [Others (subscribe "spiffe://d/b"); Sync] clean.
Definition day : list Session :=
  [session None true true; session (Some "t1 ") false false; session (Some "t1") true false;
   session (Some "t2") true true; session (Some "") true true].

(** Failures double the delay, a clean end resets it; the header follows the
    file, and a missing or empty token opens nothing. *)
Example a_day :
  option_map (fun l => (l_waits l, l_reconnects l, List.map (option_map a_header) (l_asked l))) (watch_loop start 0 day) =
  Some ([10; 20; 40; 10; 20], 4, [None; Some (Some "Bearer t1"); Some (Some "Bearer t1"); Some (Some "Bearer t2"); None]).
Proof. vm_compute. reflexivity. Qed.

Lemma day_ok : Forall session_ok day.
Proof.
  assert (H : forall t a c, session_ok (session t a c)).
  { intros t a c. unfold session_ok. cbn. repeat constructor. intros m. unfold subscribe. by repeat case_match. }
  unfold day. rewrite !Forall_cons. split_and!; try apply H. constructor.
Qed.

Lemma stream_reconnects_witness :
  exists l, watch_loop start 0 day = Some l /\ length (l_outcomes l) = 5%nat /\
    l_waits l = delays 10 0 (l_outcomes l) /\ Forall (fun w => 10 <= w <= 60) (l_waits l) /\
    l_reconnects l = wrap 64 (0 + Z.of_nat (length (List.filter negb (l_outcomes l)))) /\
    Forall2 (fun s o => forall a, o = Some a -> header_ok (stream config) s a) day (l_asked l).
Proof.
  apply (stream_reconnects start "https://policy:443" 0 day); [reflexivity..| | |exact day_ok].
  - change (0 <= 10 < 2 ^ 63). lia.
  - unfold in_u64, u64_max. lia.
Defined.
End StreamWitness.
