(* ===== verification/Host.v ===== *)
(** * Mounts  (svidlet/src/volume.rs)

    What volume.rs does to the host around a volume's files: the tmpfs behind a
    target path, and the farm of bind mounts through which the policy daemon
    sees the volumes.  A target and its farm entry share one tree, so trees live
    in a store of their own and both name it by number: a write through one is
    seen through the other, and unmounting one leaves the tree to the other.

    Only the targets and the farm are kept of the host's own file system;
    creating the directories above them is part of the call that needs them.
    The [fault]s are those of [Fs], one per system call. *)

From S2P Require Import Prelude RustStr Fs Volume NodeStore.
Open Scope list_scope.
Open Scope Z_scope.

(** A target: the directory itself, and the tmpfs mounted over it. *)
Record dir := mkDir { own : nat; mnt : option nat }.
Definition visible (d : dir) : nat := default (own d) (mnt d).

Notation targets := (@gmap PathBuf PathBuf_eq_dec PathBuf_countable dir).

Record host := mkHost {
  trees : gmap nat fs;
  next_tree : nat;
  dirs : targets;
  (** The farm's entries: bind mounts of a tree, or plain empty directories. *)
  farm : gmap string (option nat);
  hfaults : list (option fault);
}.

Definition hio (A : Type) : Type := host -> result IoKind A * host.
#[export] Instance hio_ret : MRet hio := fun A a h => (Ok a, h).
#[export] Instance hio_bind : MBind hio := fun A B k m h =>
  match m h with
  | (Ok a, h) => k a h
  | (Err e, h) => (Err e, h)
  end.
Definition hfail {A : Type} (e : IoKind) : hio A := fun h => (Err e, h).
Definition hattempt {A : Type} (m : hio A) : hio (result IoKind A) := fun h =>
  let '(r, h) := m h in (Ok r, h).

Definition with_faults (fl : list (option fault)) (h : host) : host :=
  mkHost (trees h) (next_tree h) (dirs h) (farm h) fl.
Definition with_dirs (ds : targets) (h : host) : host :=
  mkHost (trees h) (next_tree h) ds (farm h) (hfaults h).
Definition with_farm (fm : gmap string (option nat)) (h : host) : host :=
  mkHost (trees h) (next_tree h) (dirs h) fm (hfaults h).
Definition with_trees (ts : gmap nat fs) (n : nat) (h : host) : host :=
  mkHost ts n (dirs h) (farm h) (hfaults h).

(** One system call. *)
Definition hcall {A : Type} (partial : fault -> host -> host) (ok : host -> result IoKind (A * host)) : hio A :=
  fun h =>
    match hfaults h with
    | Some ft :: rest => (Err (kind ft), with_faults rest (partial ft h))
    | faults =>
        match ok h with
        | Ok (a, h') => (Ok a, with_faults (tail faults) h')
        | Err e => (Err e, with_faults (tail faults) h)
        end
    end.
Definition unchanged (_ : fault) (h : host) : host := h.

(** ** The calls *)

Definition new_tree (h : host) : nat * host :=
  (next_tree h, with_trees (<[next_tree h := ∅]> (trees h)) (S (next_tree h)) h).

Definition create_dir_all (t : PathBuf) : hio unit := hcall unchanged (fun h =>
  match dirs h !! t with
  | Some _ => Ok (tt, h)
  | None => let '(n, h) := new_tree h in Ok (tt, with_dirs (<[t := mkDir n None]> (dirs h)) h)
  end).

(** [metadata(path)] and [metadata(path.parent())]: a tmpfs is another device
    than the directory it is mounted in, and a bind mount is in the mount
    table; a plain directory is neither. *)
Definition target_metadata (t : PathBuf) : hio bool := hcall unchanged (fun h =>
  match dirs h !! t with
  | Some d => Ok (bool_decide (is_Some (mnt d)), h)
  | None => Err NotFound
  end).
Definition parent_metadata : hio unit := hcall unchanged (fun h => Ok (tt, h)).

Definition is_mount_point (t : PathBuf) : hio bool :=
  elsewhere ← target_metadata t;
  _ ← parent_metadata;
  mret elsewhere.

(** [CString::new] refuses an interior NUL. *)
Definition cstring (t : PathBuf) : hio unit :=
  if existsb (has_char "000") t.2 then hfail InvalidInput else mret tt.

(** The data of the mount: group-writable only for a policy group. *)
Definition mount_options (size : string) (policy_gid : option Z) : string :=
  match policy_gid with
  | Some gid => "size=" +:+ size +:+ ",mode=0775,gid=" +:+ show_u64 gid
  | None => "size=" +:+ size +:+ ",mode=0755"
  end.

(** [mount(2)]; options the kernel does not take are a call that fails.  The
    mode and the group of the new file system's root are not in [host]. *)
Definition mount_tmpfs (t : PathBuf) (size : string) (policy_gid : option Z) : hio unit :=
  _ ← cstring t;
  _ ← (if has_char "000" (mount_options size policy_gid) then hfail InvalidInput else mret tt);
  hcall unchanged (fun h =>
    match dirs h !! t with
    | Some d => let '(n, h) := new_tree h in Ok (tt, with_dirs (<[t := mkDir (own d) (Some n)]> (dirs h)) h)
    | None => Err NotFound
    end).

(** [umount2(MNT_DETACH)]; [EINVAL], for a path that is no mount point, is not
    an error. *)
Definition unmount (t : PathBuf) : hio unit :=
  _ ← cstring t;
  hcall unchanged (fun h =>
    match dirs h !! t with
    | Some d => Ok (tt, with_dirs (<[t := mkDir (own d) None]> (dirs h)) h)
    | None => Err NotFound
    end).

Definition target_exists (t : PathBuf) : hio bool :=
  r ← hattempt (target_metadata t);
  mret (match r with Ok _ => true | Err _ => false end).

(** [remove_dir_all(target)]: what is visible in it goes first, then the
    directory itself, which fails on a mount point. *)
Definition empty_tree (ft : option fault) (n : nat) (h : host) : host :=
  with_trees (alter (fun f => filter (fun kv => from_option (fun ft => left_behind ft [] kv.1) false ft = true) f)
                n (trees h)) (next_tree h) h.
Definition remove_contents (t : PathBuf) : hio unit :=
  hcall (fun ft h => match dirs h !! t with Some d => empty_tree (Some ft) (visible d) h | None => h end)
    (fun h => match dirs h !! t with
              | Some d => Ok (tt, empty_tree None (visible d) h)
              | None => Err NotFound
              end).
Definition remove_dir (t : PathBuf) : hio unit := hcall unchanged (fun h =>
  match dirs h !! t with
  | Some d => match mnt d with Some _ => Err OtherIo | None => Ok (tt, with_dirs (delete t (dirs h)) h) end
  | None => Err NotFound
  end).
Definition remove_dir_all (t : PathBuf) : hio unit := _ ← remove_contents t; remove_dir t.

(** ** Targets *)

Definition ensure_tmpfs (t : PathBuf) (size : string) (policy_gid : option Z) : hio unit :=
  _ ← create_dir_all t;
  there ← is_mount_point t;
  if (there : bool) then mret tt else mount_tmpfs t size policy_gid.

Definition unpublish (t : PathBuf) : hio unit :=
  there ← target_exists t;
  if negb there then mret tt
  else
    m ← hattempt (is_mount_point t);
    _ ← (match m with Ok true => unmount t | _ => mret tt end);
    r ← hattempt (remove_dir_all t);
    match r with
    | Ok _ | Err NotFound => mret tt
    | Err e => hfail e
    end.

(** ** The farm *)

(** [create_dir_all(farm_root)]. *)
Definition create_farm : hio unit := hcall unchanged (fun h => Ok (tt, h)).

Definition point_metadata (name : string) : hio bool := hcall unchanged (fun h =>
  match farm h !! name with
  | Some m => Ok (bool_decide (is_Some m), h)
  | None => Err NotFound
  end).
Definition point_is_mount (name : string) : hio bool :=
  elsewhere ← point_metadata name;
  _ ← parent_metadata;
  mret elsewhere.
Definition create_point (name : string) : hio unit := hcall unchanged (fun h =>
  match farm h !! name with
  | Some _ => Err AlreadyExists
  | None => Ok (tt, with_farm (<[name := None]> (farm h)) h)
  end).
Definition bind_mount (t : PathBuf) (name : string) : hio unit := hcall unchanged (fun h =>
  match dirs h !! t, farm h !! name with
  | Some d, Some _ => Ok (tt, with_farm (<[name := Some (visible d)]> (farm h)) h)
  | _, _ => Err NotFound
  end).
Definition unmount_point (name : string) : hio unit := hcall unchanged (fun h =>
  match farm h !! name with
  | Some _ => Ok (tt, with_farm (<[name := None]> (farm h)) h)
  | None => Err NotFound
  end).
Definition remove_point (name : string) : hio unit := hcall unchanged (fun h =>
  match farm h !! name with
  | None => Err NotFound
  | Some (Some _) => Err OtherIo
  | Some None => Ok (tt, with_farm (delete name (farm h)) h)
  end).

Definition expose_at (name : string) (t : PathBuf) : hio unit :=
  there ← hattempt (point_metadata name);
  mounted ← (match there with Ok _ => point_is_mount name | Err _ => mret false end);
  if (mounted : bool) then mret tt
  else
    _ ← create_point name;
    _ ← cstring t;
    r ← hattempt (bind_mount t name);
    match r with
    | Ok _ => mret tt
    | Err e => _ ← hattempt (remove_point name); hfail e
    end.
Definition expose (name : string) (t : PathBuf) : hio unit :=
  _ ← create_farm; expose_at name t.

Definition unexpose_at (name : string) : hio unit :=
  m ← hattempt (point_is_mount name);
  _ ← (match m with Ok true => unmount_point name | _ => mret tt end);
  r ← hattempt (remove_point name);
  match r with
  | Ok _ | Err NotFound => mret tt
  | Err e => hfail e
  end.
(** [symlink_metadata(point).is_err()] looks at the entry itself. *)
Definition unexpose (name : string) : hio unit :=
  r ← hattempt (point_metadata name);
  match r with Err _ => mret tt | Ok _ => unexpose_at name end.

(** ** Working inside a tree *)

Definition tree (h : host) (n : nat) : fs := default ∅ (trees h !! n).

Definition in_tree {A : Type} (n : nat) (m : io A) : hio A := fun h =>
  let '(r, w) := m (mkWorld (tree h n) (hfaults h) []) in
  (r, mkHost (<[n := wfs w]> (trees h)) (next_tree h) (dirs h) (farm h) (wfaults w)).

(** Inside a target; [absent] is what the calls come to when it is not
    there. *)
Definition on_target {A : Type} (absent : result IoKind A) (t : PathBuf) (m : io A) : hio A := fun h =>
  match dirs h !! t with
  | Some d => in_tree (visible d) m h
  | None => (absent, h)
  end.

(** Inside what the farm shows under a name; a plain directory there is
    empty. *)
Definition on_point {A : Type} (absent : result IoKind A) (name : string) (m : io A) : hio A := fun h =>
  match farm h !! name with
  | Some (Some n) => in_tree n m h
  | _ => (absent, h)
  end.

(** ** /proc/self/mountinfo *)

(** [unescape_mountinfo] up to its final [from_utf8_lossy]: the bytes it
    collects.  [None] is a panic: the slice must end on a character boundary. *)
Definition on_boundary (r : string) : bool :=
  match r with String e _ => negb (cont e) | EmptyString => true end.
Fixpoint unescape_bytes (field : string) : option string :=
  match field with
  | EmptyString => Some EmptyString
  | String c rest =>
      match rest with
      | String a (String b (String d r)) =>
          if Ascii.eqb c "\" then
            if on_boundary r then
              match parse_uint 255 8 (String a (String b (String d EmptyString))) with
              | Some v => String (ascii_of_N (Z.to_N v)) <$> unescape_bytes r
              | None => String c <$> unescape_bytes rest
              end
            else None
          else String c <$> unescape_bytes rest
      | _ => String c <$> unescape_bytes rest
      end
  end.

(** The kernel's side (proc(5)): space, tab, newline and backslash are written
    as three octal digits. *)
Definition escaped (c : ascii) : bool := existsb (Ascii.eqb c) [" "; "009"; "010"; "\"]%char.
Definition octal (c : ascii) : string :=
  let n := Z.of_N (byte_of c) in
  let digit k := ascii_of_N (Z.to_N (48 + (n / 8 ^ k) mod 8)) in
  String (digit 2) (String (digit 1) (String (digit 0) EmptyString)).
Fixpoint escape_mountinfo (p : string) : string :=
  match p with
  | EmptyString => EmptyString
  | String c p => if escaped c then String "\" (octal c +:+ escape_mountinfo p) else String c (escape_mountinfo p)
  end.

(** ** The volume readers only look *)

Lemma reads_read_cert_chain : reads read_cert_chain.
Proof. apply reads_bind; [auto with reads|]. intros [s|e]; auto with reads. Qed.
Lemma reads_published_revision : reads published_revision.
Proof. apply reads_bind; auto with reads. Qed.
Lemma reads_read_identity : reads read_identity.
Proof.
  unfold read_identity. generalize 4%nat NotFound. intros tries. induction tries as [|tries IH]; intros e; cbn.
  { auto with reads. }
  apply reads_bind; [auto with reads|]. intros rel.
  apply reads_bind; [apply reads_attempt, reads_read_generation|]. intros [i|[]]; auto with reads.
Qed.
Lemma reads_read_files d names : reads (read_files d names).
Proof.
  induction names as [|n names IH]; cbn; [auto with reads|].
  apply reads_bind; [auto with reads|]. intros r. apply reads_bind; auto with reads.
Qed.
Lemma reads_read_tokens : reads read_tokens.
Proof.
  apply reads_bind; [auto with reads|]. intros [g|e]; [|auto with reads].
  apply reads_bind; [apply reads_attempt, only_read_dir|]. intros [ns|e]; [|auto with reads].
  apply reads_bind; [apply reads_read_files|]. auto with reads.
Qed.
#[export] Hint Resolve reads_read_cert_chain reads_published_revision reads_read_identity reads_read_tokens : reads.

(** ** How a host evolves *)

(** Targets and farm as they were, and each tree related to what it was. *)
Record evolves (P : nat -> fs -> fs -> Prop) (h h' : host) : Prop := {
  ev_farm : farm h' = farm h;
  ev_dirs : dirs h' = dirs h;
  ev_trees : forall n, P n (tree h n) (tree h' n);
}.
Definition same (n : nat) (f f' : fs) : Prop := f' = f.
Definition looks {A : Type} (m : hio A) : Prop := forall h r h', m h = (r, h') -> evolves same h h'.

Lemma evolves_refl h : evolves same h h.
Proof. by split. Qed.
Lemma evolves_trans P h h1 h2 : evolves same h h1 -> evolves P h1 h2 -> evolves P h h2.
Proof.
  intros [F1 D1 T1] [F2 D2 T2]. split; [congruence|congruence|]. intros n. rewrite <- (T1 n). apply T2.
Qed.
Lemma evolves_faults fl h : evolves same h (with_faults fl h).
Proof. by split. Qed.

Lemma looks_ret {A : Type} (a : A) : looks (mret a).
Proof. intros h r h' [= <- <-]. apply evolves_refl. Qed.
Lemma looks_fail {A : Type} (e : IoKind) : looks (hfail e : hio A).
Proof. intros h r h' [= <- <-]. apply evolves_refl. Qed.
Lemma looks_bind {A B : Type} (m : hio A) (k : A -> hio B) : looks m -> (forall a, looks (k a)) -> looks (m ≫= k).
Proof.
  intros Hm Hk h r h' E. unfold mbind, hio_bind in E. destruct (m h) as [[a|e] h1] eqn:Em.
  - eapply evolves_trans; [by eapply Hm|by eapply Hk].
  - injection E as <- <-. by eapply Hm.
Qed.
Lemma looks_attempt {A : Type} (m : hio A) : looks m -> looks (hattempt m).
Proof.
  intros Hm h r h' E. unfold hattempt in E. destruct (m h) as [r1 h1] eqn:Em. injection E as <- <-. by eapply Hm.
Qed.
Lemma looks_call {A : Type} (ok : host -> result IoKind (A * host)) :
  (forall h a h', ok h = Ok (a, h') -> evolves same h h') -> looks (hcall unchanged ok).
Proof.
  intros Hok h r h' E. unfold hcall in E.
  destruct (hfaults h) as [|[ft|] rest]; [|injection E as <- <-; apply evolves_faults|];
    (destruct (ok h) as [[a h1]|e] eqn:Eo; injection E as <- <-; [|apply evolves_faults];
     eapply evolves_trans; [by eapply Hok|apply evolves_faults]).
Qed.

Lemma in_tree_run {A : Type} n (m : io A) h r h' :
  in_tree n m h = (r, h') ->
  exists w', m (mkWorld (tree h n) (hfaults h) []) = (r, w') /\
    h' = mkHost (<[n := wfs w']> (trees h)) (next_tree h) (dirs h) (farm h) (wfaults w').
Proof.
  unfold in_tree. destruct (m _) as [r1 w1]. intros [= <- <-]. by exists w1.
Qed.

Lemma tree_insert_at k n (f : fs) h nt ds fm fl :
  tree (mkHost (<[n := f]> (trees h)) nt ds fm fl) k = if decide (k = n) then f else tree h k.
Proof.
  unfold tree. cbn [trees]. destruct (decide (k = n)) as [->|Hne]; [by rewrite lookup_insert_eq|].
  by rewrite lookup_insert_ne.
Qed.

Lemma in_tree_evolves {A : Type} n (m : io A) h r h' w' :
  in_tree n m h = (r, h') -> m (mkWorld (tree h n) (hfaults h) []) = (r, w') ->
  evolves (fun k f f' => f' = if decide (k = n) then wfs w' else f) h h'.
Proof.
  intros (w1 & E & ->)%in_tree_run E'. rewrite E in E'. injection E' as <-. split; [done|done|].
  intros k. apply tree_insert_at.
Qed.

Lemma looks_in_tree {A : Type} n (m : io A) : reads m -> looks (in_tree n m).
Proof.
  intros Hm h r h' E. pose proof (in_tree_run _ _ _ _ _ E) as (w' & E' & _).
  destruct (in_tree_evolves _ _ _ _ _ _ E E') as [F D T]. split; [done|done|]. intros k.
  specialize (T k). cbn in T. destruct (decide (k = n)) as [->|]; [|exact T].
  unfold same. rewrite T. exact (reads_run _ _ _ _ Hm E').
Qed.

Lemma looks_on_target {A : Type} (absent : result IoKind A) t m : reads m -> looks (on_target absent t m).
Proof.
  intros Hm h r h' E. unfold on_target in E. destruct (dirs h !! t); [by eapply looks_in_tree|].
  injection E as <- <-. apply evolves_refl.
Qed.
Lemma looks_on_point {A : Type} (absent : result IoKind A) name m : reads m -> looks (on_point absent name m).
Proof.
  intros Hm h r h' E. unfold on_point in E. destruct (farm h !! name) as [[n|]|];
    [by eapply looks_in_tree| |]; injection E as <- <-; apply evolves_refl.
Qed.

Create HintDb looks.
#[export] Hint Resolve looks_ret looks_fail looks_bind looks_attempt looks_on_target looks_on_point : looks.

(** ** When no call fails *)

Lemma hbind_ok {A B : Type} (m : hio A) (k : A -> hio B) h a h' : m h = (Ok a, h') -> (m ≫= k) h = k a h'.
Proof. intros E. unfold mbind, hio_bind. by rewrite E. Qed.
Lemma hattempt_run {A : Type} (m : hio A) h r h' : m h = (r, h') -> hattempt m h = (Ok r, h').
Proof. intros E. unfold hattempt. by rewrite E. Qed.

Definition calm (h : host) : Prop := hfaults h = [].
Lemma calm_id h : calm h -> with_faults [] h = h.
Proof. destruct h. unfold calm. cbn. by intros ->. Qed.
Lemma hcall_ok {A : Type} partial (ok : host -> result IoKind (A * host)) h a h' :
  calm h -> ok h = Ok (a, h') -> calm h' -> hcall partial ok h = (Ok a, h').
Proof. intros Hc E Hc'. unfold hcall. rewrite Hc, E. cbn. by rewrite calm_id. Qed.
Lemma hcall_err {A : Type} partial (ok : host -> result IoKind (A * host)) h e :
  calm h -> ok h = Err e -> hcall partial ok h = (Err e, h).
Proof. intros Hc E. unfold hcall. rewrite Hc, E. cbn. by rewrite calm_id. Qed.

Section calm_host.
Variable h : host.
Hypothesis Hc : calm h.

Lemma target_metadata_ok t d : dirs h !! t = Some d -> target_metadata t h = (Ok (bool_decide (is_Some (mnt d))), h).
Proof using Hc. intros E. apply hcall_ok; [done| |done]. by rewrite E. Qed.
Lemma parent_metadata_ok : parent_metadata h = (Ok tt, h).
Proof using Hc. by apply hcall_ok. Qed.
Lemma is_mount_point_ok t d : dirs h !! t = Some d -> is_mount_point t h = (Ok (bool_decide (is_Some (mnt d))), h).
Proof using Hc.
  intros E. unfold is_mount_point. rewrite (hbind_ok _ _ _ _ _ (target_metadata_ok _ _ E)).
  by rewrite (hbind_ok _ _ _ _ _ parent_metadata_ok).
Qed.
Lemma target_exists_ok t : target_exists t h = (Ok (bool_decide (is_Some (dirs h !! t))), h).
Proof using Hc.
  unfold target_exists. destruct (dirs h !! t) as [d|] eqn:E.
  - rewrite (hbind_ok _ _ _ _ _ (hattempt_run _ _ _ _ (target_metadata_ok _ _ E))). done.
  - erewrite hbind_ok; [|apply hattempt_run, hcall_err; [done|by rewrite E]]. done.
Qed.
Lemma unmount_ok (t : PathBuf) d :
  existsb (has_char "000") t.2 = false -> dirs h !! t = Some d ->
  unmount t h = (Ok tt, with_dirs (<[t := mkDir (own d) None]> (dirs h)) h).
Proof using Hc.
  intros Hz E. unfold unmount, cstring. rewrite Hz. rewrite (hbind_ok _ _ _ tt h) by done.
  apply hcall_ok; [done|by rewrite E|done].
Qed.
Lemma remove_dir_all_ok t d :
  dirs h !! t = Some d -> mnt d = None ->
  remove_dir_all t h = (Ok tt, with_dirs (delete t (dirs h)) (empty_tree None (visible d) h)).
Proof using Hc.
  intros E Em. unfold remove_dir_all. erewrite hbind_ok; [|apply hcall_ok; [done|cbn; by rewrite E|done]].
  apply hcall_ok; [done|cbn; by rewrite E, Em|done].
Qed.
Lemma point_metadata_ok name m : farm h !! name = Some m -> point_metadata name h = (Ok (bool_decide (is_Some m)), h).
Proof using Hc. intros E. apply hcall_ok; [done|by rewrite E|done]. Qed.
Lemma point_is_mount_ok name m : farm h !! name = Some m -> point_is_mount name h = (Ok (bool_decide (is_Some m)), h).
Proof using Hc.
  intros E. unfold point_is_mount. rewrite (hbind_ok _ _ _ _ _ (point_metadata_ok _ _ E)).
  by rewrite (hbind_ok _ _ _ _ _ parent_metadata_ok).
Qed.
Lemma unmount_point_ok name m :
  farm h !! name = Some m -> unmount_point name h = (Ok tt, with_farm (<[name := None]> (farm h)) h).
Proof using Hc. intros E. apply hcall_ok; [done|by rewrite E|done]. Qed.
Lemma remove_point_ok name :
  farm h !! name = Some None -> remove_point name h = (Ok tt, with_farm (delete name (farm h)) h).
Proof using Hc. intros E. apply hcall_ok; [done|by rewrite E|done]. Qed.
End calm_host.

(** Clearing a target leaves the farm and the other targets alone. *)
Lemma unpublish_clean (t : PathBuf) h :
  calm h -> existsb (has_char "000") t.2 = false ->
  exists h', unpublish t h = (Ok tt, h') /\ calm h' /\ dirs h' = delete t (dirs h) /\ farm h' = farm h.
Proof.
  intros Hc Hz. unfold unpublish. rewrite (hbind_ok _ _ _ _ _ (target_exists_ok _ Hc t)).
  destruct (dirs h !! t) as [d|] eqn:E; cbn [bool_decide negb].
  2: { rewrite bool_decide_eq_false_2 by (intros [? [=]]). exists h. by rewrite delete_id. }
  rewrite bool_decide_eq_true_2 by done. cbn [negb].
  rewrite (hbind_ok _ _ _ _ _ (hattempt_run _ _ _ _ (is_mount_point_ok _ Hc _ _ E))).
  destruct (mnt d) as [m|] eqn:Em.
  - rewrite bool_decide_eq_true_2 by done. rewrite (hbind_ok _ _ _ _ _ (unmount_ok _ Hc _ _ Hz E)).
    set (h1 := with_dirs _ h). assert (E1 : dirs h1 !! t = Some (mkDir (own d) None)) by apply lookup_insert_eq.
    rewrite (hbind_ok _ _ _ _ _ (hattempt_run _ _ _ _ (remove_dir_all_ok h1 Hc _ _ E1 eq_refl))).
    eexists. split; [reflexivity|]. split; [exact Hc|]. cbn. by rewrite delete_insert_eq.
  - rewrite bool_decide_eq_false_2 by (intros [? [=]]). rewrite (hbind_ok _ _ _ tt h) by done.
    rewrite (hbind_ok _ _ _ _ _ (hattempt_run _ _ _ _ (remove_dir_all_ok h Hc _ _ E Em))).
    by eexists.
Qed.

Lemma unexpose_clean name h :
  calm h ->
  exists h', unexpose name h = (Ok tt, h') /\ calm h' /\ dirs h' = dirs h /\ farm h' = delete name (farm h).
Proof.
  intros Hc. unfold unexpose. destruct (farm h !! name) as [m|] eqn:E.
  2: { erewrite hbind_ok; [|apply hattempt_run, hcall_err; [done|by rewrite E]]. exists h. by rewrite delete_id. }
  rewrite (hbind_ok _ _ _ _ _ (hattempt_run _ _ _ _ (point_metadata_ok _ Hc _ _ E))). unfold unexpose_at.
  rewrite (hbind_ok _ _ _ _ _ (hattempt_run _ _ _ _ (point_is_mount_ok _ Hc _ _ E))).
  destruct m as [m|].
  - rewrite bool_decide_eq_true_2 by done. rewrite (hbind_ok _ _ _ _ _ (unmount_point_ok _ Hc _ _ E)).
    set (h1 := with_farm _ h). assert (E1 : farm h1 !! name = Some None) by apply lookup_insert_eq.
    rewrite (hbind_ok _ _ _ _ _ (hattempt_run _ _ _ _ (remove_point_ok h1 Hc _ E1))).
    eexists. split; [reflexivity|]. split; [exact Hc|]. split; [done|]. apply delete_insert_eq.
  - rewrite bool_decide_eq_false_2 by (intros [? [=]]). rewrite (hbind_ok _ _ _ tt h) by done.
    rewrite (hbind_ok _ _ _ _ _ (hattempt_run _ _ _ _ (remove_point_ok h Hc _ E))).
    by eexists.
Qed.

(** ** Properties *)

Lemma escaped_cases c : escaped c = true -> c = " "%char \/ c = "009"%char \/ c = "010"%char \/ c = "\"%char.
Proof. unfold escaped. cbn. rewrite !orb_true_iff, !Ascii.eqb_eq. naive_solver. Qed.

(** In UTF-8 an ASCII byte is followed by the start of a character. *)
Fixpoint ascii_ends (p : string) : bool :=
  match p with
  | EmptyString => true
  | String c r => (if between 0 127 c then on_boundary r else true) && ascii_ends r
  end.

Lemma between_spec lo hi c : between lo hi c = true <-> (lo <= byte_of c <= hi)%N.
Proof. unfold between. rewrite andb_true_iff, !N.leb_le. done. Qed.

Lemma not_ascii c : cont c = true \/ between 194 223 c = true \/ between 224 239 c = true \/ between 240 244 c = true ->
  between 0 127 c = false.
Proof.
  intros H. apply not_true_iff_false. rewrite between_spec. unfold cont in H. rewrite !between_spec in H. lia.
Qed.

Lemma valid_on_boundary p : valid_utf8 p = true -> on_boundary p = true.
Proof.
  destruct p as [|c r]; [done|]. cbn. intros H. destruct (cont c) eqn:E; [|done]. exfalso.
  apply between_spec in E.
  destruct (between 0 127 c) eqn:E1; [apply between_spec in E1; lia|].
  destruct (between 194 223 c) eqn:E2; [apply between_spec in E2; lia|].
  destruct (between 224 239 c) eqn:E3; [apply between_spec in E3; lia|].
  destruct (between 240 244 c) eqn:E4; [apply between_spec in E4; lia|]. done.
Qed.

Lemma valid_ascii_ends n p : (String.length p <= n)%nat -> valid_utf8 p = true -> ascii_ends p = true.
Proof.
  revert p. induction n as [|n IH]; intros [|c r] Hn H; cbn [String.length] in Hn; try done; [lia|].
  cbn [valid_utf8] in H. cbn [ascii_ends].
  destruct (between 0 127 c) eqn:E1; [rewrite valid_on_boundary by done; apply IH; [lia|done]|].
  assert (Hc : forall x y, cont x = true -> ascii_ends y = true -> ascii_ends (String x y) = true).
  { intros x y Hx Hy. cbn. rewrite (not_ascii x) by auto. done. }
  destruct (between 194 223 c) eqn:E2.
  { destruct r as [|x r]; [done|]. apply andb_true_iff in H as [Hx Hr]. cbn in Hn.
    apply Hc; [done|]. apply IH; [lia|done]. }
  destruct (between 224 239 c) eqn:E3.
  { destruct r as [|x [|y r]]; [done..|]. rewrite !andb_true_iff in H. destruct H as [[Hx Hy] Hr]. cbn in Hn.
    assert (cont x = true).
    { unfold cont. apply between_spec. repeat case_match; apply between_spec in Hx; lia. }
    apply Hc; [done|]. apply Hc; [done|]. apply IH; [lia|done]. }
  destruct (between 240 244 c) eqn:E4; [|done].
  destruct r as [|x [|y [|z r]]]; [done..|]. rewrite !andb_true_iff in H. destruct H as [[[Hx Hy] Hz] Hr]. cbn in Hn.
  assert (cont x = true).
  { unfold cont. apply between_spec. repeat case_match; apply between_spec in Hx; lia. }
  apply Hc; [done|]. apply Hc; [done|]. apply Hc; [done|]. apply IH; [lia|done].
Qed.

Lemma escape_boundary p : on_boundary p = true -> on_boundary (escape_mountinfo p) = true.
Proof. destruct p as [|c r]; [done|]. intros H. cbn [escape_mountinfo]. destruct (escaped c); [reflexivity|exact H]. Qed.

Lemma unescape_plain c s : Ascii.eqb c "\" = false ->
  unescape_bytes (String c s) = String c <$> unescape_bytes s.
Proof. intros E. cbn [unescape_bytes]. destruct s as [|a [|b [|d r]]]; [done..|]. by rewrite E. Qed.

Lemma unescape_escape p : ascii_ends p = true -> unescape_bytes (escape_mountinfo p) = Some p.
Proof.
  induction p as [|c p IH]; [done|]. cbn [ascii_ends escape_mountinfo]. intros [Hb Hp]%andb_true_iff.
  specialize (IH Hp). destruct (escaped c) eqn:E.
  - apply escaped_cases in E.
    assert (Hb' : on_boundary (escape_mountinfo p) = true).
    { apply escape_boundary. by destruct E as [->|[->|[->| ->]]]. }
    destruct E as [->|[->|[->| ->]]]; cbn [octal String.append unescape_bytes];
      change (Ascii.eqb "\" "\") with true; cbv iota beta; rewrite Hb', IH; reflexivity.
  - rewrite unescape_plain, IH; [done|]. apply Ascii.eqb_neq. by intros ->.
Qed.

(** The mount table is read back as the kernel wrote it: unescaping the
    kernel's escaped form of a UTF-8 path never panics and gives the path. *)
Theorem mountinfo_roundtrip (p : string) :
  valid_utf8 p = true -> unescape_bytes (escape_mountinfo p) = Some p.
Proof. intros H. eapply unescape_escape, valid_ascii_ends, H. reflexivity. Qed.

Lemma mountinfo_roundtrip_witness :
  unescape_bytes (escape_mountinfo "/var/my volumes\x") = Some "/var/my volumes\x".
Proof. apply (mountinfo_roundtrip "/var/my volumes\x"). reflexivity. Defined.

(** Exposing a mounted volume when no call fails, by what the farm holds under
    its name.  Nothing there: the volume's own tree is bound there.  A bind
    mount already: nothing happens.  But a directory left behind - the farm
    outlives a reboot, its mounts do not - is refused, and refused again on
    every retry. *)
Theorem expose_spec (name : string) (t : PathBuf) (d : dir) (h : host) :
  calm h -> dirs h !! t = Some d -> existsb (has_char "000") t.2 = false ->
  expose name t h = match farm h !! name with
                    | None => (Ok tt, with_farm (<[name := Some (visible d)]> (farm h)) h)
                    | Some (Some _) => (Ok tt, h)
                    | Some None => (Err AlreadyExists, h)
                    end.
Proof.
  intros Hc Hd Hz. unfold expose. rewrite (hbind_ok _ _ _ tt h) by by apply hcall_ok. unfold expose_at.
  destruct (farm h !! name) as [m|] eqn:E.
  - rewrite (hbind_ok _ _ _ _ _ (hattempt_run _ _ _ _ (point_metadata_ok _ Hc _ _ E))).
    rewrite (hbind_ok _ _ _ _ _ (point_is_mount_ok _ Hc _ _ E)). destruct m as [m|].
    + by rewrite bool_decide_eq_true_2.
    + rewrite bool_decide_eq_false_2 by (intros [? [=]]).
      unfold mbind at 1, hio_bind at 1. unfold create_point. erewrite hcall_err; [done|done|]. cbn. by rewrite E.
  - erewrite hbind_ok; [|apply hattempt_run, hcall_err; [done|cbn; by rewrite E]].
    rewrite (hbind_ok _ _ _ false h) by done.
    set (h1 := with_farm (<[name := None]> (farm h)) h).
    rewrite (hbind_ok _ _ _ tt h1) by (apply hcall_ok; [done|cbn; by rewrite E|done]).
    rewrite (hbind_ok _ _ _ tt h1) by (unfold cstring; by rewrite Hz).
    set (h2 := with_farm (<[name := Some (visible d)]> (farm h)) h).
    erewrite hbind_ok; [|apply hattempt_run; apply (hcall_ok _ _ h1 tt h2); [done| |done]]; [done|].
    cbn. rewrite Hd, lookup_insert_eq. unfold h2, with_farm. by rewrite insert_insert_eq.
Qed.

Lemma expose_spec_witness :
  let t := PathBuf_from "/pods/u/mount" in
  let fresh := mkHost ∅ 2 {[ t := mkDir 0 (Some 1%nat) ]} ∅ [] in
  let rebooted := mkHost ∅ 2 {[ t := mkDir 0 (Some 1%nat) ]} {[ "csi-1" := None ]} [] in
  (expose "csi-1" t fresh).1 = Ok tt /\ (expose "csi-1" t rebooted).1 = Err AlreadyExists.
Proof.
  cbn zeta. split.
  - rewrite (expose_spec "csi-1" _ (mkDir 0 (Some 1%nat))); [reflexivity|reflexivity| |reflexivity].
    cbn [dirs]. apply lookup_singleton_eq.
  - rewrite (expose_spec "csi-1" _ (mkDir 0 (Some 1%nat))); [reflexivity|reflexivity| |reflexivity].
    cbn [dirs]. apply lookup_singleton_eq.
Defined.
