(* ===== verification/Mountinfo.v ===== *)
(** * The mount table  (svidlet/src/volume.rs)

    [listed_in_mountinfo]: whether a path is among the mount points of
    /proc/self/mountinfo, whose fifth field has them, escaped.  [Host] has the
    unescaping of one field; the table's format is the kernel's (proc(5)). *)

From S2P Require Import Prelude RustStr Fs Host.
Open Scope list_scope.
Open Scope Z_scope.

(** [str::lines]: each line ends with a newline, which may follow a carriage
    return; what is left after the last one is a line if it is not empty. *)
Fixpoint strip_cr (l : string) : string :=
  match l with
  | EmptyString => EmptyString
  | String c r =>
      match r with
      | EmptyString => if Ascii.eqb c "013" then EmptyString else l
      | _ => String c (strip_cr r)
      end
  end.
Definition lines (s : string) : list string :=
  let ls := split_char "010" s in
  (strip_cr <$> removelast ls) ++ (match last ls with Some l => if is_empty l then [] else [l] | None => [] end).

(** [String::from_utf8_lossy] (and [to_string_lossy]): what is not UTF-8 becomes
    U+FFFD, one for each longest prefix of a sequence that breaks off. *)
Definition replacement (rest : string) : string := String "239" (String "191" (String "189" rest)).
Fixpoint from_utf8_lossy (s : string) : string :=
  match s with
  | EmptyString => EmptyString
  | String b r =>
      if between 0 127 b then String b (from_utf8_lossy r)
      else if between 194 223 b then
        match r with
        | String c r1 => if cont c then String b (String c (from_utf8_lossy r1)) else replacement (from_utf8_lossy r)
        | EmptyString => replacement EmptyString
        end
      else if between 224 239 b then
        match r with
        | String c r1 =>
            if (if between 224 224 b then between 160 191 c
                else if between 237 237 b then between 128 159 c
                else cont c) then
              match r1 with
              | String d r2 => if cont d then String b (String c (String d (from_utf8_lossy r2))) else replacement (from_utf8_lossy r1)
              | EmptyString => replacement EmptyString
              end
            else replacement (from_utf8_lossy r)
        | EmptyString => replacement EmptyString
        end
      else if between 240 244 b then
        match r with
        | String c r1 =>
            if (if between 240 240 b then between 144 191 c
                else if between 244 244 b then between 128 143 c
                else cont c) then
              match r1 with
              | String d r2 =>
                  if cont d then
                    match r2 with
                    | String e r3 =>
                        if cont e then String b (String c (String d (String e (from_utf8_lossy r3)))) else replacement (from_utf8_lossy r2)
                    | EmptyString => replacement EmptyString
                    end
                  else replacement (from_utf8_lossy r1)
              | EmptyString => replacement EmptyString
              end
            else replacement (from_utf8_lossy r)
        | EmptyString => replacement EmptyString
        end
      else replacement (from_utf8_lossy r)
  end.

(** [unescape_mountinfo]; [None] is a panic. *)
Definition unescape_mountinfo (field : string) : option string := from_utf8_lossy <$> unescape_bytes field.

(** The search, over the text of the table and the canonical path; it stops at
    the first line that has it. *)
Fixpoint any_point (wanted : string) (fields : list string) : option bool :=
  match fields with
  | [] => Some false
  | field :: fields =>
      point ← unescape_mountinfo field;
      if String.eqb point wanted then Some true else any_point wanted fields
  end.
Definition listed (table wanted : string) : option bool :=
  any_point wanted (omap (fun line => split_char " " line !! 4%nat) (lines table)).

(** The bytes of the canonical path and of the table, where they can be had:
    [canonicalize] may fail, and so may [read_to_string], which also fails on
    bytes that are not UTF-8.  Then the path is not listed. *)
Definition listed_in_mountinfo (canonical : option string) (table : option string) : option bool :=
  match canonical, table with
  | Some canonical, Some table =>
      if valid_utf8 table then listed table (from_utf8_lossy canonical) else Some false
  | _, _ => Some false
  end.

(** ** The kernel's table *)

(** A line: four fields, the mount point, and the rest. *)
Record mount := mkMount { mt_before : list string; mt_point : string; mt_after : string }.
Definition write_line (m : mount) : string :=
  join " " (mt_before m ++ [escape_mountinfo (mt_point m); mt_after m]).
Definition write_table (ms : list mount) : string :=
  foldr (fun m rest => write_line m +:+ String "010" rest) "" ms.

Definition plain (s : string) : bool := negb (has_char " " s) && negb (has_char "010" s).
Definition mount_wf (m : mount) : Prop :=
  length (mt_before m) = 4%nat /\ Forall (fun f => plain f = true) (mt_before m) /\
  has_char "010" (mt_after m) = false /\ mt_after m <> "".

Lemma strip_cr_app a b : b <> "" -> strip_cr (a +:+ b) = a +:+ strip_cr b.
Proof.
  intros Hb. induction a as [|c a IH]; [done|]. cbn [String.append strip_cr]. rewrite IH.
  destruct (a +:+ b) as [|d r] eqn:E; [|done]. by destruct a, b.
Qed.

Lemma escape_has_char c p : escaped c = true -> c <> "\"%char -> has_char c (escape_mountinfo p) = false.
Proof.
  intros Hc Hb. induction p as [|d p IH]; [done|]. cbn [escape_mountinfo]. destruct (escaped d) eqn:E.
  - rewrite has_char_cons, has_char_app, IH. apply escaped_cases in Hc, E.
    destruct Hc as [->|[->|[->| ->]]]; [| | |done]; by destruct E as [->|[->|[->| ->]]].
  - rewrite has_char_cons, IH, orb_false_r. apply Ascii.eqb_neq. intros ->. congruence.
Qed.

Lemma write_line_shape m : mount_wf m ->
  exists a b c d, mt_before m = [a; b; c; d] /\ write_line m =
    a +:+ String " " (b +:+ String " " (c +:+ String " " (d +:+ String " " (escape_mountinfo (mt_point m) +:+ String " " (mt_after m))))).
Proof.
  intros (Hl & _). unfold write_line. destruct (mt_before m) as [|a [|b [|c [|d [|]]]]]; try done. exists a, b, c, d. by split.
Qed.
Lemma plain_spec s : plain s = true <-> has_char " " s = false /\ has_char "010" s = false.
Proof. unfold plain. by rewrite andb_true_iff, !negb_true_iff. Qed.

Lemma write_line_one m : mount_wf m -> has_char "010" (write_line m) = false.
Proof.
  intros Hm. destruct (write_line_shape m Hm) as (a & b & c & d & Eb & ->). destruct Hm as (_ & Hp & Ha & _).
  rewrite Eb, !Forall_cons in Hp. destruct Hp as ([_ H1]%plain_spec & [_ H2]%plain_spec & [_ H3]%plain_spec & [_ H4]%plain_spec & _).
  assert (He : has_char "010" (escape_mountinfo (mt_point m)) = false) by (by apply escape_has_char).
  repeat rewrite ?has_char_app, ?has_char_cons. by rewrite H1, H2, H3, H4, He, Ha.
Qed.
(** The fifth field of a line is the escaped mount point. *)
Lemma write_line_field m : mount_wf m -> split_char " " (strip_cr (write_line m)) !! 4%nat = Some (escape_mountinfo (mt_point m)).
Proof.
  intros Hm. destruct (write_line_shape m Hm) as (a & b & c & d & Eb & ->). destruct Hm as (_ & Hp & _ & Hne).
  rewrite Eb, !Forall_cons in Hp. destruct Hp as ([H1 _]%plain_spec & [H2 _]%plain_spec & [H3 _]%plain_spec & [H4 _]%plain_spec & _).
  assert (Hcons : forall r, r <> "" -> strip_cr (String " " r) = String " " (strip_cr r)) by (by intros [|]).
  assert (Happ : forall x r, x +:+ String " " r <> "") by (by intros [|]).
  rewrite !strip_cr_app, !Hcons, !strip_cr_app, !Hcons, !strip_cr_app, !Hcons, !strip_cr_app, !Hcons, !strip_cr_app, !Hcons by done.
  rewrite !split_char_app by (try done; by apply escape_has_char). done.
Qed.

Lemma lines_table ms : Forall mount_wf ms -> lines (write_table ms) = (fun m => strip_cr (write_line m)) <$> ms.
Proof.
  intros H. assert (E : split_char "010" (write_table ms) = (write_line <$> ms) ++ [""]).
  { induction H as [|m ms Hm _ IH]; [done|]. cbn [write_table foldr]. fold (write_table ms).
    by rewrite split_char_app, IH by (by apply write_line_one). }
  unfold lines. rewrite E, removelast_last, last_snoc. cbn [is_empty]. by rewrite app_nil_r, <- list_fmap_compose.
Qed.

(** *** UTF-8 *)

(** Text falls apart at an ASCII character. *)
Lemma valid_ascii c b : between 0 127 c = true -> valid_utf8 (String c b) = valid_utf8 b.
Proof. intros Hc. cbn [valid_utf8]. by rewrite Hc. Qed.
Lemma ascii_not_cont c : between 0 127 c = true -> cont c = false.
Proof. intros H%between_spec. unfold cont. apply not_true_iff_false. intros H'%between_spec. lia. Qed.
Lemma second_cont (b1 b2 : bool) lo1 hi1 lo2 hi2 c :
  (128 <= lo1)%N -> (hi1 <= 191)%N -> (128 <= lo2)%N -> (hi2 <= 191)%N ->
  (if b1 then between lo1 hi1 c else if b2 then between lo2 hi2 c else cont c) = true -> cont c = true.
Proof. intros L1 L2 L3 L4. destruct b1; [|destruct b2; [|done]]; intros H%between_spec; unfold cont; apply between_spec; lia. Qed.

Lemma valid_cut n a c b :
  (String.length a <= n)%nat -> between 0 127 c = true -> valid_utf8 (a +:+ String c b) = true -> valid_utf8 a = true /\ valid_utf8 b = true.
Proof.
  intros Hn Hc. pose proof (ascii_not_cont c Hc) as Hnc. revert a Hn.
  assert (H2 : forall x y z lo1 hi1 lo2 hi2 r, (128 <= lo1)%N -> (hi1 <= 191)%N -> (128 <= lo2)%N -> (hi2 <= 191)%N ->
    (if between x x z then between lo1 hi1 c else if between y y z then between lo2 hi2 c else cont c) && r = true -> False).
  { intros x y z lo1 hi1 lo2 hi2 r L1 L2 L3 L4 [H _]%andb_true_iff. apply second_cont in H; try done. congruence. }
  induction n as [|n IH]; intros [|x a] Hn; cbn [String.length] in Hn; try lia; cbn [String.append];
    try (rewrite valid_ascii by done; done).
  cbn [valid_utf8]. destruct (between 0 127 x) eqn:E1; [apply IH; lia|].
  destruct (between 194 223 x) eqn:E2.
  { destruct a as [|y a]; cbn [String.append]; [by rewrite Hnc|]. intros [-> H]%andb_true_iff. apply IH; [cbn in Hn; lia|done]. }
  destruct (between 224 239 x) eqn:E3.
  { destruct a as [|y [|z a]]; cbn [String.append].
    - destruct b; [done|]. rewrite <- andb_assoc. by intros []%H2.
    - by rewrite Hnc, andb_false_r.
    - intros [[-> ->]%andb_true_iff H]%andb_true_iff. apply IH; [cbn in Hn; lia|done]. }
  destruct (between 240 244 x) eqn:E4; [|done].
  destruct a as [|y [|z [|u a]]]; cbn [String.append].
  - destruct b as [|? [|? ?]]; [done..|]. rewrite <- !andb_assoc. by intros []%H2.
  - destruct b; [done|]. by rewrite Hnc, andb_false_r.
  - by rewrite Hnc, andb_false_r.
  - intros [[[-> ->]%andb_true_iff ->]%andb_true_iff H]%andb_true_iff. apply IH; [cbn in Hn; lia|done].
Qed.

(** What is escaped is ASCII, and so is its escape. *)
Lemma escape_head c p : escaped c = true -> exists r, escape_mountinfo (String c p) = String "\" r /\ valid_utf8 r = valid_utf8 (escape_mountinfo p) /\ between 0 127 c = true.
Proof.
  intros E. cbn [escape_mountinfo]. rewrite E. eexists. split; [done|]. by apply escaped_cases in E as [->|[->|[->| ->]]].
Qed.
Lemma escape_plain c p : escaped c = false -> escape_mountinfo (String c p) = String c (escape_mountinfo p).
Proof. intros E. cbn [escape_mountinfo]. by rewrite E. Qed.
Lemma cont_escape p : (exists x y, escape_mountinfo p = String x y /\ cont x = true) -> exists x q, p = String x q /\ cont x = true /\ escape_mountinfo p = String x (escape_mountinfo q).
Proof.
  intros (x & y & E & Hx). destruct p as [|c q]; [done|]. destruct (escaped c) eqn:Ec.
  - destruct (escape_head c q Ec) as (r' & E' & _). rewrite E' in E. injection E as <- _. discriminate Hx.
  - rewrite escape_plain in E by done. injection E as -> _. exists x, q. by rewrite escape_plain.
Qed.
Lemma valid_escape n p : (String.length p <= n)%nat -> valid_utf8 (escape_mountinfo p) = true -> valid_utf8 p = true.
Proof.
  revert p. induction n as [|n IH]; intros [|c p] Hn; cbn [String.length] in Hn; try done; [lia|].
  destruct (escaped c) eqn:Ec.
  { destruct (escape_head c p Ec) as (r & -> & Hr & Ha). rewrite valid_ascii, Hr, valid_ascii by done. apply IH. lia. }
  rewrite escape_plain by done. cbn [valid_utf8]. destruct (between 0 127 c) eqn:E1; [apply IH; lia|].
  assert (Hstep : forall q x y, escape_mountinfo q = String x y -> cont x = true -> exists q', q = String x q' /\ y = escape_mountinfo q').
  { intros q x y E Hx. destruct (cont_escape q ltac:(by exists x, y)) as (x' & q' & -> & _ & E'). rewrite E' in E. injection E as -> <-. by exists q'. }
  destruct (between 194 223 c) eqn:E2.
  { destruct (escape_mountinfo p) as [|x y] eqn:Ep; [done|]. intros [Hx H]%andb_true_iff. destruct (Hstep p x y Ep Hx) as (q & -> & ->).
    rewrite Hx. apply IH; [cbn in Hn; lia|done]. }
  destruct (between 224 239 c) eqn:E3.
  { destruct (escape_mountinfo p) as [|x [|y z]] eqn:Ep; [done..|]. intros [[Hx Hy]%andb_true_iff H]%andb_true_iff.
    destruct (Hstep p x _ Ep) as (q & -> & Eq); [by eapply second_cont in Hx|]. destruct (Hstep q y z (eq_sym Eq) Hy) as (q2 & -> & ->).
    rewrite Hx, Hy. apply IH; [cbn in Hn; lia|done]. }
  destruct (between 240 244 c) eqn:E4; [|done].
  destruct (escape_mountinfo p) as [|x [|y [|z u]]] eqn:Ep; [done..|]. intros [[[Hx Hy]%andb_true_iff Hz]%andb_true_iff H]%andb_true_iff.
  destruct (Hstep p x _ Ep) as (q & -> & Eq); [by eapply second_cont in Hx|]. destruct (Hstep q y _ (eq_sym Eq) Hy) as (q2 & -> & Eq2).
  destruct (Hstep q2 z u (eq_sym Eq2) Hz) as (q3 & -> & ->). rewrite Hx, Hy, Hz. apply IH; [cbn in Hn; lia|done].
Qed.

Lemma lossy_valid n s : (String.length s <= n)%nat -> valid_utf8 s = true -> from_utf8_lossy s = s.
Proof.
  revert s. induction n as [|n IH]; intros [|b r] Hn; cbn [String.length] in Hn; try done; [lia|].
  cbn [valid_utf8 from_utf8_lossy]. destruct (between 0 127 b); [intros H; by rewrite IH by (done || lia)|].
  destruct (between 194 223 b).
  { destruct r as [|c r]; [done|]. cbn in Hn. intros [-> H]%andb_true_iff. by rewrite IH by (done || lia). }
  destruct (between 224 239 b).
  { destruct r as [|c [|d r]]; [done..|]. cbn in Hn. intros [[-> ->]%andb_true_iff H]%andb_true_iff. by rewrite IH by (done || lia). }
  destruct (between 240 244 b); [|done]. destruct r as [|c [|d [|e r]]]; [done..|]. cbn in Hn.
  intros [[[-> ->]%andb_true_iff ->]%andb_true_iff H]%andb_true_iff. by rewrite IH by (done || lia).
Qed.

(** A table that is UTF-8 is one of UTF-8 mount points. *)
Lemma valid_line m : mount_wf m -> valid_utf8 (write_line m) = true -> valid_utf8 (mt_point m) = true.
Proof.
  intros Hm. destruct (write_line_shape m Hm) as (a & b & c & d & _ & ->).
  do 4 (intros [_ H]%(fun H => valid_cut _ _ " " _ (le_n _) eq_refl H); revert H).
  intros [H _]%(fun H => valid_cut _ _ " " _ (le_n _) eq_refl H). by eapply valid_escape.
Qed.
Lemma valid_table ms : Forall mount_wf ms -> valid_utf8 (write_table ms) = true -> Forall (fun m => valid_utf8 (mt_point m) = true) ms.
Proof.
  induction 1 as [|m ms Hm _ IH]; [done|]. cbn [write_table foldr]. fold (write_table ms).
  intros [H1 H2]%(fun H => valid_cut _ _ "010" _ (le_n _) eq_refl H). constructor; [by apply valid_line|auto].
Qed.

(** C37: The mount table is read as the kernel wrote it.  However many mounts it
    has and whatever bytes it is made of, the search does not panic; in a table
    that is UTF-8 a path is found if and only if it is one of the mount points -
    spaces, tabs, newlines and backslashes in it included -, where a path that is
    not UTF-8 itself stands for what [to_string_lossy] makes of it; and in a
    table with a byte anywhere that is not, nothing is found. *)
Theorem mount_table_read (ms : list mount) (canonical : string) :
  Forall mount_wf ms ->
  listed_in_mountinfo (Some canonical) (Some (write_table ms)) =
    Some (valid_utf8 (write_table ms) && bool_decide (from_utf8_lossy canonical ∈ mt_point <$> ms)) /\
  (valid_utf8 canonical = true -> from_utf8_lossy canonical = canonical).
Proof.
  intros H. split; [|by eapply lossy_valid]. cbn [listed_in_mountinfo].
  destruct (valid_utf8 (write_table ms)) eqn:Ev; [|done]. cbn [andb]. set (wanted := from_utf8_lossy canonical).
  pose proof (valid_table ms H Ev) as Hv. unfold listed. rewrite lines_table by done. clear Ev.
  induction H as [|m ms Hm _ IH]; [done|]. apply Forall_cons_iff in Hv as [Hm' Hv]. specialize (IH Hv).
  cbn [fmap list_fmap omap list_omap]. rewrite write_line_field by done. cbn [any_point]. unfold unescape_mountinfo.
  rewrite (unescape_escape _ (valid_ascii_ends _ _ (le_n _) Hm')). cbn [fmap option_fmap option_map mbind option_bind].
  rewrite (lossy_valid _ _ (le_n _) Hm'), IH.
  destruct (String.eqb_spec (mt_point m) wanted) as [->|Hne].
  - symmetry. f_equal. apply bool_decide_eq_true. left.
  - f_equal. apply bool_decide_ext. rewrite elem_of_cons. naive_solver.
Qed.

Module MountinfoWitness.
Definition table : list mount :=
  [mkMount ["22"; "1"; "8:1"; "/"] "/" "rw,relatime - ext4 /dev/sda1 rw";
   mkMount ["36"; "22"; "0:31"; "/"] "/var/lib/my volumes" "rw - tmpfs tmpfs rw"].
Example as_the_kernel_writes_it :
  write_table table =
    "22 1 8:1 / / rw,relatime - ext4 /dev/sda1 rw" +:+ String "010" "" +:+
    "36 22 0:31 / /var/lib/my\040volumes rw - tmpfs tmpfs rw" +:+ String "010" "".
Proof. vm_compute. reflexivity. Qed.
Lemma table_wf : Forall mount_wf table.
Proof.
  unfold table. repeat apply List.Forall_cons; [..|apply List.Forall_nil];
    (split; [reflexivity|]; split; [repeat (apply List.Forall_cons; [reflexivity|]); apply List.Forall_nil|];
     split; [reflexivity|discriminate]).
Qed.
(** One mount whose options have a byte that is not UTF-8. *)
Definition odd : list mount := [mkMount ["22"; "1"; "8:1"; "/"] "/" (String "255" "rw - ext4 /dev/sda1 rw")].
Lemma odd_wf : Forall mount_wf odd.
Proof.
  apply List.Forall_cons; [|apply List.Forall_nil]. split; [reflexivity|]. split; [|split; [reflexivity|discriminate]].
  repeat (apply List.Forall_cons; [reflexivity|]). apply List.Forall_nil.
Qed.
Example lossy_example : from_utf8_lossy (bytes [97; 226; 130; 98; 255]%N) = bytes [97; 239; 191; 189; 98; 239; 191; 189]%N.
Proof. reflexivity. Qed.
(** A single mount point that is not UTF-8 hides all the others. *)
Example one_odd_mount_hides_all :
  listed_in_mountinfo (Some "/var/lib/my volumes") (Some (write_table table)) = Some true /\
  listed_in_mountinfo (Some "/var/lib/my volumes")
    (Some (write_table (table ++ [mkMount ["40"; "22"; "0:44"; "/"] (String "/" (String "255" "")) "rw"]))) = Some false.
Proof. vm_compute. done. Qed.
Lemma mount_table_read_witness :
  listed_in_mountinfo (Some "/var/lib/my volumes") (Some (write_table table)) = Some true /\
  listed_in_mountinfo (Some "/var/lib/my") (Some (write_table table)) = Some false /\
  listed_in_mountinfo (Some "/") (Some (write_table odd)) = Some false.
Proof.
  split; [exact (proj1 (mount_table_read table "/var/lib/my volumes" table_wf))|].
  split; [exact (proj1 (mount_table_read table "/var/lib/my" table_wf))|].
  exact (proj1 (mount_table_read odd "/" odd_wf)).
Defined.
End MountinfoWitness.
