(* ===== verification/Recover.v ===== *)
(** * Whose volume is this?  (svidlet/src/recover.rs)

    Finding the volumes on the node - from the kubelet's records, or from the
    exposure farm - and deciding whether a certificate found in one is an
    identity this node issues.  [adopt], which puts them back on the renewal
    list, is in [Node]. *)

From S2P Require Import Prelude RustStr Errors Template Fs NodeStore Host.
Open Scope list_scope.
Open Scope Z_scope.

(** ** identity_belongs_here *)

Inductive NotHere := NotTheTemplate | PatternRefuses | OtherTrustDomain | OtherCluster | OtherNode.

Section belongs.
Context {R : RegexLite}.

Definition identity_belongs_here (policy : IdPolicy) (id trust_domain cluster node_name : string)
    : result NotHere unit :=
  attrs ← ok_or NotTheTemplate (IdPolicy_attributes_of policy id);
  _ ← map_err (fun _ => PatternRefuses) (IdPolicy_check policy id);
  let uses f := bool_decide (f ∈ required_fields (template policy)) in
  _ ← guard_err (uses TrustDomain && negb (String.eqb (get attrs TrustDomain) trust_domain)) OtherTrustDomain;
  _ ← guard_err (uses Cluster && negb (String.eqb (get attrs Cluster) cluster)) OtherCluster;
  guard_err (uses NodeName && negb (String.eqb (get attrs NodeName) node_name)) OtherNode.
End belongs.

(** ** discover *)

Record VolData := mkVolData { driver_name : string; volume_handle : string; spec_vol_id : string }.

Record Discovered := mkDiscovered { d_volume_id : string; d_target_path : PathBuf; d_pod_uid : string }.

(** The order of [PathBuf]s under one root: component by component. *)
Fixpoint path_leb (a b : list string) : bool :=
  match a, b with
  | [], _ => true
  | _ :: _, [] => false
  | x :: a, y :: b => match String.compare x y with Lt => true | Gt => false | Eq => path_leb a b end
  end.
Fixpoint insert_found (d : Discovered) (l : list Discovered) : list Discovered :=
  match l with
  | [] => [d]
  | e :: l' => if path_leb (d_target_path d).2 (d_target_path e).2 then d :: l else e :: insert_found d l'
  end.
Definition sort_found (l : list Discovered) : list Discovered := foldr insert_found [] l.

Section discover.
(** [serde_json::from_str::<VolData>]: missing optional fields are empty. *)
Context (parse_vol_data : string -> option VolData).

Definition CSI_DIR : path := ["volumes"; "kubernetes.io~csi"].

Definition record_of (kubelet_root : PathBuf) (driver : string) (pod volume raw : string) : option Discovered :=
  data ← parse_vol_data raw;
  if negb (String.eqb (driver_name data) driver) then None
  else Some (mkDiscovered
    (if is_empty (volume_handle data) then spec_vol_id data else volume_handle data)
    (kubelet_root.1, kubelet_root.2 ++ "pods" :: pod :: CSI_DIR ++ [volume; "mount"]) pod).

Fixpoint discover_volumes (kubelet_root : PathBuf) (driver pod : string) (volumes : list string)
    : io (list Discovered) :=
  match volumes with
  | [] => mret []
  | volume :: volumes =>
      r ← attempt (fs_read_to_string ("pods" :: pod :: CSI_DIR ++ [volume; "vol_data.json"]));
      rest ← discover_volumes kubelet_root driver pod volumes;
      mret (match r with
            | Ok raw => match record_of kubelet_root driver pod volume raw with
                        | Some d => d :: rest
                        | None => rest
                        end
            | Err _ => rest
            end)
  end.

Fixpoint discover_pods (kubelet_root : PathBuf) (driver : string) (pods : list string) : io (list Discovered) :=
  match pods with
  | [] => mret []
  | pod :: pods =>
      r ← attempt (fs_read_dir ("pods" :: pod :: CSI_DIR));
      here ← (match r with
              | Ok volumes => discover_volumes kubelet_root driver pod volumes
              | Err _ => mret []
              end);
      rest ← discover_pods kubelet_root driver pods;
      mret (here ++ rest)
  end.

(** In the tree of the kubelet's root. *)
Definition discover (kubelet_root : PathBuf) (driver : string) : io (list Discovered) :=
  r ← attempt (fs_read_dir ["pods"]);
  match r with
  | Err _ => mret []
  | Ok pods => found ← discover_pods kubelet_root driver pods; mret (sort_found found)
  end.
End discover.

(** ** discover_exposed: the names in the farm, sorted. *)
Definition discover_exposed : hio (list string) :=
  r ← hattempt (hcall unchanged (fun h => Ok (merge_sort String.le (map_to_list (farm h)).*1, h)));
  mret (match r with Ok names => names | Err _ => [] end).

(** ** Properties *)

Section belongs_properties.
Context {R : RegexLite}.

(** The attributes of this node that the template mentions. *)
Definition here (t : IdTemplate) (a : WorkloadAttributes) (trust_domain cluster node_name : string) : Prop :=
  (TrustDomain ∈ fields t -> get a TrustDomain = trust_domain) /\
  (Cluster ∈ fields t -> get a Cluster = cluster) /\
  (NodeName ∈ fields t -> get a NodeName = node_name).

Lemma uses_guard (t : IdTemplate) f (a b : string) :
  bool_decide (f ∈ fields t) && negb (String.eqb a b) = false <-> (f ∈ fields t -> a = b).
Proof.
  rewrite andb_false_iff, bool_decide_eq_false, negb_false_iff, String.eqb_eq.
  destruct (decide (f ∈ fields t)); naive_solver.
Qed.

Lemma belongs_Ok (p : IdPolicy) id td cl nn u :
  identity_belongs_here p id td cl nn = Ok u <->
  exists a, attributes_of (template p) id = Some a /\ IdPolicy_check p id = Ok tt /\ here (template p) a td cl nn.
Proof.
  unfold identity_belongs_here, here, required_fields, IdPolicy_attributes_of. rewrite bind_Ok. setoid_rewrite ok_or_Ok.
  repeat setoid_rewrite bind_Ok. setoid_rewrite map_err_Ok. repeat setoid_rewrite guard_err_Ok.
  repeat setoid_rewrite uses_guard. cbn [get]. split.
  - intros (a & Ha & [] & Hc & [] & Ht & [] & Hl & Hn). eauto 10.
  - intros (a & Ha & Hc & Ht & Hl & Hn). exists a. split; [done|]. exists tt. split; [done|]. exists tt.
    split; [done|]. exists tt. done.
Qed.

Context `{!RegexSpec R}.

(** A node recognises its own.  Whatever the kubelet says of the pod, an ID
    this node renders for its own trust domain, cluster and name belongs here,
    so restart recovery adopts every volume the node published; and an ID that
    belongs here has, in every field the template carries, this node's trust
    domain, cluster and name - another fleet's certificate is never adopted and
    never handed this fleet's policy. *)
Theorem belongs_here_spec (s : string) (p : IdPolicy) (td cl nn : string) :
  compile s = Ok (template p) -> slash_separated (parts (template p)) = true ->
  (forall a id, IdPolicy_render p a = Ok id -> get a TrustDomain = td -> get a Cluster = cl ->
     get a NodeName = nn -> identity_belongs_here p (SpiffeId_as_str id) td cl nn = Ok tt) /\
  (forall id, identity_belongs_here p id td cl nn = Ok tt ->
     exists a, id = splice (parts (template p)) (get a <$> fields (template p)) /\
       here (template p) a td cl nn /\ IdPolicy_check p id = Ok tt).
Proof.
  intros Hc Hsl. split.
  - intros a id (id' & Hr & ([] & Hk & [= ->])%bind_Ok)%bind_Ok Ht Hcl Hn.
    destruct (render_attributes_back s _ _ _ Hc Hsl Hr) as (b & Hb & Hg).
    apply belongs_Ok. exists b. split; [exact Hb|]. split; [exact Hk|].
    split; [|split]; intros Hin; by rewrite Hg, bool_decide_eq_true_2.
  - intros id (a & Ha & Hk & Hh)%belongs_Ok. exists a.
    pose proof (compile_wf _ _ Hc) as [Hwf _].
    destruct (attributes_of_splice _ _ _ Hwf Ha) as [-> _]. by rewrite (wf_fields _ Hwf).
Qed.
End belongs_properties.

Module RecoverWitness.
#[local] Existing Instance MiniRegex.engine.
#[local] Existing Instance MiniRegex.engine_spec.
Import TemplateWitness.

Definition policy : IdPolicy := mkPolicy default None None.

Lemma belongs_here_spec_witness :
  identity_belongs_here policy (SpiffeId_as_str id) "example.org" "a" "node-1" = Ok tt.
Proof.
  apply (proj1 (belongs_here_spec DEFAULT_TEMPLATE policy "example.org" "a" "node-1" compile_default eq_refl)
           attrs id); [vm_compute; reflexivity|reflexivity|reflexivity|reflexivity].
Defined.

Example other_cluster :
  identity_belongs_here policy (SpiffeId_as_str id) "example.org" "b" "node-1" = Err OtherCluster.
Proof. vm_compute. reflexivity. Qed.
End RecoverWitness.
