(* ===== verification/Daemon.v ===== *)
(** * The policy daemon  (svidlet/src/policy/daemon.rs)

    One pass of [svidlet-policy]: scan the exposure farm for volumes whose
    certificate carries an identity this fleet issues, keep the subscriptions
    in step with them, and write each volume's policy.  The daemon and the CSI
    plugin share nothing but the trees of [Host]. *)

From S2P Require Import Prelude RustStr Errors Template Certs Fs Volume NodeStore NodeConfig Policy Host Recover.
Import PolicyManager.
Open Scope list_scope.
Open Scope Z_scope.

Section daemon.
Context {R : RegexLite} {X : X509Parser}.
Context (umask : Z).

Record Daemon := mkDaemon {
  d_cfg : PolicyConfig;
  d_id_policy : IdPolicy;
  d_manager : Manager;
  (** Farm name to identity: the targets are [volumes_dir/name]. *)
  d_volumes : gmap string SpiffeId;
  d_scans : Z;
  d_volumes_written : Z;
  d_write_failures : Z;
  d_unreadable : Z;
}.

Definition Daemon_new (cfg : PolicyConfig) (m : Manager) : result ConfigError Daemon :=
  p ← PolicyConfig_id_policy cfg;
  Ok (mkDaemon cfg p m ∅ 0 0 0 0).

Definition Daemon_volumes (d : Daemon) : list (string * SpiffeId) :=
  omap (fun name => (fun id => (name, id)) <$> d_volumes d !! name) (in_order (dom (d_volumes d))).

(** What the scan makes of one entry of the farm. *)
Inductive finding := Unreadable | Foreign | Found (id : SpiffeId).

Definition judge (d : Daemon) (chain : result IoKind string) : finding :=
  match chain with
  | Err _ => Unreadable
  | Ok chain =>
      match inspect chain with
      | Err _ => Unreadable
      | Ok facts =>
          match identity_belongs_here (d_id_policy d) (SpiffeId_as_str (f_spiffe_id facts))
                  (p_trust_domain (d_cfg d)) (p_cluster (d_cfg d)) (p_node_name (d_cfg d)) with
          | Err _ => Foreign
          | Ok _ => Found (f_spiffe_id facts)
          end
      end
  end.

Fixpoint look (d : Daemon) (names : list string) (found : gmap string SpiffeId) (unreadable : Z)
    : hio (gmap string SpiffeId * Z) :=
  match names with
  | [] => mret (found, unreadable)
  | name :: names =>
      chain ← hattempt (on_point (Err NotFound) name read_cert_chain);
      match judge d chain with
      | Unreadable => look d names found (unreadable + 1)
      | Foreign => look d names found unreadable
      | Found id => look d names (<[name := id]> found) unreadable
      end
  end.

Definition ids (vs : list (string * SpiffeId)) : list string := SpiffeId_as_str <$> vs.*2.

Definition scan (d : Daemon) : host -> (list string * list string) * Daemon * host := fun h =>
  let '(r, h) := (names ← discover_exposed; look d names ∅ 0) h in
  let '(found, unreadable) := match r with Ok fu => fu | Err _ => (∅, 0) end in
  let d' := mkDaemon (d_cfg d) (d_id_policy d) (d_manager d) found (wrap 64 (d_scans d + 1))
              (d_volumes_written d) (d_write_failures d) unreadable in
  let before := ids (Daemon_volumes d) in
  let after := ids (Daemon_volumes d') in
  let appeared := List.filter (fun id => negb (contains id before)) after in
  let gone := List.filter (fun id => negb (contains id after)) before in
  let m := foldl (fun m id => subscribe id m) (d_manager d') appeared in
  let m := foldl (fun m id => unsubscribe id m) m gone in
  ((appeared, gone),
   mkDaemon (d_cfg d') (d_id_policy d') m found (d_scans d') (d_volumes_written d') (d_write_failures d') unreadable,
   h).

(** One volume of [apply]: whether it was rewritten, and whether that failed. *)
Definition apply_volume (d : Daemon) (v : string * SpiffeId) : hio (bool * bool) :=
  match PolicyManager.bundle (SpiffeId_as_str v.2) (d_manager d) with
  | None => mret (false, false)
  | Some b =>
      rev ← hattempt (on_point (Ok None) v.1 published_revision);
      if bool_decide (rev = Ok (Some (revision b))) then mret (false, false)
      else
        r ← hattempt (on_point (Err NotFound) v.1 (publish_policy umask b (file_mode (d_cfg d))));
        mret (match r with Ok _ => (true, false) | Err _ => (false, true) end)
  end.

Fixpoint apply_volumes (d : Daemon) (vs : list (string * SpiffeId)) : hio (Z * Z) :=
  match vs with
  | [] => mret (0, 0)
  | v :: vs =>
      r ← apply_volume d v;
      rest ← apply_volumes d vs;
      mret (Z.b2z r.1 + rest.1, Z.b2z r.2 + rest.2)
  end.

Definition Daemon_apply (d : Daemon) : host -> Z * Daemon * host := fun h =>
  let '(r, h) := apply_volumes d (Daemon_volumes d) h in
  let '(written, failures) := match r with Ok wf => wf | Err _ => (0, 0) end in
  (written,
   mkDaemon (d_cfg d) (d_id_policy d) (d_manager d) (d_volumes d) (d_scans d)
     (wrap 64 (d_volumes_written d + written)) (wrap 64 (d_write_failures d + failures)) (d_unreadable d),
   h).

(** One round of [run_loop]. *)
Definition run_pass (d : Daemon) (h : host) : Z * Daemon * host :=
  let '(_, d, h) := scan d h in Daemon_apply d h.

End daemon.

(** ** The scan *)

Lemma NoDup_in_order s : NoDup (in_order s).
Proof. unfold in_order. rewrite merge_sort_Permutation. apply NoDup_elements. Qed.

Section daemon_properties.
Context {R : RegexLite} {X : X509Parser}.
Context (umask : Z).

Lemma elem_volumes d name id : (name, id) ∈ Daemon_volumes d <-> d_volumes d !! name = Some id.
Proof.
  unfold Daemon_volumes. rewrite list_elem_of_omap. setoid_rewrite elem_in_order. split.
  - intros (n & _ & (i & Hi & [= -> ->])%fmap_Some). done.
  - intros H. exists name. rewrite H. split; [by apply elem_of_dom_2 in H|done].
Qed.

Lemma volumes_names d : (Daemon_volumes d).*1 = in_order (dom (d_volumes d)).
Proof.
  unfold Daemon_volumes.
  assert (H : forall n, n ∈ in_order (dom (d_volumes d)) -> is_Some (d_volumes d !! n)).
  { intros n Hn. rewrite elem_in_order in Hn. by apply elem_of_dom. }
  induction (in_order _) as [|n ns IH]; [done|]. cbn.
  destruct (H n) as [i ->]; [left|]. cbn. f_equal. apply IH. intros k Hk. apply H. by right.
Qed.

Lemma elem_ids d s : s ∈ ids (Daemon_volumes d) <-> exists name id, d_volumes d !! name = Some id /\ s = SpiffeId_as_str id.
Proof.
  unfold ids. rewrite list_elem_of_fmap. setoid_rewrite list_elem_of_fmap. split.
  - intros (id & -> & ([n i] & -> & H%elem_volumes)). by exists n, i.
  - intros (n & i & H & ->). exists i. split; [done|]. exists (n, i). split; [done|by apply elem_volumes].
Qed.

Lemma subscribe_all m l :
  enabled (settings m) = true ->
  let m' := foldl (fun m id => subscribe id m) m l in
  settings m' = settings m /\ wanted m' = wanted m ∪ list_to_set l.
Proof.
  revert m. induction l as [|id l IH]; intros m He; cbn [foldl]; [split; [done|set_solver]|].
  assert (Hs : settings (subscribe id m) = settings m /\ wanted (subscribe id m) = {[id]} ∪ wanted m).
  { unfold subscribe. rewrite He. case_bool_decide; cbn; [|done]. split; [done|set_solver]. }
  destruct Hs as [Hs Hw]. destruct (IH (subscribe id m)) as [IH1 IH2]; [by rewrite Hs|].
  cbn zeta in *. rewrite IH1, IH2, Hs, Hw. split; [done|set_solver].
Qed.

Lemma unsubscribe_all m l :
  enabled (settings m) = true ->
  let m' := foldl (fun m id => unsubscribe id m) m l in
  settings m' = settings m /\ wanted m' = wanted m ∖ list_to_set l.
Proof.
  revert m. induction l as [|id l IH]; intros m He; cbn [foldl]; [split; [done|set_solver]|].
  assert (Hs : settings (unsubscribe id m) = settings m /\ wanted (unsubscribe id m) = wanted m ∖ {[id]}).
  { unfold unsubscribe. rewrite He. case_bool_decide; done. }
  destruct Hs as [Hs Hw]. destruct (IH (unsubscribe id m)) as [IH1 IH2]; [by rewrite Hs|].
  cbn zeta in *. rewrite IH1, IH2, Hs, Hw. split; [done|set_solver].
Qed.

(** The manager wants exactly the identities of the volumes on record. *)
Definition in_step (d : Daemon) : Prop :=
  forall s, s ∈ wanted (d_manager d) <-> exists name id, d_volumes d !! name = Some id /\ s = SpiffeId_as_str id.

Lemma scan_run d h ag d' h' :
  scan d h = (ag, d', h') ->
  d_cfg d' = d_cfg d /\ d_id_policy d' = d_id_policy d /\ evolves same h h' /\
  exists before after,
    (forall s, s ∈ before <-> s ∈ ids (Daemon_volumes d)) /\ (forall s, s ∈ after <-> s ∈ ids (Daemon_volumes d')) /\
    d_manager d' =
      foldl (fun m id => unsubscribe id m)
        (foldl (fun m id => subscribe id m) (d_manager d) (List.filter (fun id => negb (contains id before)) after))
        (List.filter (fun id => negb (contains id after)) before).
Proof.
  unfold scan. destruct ((names ← discover_exposed; look d names ∅ 0) h) as [r h1] eqn:E.
  assert (Hl : looks (names ← discover_exposed; look d names ∅ 0)).
  { apply looks_bind.
    - apply looks_bind; [|auto with looks]. apply looks_attempt, looks_call. intros ? ? ? [= <- <-]. apply evolves_refl.
    - intros names. generalize (∅ : gmap string SpiffeId) 0.
      induction names as [|n ns IH]; intros found u; cbn [look]; [auto with looks|].
      apply looks_bind; [auto with looks reads|]. intros c. destruct (judge d c); apply IH. }
  apply Hl in E. destruct (match r with Ok fu => fu | Err _ => (∅, 0) end) as [found u].
  intros [= <- <- <-]. split; [done|]. split; [done|]. split; [done|].
  eexists _, _. split; [reflexivity|]. split; [|reflexivity]. reflexivity.
Qed.

Lemma elem_filter_out s l l' : s ∈ List.filter (fun id => negb (contains id l)) l' <-> s ∈ l' /\ s ∉ l.
Proof.
  rewrite list_elem_of_In, filter_In, <- list_elem_of_In, negb_true_iff, contains_false. done.
Qed.

Lemma scan_in_step d h ag d' h' :
  enabled (settings (d_manager d)) = true -> in_step d -> scan d h = (ag, d', h') ->
  in_step d' /\ enabled (settings (d_manager d')) = true.
Proof.
  intros He Hs (_ & _ & _ & before & after & Hb & Ha & Hm)%scan_run.
  set (app := List.filter _ after) in Hm. set (gone := List.filter _ before) in Hm.
  destruct (subscribe_all (d_manager d) app He) as [S1 W1].
  destruct (unsubscribe_all (foldl (fun m id => subscribe id m) (d_manager d) app) gone) as [S2 W2]; [by rewrite S1|].
  cbn zeta in *. rewrite <- Hm in S2, W2. split; [|by rewrite S2, S1].
  unfold in_step in *. intros s. rewrite W2, W1, elem_of_difference, elem_of_union, !elem_of_list_to_set.
  unfold app, gone. rewrite !elem_filter_out. rewrite Hs, <- elem_ids, <- Hb, <- (elem_ids d'), <- Ha.
  destruct (decide (s ∈ before)), (decide (s ∈ after)); naive_solver.
Qed.

(** After every scan of an enabled daemon the subscriptions are exactly the
    identities of the volumes it found: what appeared was subscribed, what is
    gone was dropped with its bundle, and an identity that two volumes share
    stays as long as one of them does. *)
Theorem subscriptions_in_step (d : Daemon) (h : host) ag (d' : Daemon) (h' : host) :
  enabled (settings (d_manager d)) = true -> in_step d -> scan d h = (ag, d', h') -> in_step d'.
Proof. intros He Hs E. by destruct (scan_in_step d h ag d' h' He Hs E). Qed.

(** ** The pass *)

(** The identity a volume's own certificate gives it. *)
Definition holds_identity (d : Daemon) (h : host) (name : string) (id : SpiffeId) : Prop :=
  exists n faults chain w, farm h !! name = Some (Some n) /\
    read_cert_chain (mkWorld (tree h n) faults []) = (Ok chain, w) /\
    (exists facts, inspect chain = Ok facts /\ f_spiffe_id facts = id) /\
    identity_belongs_here (d_id_policy d) (SpiffeId_as_str id)
      (p_trust_domain (d_cfg d)) (p_cluster (d_cfg d)) (p_node_name (d_cfg d)) = Ok tt.

Lemma judge_Found d chain id :
  judge d (Ok chain) = Found id ->
  (exists facts, inspect chain = Ok facts /\ f_spiffe_id facts = id) /\
  identity_belongs_here (d_id_policy d) (SpiffeId_as_str id)
    (p_trust_domain (d_cfg d)) (p_cluster (d_cfg d)) (p_node_name (d_cfg d)) = Ok tt.
Proof.
  cbn. destruct (inspect chain) as [facts|]; [|done].
  destruct (identity_belongs_here _ _ _ _ _) as [[]|] eqn:E; [|done]. intros [= <-]. eauto.
Qed.

Lemma holds_identity_same d h h' name id :
  evolves same h h' -> holds_identity d h' name id -> holds_identity d h name id.
Proof.
  intros [F _ T] (n & faults & chain & w & Hf & Hr & Hj). exists n, faults, chain, w.
  by rewrite <- F, <- (T n).
Qed.

Lemma look_sound d names found u h r h' :
  look d names found u h = (Ok r, h') ->
  forall name id, r.1 !! name = Some id -> found !! name = Some id \/ holds_identity d h name id.
Proof.
  revert found u h. induction names as [|n ns IH]; intros found u h; cbn [look].
  { intros [= <- <-]. auto. }
  unfold mbind, hio_bind, hattempt. destruct (on_point _ n read_cert_chain h) as [c h1] eqn:Ec.
  pose proof (looks_on_point _ n _ reads_read_cert_chain _ _ _ Ec) as Hl.
  intros E name id Hn. destruct (judge d c) eqn:Ej; destruct (IH _ _ _ E name id Hn) as [Hf|Hh]; auto;
    try (by right; eapply holds_identity_same).
  destruct (decide (n = name)) as [->|Hne]; [|rewrite lookup_insert_ne in Hf by done; auto].
  rewrite lookup_insert_eq in Hf. injection Hf as ->. right.
  unfold on_point in Ec. destruct (farm h !! name) as [[k|]|] eqn:Hk; [|injection Ec as <- <-; done..].
  apply in_tree_run in Ec as (w & Ew & _). destruct c as [chain|]; [|done].
  apply judge_Found in Ej. by exists k, (hfaults h), chain, w.
Qed.

Lemma scan_sound d h ag d' h' name id :
  scan d h = (ag, d', h') -> d_volumes d' !! name = Some id -> holds_identity d h name id.
Proof.
  unfold scan. destruct ((names ← discover_exposed; look d names ∅ 0) h) as [r h1] eqn:E.
  unfold mbind, hio_bind in E. destruct (discover_exposed h) as [[names|e] h0] eqn:E0.
  2: { injection E as <- <-. intros [= <- <- <-]. cbn. by rewrite lookup_empty. }
  assert (Hl : looks discover_exposed).
  { apply looks_bind; [|auto with looks]. apply looks_attempt, looks_call. intros ? ? ? [= <- <-]. apply evolves_refl. }
  apply Hl in E0. destruct r as [[found u]|e]; intros [= <- <- <-]; cbn; [|by rewrite lookup_empty].
  intros Hn. eapply look_sound in E as [H|H]; [| |exact Hn]; [by rewrite lookup_empty in H|].
  by eapply holds_identity_same.
Qed.

(** Each tree after [apply]: untouched, or one publish of the bundle that the
    identity behind one of its names is due. *)
Definition policy_written (d : Daemon) (h : host) (vs : list (string * SpiffeId)) (n : nat) (f f' : fs) : Prop :=
  f' = f \/
  exists name id b faults r w', (name, id) ∈ vs /\ farm h !! name = Some (Some n) /\
    PolicyManager.bundle (SpiffeId_as_str id) (d_manager d) = Some b /\
    publish_policy umask b (file_mode (d_cfg d)) (mkWorld f faults []) = (r, w') /\ f' = wfs w'.

Lemma apply_volume_written d v h r h' :
  apply_volume umask d v h = (r, h') -> evolves (policy_written d h [v]) h h'.
Proof.
  unfold apply_volume. destruct (PolicyManager.bundle _ _) as [b|] eqn:Eb.
  2: { intros [= <- <-]. split; [done|done|by left]. }
  unfold mbind, hio_bind, hattempt. destruct (on_point _ v.1 published_revision h) as [rev h1] eqn:E1.
  pose proof (looks_on_point _ v.1 _ reads_published_revision _ _ _ E1) as [F1 D1 T1].
  case_bool_decide; [intros [= <- <-]; split; [done|done|left; apply T1]|].
  destruct (on_point _ v.1 (publish_policy _ _ _) h1) as [r2 h2] eqn:E2. intros [= <- <-].
  unfold on_point in E2. rewrite F1 in E2. destruct (farm h !! v.1) as [[n|]|] eqn:Ef;
    [|injection E2 as <- <-; split; [done|done|left; apply T1]..].
  pose proof (in_tree_run _ _ _ _ _ E2) as (w & Ew & _).
  destruct (in_tree_evolves _ _ _ _ _ _ E2 Ew) as [F2 D2 T2].
  split; [congruence|congruence|]. intros k. specialize (T2 k). cbn in T2.
  destruct (decide (k = n)) as [->|]; [|left; rewrite T2; apply T1].
  right. exists v.1, v.2, b, (hfaults h1), r2, w. rewrite (T1 n) in Ew.
  split; [rewrite <- surjective_pairing; left|]. split; [done|]. split; [done|]. split; [exact Ew|done].
Qed.

(** Each tree is exposed under one name. *)
Definition farm_injective (h : host) : Prop :=
  forall name name' n, farm h !! name = Some (Some n) -> farm h !! name' = Some (Some n) -> name = name'.

Lemma apply_volumes_written d vs h r h' :
  farm_injective h -> NoDup vs.*1 -> apply_volumes umask d vs h = (r, h') -> evolves (policy_written d h vs) h h'.
Proof.
  revert h r h'. induction vs as [|v vs IH]; intros h r h' Hi Hn; cbn [apply_volumes].
  { intros [= <- <-]. split; [done|done|by left]. }
  apply NoDup_cons in Hn as [Hv Hn]. unfold mbind at 1, hio_bind at 1.
  destruct (apply_volume umask d v h) as [[p|e] h1] eqn:E1; pose proof (apply_volume_written _ _ _ _ _ E1) as [F1 D1 T1].
  2: { intros [= <- <-]. split; [done|done|]. intros n. destruct (T1 n) as [?|(name & id & b & fl & q & w & H & ?)]; [by left|].
       right. exists name, id, b, fl, q, w. split; [|done]. apply list_elem_of_singleton in H as ->. left. }
  unfold mbind, hio_bind. destruct (apply_volumes umask d vs h1) as [r2 h2] eqn:E2.
  assert (Hi1 : farm_injective h1) by (unfold farm_injective; rewrite F1; exact Hi).
  destruct (IH h1 _ _ Hi1 Hn E2) as [F2 D2 T2].
  intros E. assert (h' = h2) as -> by (by destruct r2; injection E). split; [congruence|congruence|]. intros n.
  destruct (T1 n) as [H1|(name & id & b & fl & q & w & Hin & Hf & Hb & Hp & H1)].
  - destruct (T2 n) as [H2|(name & id & b & fl & q & w & Hin & Hf & Hb & Hp & H2)]; [left; congruence|].
    right. exists name, id, b, fl, q, w. rewrite F1 in Hf. rewrite H1 in Hp.
    split; [by right|]. done.
  - apply list_elem_of_singleton in Hin. subst v.
    destruct (T2 n) as [H2|(name' & id' & b' & fl' & q' & w' & Hin & Hf' & _)].
    + right. exists name, id, b, fl, q, w. split; [left|]. split; [done|]. split; [done|]. split; [done|congruence].
    + exfalso. rewrite F1 in Hf'. rewrite (Hi _ _ _ Hf Hf') in Hv. apply Hv. cbn.
      by apply (list_elem_of_fmap_2 fst) in Hin.
Qed.

Lemma run_pass_run (d : Daemon) (h : host) (written : Z) (d' : Daemon) (h' : host) :
  farm_injective h -> (forall n, volume_ok (tree h n)) ->
  run_pass umask d h = (written, d', h') ->
  farm h' = farm h /\ dirs h' = dirs h /\
  forall n, let f := tree h n in let f' := tree h' n in
    volume_ok f' /\ same_view identity_chain f f' /\ same_view jwt_chain f f' /\
    (same_view policy_chain f f' \/
     exists name id b, farm h !! name = Some (Some n) /\ holds_identity d h name id /\
       PolicyManager.bundle (SpiffeId_as_str id) (d_manager d') = Some b /\
       (forall q, seen_policy f' q = documents_at [] (documents b) !! q) /\
       content_at f' [REVISION_FILE] = Some (revision b +:+ newline)).
Proof.
  intros Hi Hok. unfold run_pass. destruct (scan d h) as [[ag d1] h1] eqn:Es. unfold Daemon_apply.
  destruct (apply_volumes umask d1 (Daemon_volumes d1) h1) as [r h2] eqn:Ea.
  destruct (match r with Ok wf => wf | Err _ => (0, 0) end) as [wr fl]. intros [= <- <- <-].
  pose proof (scan_run _ _ _ _ _ Es) as (_ & _ & [F1 D1 T1] & _).
  apply apply_volumes_written in Ea as [F2 D2 T2];
    [|by unfold farm_injective; rewrite F1|rewrite volumes_names; apply NoDup_in_order].
  split; [congruence|]. split; [congruence|]. intros n. cbn zeta. rewrite <- (T1 n).
  destruct (T2 n) as [->|(name & id & b & fs' & q & w & Hin & Hf & Hb & Hp & ->)].
  { rewrite (T1 n). split; [apply Hok|]. split; [by intros ? |]. split; [by intros ?|left; by intros ?]. }
  rewrite (T1 n) in *. apply publish_policy_run in Hp as [Hall _]; [|apply Hok].
  apply Forall_cons_iff in Hall as [(Hv & Hpol & Hid & Hj) _].
  split; [done|]. split; [done|]. split; [done|].
  destruct Hpol as [?|[Hq Hr]]; [by left|right].
  exists name, id, b. split; [congruence|]. split; [|done].
  apply elem_volumes in Hin. by eapply scan_sound.
Qed.

(** C19: A volume gets its own policy and nobody else's.  Through one pass of the
    daemon - whatever faults its calls meet - the identity and token chains of
    every volume read as before, and a volume's policy either reads as before
    or is, whole, the bundle held for the identity that the volume's own
    certificate carries, an identity that belongs to this node's fleet. *)
Theorem policy_follows_identity (d : Daemon) (h : host) (written : Z) (d' : Daemon) (h' : host) :
  farm_injective h -> (forall n, volume_ok (tree h n)) ->
  run_pass umask d h = (written, d', h') ->
  farm h' = farm h /\ dirs h' = dirs h /\
  forall n, let f := tree h n in let f' := tree h' n in
    volume_ok f' /\ same_view identity_chain f f' /\ same_view jwt_chain f f' /\
    (same_view policy_chain f f' \/
     exists name id b, farm h !! name = Some (Some n) /\ holds_identity d h name id /\
       PolicyManager.bundle (SpiffeId_as_str id) (d_manager d') = Some b /\
       (forall q, seen_policy f' q = documents_at [] (documents b) !! q) /\
       content_at f' [REVISION_FILE] = Some (revision b +:+ newline)).
Proof. apply run_pass_run. Qed.
End daemon_properties.

(** *** Witnesses *)

Module DaemonWitness.
#[local] Existing Instance MiniRegex.engine.
#[local] Existing Instance MiniRegex.engine_spec.

Definition id : SpiffeId := TemplateWitness.id.

(** A parser that knows one certificate. *)
#[local] Instance parser : X509Parser := {|
  parse_x509_pem := fun pem => if String.eqb pem "chain" then Some ("CERTIFICATE", "chain") else None;
  cert_from_der := fun der =>
    if String.eqb der "chain"
    then Some (mkX509 false 100 200 (Ok (Some [URI (SpiffeId_as_str id)])) "01" "k") else None;
  csr_from_der := fun _ => None |}.

Definition config : PolicyConfig :=
  mkPolicyConfig "node-1" "a" "example.org" "/var/lib/svidlet/volumes" DEFAULT_TEMPLATE None
    (mkStream true (Some "https://policy") None None 1) None 5 420 "" LInfo.
Definition policy : IdPolicy := mkPolicy TemplateWitness.default None None.
Definition fleet_bundle : PolicyBundle := mkBundle "r1" [mkDocument "authz.rego" "allow"].

Definition volume : fs :=
  wfs (publish_identity 18 (mkIdentity "KEY" "chain" "CA") sample_modes (mkWorld ∅ [] [])).2.
Lemma volume_is_ok : volume_ok volume.
Proof.
  destruct (publish_identity_run 18 (mkIdentity "KEY" "chain" "CA") sample_modes ∅ []
    (publish_identity 18 (mkIdentity "KEY" "chain" "CA") sample_modes (mkWorld ∅ [] [])).1
    (publish_identity 18 (mkIdentity "KEY" "chain" "CA") sample_modes (mkWorld ∅ [] [])).2 empty_volume) as [H _].
  { apply surjective_pairing. }
  apply Forall_cons_iff in H as [[H _] _]. exact H.
Qed.

Definition node_host : host := mkHost {[ 0%nat := volume ]} 1 ∅ {[ "v1" := Some 0%nat ]} [].
Definition daemon : Daemon :=
  mkDaemon config policy (apply_fleet fleet_bundle (new config)).2 ∅ 0 0 0 0.

Lemma host_trees n : volume_ok (tree node_host n).
Proof.
  unfold tree, node_host. cbn [trees]. destruct (decide (n = 0%nat)) as [->|Hne].
  - rewrite lookup_singleton_eq. exact volume_is_ok.
  - rewrite lookup_singleton_ne by done. exact empty_volume.
Qed.

Lemma host_farm : farm_injective node_host.
Proof.
  unfold farm_injective, node_host. cbn [farm].
  intros name name' n [<- _]%lookup_singleton_Some [<- _]%lookup_singleton_Some. done.
Qed.

(** The pass writes the fleet bundle into the one volume. *)
Example pass_writes : (run_pass 18 daemon node_host).1.1 = 1.
Proof. vm_compute. reflexivity. Qed.

Lemma policy_follows_identity_witness :
  let h' := (run_pass 18 daemon node_host).2 in
  volume_ok (tree h' 0) /\ same_view identity_chain (tree node_host 0) (tree h' 0).
Proof.
  pose proof (policy_follows_identity 18 daemon node_host (run_pass 18 daemon node_host).1.1
    (run_pass 18 daemon node_host).1.2 (run_pass 18 daemon node_host).2 host_farm host_trees) as H.
  destruct H as (_ & _ & H).
  - by rewrite <- !surjective_pairing.
  - destruct (H 0%nat) as (H1 & H2 & _). exact (conj H1 H2).
Defined.

Lemma subscriptions_in_step_witness : in_step (scan daemon node_host).1.2.
Proof.
  apply (subscriptions_in_step daemon node_host (scan daemon node_host).1.1 (scan daemon node_host).1.2
           (scan daemon node_host).2).
  - reflexivity.
  - intros s. cbn. split; [by intros ?%elem_of_empty|]. intros (name & i & H & _). by rewrite lookup_empty in H.
  - by rewrite <- !surjective_pairing.
Defined.
End DaemonWitness.
