(* ===== verification/PolicyProcess.v ===== *)
(** * The policy daemon's process
    (svidlet/src/bin/svidlet-policy.rs, policy/oci/mod.rs, policy/daemon.rs)

    [svidlet-policy] from its start: the source of bundles it is configured
    with, then the poll loop, the policy stream and the passes of the daemon in
    any order, over one manager, with the CSI plugin acting on the volumes in
    between.  The poll loop is a sequence of its own: it first resumes the
    bundle the node already had, then polls. *)

From S2P Require Import Prelude RustStr Errors Template Certs Fs Volume NodeStore NodeConfig Rollout Tarball Oci Contents Registry Jitter.
From S2P Require Import FloatText Policy Host Recover Daemon.
Import PolicyManager.
Open Scope list_scope.
Open Scope Z_scope.

Section process.
Context {R : RegexLite} {X : X509Parser} {OC : OciCrypto} {SC : StoreCodec}.
Context (umask : Z) (clock : nat -> Z) (shown : OciError -> string).
(** [Certificate::from_pem] of the registry's HTTP client. *)
Context (pem_ok : string -> bool).

(** ** Start-up *)

(** [Registry::new], as far as it can fail. *)
Definition Registry_new (ca_cert_pem : option string) : result OciError unit :=
  guard_err (match ca_cert_pem with Some pem => negb (pem_ok pem) | None => false end) OConfig.

Definition no_bundle_metrics : BundleMetrics := mkBundleMetrics 0 0 0 0 ∅ 0.

(** [BundleSource::new]: everything that is read and checked, then the store's
    directory and the state it kept; the world is the store's. *)
Definition BundleSource_new (s : BundleSettings) (cluster node : string) (files : string -> option string) (w : world)
    : result OciError (BundleSource * sys) :=
  refs ← source_of (rollout_ref s) (bundle_repo s) (public_key s) (path ← public_key_path s; files path);
  ca_cert_pem ← match bundle_ca_cert_path s with
                | Some path => Some <$> ok_or OConfig (files path)
                | None => Ok None
                end;
  _ ← Registry_new ca_cert_pem;
  match fs_create_dir_all [VERSIONS] w with
  | (Err _, _) => Err OIo
  | (Ok _, w) =>
      let '(st, w) := load_state w in
      Ok (mkSource (NodeConfig.full_fetch_every s) (NodeConfig.max_bytes s) (Z.to_nat (NodeConfig.keep_versions s)) cluster node refs.2,
          mkSys (match st with Ok st => st | Err _ => default_state end) no_bundle_metrics w 0)
  end.

(** A source and its loop: the interval and jitter of its pauses, whether the
    loop is past its head ([so_resumed]), and the process's random generator,
    which nothing else in it draws from. *)
Record Source := mkSourceLoop { so_src : BundleSource; so_pause : Z * Z; so_sys : sys; so_resumed : bool; so_rng : Z }.

Record Proc := mkProc { pr_daemon : Daemon; pr_source : option Source; pr_host : host }.

Inductive PolicyStartError := BadPolicy | BadSource (e : OciError).

(** [seed]: what [rand::seed] leaves. *)
Definition policy_start (seed : Z) (cfg : PolicyConfig) (files : string -> option string) (w : world) (h : host)
    : result PolicyStartError Proc :=
  source ← (if bundle_enabled cfg then
              match NodeConfig.bundle cfg with
              | Some s =>
                  sy ← map_err BadSource (BundleSource_new s (p_cluster cfg) (p_node_name cfg) files w);
                  Ok (Some (mkSourceLoop sy.1 (poll_interval s, poll_jitter s) sy.2 false seed))
              | None => Ok None
              end
            else Ok None);
  daemon ← map_err (fun _ => BadPolicy) (Daemon_new cfg (new cfg));
  Ok (mkProc daemon source h).

Lemma BundleSource_new_run s cluster node files w src y :
  BundleSource_new s cluster node files w = Ok (src, y) ->
  b_cluster src = cluster /\ (well (wfs w) -> wfaults w = [] -> well (wfs (y_world y)) /\ wfaults (y_world y) = []).
Proof.
  unfold BundleSource_new. intros (refs & _ & (ca & _ & (u & _ & H)%bind_Ok)%bind_Ok)%bind_Ok.
  destruct (fs_create_dir_all _ w) as [[] w1] eqn:Ec; [|done]. destruct (load_state w1) as [st w2] eqn:El. injection H as <- <-.
  split; [done|]. intros Hw Hx. cbn [y_world]. destruct (well_create_dir_all _ _ _ _ Hw Logic.I Ec) as (_ & Hw1 & _).
  assert (Hx1 : wfaults w1 = []) by (eapply spends_none; [apply spends_create_dir_all|exact Ec|done]).
  split; [|eapply spends_none; [|exact El|done]].
  - assert (wfs w2 = wfs w1) as ->; [|done]. eapply reads_run; [|exact El].
    apply reads_bind; [apply reads_attempt, reads_read_to_string|intros; apply reads_ret].
  - unfold load_state, fs_read_to_string, fs_read. spending.
Qed.

(** ** Steps *)

Inductive pevent :=
| PollTurn (reg : Registry)        (* one time round the poll loop *)
| Received (u : PolicyUpdate)      (* an update of the policy stream *)
| Connection (up : bool)
| Pass                             (* one time round the daemon's loop *)
| Plugin (act : host -> host).     (* the CSI plugin and the kubelet *)

(** The head of [poll_loop]; then its rounds, each a jittered pause and a poll.
    [None] is an abort: a poll that panics, or a pause that cannot be computed. *)
Definition poll_turn (reg : Registry) (so : Source) : option (option PolicyBundle * Source) :=
  '(rng, outcome) ← (if so_resumed so then
      let '(interval, rng) := jittered (mkDuration (so_pause so).1 0) (mkDuration (so_pause so).2 0) (so_rng so) in
      _ ← interval;
      Some (rng, poll_round umask clock shown (so_src so) reg (so_sys so))
    else Some (so_rng so, load_current (so_sys so)));
  match outcome with
  | (None, _) => None
  | (Some r, y) => Some (match r with Ok b => b | Err _ => None end, mkSourceLoop (so_src so) (so_pause so) y true rng)
  end.

Definition with_manager (m : Manager) (d : Daemon) : Daemon :=
  mkDaemon (d_cfg d) (d_id_policy d) m (d_volumes d) (d_scans d) (d_volumes_written d) (d_write_failures d) (d_unreadable d).
Definition on_manager (f : Manager -> Manager) (p : Proc) : Proc :=
  mkProc (with_manager (f (d_manager (pr_daemon p))) (pr_daemon p)) (pr_source p) (pr_host p).

Definition pstep (p : Proc) (e : pevent) : option Proc :=
  match e with
  | PollTurn reg =>
      match pr_source p with
      | None => Some p
      | Some so =>
          '(b, so) ← poll_turn reg so;
          let p := mkProc (pr_daemon p) (Some so) (pr_host p) in
          Some (match b with Some b => on_manager (fun m => (apply_fleet b m).2) p | None => p end)
      end
  | Received u => Some (if stream_enabled (d_cfg (pr_daemon p)) then on_manager (grpc_apply u) p else p)
  | Connection up => Some (if stream_enabled (d_cfg (pr_daemon p)) then on_manager (set_connected up) p else p)
  | Pass =>
      let '(_, d, h) := run_pass umask (pr_daemon p) (pr_host p) in Some (mkProc d (pr_source p) h)
  | Plugin act => Some (mkProc (pr_daemon p) (pr_source p) (act (pr_host p)))
  end.

Fixpoint prun (p : Proc) (es : list pevent) : option Proc :=
  match es with
  | [] => Some p
  | e :: es => p ← pstep p e; prun p es
  end.

Lemma prun_snoc p es e : prun p (es ++ [e]) = prun p es ≫= fun p' => pstep p' e.
Proof.
  revert p. induction es as [|x es IH]; intros p; cbn; [by destruct (pstep p e)|].
  destruct (pstep p x) as [p1|]; cbn; [apply IH|done].
Qed.

(** ** The poll loop never aborts the process on an ASCII cluster name *)

Create HintDb answers.
Definition answers {A : Type} (m : pm A) : Prop := forall y, (m y).1 <> None.

Lemma answers_ret {A : Type} (a : A) : answers (mret a).
Proof. done. Qed.
Lemma answers_res {A : Type} (r : result OciError A) : answers (pm_res r).
Proof. done. Qed.
Lemma answers_bind {A B : Type} (m : pm A) (k : A -> pm B) : answers m -> (forall a, answers (k a)) -> answers (m ≫= k).
Proof.
  intros Hm Hk y. unfold mbind, pm_bind. specialize (Hm y). destruct (m y) as [[[a|e]|] y']; [apply Hk|done|done].
Qed.
Lemma answers_io {A : Type} (m : io A) : answers (pm_io m).
Proof. intros y. unfold pm_io. by destruct (m _). Qed.
Lemma answers_store {A : Type} (m : io (result OciError A)) : answers (pm_store m).
Proof. intros y. unfold pm_store. by destruct (m _). Qed.
Lemma answers_metrics f : answers (pm_metrics f).
Proof. done. Qed.
Lemma answers_update f : answers (update_state umask f).
Proof. intros y. unfold update_state. by destruct (save_state _ _ _). Qed.
Lemma answers_get : answers get_state.
Proof. done. Qed.
Lemma answers_now : answers (unix_now clock).
Proof. done. Qed.

(** Driven by the head of the program, so that nothing is unfolded. *)
Ltac answering :=
  repeat match goal with
    | |- answers (mbind _ _) => apply answers_bind; [|intros ?]
    | |- answers (mret _) => apply answers_ret
    | |- answers (pm_res _) => apply answers_res
    | |- answers (pm_io _) => apply answers_io
    | |- answers (pm_store _) => apply answers_store
    | |- answers (pm_metrics _) => apply answers_metrics
    | |- answers (update_state _ _) => apply answers_update
    | |- answers get_state => apply answers_get
    | |- answers (unix_now _) => apply answers_now
    | |- answers (match ?x with _ => _ end) => destruct x eqn:?
    | |- _ => solve [auto with answers]
    end.

Lemma any_glob_ascii gs cluster : ascii_text cluster = true -> any_glob gs cluster <> Rollout.Panic.
Proof.
  intros Ha. induction gs as [|g gs IH]; cbn; [done|]. rewrite (proj2 (glob_match_spec g cluster) Ha). by destruct (glob_ref g cluster).
Qed.
Lemma rollout_target_ascii r cluster node : ascii_text cluster = true -> rollout_target r cluster node <> None.
Proof.
  intros Ha. unfold rollout_target. induction (rings r) as [|x xs IH]; cbn; [done|]. unfold ring_matches.
  destruct (is_catch_all _); [done|]. destruct (existsb _ _); [done|].
  pose proof (any_glob_ascii (clusters (ring_match x)) cluster Ha) as Hg.
  destruct (any_glob _ _) as [[]|]; [done| |done]. by repeat case_match.
Qed.

Lemma answers_fetch src reg d : answers (fetch_bundle umask src reg d).
Proof.
  unfold fetch_bundle. apply answers_bind; [apply answers_res|]. intros blob. apply answers_bind; [apply answers_res|]. intros _.
  apply answers_bind; [|intros es; answering].
  destruct (extract_total blob (Oci.max_bytes src)) as [r ->]. apply answers_res.
Qed.
Lemma answers_has d : answers (pm_has d).
Proof. unfold pm_has. answering. Qed.
Lemma answers_remember etag : answers (remember_etag umask etag).
Proof. unfold remember_etag. answering. Qed.
Lemma answers_set_current ring d : answers (set_current umask clock ring d).
Proof. unfold set_current. answering. Qed.
Lemma answers_success etag : answers (record_success umask clock etag).
Proof. unfold record_success. answering. Qed.
Lemma answers_sequence n : answers (record_sequence umask n).
Proof. unfold record_sequence. answering. Qed.
Lemma answers_etag : answers current_etag.
Proof. unfold current_etag. answering; apply answers_has. Qed.
#[local] Hint Resolve answers_fetch answers_has answers_remember answers_set_current answers_success answers_sequence answers_etag : answers.

Lemma answers_apply_ring src reg ring etag : answers (apply_ring umask clock src reg ring etag).
Proof. unfold apply_ring, bump_swaps. answering. Qed.
Lemma answers_verified src reg manifest : answers (verified_rollout umask clock src reg manifest).
Proof. unfold verified_rollout. answering. Qed.
#[local] Hint Resolve answers_apply_ring answers_verified : answers.

Lemma answers_poll src reg : ascii_text (b_cluster src) = true -> answers (poll umask clock src reg).
Proof.
  intros Ha. unfold poll. apply answers_bind; [done|]. intros n. answering.
  exfalso. by eapply rollout_target_ascii.
Qed.
Lemma answers_load : answers load_current.
Proof.
  unfold load_current. answering. intros y. by destruct (pm_store _ y) as [[[]|] y'].
Qed.

(** The pauses that can be computed. *)
Definition pausable (pause : Z * Z) : Prop := 0 <= pause.1 <= 2 ^ 52 /\ 0 <= pause.2 <= 2 ^ 53.

Lemma poll_turn_cases reg so :
  pausable (so_pause so) ->
  exists rng, poll_turn reg so =
    match (if so_resumed so then poll_round umask clock shown (so_src so) reg (so_sys so) else load_current (so_sys so)) with
    | (None, _) => None
    | (Some r, y) => Some (match r with Ok b => b | Err _ => None end, mkSourceLoop (so_src so) (so_pause so) y true rng)
    end.
Proof.
  intros [HI HJ]. unfold poll_turn. destruct (so_resumed so); [|by eexists].
  pose proof (poll_pause_some _ _ (so_rng so) HI HJ) as [d Hd]. destruct (jittered _ _ _) as [interval rng]. cbn in Hd. rewrite Hd.
  by exists rng.
Qed.
Lemma poll_turn_total reg so : pausable (so_pause so) -> ascii_text (b_cluster (so_src so)) = true -> is_Some (poll_turn reg so).
Proof.
  intros Hp Ha. destruct (poll_turn_cases reg so Hp) as [rng ->]. destruct (so_resumed so).
  - unfold poll_round. pose proof (answers_poll (so_src so) reg Ha (so_sys so)) as H.
    destruct (poll _ _ _ _ _) as [[[a|e]|] y]; [by eexists| |done]. destruct (record_error _ _ _ y) as [o y']. by eexists.
  - pose proof (answers_load (so_sys so)) as H. destruct (load_current _) as [[r|] y]; [by eexists|done].
Qed.

(** ** Where a bundle comes from *)

Section provenance.
Context (p0 : Proc) (so0 : Source).
Local Notation src := (so_src so0).
Local Notation f0 := (wfs (y_world (so_sys so0))).

(** The store was found in order, and no call on it fails. *)
Definition untroubled : Prop := well f0 /\ wfaults (y_world (so_sys so0)) = [].
(** An archive that a registry served in the course of the run. *)
Definition served (es : list pevent) (digest : string) (entries : list TarEntry) : Prop :=
  exists reg, PollTurn reg ∈ es /\ check_digest_form digest = Ok tt /\ archive src reg digest entries.
(** The documents are those the store already had for that digest, or the
    entries of an archive that hashes to it. *)
Definition genuine (es : list pevent) (b : PolicyBundle) : Prop :=
  docs_of f0 (version_dir (revision b)) (documents b) \/
  exists entries, served es (revision b) entries /\ unpacked entries (documents b).
(** A poll of the run handed the bundle over: the manifest its registry served
    was signed, and fresh against the replay mark and the clock of that very
    moment, and assigned the bundle to this very node. *)
Definition polled (es : list pevent) (b : PolicyBundle) : Prop :=
  exists pre reg p so etag manifest new_etag rollout ring,
    pre ++ [PollTurn reg] `prefix_of` es /\ prun p0 pre = Some p /\ pr_source p = Some so /\
    reg_manifest reg etag = Ok (Changed manifest new_etag) /\
    Oci.accepted src reg manifest (last_sequence (y_state (so_sys so))) (clock (y_ticks (so_sys so))) rollout /\
    last_sequence (y_state (so_sys so0)) <= last_sequence (y_state (so_sys so)) /\
    freeze rollout = false /\ rollout_target rollout (b_cluster src) (b_node src) = Some (Some ring) /\
    revision b = Rollout.bundle ring /\ documents b <> [] /\
    (untroubled -> genuine (pre ++ [PollTurn reg]) b).
(** Or it is the one the node had been left with. *)
Definition trusted (es : list pevent) (b : PolicyBundle) : Prop :=
  (exists y, load_current (so_sys so0) = (Some (Ok (Some b)), y)) \/ polled es b.

Lemma trusted_mono es e b : trusted es b -> trusted (es ++ [e]) b.
Proof.
  intros [?|(pre & reg & p & so & etag & m & ne & r & ring & Hp & H)]; [by left|right].
  exists pre, reg, p, so, etag, m, ne, r, ring. split; [by apply prefix_app_r|done].
Qed.
Lemma served_mono es e d entries : served es d entries -> served (es ++ [e]) d entries.
Proof. intros (reg & Hr & H). exists reg. split; [apply elem_of_app; by left|done]. Qed.
Lemma served_safe es d entries : served es d entries -> Forall safe_entry entries.
Proof. intros (reg & _ & _ & H). by eapply archive_safe. Qed.

(** The loop between two turns. *)
Record loop_ok (es : list pevent) (so : Source) : Prop := {
  lk_src : so_src so = src;
  lk_pause : so_pause so = so_pause so0;
  lk_head : so_resumed so = false -> so_sys so = so_sys so0;
  lk_mark : last_sequence (y_state (so_sys so0)) <= last_sequence (y_state (so_sys so));
  lk_kept : untroubled -> kept f0 (served es) (y_world (so_sys so));
}.
Lemma loop_ok_mono es e so : loop_ok es so -> loop_ok (es ++ [e]) so.
Proof. intros [? ? ? ? Hk]. split; try done. intros Hu. eapply kept_mono; [|by apply Hk]. intros d entries. apply served_mono. Qed.

Lemma kept_round es reg y o y' :
  PollTurn reg ∈ es -> kept f0 (served es) (y_world y) -> poll_round umask clock shown src reg y = (o, y') ->
  kept f0 (served es) (y_world y') /\ forall b, o = Some (Ok (Some b)) -> genuine es b.
Proof.
  intros Hr Hk E.
  destruct (calm_poll_round umask clock src reg (kept f0 (served es)) (genuine es)) with (shown := shown) (y := y) (o := o) (y' := y')
    as [Hk' Hb]; [..|split; [done|intros b ->; by apply (Hb (Some b))]]; try done.
  - apply kept_has.
  - apply kept_replace.
  - intros d entries Hd Ha. apply kept_write; [apply served_safe|]. by exists reg.
  - apply kept_current.
  - intros d Hd w r w' Hw Er. destruct (kept_read f0 (served es) (served_safe es) d (version_not_staging d Hd) _ _ _ Hw Er) as [Hw' Hq].
    split; [done|]. intros a -> b ->. destruct (Hq _ eq_refl b eq_refl) as [Hrev Hdocs]. unfold genuine. rewrite Hrev.
    destruct Hdocs as [?|(d' & entries & Hv & Hs & Hu)]; [by left|right]. exists entries. split; [|done].
    pose proof Hs as (reg' & _ & Hd' & _). by rewrite <- (version_name_inj d' d Hd' Hd Hv).
  - apply kept_prune.
Qed.
Lemma load_current_run es y o y' :
  load_current y = (o, y') -> y_state y' = y_state y /\ (kept f0 (served es) (y_world y) -> kept f0 (served es) (y_world y')).
Proof.
  unfold load_current, mbind, pm_bind, get_state. destruct (is_empty _); [by intros [= _ <-]|].
  destruct (pm_has (s_digest (y_state y)) y) as [ob y1] eqn:Eh.
  assert (H1 : y_state y1 = y_state y /\ (kept f0 (served es) (y_world y) -> kept f0 (served es) (y_world y1))).
  { split; [|intros Hk; by destruct (calm_has _ (kept_has f0 (served es)) _ _ _ _ Hk Eh)].
    unfold pm_has, pm_io, mbind, pm_bind in Eh. destruct (store_has _ _). by injection Eh as _ <-. }
  destruct H1 as [Hs1 Hk1]. destruct ob as [[there|]|]; [|by intros [= _ <-]..]. destruct there; [|by intros [= _ <-]]. cbn [negb].
  destruct (pm_store _ y1) as [ob y2] eqn:Er.
  assert (H2 : y_state y2 = y_state y /\ (kept f0 (served es) (y_world y) -> kept f0 (served es) (y_world y2))).
  { split; [rewrite <- Hs1; by eapply pm_store_state|]. intros Hk. unfold pm_store in Er.
    destruct (store_read _ (y_world y1)) as [rr w] eqn:E. injection Er as _ <-. by destruct (kept_reading f0 (served es) _ _ _ _ (Hk1 Hk) E). }
  destruct ob as [[]|]; by intros [= _ <-].
Qed.

Lemma poll_turn_ok es reg p so :
  pausable (so_pause so0) -> ascii_text (b_cluster src) = true -> prun p0 es = Some p -> pr_source p = Some so -> loop_ok es so ->
  exists b so', poll_turn reg so = Some (b, so') /\ loop_ok (es ++ [PollTurn reg]) so' /\
    forall b', b = Some b' -> trusted (es ++ [PollTurn reg]) b'.
Proof.
  intros Hp Ha Er Eso Hl. pose proof (loop_ok_mono _ (PollTurn reg) _ Hl) as [Hsrc Hpa Hsys Hmark Hkept].
  rewrite <- Hpa in Hp. rewrite <- Hsrc in Ha. destruct (poll_turn_total reg so Hp Ha) as [[b so'] Et]. exists b, so'. split; [done|].
  destruct (poll_turn_cases reg so Hp) as [rng Ec]. rewrite Ec in Et. clear Ec.
  assert (Hin : PollTurn reg ∈ es ++ [PollTurn reg]) by (apply elem_of_app; right; left).
  destruct (so_resumed so) eqn:Eres.
  - destruct (poll_round _ _ _ _ _ _) as [[r|] y] eqn:E; [|done]. injection Et as <- <-. rewrite Hsrc in E. split.
    + split; cbn; [done|done|done| |].
      * etrans; [exact Hmark|]. eapply between_mark. by eapply between_round.
      * intros Hu. by destruct (kept_round _ _ _ _ _ Hin (Hkept Hu) E).
    + intros b' Hb. destruct r as [o|]; [subst o|done]. right.
      assert (Hg : untroubled -> genuine (es ++ [PollTurn reg]) b').
      { intros Hu. destruct (kept_round _ _ _ _ _ Hin (Hkept Hu) E) as [_ Hg]. by apply Hg. }
      unfold poll_round in E. destruct (poll _ _ _ _ _) as [[[a|e]|] y1] eqn:Ep; [|destruct (record_error _ _ _ _); done|done].
      injection E as -> <-. apply poll_Changed in Ep as (etag & m & ne & rollout & ring & y2 & y3 & Hm & Hs & Htk & _ & _ & Ev & Hf & Ht & Ea).
      apply apply_ring_Some in Ea as ([Hr Hd] & _). apply verified_rollout_Ok in Ev as [Hacc _]. rewrite Hs, Htk in Hacc.
      by exists es, reg, p, so, etag, m, ne, rollout, ring.
  - rewrite (Hsys eq_refl) in Et. destruct (load_current (so_sys so0)) as [[r|] y] eqn:E; [|done]. injection Et as <- <-.
    destruct (load_current_run (es ++ [PollTurn reg]) _ _ _ E) as [Hs Hk]. rewrite (Hsys eq_refl) in Hkept. split.
    + split; cbn; [done|done|done|by rewrite Hs|auto].
    + intros b' Hb. destruct r as [o|]; [subst o|done]. left. by exists y.
Qed.
End provenance.

(** ** What the manager holds *)

(** A fleet bundle with [P], and for each identity a bundle with [Q] of it. *)
Record stocked (cfg : PolicyConfig) (P : PolicyBundle -> Prop) (Q : string -> PolicyBundle -> Prop) (m : Manager) : Prop := {
  st_settings : settings m = cfg;
  st_bundles : map_Forall Q (bundles m);
  st_fleet : forall b, fleet m = Some b -> P b;
}.

Section stocked.
Context (cfg : PolicyConfig) (P : PolicyBundle -> Prop) (Q : string -> PolicyBundle -> Prop).

Lemma stocked_subscribe id m : stocked cfg P Q m -> stocked cfg P Q (subscribe id m).
Proof. intros [Hs Hb Hf]. unfold subscribe. repeat case_match; split; done. Qed.
Lemma stocked_unsubscribe id m : stocked cfg P Q m -> stocked cfg P Q (unsubscribe id m).
Proof.
  intros [Hs Hb Hf]. unfold unsubscribe. destruct (enabled _); [|by split].
  destruct (bool_decide _); split; cbn; try done; by apply map_Forall_delete.
Qed.
Lemma stocked_foldl {A : Type} (f : Manager -> A -> Manager) l m :
  (forall m a, stocked cfg P Q m -> stocked cfg P Q (f m a)) -> stocked cfg P Q m -> stocked cfg P Q (foldl f m l).
Proof. intros Hf. revert m. induction l as [|a l IH]; intros m H; cbn; auto. Qed.
Lemma stocked_fleet b m : P b -> stocked cfg P Q m -> stocked cfg P Q (apply_fleet b m).2.
Proof.
  intros Hb [Hs Hbs Hf]. unfold apply_fleet, writer_step. case_bool_decide; cbn; [by split|]. split; [done|done|]. cbn. by intros b' [= <-].
Qed.
Lemma stocked_update u m :
  (forall b, accepted u = Some b -> Q (u_spiffe_id u) b) -> stocked cfg P Q m -> stocked cfg P Q (grpc_apply u m).
Proof.
  intros Hu [Hs Hb Hf]. destruct (grpc_apply_cases u m) as [[_ ->]|(b & Ha & _ & ->)]; [by split|].
  destruct (apply_cases (u_spiffe_id u) b m) as [[-> _]|(_ & _ & _ & Ef & Es & Eb & _)]; [by split|].
  split; [congruence| |by rewrite Ef]. rewrite Eb. apply map_Forall_insert_2; auto.
Qed.
Lemma stocked_bundle id b m : stocked cfg P Q m -> PolicyManager.bundle id m = Some b -> Q id b \/ P b.
Proof.
  intros [_ Hb Hf]. unfold PolicyManager.bundle. destruct (bundles m !! id) as [b'|] eqn:E; [intros [= <-]; left; by apply Hb|auto].
Qed.

Lemma scan_stocked d h ag d' h' :
  stocked cfg P Q (d_manager d) -> scan d h = (ag, d', h') -> stocked cfg P Q (d_manager d').
Proof.
  intros H (_ & _ & _ & before & after & _ & _ & ->)%scan_run.
  apply stocked_foldl; [intros; by apply stocked_unsubscribe|].
  apply stocked_foldl; [intros; by apply stocked_subscribe|done].
Qed.
Lemma run_pass_daemon d h n d' h' :
  stocked cfg P Q (d_manager d) -> run_pass umask d h = (n, d', h') ->
  stocked cfg P Q (d_manager d') /\ d_cfg d' = d_cfg d /\ d_id_policy d' = d_id_policy d.
Proof.
  intros H. unfold run_pass. destruct (scan d h) as [[ag d1] h1] eqn:Es. unfold Daemon_apply.
  destruct (apply_volumes _ _ _ _) as [r h2]. destruct (match r with Ok wf => wf | Err _ => (0, 0) end) as [wr fl].
  intros [= <- <- <-]. cbn. split; [by eapply scan_stocked|]. by apply scan_run in Es as (? & ? & _).
Qed.
End stocked.

Lemma stocked_mono cfg P Q Q' m : (forall id b, Q id b -> Q' id b) -> stocked cfg P Q m -> stocked cfg P Q' m.
Proof. intros H [Hs Hb Hf]. split; [done| |done]. by eapply map_Forall_impl. Qed.

(** ** What a volume shows *)

Definition shows (P : PolicyBundle -> Prop) (f : fs) : Prop :=
  exists b, P b /\ (forall q, seen_policy f q = documents_at [] (documents b) !! q) /\
    content_at f [REVISION_FILE] = Some (revision b +:+ newline).
(** What was there when the process started, nothing, or a bundle with [P]. *)
Definition policy_accounted (P : PolicyBundle -> Prop) (h0 : host) (n : nat) (f : fs) : Prop :=
  same_view policy_chain (tree h0 n) f \/ same_view policy_chain ∅ f \/ shows P f.

Lemma same_view_trans c f g h : same_view c f g -> same_view c g h -> same_view c f h.
Proof. intros H1 H2 n rest Hn. by rewrite (H2 n rest Hn), (H1 n rest Hn). Qed.
Lemma content_same c f g n rest : same_view c f g -> n ∈ c_names c -> content_at g (n :: rest) = content_at f (n :: rest).
Proof. intros Hv Hn. unfold content_at. by rewrite (Hv n rest Hn). Qed.
Lemma policy_dir_name : POLICY_DIR ∈ c_names policy_chain.
Proof. left. Qed.
Lemma revision_file_name : REVISION_FILE ∈ c_names policy_chain.
Proof. right. left. Qed.
Lemma shows_same P f g : same_view policy_chain f g -> shows P f -> shows P g.
Proof.
  intros Hv (b & Hb & Hq & Hc). exists b. split; [exact Hb|]. split.
  - intros q. rewrite <- (Hq q). apply (content_same policy_chain); [exact Hv|apply policy_dir_name].
  - rewrite <- Hc. apply (content_same policy_chain); [exact Hv|apply revision_file_name].
Qed.
Lemma accounted_same P h0 n f g : same_view policy_chain f g -> policy_accounted P h0 n f -> policy_accounted P h0 n g.
Proof.
  intros Hv [H|[H|H]]; [left|right; left|right; right]; [by eapply same_view_trans..|by eapply shows_same].
Qed.

(** ** The invariant *)

(** The plugin and the kubelet never write policy: they leave a volume's as it
    is, or remove the volume. *)
Definition plugin_ok (act : host -> host) : Prop := forall h,
  (forall n, volume_ok (tree h n)) -> farm_injective h ->
  (forall n, volume_ok (tree (act h) n)) /\ farm_injective (act h) /\
  forall n, same_view policy_chain (tree h n) (tree (act h) n) \/ same_view policy_chain ∅ (tree (act h) n).
Definition allowed (e : pevent) : Prop := match e with Plugin act => plugin_ok act | _ => True end.

Lemma stocked_trust cfg P P' Q m : (forall b, P b -> P' b) -> stocked cfg P Q m -> stocked cfg P' Q m.
Proof. intros H [Hs Hb Hf]. split; [done|done|]. auto. Qed.
Lemma policy_accounted_mono (P P' : PolicyBundle -> Prop) h n f :
  (forall b, P b -> P' b) -> policy_accounted P h n f -> policy_accounted P' h n f.
Proof. intros H [?|[?|(b & Hb & ?)]]; [by left|by right; left|right; right]. exists b. auto. Qed.

Section bundles_only.
Context (cfg : PolicyConfig) (p0 : Proc) (so0 : Source) (h0 : host).
Context (Hcluster : ascii_text (b_cluster (so_src so0)) = true) (Hpause : pausable (so_pause so0)) (Hstream : stream_enabled cfg = false).

Record proc_ok (es : list pevent) (p : Proc) : Prop := {
  pk_cfg : d_cfg (pr_daemon p) = cfg;
  pk_manager : stocked cfg (trusted p0 so0 es) (fun _ _ => False) (d_manager (pr_daemon p));
  pk_source : exists so, pr_source p = Some so /\ loop_ok so0 es so;
  pk_volumes : forall n, volume_ok (tree (pr_host p) n);
  pk_farm : farm_injective (pr_host p);
  pk_shown : forall n, policy_accounted (trusted p0 so0 es) h0 n (tree (pr_host p) n);
}.
Lemma proc_ok_mono es e p : proc_ok es p -> proc_ok (es ++ [e]) p.
Proof.
  intros [Hc Hm (so & Eso & Hl) Hv Hf Hs]. split; try done.
  - eapply stocked_trust; [|exact Hm]. intros b. apply trusted_mono.
  - exists so. split; [done|]. by apply loop_ok_mono.
  - intros n. eapply policy_accounted_mono; [|apply Hs]. intros b. apply trusted_mono.
Qed.

Lemma pstep_ok es p e :
  prun p0 es = Some p -> proc_ok es p -> allowed e -> exists p', pstep p e = Some p' /\ proc_ok (es ++ [e]) p'.
Proof.
  intros Er Hp He. pose proof (proc_ok_mono es e p Hp) as [Hc Hm Hso Hv Hf Hs].
  destruct e as [reg|u|up| |act]; cbn [pstep].
  - destruct (pk_source _ _ Hp) as (so & Eso & Hl). rewrite Eso.
    destruct (poll_turn_ok p0 so0 es reg p so Hpause Hcluster Er Eso Hl) as (b & so' & -> & Hl' & Hb). cbn [mbind option_bind].
    eexists. split; [reflexivity|].
    assert (Hso' : exists so1, Some so' = Some so1 /\ loop_ok so0 (es ++ [PollTurn reg]) so1) by (by exists so').
    destruct b as [b|]; [|by split]. split; try done. cbn. apply stocked_fleet; auto.
  - rewrite Hc, Hstream. eexists. split; [done|]. split; eauto.
  - rewrite Hc, Hstream. eexists. split; [done|]. split; eauto.
  - destruct (run_pass umask (pr_daemon p) (pr_host p)) as [[w d] h] eqn:E.
    destruct (run_pass_daemon _ _ _ _ _ _ _ _ Hm E) as (Hm' & Hc' & _).
    destruct (run_pass_run _ _ _ _ _ _ Hf Hv E) as (Ef & _ & Ht). eexists. split; [done|]. split; cbn.
    + congruence.
    + done.
    + done.
    + intros n. apply Ht.
    + unfold farm_injective. by rewrite Ef.
    + intros n. destruct (Ht n) as (_ & _ & _ & [Hsame|(name & id & b & _ & _ & Hb & Hq & Hr)]); [by eapply accounted_same|].
      right; right. exists b. split; [|done]. by apply (stocked_bundle _ _ _ _ _ _ Hm') in Hb as [[]|?].
  - destruct (He (pr_host p) Hv Hf) as (Hv' & Hf' & Hpl). eexists. split; [done|]. split; cbn; eauto.
    intros n. destruct (Hpl n) as [H|H]; [by eapply accounted_same|by right; left].
Qed.

Lemma prun_ok es : proc_ok [] p0 -> Forall allowed es -> exists p, prun p0 es = Some p /\ proc_ok es p.
Proof.
  intros H0. induction es as [|e es IH] using rev_ind; intros Hes; [by exists p0|].
  apply Forall_app in Hes as [Hes [He _]%Forall_cons_iff]. destruct (IH Hes) as (p & Er & Hp).
  destruct (pstep_ok es p e Er Hp He) as (p' & Es & Hp'). exists p'. by rewrite prun_snoc, Er.
Qed.
End bundles_only.

(** C6: A daemon configured with signed bundles, on a cluster with an ASCII name
    and with a poll interval and jitter of at most 2^52 and 2^53 seconds,
    whatever the registry serves, the policy stream sends, calls that fail and
    the plugin does in between: it never aborts, and at every moment the policy
    any volume shows is what was there when the process started, nothing, or,
    whole and under its own revision, a bundle that the node had resumed from
    its store or that a poll of this run handed over: the manifest the registry
    served to it was signed with the trusted key, not frozen, fresh against the
    replay mark and the clock of that moment, and assigned the bundle to this
    very node; where the store was found in order and no call on it fails, the
    bundle's documents are those the store already had for that digest or the
    entries, none missing and none added, of an archive that a registry served
    in this run and whose bytes hash to it.  The manager holds nothing else. *)
Theorem policy_process_sound (seed : Z) (cfg : PolicyConfig) (s : BundleSettings) (files : string -> option string) (w : world)
    (h : host) (p0 : Proc) (es : list pevent) :
  stream_enabled cfg = false -> bundle_enabled cfg = true -> NodeConfig.bundle cfg = Some s ->
  ascii_text (p_cluster cfg) = true -> pausable (poll_interval s, poll_jitter s) ->
  (forall n, volume_ok (tree h n)) -> farm_injective h ->
  policy_start seed cfg files w h = Ok p0 -> Forall allowed es ->
  exists so0 p, pr_source p0 = Some so0 /\ prun p0 es = Some p /\
    BundleSource_new s (p_cluster cfg) (p_node_name cfg) files w = Ok (so_src so0, so_sys so0) /\
    (well (wfs w) -> wfaults w = [] -> untroubled so0) /\
    let P := trusted p0 so0 es in
    (forall n, volume_ok (tree (pr_host p) n) /\ policy_accounted P h n (tree (pr_host p) n)) /\
    bundles (d_manager (pr_daemon p)) = ∅ /\
    (forall b, fleet (d_manager (pr_daemon p)) = Some b -> P b).
Proof.
  intros Hstream Hbundle Hs Ha Hpa Hv Hf E Hes. unfold policy_start in E. rewrite Hbundle, Hs in E.
  apply bind_Ok in E as (so & Eso & (d & Ed%map_err_Ok & [= <-])%bind_Ok).
  apply bind_Ok in Eso as ([src y] & Esy%map_err_Ok & [= <-]). cbn [fst snd] in *.
  destruct (BundleSource_new_run _ _ _ _ _ _ _ Esy) as [Hsrc Hun].
  unfold Daemon_new in Ed. apply bind_Ok in Ed as (pol & _ & [= <-]).
  set (so0 := mkSourceLoop src (poll_interval s, poll_jitter s) y false seed).
  destruct (prun_ok cfg (mkProc (mkDaemon cfg pol (new cfg) ∅ 0 0 0 0) (Some so0) h) so0 h) with (es := es)
    as (p & Ep & [_ [_ Hb Hfl] _ Hv' _ Hsh]); [by cbn; rewrite Hsrc|done|done| |done|].
  - split; cbn; try done; [|intros n; by left]. exists so0. split; [done|]. split; try done.
    intros [Hw Hx]. by apply kept_start.
  - exists so0, p. do 3 (split; [done|]). split; [exact Hun|]. cbn zeta. split; [by split|]. split; [|done].
    apply map_empty. intros id. destruct (bundles _ !! id) eqn:El; [by destruct (Hb _ _ El)|done].
Qed.

(** ** A daemon on a policy stream *)

Section stream_only.
Context (cfg : PolicyConfig) (p0 : Proc) (h0 : host).
Context (Hstream : stream_enabled cfg = true).

(** Received by then, for that identity, and accepted as that bundle. *)
Definition from_stream (es : list pevent) (id : string) (b : PolicyBundle) : Prop :=
  exists u, Received u ∈ es /\ u_spiffe_id u = id /\ accepted u = Some b.
(** At some moment of the run the certificate in the volume carried an identity
    of this node's fleet for which the bundle had been received. *)
Definition was_due (es : list pevent) (n : nat) (b : PolicyBundle) : Prop :=
  exists pre p name id, pre `prefix_of` es /\ prun p0 pre = Some p /\
    farm (pr_host p) !! name = Some (Some n) /\ holds_identity (pr_daemon p) (pr_host p) name id /\
    from_stream pre (SpiffeId_as_str id) b.

Record stream_ok (es : list pevent) (p : Proc) : Prop := {
  sk_cfg : d_cfg (pr_daemon p) = cfg;
  sk_manager : stocked cfg (fun _ => False) (from_stream es) (d_manager (pr_daemon p));
  sk_source : pr_source p = None;
  sk_volumes : forall n, volume_ok (tree (pr_host p) n);
  sk_farm : farm_injective (pr_host p);
  sk_shown : forall n, policy_accounted (was_due es n) h0 n (tree (pr_host p) n);
}.

Lemma from_stream_mono es e id b : from_stream es id b -> from_stream (es ++ [e]) id b.
Proof. intros (u & Hu & H). exists u. split; [apply elem_of_app; by left|done]. Qed.
Lemma was_due_mono es e n b : was_due es n b -> was_due (es ++ [e]) n b.
Proof. intros (pre & p & name & id & Hp & H). exists pre, p, name, id. split; [by apply prefix_app_r|done]. Qed.
Lemma stream_ok_mono es e p : stream_ok es p -> stream_ok (es ++ [e]) p.
Proof.
  intros [Hc Hm Hs Hv Hf Hsh]. split; try done.
  - eapply stocked_mono; [|exact Hm]. intros id b. apply from_stream_mono.
  - intros n. eapply policy_accounted_mono; [|apply Hsh]. intros b. apply was_due_mono.
Qed.

Lemma sstep_ok es p e :
  prun p0 es = Some p -> stream_ok es p -> allowed e -> exists p', pstep p e = Some p' /\ stream_ok (es ++ [e]) p'.
Proof.
  intros Er Hp He. pose proof (stream_ok_mono es e p Hp) as [Hc Hm Hs Hv Hf Hsh].
  destruct e as [reg|u|up| |act]; cbn [pstep].
  - rewrite Hs. by eexists.
  - rewrite Hc, Hstream. eexists. split; [done|]. split; try done. cbn. apply stocked_update; [|done].
    intros b Hb. exists u. split; [apply elem_of_app; right; left|done].
  - rewrite Hc, Hstream. eexists. split; [done|]. split; try done. by destruct Hm; split.
  - destruct (run_pass umask (pr_daemon p) (pr_host p)) as [[w d] h] eqn:E.
    destruct (run_pass_daemon _ _ _ _ _ _ _ _ (sk_manager _ _ Hp) E) as (Hm' & Hc' & _).
    destruct (run_pass_run _ _ _ _ _ _ Hf Hv E) as (Ef & _ & Ht). eexists. split; [done|]. split; cbn.
    + congruence.
    + eapply stocked_mono; [|exact Hm']. intros id b. apply from_stream_mono.
    + done.
    + intros n. apply Ht.
    + unfold farm_injective. by rewrite Ef.
    + intros n. destruct (Ht n) as (_ & _ & _ & [Hsame|(name & id & b & Hn & Hid & Hb & Hq & Hr)]); [by eapply accounted_same|].
      right; right. exists b. split; [|done]. apply (stocked_bundle _ _ _ _ _ _ Hm') in Hb as [Hb|[]].
      exists es, p, name, id. split; [by apply prefix_app_r|done].
  - destruct (He (pr_host p) Hv Hf) as (Hv' & Hf' & Hpl). eexists. split; [done|]. split; cbn; eauto.
    intros n. destruct (Hpl n) as [H|H]; [by eapply accounted_same|by right; left].
Qed.

Lemma srun_ok es : stream_ok [] p0 -> Forall allowed es -> exists p, prun p0 es = Some p /\ stream_ok es p.
Proof.
  intros H0. induction es as [|e es IH] using rev_ind; intros Hes; [by exists p0|].
  apply Forall_app in Hes as [Hes [He _]%Forall_cons_iff]. destruct (IH Hes) as (p & Er & Hp).
  destruct (sstep_ok es p e Er Hp He) as (p' & Es & Hp'). exists p'. by rewrite prun_snoc, Er.
Qed.
End stream_only.

(** C7: A daemon on a policy stream, whatever the stream sends for whomever, calls
    that fail and the plugin does in between: it never aborts, and at every
    moment the policy any volume shows is what was there when the process
    started, nothing, or, whole and under its own revision, the bundle built from
    an update that had been received for the very identity the volume's own
    certificate carried when the bundle was written, an identity of this node's
    fleet.  No bundle ever stands for the whole fleet, and the manager holds an
    identity's bundle only if the stream sent it for that identity. *)
Theorem stream_process_sound (seed : Z) (cfg : PolicyConfig) (files : string -> option string) (w : world)
    (h : host) (p0 : Proc) (es : list pevent) :
  stream_enabled cfg = true -> bundle_enabled cfg = false -> (forall n, volume_ok (tree h n)) -> farm_injective h ->
  policy_start seed cfg files w h = Ok p0 -> Forall allowed es ->
  exists p, prun p0 es = Some p /\
    (forall n, volume_ok (tree (pr_host p) n) /\ policy_accounted (was_due p0 es n) h n (tree (pr_host p) n)) /\
    fleet (d_manager (pr_daemon p)) = None /\
    map_Forall (from_stream es) (bundles (d_manager (pr_daemon p))).
Proof.
  intros Hstream Hbundle Hv Hf E Hes. unfold policy_start in E. rewrite Hbundle in E.
  apply bind_Ok in E as (so & [= <-] & (d & Ed%map_err_Ok & [= <-])%bind_Ok).
  unfold Daemon_new in Ed. apply bind_Ok in Ed as (pol & _ & [= <-]).
  destruct (srun_ok cfg (mkProc (mkDaemon cfg pol (new cfg) ∅ 0 0 0 0) None h) h Hstream es) as (p & Er & [_ [_ Hb Hfl] _ Hv' _ Hsh]);
    [|done|].
  - split; cbn; try done. intros n. by left.
  - exists p. split; [done|]. split; [by split|]. split; [|done].
    destruct (fleet _) as [b|] eqn:Eb; [by destruct (Hfl b)|done].
Qed.
End process.

(** ** Witness: a daemon that starts empty and is given its first bundle *)

Module PolicyProcessWitness.
Import OciWitness.
#[local] Existing Instance MiniRegex.engine.
#[local] Existing Instance DaemonWitness.parser.

Definition key_hex : string := "0000000000000000000000000000000000000000000000000000000000000000".
Definition settings : BundleSettings :=
  mkBundleSettings (Some "registry.example/policy/rollout:stable") None (Some key_hex) None None None 30 60 30 "/var/lib/svidlet/policy" 2 1000 10.
Definition config : PolicyConfig :=
  mkPolicyConfig "node-1" "a" "example.org" "/var/lib/svidlet/volumes" DEFAULT_TEMPLATE None
    (mkStream true None None None 1) (Some settings) 5 420 "" LInfo.
Definition no_files (_ : string) : option string := None.
Definition start : result PolicyStartError Proc :=
  policy_start (fun _ => true) 7 config no_files (mkWorld ∅ [] []) DaemonWitness.node_host.
Definition stray : PolicyUpdate := mkUpdate "spiffe://example.org/a" "r9" [mkDocument "x" "y"] false.
(** A pass, the head of the poll loop, a failed poll, one that succeeds, an
    update of a stream that is not configured, a pass, and the plugin. *)
Definition day : list pevent :=
  [Pass; PollTurn reg; PollTurn broken; PollTurn reg; Received stray; Connection true; Pass; Plugin Datatypes.id].
Definition go (p : Proc) : option Proc := prun 18 clock (fun _ => "") p day.

(** The volume was written once, with the bundle of the signed manifest. *)
Example the_bundle_arrives :
  match start with
  | Ok p => option_map (fun p => (d_volumes_written (pr_daemon p), option_map revision (fleet (d_manager (pr_daemon p))),
                                  content_at (tree (pr_host p) 0) [REVISION_FILE])) (go p)
  | Err _ => None
  end = Some (1, Some zero_digest, Some (zero_digest +:+ newline)).
Proof. vm_compute. reflexivity. Qed.

Lemma start_succeeds : match start with Ok _ => true | Err _ => false end = true.
Proof. vm_compute. reflexivity. Qed.
Lemma id_plugin : plugin_ok Datatypes.id.
Proof. intros h Hv Hf. split; [exact Hv|]. split; [exact Hf|]. intros n. left. by intros x r _. Qed.
Lemma day_allowed : Forall allowed day.
Proof. unfold day. rewrite !Forall_cons. cbn. split_and!; try exact Logic.I; [apply id_plugin|constructor]. Qed.

Lemma empty_well : well ∅.
Proof. split; [split; [done|by intros p s n]|by intros r t]. Qed.

Lemma policy_process_sound_witness :
  exists p0 so0 p, start = Ok p0 /\ go p0 = Some p /\ untroubled so0 /\
    (forall n, volume_ok (tree (pr_host p) n) /\
       policy_accounted (trusted 18 clock (fun _ => "") p0 so0 day) DaemonWitness.node_host n (tree (pr_host p) n)).
Proof.
  pose proof start_succeeds as H. destruct start as [p0|] eqn:E; [clear H|discriminate H].
  destruct (policy_process_sound 18 clock (fun _ => "") (fun _ => true) 7 config settings no_files (mkWorld ∅ [] [])
    DaemonWitness.node_host p0 day eq_refl eq_refl eq_refl eq_refl ltac:(split; cbn; lia) DaemonWitness.host_trees DaemonWitness.host_farm E day_allowed)
    as (so0 & p & _ & Hp & _ & Hu & Hv & _).
  exists p0, so0, p. split; [reflexivity|]. split; [exact Hp|]. split; [exact (Hu empty_well eq_refl)|exact Hv].
Defined.

(** The same node, on a stream that sends a bundle for its volume and one for
    somebody else. *)
Definition stream_config : PolicyConfig :=
  mkPolicyConfig "node-1" "a" "example.org" "/var/lib/svidlet/volumes" DEFAULT_TEMPLATE None
    (mkStream true (Some "https://policy:9443") None None 1) None 5 420 "" LInfo.
Definition stream_start : result PolicyStartError Proc :=
  policy_start (fun _ => true) 7 stream_config no_files (mkWorld ∅ [] []) DaemonWitness.node_host.
Definition mine : PolicyUpdate := mkUpdate (SpiffeId_as_str DaemonWitness.id) "r1" [mkDocument "a.rego" "allow"] false.
Definition stream_day : list pevent := [Connection true; Pass; Received stray; Received mine; PollTurn reg; Pass; Plugin Datatypes.id].
Definition stream_go (p : Proc) : option Proc := prun 18 clock (fun _ => "") p stream_day.

Example the_update_arrives :
  match stream_start with
  | Ok p => option_map (fun p => (d_volumes_written (pr_daemon p), content_at (tree (pr_host p) 0) [REVISION_FILE])) (stream_go p)
  | Err _ => None
  end = Some (1, Some ("r1" +:+ newline)).
Proof. vm_compute. reflexivity. Qed.

Lemma stream_starts : match stream_start with Ok _ => true | Err _ => false end = true.
Proof. vm_compute. reflexivity. Qed.
Lemma stream_day_allowed : Forall allowed stream_day.
Proof. unfold stream_day. rewrite !Forall_cons. cbn. split_and!; try exact Logic.I; [apply id_plugin|constructor]. Qed.

Lemma stream_process_sound_witness :
  exists p0 p, stream_start = Ok p0 /\ stream_go p0 = Some p /\ fleet (d_manager (pr_daemon p)) = None.
Proof.
  pose proof stream_starts as H. destruct stream_start as [p0|] eqn:E; [clear H|discriminate H].
  destruct (stream_process_sound 18 clock (fun _ => "") (fun _ => true) 7 stream_config no_files (mkWorld ∅ [] [])
    DaemonWitness.node_host p0 stream_day eq_refl eq_refl DaemonWitness.host_trees DaemonWitness.host_farm E stream_day_allowed)
    as (p & Hp & _ & Hf & _).
  exists p0, p. split; [reflexivity|]. split; [exact Hp|exact Hf].
Defined.
End PolicyProcessWitness.
