(* ===== verification/Node.v ===== *)
(** * The CSI plugin  (svidlet/src/issue.rs, renew.rs, csi/node.rs, recover.rs)

    The [Publisher] and everything that drives it: the CSI calls, the renewal,
    token and trust-bundle passes, the reaper and restart recovery.  A [node] is
    the state they share: the renewal list, the host's mounts and trees, the
    generator, the cached trust bundle, the counters, and - what no field of the
    program holds, but the outside world sees - the requests made to the PKI
    backend so far.

    Each function runs to completion here; the spawned blocking tasks are the
    calls they wait for.  Key generation, the backend and the broker's token
    endpoint are parameters: [keygen] is [Keys.generate], [Issuer] and
    [fetch_tokens] are other components, seen through their interfaces.  The
    latency histograms are in [Exposition]. *)

From S2P Require Import Prelude RustStr Errors Template Certs Keys Issuer Fs Volume NodeStore NodeConfig Host Recover.
Open Scope list_scope.
Open Scope Z_scope.

Record Metrics := mkMetrics {
  issued_publish : Z;
  issued_renew : Z;
  failed_publish : gmap nat Z;
  failed_renew : gmap nat Z;
  recovered : Z;
  unpublished : Z;
  ca_refreshes : Z;
  ca_refresh_failures : Z;
  adoption_skipped : Z;
}.
Definition inc (n : Z) : Z := wrap 64 (n + 1).
Definition inc_code (e : Error) (m : gmap nat Z) : gmap nat Z :=
  let i := ErrorCode_index (Error_code e) in <[i := inc (default 0 (m !! i))]> m.

Record node := mkNode {
  n_store : Store.Store;
  n_host : host;
  n_rng : Z;
  n_ca : string;
  n_metrics : Metrics;
  n_keys : nat;                 (* keys generated *)
  n_asked : list SignRequest;   (* requests made to the backend, newest first *)
}.

Definition set_store (s : Store.Store) (n : node) : node :=
  mkNode s (n_host n) (n_rng n) (n_ca n) (n_metrics n) (n_keys n) (n_asked n).
Definition set_host (h : host) (n : node) : node :=
  mkNode (n_store n) h (n_rng n) (n_ca n) (n_metrics n) (n_keys n) (n_asked n).
Definition set_rng (r : Z) (n : node) : node :=
  mkNode (n_store n) (n_host n) r (n_ca n) (n_metrics n) (n_keys n) (n_asked n).
Definition set_ca (c : string) (n : node) : node :=
  mkNode (n_store n) (n_host n) (n_rng n) c (n_metrics n) (n_keys n) (n_asked n).
Definition set_metrics (m : Metrics) (n : node) : node :=
  mkNode (n_store n) (n_host n) (n_rng n) (n_ca n) m (n_keys n) (n_asked n).
Definition asked (r : SignRequest) (n : node) : node :=
  mkNode (n_store n) (n_host n) (n_rng n) (n_ca n) (n_metrics n) (n_keys n) (r :: n_asked n).
Definition bump_keys (n : node) : node :=
  mkNode (n_store n) (n_host n) (n_rng n) (n_ca n) (n_metrics n) (S (n_keys n)) (n_asked n).

Definition count_published (m : Metrics) : Metrics :=
  mkMetrics (inc (issued_publish m)) (issued_renew m) (failed_publish m) (failed_renew m) (recovered m)
    (unpublished m) (ca_refreshes m) (ca_refresh_failures m) (adoption_skipped m).
Definition count_renewed (m : Metrics) : Metrics :=
  mkMetrics (issued_publish m) (inc (issued_renew m)) (failed_publish m) (failed_renew m) (recovered m)
    (unpublished m) (ca_refreshes m) (ca_refresh_failures m) (adoption_skipped m).
Definition count_publish_failed (e : Error) (m : Metrics) : Metrics :=
  mkMetrics (issued_publish m) (issued_renew m) (inc_code e (failed_publish m)) (failed_renew m) (recovered m)
    (unpublished m) (ca_refreshes m) (ca_refresh_failures m) (adoption_skipped m).
Definition count_renew_failed (e : Error) (m : Metrics) : Metrics :=
  mkMetrics (issued_publish m) (issued_renew m) (failed_publish m) (inc_code e (failed_renew m)) (recovered m)
    (unpublished m) (ca_refreshes m) (ca_refresh_failures m) (adoption_skipped m).
Definition count_unpublished (m : Metrics) : Metrics :=
  mkMetrics (issued_publish m) (issued_renew m) (failed_publish m) (failed_renew m) (recovered m)
    (inc (unpublished m)) (ca_refreshes m) (ca_refresh_failures m) (adoption_skipped m).
Definition count_refresh (ok : bool) (m : Metrics) : Metrics :=
  mkMetrics (issued_publish m) (issued_renew m) (failed_publish m) (failed_renew m) (recovered m)
    (unpublished m) (if ok then inc (ca_refreshes m) else ca_refreshes m)
    (if ok then ca_refresh_failures m else inc (ca_refresh_failures m)) (adoption_skipped m).
Definition count_adoption (adopted skipped : Z) (m : Metrics) : Metrics :=
  mkMetrics (issued_publish m) (issued_renew m) (failed_publish m) (failed_renew m)
    (wrap 64 (recovered m + adopted)) (unpublished m) (ca_refreshes m) (ca_refresh_failures m)
    (wrap 64 (adoption_skipped m + skipped)).

(** A step that may fail with an [Error]. *)
Definition nm (A : Type) : Type := node -> result Error A * node.
#[export] Instance nm_ret : MRet nm := fun A a n => (Ok a, n).
#[export] Instance nm_bind : MBind nm := fun A B k m n =>
  match m n with
  | (Ok a, n) => k a n
  | (Err e, n) => (Err e, n)
  end.
Definition nres {A : Type} (r : result Error A) : nm A := fun n => (r, n).
(** A host call, with [io::Error] turned into [Error::Io]. *)
Definition nhost {A : Type} (m : hio A) : nm A := fun n =>
  let '(r, h) := m (n_host n) in (map_err (fun _ => Io) r, set_host h n).
(** A host call whose error is dropped. *)
Definition ignore {A : Type} (m : hio A) (n : node) : node := set_host (m (n_host n)).2 n.
Definition nget {A : Type} (f : node -> A) : nm A := fun n => (Ok (f n), n).
Definition nput (f : node -> node) : nm unit := fun n => (Ok tt, f n).

Section node.
Context {R : RegexLite} {X : X509Parser}.
Context (umask : Z).
(** The [n]th key this process generates. *)
Context (keygen : nat -> SpiffeId -> result Error KeyAndCsr).
(** The token grants the broker answers a certificate and key with:
    (alias, token) pairs; [None] without a broker. *)
Context (fetch_tokens : option (string -> string -> result Error (list (string * string)))).
Context (cfg : NodeConfig.Config) (policy : IdPolicy).

Definition modes : Modes := mkModes (key_mode cfg) (cert_mode cfg) (cfg_key_gid cfg).

(** ** issue.rs *)

Definition publish_on (t : PathBuf) (identity : Volume.Identity) : nm unit :=
  nhost (on_target (Err NotFound) t (publish_identity umask identity modes)).

Definition generate (id : SpiffeId) : nm KeyAndCsr := fun n => (keygen (n_keys n) id, bump_keys n).

Definition ask (I : Issuer) (req : SignRequest) : nm IssuedBundle := fun n => (issuer_sign req, asked req n).

Definition sign_request (id : SpiffeId) (csr : string) (p : PodRef) (token : option string) : SignRequest :=
  mkSignRequest id csr (cert_ttl cfg) (node_name cfg)
    (Some (mkPodContext (pod_namespace p) (NodeStore.pod_name p) (NodeStore.pod_uid p) (pod_service_account p) token)).

Definition issue (I : Issuer) (id : SpiffeId) (t : PathBuf) (p : PodRef) (token : option string) : nm IssuedBundle :=
  generated ← generate id;
  bundle ← ask I (sign_request id (kc_csr_pem generated) p token);
  key ← nres (leaf_public_key (Certs.cert_chain_pem bundle));
  _ ← nres (guard_err (negb (String.eqb key (kc_public_key generated))) Certificate);
  cached ← nget n_ca;
  let ca := if is_empty cached then Certs.ca_pem bundle else cached in
  _ ← publish_on t (mkIdentity (kc_key_pem generated) (Certs.cert_chain_pem bundle) ca);
  mret bundle.

Definition jwt_on : bool := match broker cfg with Some b => jwt_enabled b | None => false end.

Definition refresh_tokens (t : PathBuf) : nm bool :=
  match fetch_tokens with
  | None => mret false
  | Some fetch =>
      if negb jwt_on then mret false
      else
        identity ← nhost (on_target (Err NotFound) t read_identity);
        grants ← nres (fetch (Volume.cert_chain_pem identity) (Volume.key_pem identity));
        let fresh : gmap string string := list_to_map (reverse grants) in
        there ← nhost (target_exists t);
        if negb there then mret false
        else
          held ← nhost (on_target (Ok ∅) t read_tokens);
          if bool_decide (fresh = held) then mret false
          else
            _ ← nhost (on_target (Err NotFound) t (publish_tokens umask fresh modes));
            mret true
  end.

(** One volume of [refresh_ca]; whether it was updated. *)
Definition refresh_ca_of (fetched : string) (e : Entry) (h : host) : bool * host :=
  match on_target (Err NotFound) (target_path e) read_identity h with
  | (Err _, h) => (false, h)
  | (Ok current, h) =>
      if String.eqb (Volume.ca_pem current) fetched then (false, h)
      else
        match on_target (Err NotFound) (target_path e)
                (publish_identity umask (mkIdentity (Volume.key_pem current) (Volume.cert_chain_pem current) fetched) modes) h with
        | (Ok _, h) => (true, h)
        | (Err _, h) => (false, h)
        end
  end.
Fixpoint refresh_ca_all (fetched : string) (es : list Entry) (h : host) : Z * host :=
  match es with
  | [] => (0, h)
  | e :: es =>
      let '(done_, h) := refresh_ca_of fetched e h in
      let '(n, h) := refresh_ca_all fetched es h in
      (Z.b2z done_ + n, h)
  end.
Definition rewrite_ca (fetched : string) : nm Z := fun n =>
  let '(u, h) := refresh_ca_all fetched (Store.all (n_store n)) (n_host n) in (Ok u, set_host h n).
Definition refresh_ca (I : Issuer) : nm Z :=
  fetched ← nres issuer_ca_chain;
  cached ← nget n_ca;
  if String.eqb cached fetched then mret 0
  else
    _ ← nput (set_ca fetched);
    rewrite_ca fetched.

Definition prime_ca (I : Issuer) : nm unit :=
  fetched ← nres issuer_ca_chain;
  _ ← nres (guard_err (negb (contains_str "-----BEGIN CERTIFICATE-----" fetched)) Protocol);
  nput (set_ca fetched).

(** ** renew.rs *)

(** [None] is a panic, which aborts the process. *)
Definition renew_one (I : Issuer) (now : Z) (e : Entry) (n : node) : option node :=
  let '(there, n) := nhost (target_exists (target_path e)) n in
  match there with
  | Ok true =>
      match issue I (spiffe_id e) (target_path e) (pod e) (pod_token e) n with
      | (Ok bundle, n) =>
          let '(renew_at, rng) :=
            jittered_renew_at (b_not_before bundle) (b_not_after bundle) (renew_fraction cfg) (n_rng n) in
          let n := set_rng rng n in
          let n := set_store (Store.record_renewal (target_path e) (b_not_before bundle) (b_not_after bundle)
                                renew_at (n_store n)) n in
          let n := set_metrics (count_renewed (n_metrics n)) n in
          Some (refresh_tokens (target_path e) n).2
      | (Err err, n) =>
          let n := set_metrics (count_renew_failed err (n_metrics n)) n in
          '(_, s, rng) ← Store.record_failure (target_path e) now (n_store n) (n_rng n);
          Some (set_store s (set_rng rng n))
      end
  | _ => Some (set_store (Store.remove (target_path e) (n_store n)).2 n)
  end.

(** The batch: [clock] gives the time each renewal reads. *)
Fixpoint renew_all (I : Issuer) (clock : list Z) (es : list Entry) (n : node) : option node :=
  match es, clock with
  | e :: es, now :: clock => n ← renew_one I now e n; renew_all I clock es n
  | _, _ => Some n
  end.
Definition renew_due (I : Issuer) (now : Z) (clock : list Z) (n : node) : option (nat * node) :=
  let due := Store.due now (n_store n) in
  n ← renew_all I clock due n;
  Some (length due, n).

Fixpoint refresh_tokens_all (es : list Entry) (n : node) : Z * node :=
  match es with
  | [] => (0, n)
  | e :: es =>
      let '(there, n) := nhost (target_exists (target_path e)) n in
      match there with
      | Ok true =>
          match refresh_tokens (target_path e) n with
          | (Ok changed, n) => let '(k, n) := refresh_tokens_all es n in (Z.b2z changed + k, n)
          | (Err err, n) => if bool_decide (err = Transport) then (0, n) else refresh_tokens_all es n
          end
      | _ => refresh_tokens_all es n
      end
  end.
Definition refresh_tokens_once (n : node) : Z * node := refresh_tokens_all (Store.all (n_store n)) n.

Definition refresh_ca_once (I : Issuer) (n : node) : node :=
  match refresh_ca I n with
  | (Ok 0, n) => n
  | (Ok _, n) => set_metrics (count_refresh true (n_metrics n)) n
  | (Err _, n) => set_metrics (count_refresh false (n_metrics n)) n
  end.

Definition exposed (volume_id : string) (m : string -> hio unit) (n : node) : node :=
  match policy_gid cfg with Some _ => ignore (m (farm_name volume_id)) n | None => n end.

Fixpoint reap (es : list Entry) (n : node) : Z * node :=
  match es with
  | [] => (0, n)
  | e :: es =>
      let '(there, n) := nhost (target_exists (target_path e)) n in
      match there with
      | Ok true => reap es n
      | _ =>
          let n := set_store (Store.remove (target_path e) (n_store n)).2 n in
          let n := exposed (NodeStore.volume_id e) unexpose n in
          let n := ignore (unpublish (target_path e)) n in
          let '(k, n) := reap es n in
          (1 + k, n)
      end
  end.
Definition reap_orphans (n : node) : Z * node := reap (Store.all (n_store n)) n.

(** ** csi/node.rs *)

(** [serde_json::Value]; objects keep one value per key. *)
Inductive Json :=
| JNull | JBool (b : bool) | JNumber (text : string) | JString (s : string)
| JArray (l : list Json) | JObject (m : list (string * Json)).
Context (json_value : string -> option Json).

Fixpoint assoc (k : string) (m : list (string * Json)) : option Json :=
  match m with
  | [] => None
  | (k', v) :: m => if String.eqb k' k then Some v else assoc k m
  end.
Definition json_get (k : string) (v : Json) : option Json :=
  match v with JObject m => assoc k m | _ => None end.
Definition as_str (v : Json) : option string := match v with JString s => Some s | _ => None end.

Notation context := (gmap string string).

Definition pod_token_from (ctx : context) (audience : string) : option string :=
  raw ← ctx !! vc.SERVICE_ACCOUNT_TOKENS;
  m ← json_value raw;
  entry ← json_get audience m;
  v ← json_get "token" entry;
  token ← as_str v;
  if is_empty token then None else Some token.

Definition ctx_field (ctx : context) (key : string) : string := default "" (ctx !! key).

Definition attributes_from (ctx : context) : WorkloadAttributes :=
  mkAttrs (trust_domain cfg) (cluster cfg) (ctx_field ctx vc.POD_NAMESPACE) (ctx_field ctx vc.SERVICE_ACCOUNT)
    (ctx_field ctx vc.POD_NAME) (ctx_field ctx vc.POD_UID) (node_name cfg).

Definition template_needs (key : string) : bool :=
  let needs f := bool_decide (f ∈ required_fields (template policy)) in
  if String.eqb key vc.POD_NAMESPACE then needs Namespace
  else if String.eqb key vc.SERVICE_ACCOUNT then needs ServiceAccount
  else if String.eqb key vc.POD_NAME then needs PodName
  else if String.eqb key vc.POD_UID then needs PodUid
  else false.

Definition pod_of (a : WorkloadAttributes) : PodRef :=
  mkPodRef (get a PodName) (get a Namespace) (get a PodUid) (get a ServiceAccount).

Definition identity_from (ctx : context) : result Grpc (SpiffeId * PodRef) :=
  let attrs := attributes_from ctx in
  _ ← for_each (fun kv => guard_err (is_empty kv.2 && template_needs kv.1) InvalidArgument)
        [(vc.POD_NAMESPACE, get attrs Namespace); (vc.SERVICE_ACCOUNT, get attrs ServiceAccount);
         (vc.POD_NAME, get attrs PodName); (vc.POD_UID, get attrs PodUid)];
  id ← map_err status_for (IdPolicy_render policy attrs);
  Ok (id, pod_of attrs).

Record PublishRequest := mkPublish { pr_volume_id : string; pr_target_path : string; pr_context : context }.

(** What the request must be before anything is touched: the identity, the pod
    and the pod token. *)
Definition admit_request (req : PublishRequest) : result Grpc (SpiffeId * PodRef * option string) :=
  _ ← guard_err (is_empty (pr_volume_id req)) InvalidArgument;
  _ ← guard_err (is_empty (pr_target_path req)) InvalidArgument;
  _ ← guard_err (negb (bool_decide (pr_context req !! vc.EPHEMERAL = Some "true"))) InvalidArgument;
  '(id, p) ← identity_from (pr_context req);
  let token := b ← broker cfg; pod_token_from (pr_context req) (pod_token_audience b) in
  _ ← guard_err (bool_decide (is_Some (broker cfg)) && bool_decide (token = None)) InvalidArgument;
  Ok (id, p, token).

(** [Instant + Duration], in whole seconds of the monotonic clock: [None] is the
    overflow's panic. *)
Definition instant_add (mono timeout : Z) : option Z :=
  if mono + timeout <=? i64_max then Some (mono + timeout) else None.

(** The loop of [wait_for_policy]: between two looks at the revision file others
    act on the host; the list ends at the deadline. *)
Fixpoint wait_loop (t : PathBuf) (acts : list (host -> host)) (h : host) : bool * host :=
  let '(r, h) := on_target (Ok false) t (path_exists [REVISION_FILE]) h in
  match r with
  | Ok true => (true, h)
  | _ => match acts with
         | [] => (false, h)
         | act :: acts => wait_loop t acts (act h)
         end
  end.
Definition wait_for_policy (mono : Z) (t : PathBuf) (timeout : Z) (acts : list (host -> host)) (h : host)
    : option (bool * host) :=
  _ ← instant_add mono timeout;
  Some (wait_loop t acts h).

(** The blocking task: the tmpfs, then the certificate. *)
Definition mount_and_issue (I : Issuer) (id : SpiffeId) (t : PathBuf) (p : PodRef) (token : option string)
    : nm IssuedBundle :=
  _ ← nhost (ensure_tmpfs t (tmpfs_size cfg) (policy_gid cfg));
  issue I id t p token.

Definition roll_back {A : Type} (t : PathBuf) (s : Grpc) (n : node) : result Grpc A * node :=
  (Err s, ignore (unpublish t) n).

(** Exposing the volume; [Some] is the answer to stop with. *)
Definition expose_step (volume_id : string) (t : PathBuf) (n : node) : result Grpc unit * node :=
  match policy_gid cfg with
  | None => (Ok tt, n)
  | Some _ =>
      match nhost (expose (farm_name volume_id) t) n with
      | (Ok _, n) => (Ok tt, n)
      | (Err _, n) => roll_back t GInternal n
      end
  end.

Definition gate_step (mono : Z) (volume_id : string) (t : PathBuf) (acts : list (host -> host)) (n : node)
    : option (result Grpc unit * node) :=
  if negb (required (NodeConfig.policy cfg)) then Some (Ok tt, n)
  else '(there, h) ← wait_for_policy mono t (initial_timeout (NodeConfig.policy cfg)) acts (n_host n);
       Some (if (there : bool) then (Ok tt, set_host h n)
             else roll_back t GUnavailable (exposed volume_id unexpose (set_host h n))).

Definition record_step (volume_id : string) (t : PathBuf) (id : SpiffeId) (p : PodRef) (token : option string)
    (bundle : IssuedBundle) (n : node) : node :=
  let '(renew_at, rng) :=
    jittered_renew_at (b_not_before bundle) (b_not_after bundle) (renew_fraction cfg) (n_rng n) in
  let n := set_rng rng n in
  let n := set_store (Store.insert (mkEntry volume_id t id p (b_not_before bundle) (b_not_after bundle)
                                      renew_at 0 token) (n_store n)) n in
  let n := set_metrics (count_published (n_metrics n)) n in
  match fetch_tokens with Some _ => (refresh_tokens t n).2 | None => n end.

(** [mono] is the monotonic clock when the wait begins; [None] is a panic. *)
Definition node_publish_volume (I : Issuer) (mono : Z) (acts : list (host -> host)) (req : PublishRequest) (n : node)
    : option (result Grpc unit * node) :=
  match admit_request req with
  | Err s => Some (Err s, n)
  | Ok (id, p, token) =>
      let t := PathBuf_from (pr_target_path req) in
      match Store.get t (n_store n) with
      | Some existing =>
          Some (if bool_decide (spiffe_id existing = id)
                then (Ok tt, set_store (Store.set_pod_token t token (n_store n)) n)
                else (Err Errors.AlreadyExists, n))
      | None =>
          match mount_and_issue I id t p token n with
          | (Err e, n) => Some (roll_back t (status_for e) (set_metrics (count_publish_failed e (n_metrics n)) n))
          | (Ok bundle, n) =>
              match expose_step (pr_volume_id req) t n with
              | (Err s, n) => Some (Err s, n)
              | (Ok _, n) =>
                  '(r, n) ← gate_step mono (pr_volume_id req) t acts n;
                  Some (match r with
                        | Err s => (Err s, n)
                        | Ok _ => (Ok tt, record_step (pr_volume_id req) t id p token bundle n)
                        end)
              end
          end
      end
  end.

Definition node_unpublish_volume (volume_id target_path : string) (n : node) : result Grpc unit * node :=
  if is_empty target_path then (Err InvalidArgument, n)
  else
    let t := PathBuf_from target_path in
    let n := set_store (Store.remove t (n_store n)).2 n in
    let n := exposed volume_id unexpose n in
    match nhost (unpublish t) n with
    | (Err _, n) => (Err GInternal, n)
    | (Ok _, n) => (Ok tt, set_metrics (count_unpublished (n_metrics n)) n)
    end.

(** ** recover.rs: adopt *)

Inductive adoption := Known | Skipped | Adopted.

(** [now + rand::range_i64(0, startup_spread)] when already due; [None] is a
    panic. *)
Definition spread_renewal (renew_at now : Z) (rng : Z) : option (Z * Z) :=
  if renew_at <=? now then
    let '(r, rng) := Rand.range_i64 0 (wrap_i64 (startup_spread cfg)) rng in
    x ← r; Some (wrap_i64 (now + x), rng)
  else Some (renew_at, rng).

Definition adopted_entry (found : Discovered) (facts : CertFacts) (renew_at : Z) : Entry :=
  let attrs := default attrs_default (IdPolicy_attributes_of policy (SpiffeId_as_str (f_spiffe_id facts))) in
  mkEntry (d_volume_id found) (d_target_path found) (f_spiffe_id facts)
    (mkPodRef (get attrs PodName) (get attrs Namespace) (d_pod_uid found) (get attrs ServiceAccount))
    (f_not_before facts) (f_not_after facts) renew_at 0 None.

Definition adopt_one (now : Z) (found : Discovered) (n : node) : option (adoption * node) :=
  match Store.get (d_target_path found) (n_store n) with
  | Some _ => Some (Known, n)
  | None =>
      let '(chain, h) := on_target (Err NotFound) (d_target_path found) read_cert_chain (n_host n) in
      let n := set_host h n in
      match chain with
      | Err _ => Some (Skipped, n)
      | Ok chain =>
          match inspect chain with
          | Err _ => Some (Skipped, n)
          | Ok facts =>
              match identity_belongs_here policy (SpiffeId_as_str (f_spiffe_id facts))
                      (trust_domain cfg) (cluster cfg) (node_name cfg) with
              | Err _ => Some (Skipped, n)
              | Ok _ =>
                  let '(renew_at, rng) := jittered_renew_at (f_not_before facts) (f_not_after facts)
                                            (renew_fraction cfg) (n_rng n) in
                  '(renew_at, rng) ← spread_renewal renew_at now rng;
                  let n := set_store (Store.insert (adopted_entry found facts renew_at) (n_store n)) (set_rng rng n) in
                  Some (Adopted, exposed (d_volume_id found) (fun name => expose name (d_target_path found)) n)
              end
          end
      end
  end.

Fixpoint adopt_all (now : Z) (found : list Discovered) (n : node) : option (Z * Z * node) :=
  match found with
  | [] => Some (0, 0, n)
  | d :: found =>
      '(a, n) ← adopt_one now d n;
      '(adopted, skipped, n) ← adopt_all now found n;
      Some (match a with
            | Known => (adopted, skipped)
            | Skipped => (adopted, 1 + skipped)
            | Adopted => (1 + adopted, skipped)
            end, n)
  end.

(** [found] is what [discover] returned. *)
Definition adopt (now : Z) (found : list Discovered) (n : node) : option (Z * node) :=
  '(adopted, skipped, n) ← adopt_all now found n;
  Some (adopted, set_metrics (count_adoption adopted skipped (n_metrics n)) n).
End node.

(** ** Running the steps *)

Lemma nm_bind_run {A B : Type} (m : nm A) (k : A -> nm B) n r n' :
  (m ≫= k) n = (r, n') ->
  exists ra n1, m n = (ra, n1) /\
    match ra with Ok a => k a n1 = (r, n') | Err e => r = Err e /\ n' = n1 end.
Proof.
  unfold mbind, nm_bind. destruct (m n) as [[a|e] n1]; intros E.
  - by exists (Ok a), n1.
  - injection E as <- <-. by exists (Err e), n1.
Qed.

Lemma nres_run {A : Type} (r : result Error A) n r' n' : nres r n = (r', n') -> r' = r /\ n' = n.
Proof. by intros [= <- <-]. Qed.

Lemma nhost_run {A : Type} (m : hio A) n r n' :
  nhost m n = (r, n') -> exists r1 h', m (n_host n) = (r1, h') /\ r = map_err (fun _ => Io) r1 /\ n' = set_host h' n.
Proof. unfold nhost. destruct (m (n_host n)) as [r1 h']. intros [= <- <-]. by exists r1, h'. Qed.

(** Everything but the host, the keys generated and the requests made. *)
Definition kept (n n' : node) : Prop :=
  n_store n' = n_store n /\ n_rng n' = n_rng n /\ n_ca n' = n_ca n /\ n_metrics n' = n_metrics n.

(** ** What a step may do to the volumes *)

Definition all_volumes_ok (h : host) : Prop := forall k, volume_ok (tree h k).
Notation seen := (option string * option string * option string)%type.

(** Mounts and farm as they were, every volume well formed, and in every tree
    the identity seen is the one from before or one that [P] allows. *)
Record moves (P : nat -> seen -> Prop) (h h' : host) : Prop := {
  mv_farm : farm h' = farm h;
  mv_dirs : dirs h' = dirs h;
  mv_ok : all_volumes_ok h';
  mv_seen : forall k, seen_identity (tree h' k) = seen_identity (tree h k) \/ P k (seen_identity (tree h' k));
}.
Definition nothing_new (_ : nat) (_ : seen) : Prop := False.

Lemma moves_mono (P Q : nat -> seen -> Prop) h h' : (forall k v, P k v -> Q k v) -> moves P h h' -> moves Q h h'.
Proof. intros H [F D O S]. split; [done|done|done|]. intros k. destruct (S k); auto. Qed.

Lemma moves_trans (P : nat -> seen -> Prop) h h1 h2 : moves P h h1 -> moves P h1 h2 -> moves P h h2.
Proof.
  intros [F1 D1 O1 S1] [F2 D2 O2 S2]. split; [congruence|congruence|done|]. intros k.
  destruct (S2 k) as [->|]; [apply S1|by right].
Qed.

Lemma moves_refl (P : nat -> seen -> Prop) h : all_volumes_ok h -> moves P h h.
Proof. intros Ho. split; [done|done|done|by left]. Qed.

Lemma moves_same (P : nat -> seen -> Prop) h h' : all_volumes_ok h -> evolves same h h' -> moves P h h'.
Proof.
  intros Ho [F D T]. split; [done|done| |].
  - intros k. rewrite (T k). apply Ho.
  - intros k. left. by rewrite (T k).
Qed.

Lemma same_view_seen f f' : same_view identity_chain f f' -> seen_identity f' = seen_identity f.
Proof. apply same_view_identity. Qed.

Lemma publish_identity_moves umask i md t h ri h' :
  all_volumes_ok h -> on_target (Err NotFound) t (publish_identity umask i md) h = (ri, h') ->
  moves (fun k v => (exists d, dirs h !! t = Some d /\ k = visible d) /\ v = all_of i) h h' /\
  (ri = Ok tt -> exists d, dirs h !! t = Some d /\ seen_identity (tree h' (visible d)) = all_of i).
Proof.
  intros Ho. unfold on_target. destruct (dirs h !! t) as [d|] eqn:Ed.
  2: { intros [= <- <-]. split; [by apply moves_refl|done]. }
  intros E. pose proof (in_tree_run _ _ _ _ _ E) as (w & Ew & _).
  destruct (in_tree_evolves _ _ _ _ _ _ E Ew) as [F D T].
  apply publish_identity_run in Ew as [Hall Hok]; [|apply Ho].
  apply Forall_cons_iff in Hall as [(Hv & Hs & _) _]. split.
  - split; [done|done| |].
    + intros k. specialize (T k). cbn in T. rewrite T. destruct (decide (k = visible d)) as [->|]; [done|apply Ho].
    + intros k. specialize (T k). cbn in T. rewrite T. destruct (decide (k = visible d)) as [->|]; [|by left].
      destruct Hs as [->| ->]; [by left|right; split; [by exists d|done]].
  - intros Hr. exists d. split; [done|]. specialize (T (visible d)). cbn in T.
    rewrite decide_True in T by done. rewrite T. by apply Hok.
Qed.

Lemma publish_tokens_moves umask ts md t h ri h' (P : nat -> seen -> Prop) :
  all_volumes_ok h -> on_target (Err NotFound) t (publish_tokens umask ts md) h = (ri, h') -> moves P h h'.
Proof.
  intros Ho. unfold on_target. destruct (dirs h !! t) as [d|] eqn:Ed; [|intros [= <- <-]; by apply moves_refl].
  intros E. pose proof (in_tree_run _ _ _ _ _ E) as (w & Ew & _).
  destruct (in_tree_evolves _ _ _ _ _ _ E Ew) as [F D T].
  apply publish_tokens_run in Ew as (_ & Hall & _); [|apply Ho].
  apply Forall_cons_iff in Hall as [(Hv & _ & Hi & _) _].
  split; [done|done| |]; intros k; specialize (T k); cbn in T; rewrite T;
    (destruct (decide (k = visible d)) as [->|]; [|by auto]); [done|left; by apply same_view_seen].
Qed.

Lemma looks_target_exists t : looks (target_exists t).
Proof.
  apply looks_bind; [|auto with looks]. apply looks_attempt, looks_call.
  intros h a h'. destruct (dirs h !! t); [|done]. intros [= <- <-]. apply evolves_refl.
Qed.

(** Calls that leave targets and trees alone: those on the farm. *)
Record spared (h h' : host) : Prop := {
  sp_dirs : dirs h' = dirs h;
  sp_trees : forall k, tree h' k = tree h k;
}.
Definition spares {A : Type} (m : hio A) : Prop := forall h r h', m h = (r, h') -> spared h h'.

Lemma spared_refl h : spared h h.
Proof. by split. Qed.
Lemma spared_trans h h1 h2 : spared h h1 -> spared h1 h2 -> spared h h2.
Proof. intros [D1 T1] [D2 T2]. split; [congruence|]. intros k. by rewrite T2, T1. Qed.

Lemma spares_ret {A : Type} (a : A) : spares (mret a).
Proof. intros h r h' [= <- <-]. apply spared_refl. Qed.
Lemma spares_fail {A : Type} (e : IoKind) : spares (hfail e : hio A).
Proof. intros h r h' [= <- <-]. apply spared_refl. Qed.
Lemma spares_bind {A B : Type} (m : hio A) (k : A -> hio B) : spares m -> (forall a, spares (k a)) -> spares (m ≫= k).
Proof.
  intros Hm Hk h r h' E. unfold mbind, hio_bind in E. destruct (m h) as [[a|e] h1] eqn:Em.
  - eapply spared_trans; [by eapply Hm|by eapply Hk].
  - injection E as <- <-. by eapply Hm.
Qed.
Lemma spares_attempt {A : Type} (m : hio A) : spares m -> spares (hattempt m).
Proof.
  intros Hm h r h' E. unfold hattempt in E. destruct (m h) as [r1 h1] eqn:Em. injection E as <- <-. by eapply Hm.
Qed.
Lemma spares_call {A : Type} (ok : host -> result IoKind (A * host)) :
  (forall h a h', ok h = Ok (a, h') -> spared h h') -> spares (hcall unchanged ok).
Proof.
  intros Hok h r h' E. unfold hcall in E.
  destruct (hfaults h) as [|[ft|] rest]; [|injection E as <- <-; by split|];
    (destruct (ok h) as [[a h1]|e] eqn:Eo; injection E as <- <-; [|by split];
     eapply spared_trans; [by eapply Hok|by split]).
Qed.
Lemma spares_looks {A : Type} (m : hio A) : looks m -> spares m.
Proof. intros Hm h r h' [F D T]%Hm. by split. Qed.

Create HintDb spares.
#[export] Hint Resolve spares_ret spares_fail spares_bind spares_attempt : spares.

Ltac spares_farm := apply spares_call; intros ? ? ? ?; repeat case_match; simplify_eq; by split.

Lemma spares_expose name t : spares (expose name t).
Proof.
  assert (forall e, spares (point_metadata e)) by (intros; spares_farm).
  assert (spares parent_metadata) by spares_farm.
  apply spares_bind; [spares_farm|]. intros []. apply spares_bind; [auto with spares|]. intros there.
  apply spares_bind; [destruct there; unfold point_is_mount; auto with spares|]. intros [|]; [auto with spares|].
  apply spares_bind; [spares_farm|]. intros []. apply spares_bind; [unfold cstring; case_match; auto with spares|].
  intros []. apply spares_bind; [apply spares_attempt; spares_farm|]. intros [|e]; [auto with spares|].
  apply spares_bind; [apply spares_attempt; spares_farm|]. auto with spares.
Qed.

Lemma spares_unexpose name : spares (unexpose name).
Proof.
  assert (forall e, spares (point_metadata e)) by (intros; spares_farm).
  assert (spares parent_metadata) by spares_farm.
  apply spares_bind; [auto with spares|]. intros [|]; [|auto with spares]. unfold unexpose_at.
  apply spares_bind; [unfold point_is_mount; auto with spares|]. intros m.
  apply spares_bind; [destruct m as [[]|]; [spares_farm|auto with spares..]|]. intros [].
  apply spares_bind; [apply spares_attempt; spares_farm|]. intros [|[]]; auto with spares.
Qed.

Lemma ensure_tmpfs_run t size gid h r h' :
  all_volumes_ok h -> ensure_tmpfs t size gid h = (r, h') -> all_volumes_ok h' /\ farm h' = farm h.
Proof.
  assert (Hcall : forall A (ok : host -> result IoKind (A * host)),
    (forall h a h', all_volumes_ok h -> ok h = Ok (a, h') -> all_volumes_ok h' /\ farm h' = farm h) ->
    forall h r h', all_volumes_ok h -> hcall unchanged ok h = (r, h') -> all_volumes_ok h' /\ farm h' = farm h).
  { intros A ok Hok h0 r0 h0' Ho E. unfold hcall in E.
    destruct (hfaults h0) as [|[ft|] rest]; [|by injection E as <- <-|];
      (destruct (ok h0) as [[a h1]|e] eqn:Eo; injection E as <- <-; [by apply Hok in Eo|done]). }
  assert (Hnew : forall n h0 ds, all_volumes_ok h0 ->
    all_volumes_ok (with_dirs ds (with_trees (<[n := ∅]> (trees h0)) (S n) h0))).
  { intros n h0 ds Ho k. unfold tree. cbn. destruct (decide (k = n)) as [->|].
    - rewrite lookup_insert_eq. exact empty_volume.
    - rewrite lookup_insert_ne by done. apply Ho. }
  intros Ho. unfold ensure_tmpfs, mbind, hio_bind.
  destruct (create_dir_all t h) as [r1 h1] eqn:E1. apply Hcall in E1 as [O1 F1]; [| |done].
  2: { intros h0 a h0' Ho0. unfold new_tree. destruct (dirs h0 !! t); intros [= <- <-]; [done|]. split; [by apply Hnew|done]. }
  destruct r1 as [[]|]; [|by intros [= <- <-]].
  destruct (is_mount_point t h1) as [r2 h2] eqn:E2.
  assert (Hl : looks (is_mount_point t)).
  { apply looks_bind; [|intros b; apply looks_bind; [|auto with looks]]; apply looks_call; intros h0 a h0';
      [destruct (dirs h0 !! t); [|done]|]; intros [= <- <-]; apply evolves_refl. }
  apply Hl in E2 as [F2 D2 T2].
  assert (O2 : all_volumes_ok h2) by (intros k; rewrite (T2 k); apply O1).
  destruct r2 as [[]|]; [intros [= <- <-]; split; [done|congruence]| |intros [= <- <-]; split; [done|congruence]].
  unfold mount_tmpfs, mbind, hio_bind, cstring. destruct (existsb _ _); [intros [= <- <-]; split; [done|congruence]|].
  cbn [mret hio_ret]. destruct (has_char _ _); [intros [= <- <-]; split; [done|congruence]|].
  cbn. intros E3. apply Hcall in E3 as [O3 F3]; [split; [done|congruence]| |done].
  intros h0 a h0' Ho0. unfold new_tree. destruct (dirs h0 !! t); [|done]. intros [= <- <-]. split; [by apply Hnew|done].
Qed.

Section node_properties.
Context {R : RegexLite} {X : X509Parser}.
Context (umask : Z).
Context (keygen : nat -> SpiffeId -> result Error KeyAndCsr).
Context (fetch_tokens : option (string -> string -> result Error (list (string * string)))).
Context (cfg : NodeConfig.Config) (policy : IdPolicy).

(** An identity this node may put in a volume: a key it generated for the ID,
    a chain the backend signed for that key, and a trust bundle. *)
Definition freshly_issued (I : Issuer) (n : node) (id : SpiffeId) (p : PodRef) (token : option string)
    (b : IssuedBundle) (i : Volume.Identity) : Prop :=
  exists g, keygen (n_keys n) id = Ok g /\
    issuer_sign (sign_request cfg id (kc_csr_pem g) p token) = Ok b /\
    leaf_public_key (Certs.cert_chain_pem b) = Ok (kc_public_key g) /\
    i = mkIdentity (kc_key_pem g) (Certs.cert_chain_pem b) (if is_empty (n_ca n) then Certs.ca_pem b else n_ca n).

Lemma issue_run I id t p token n r n' :
  issue umask keygen cfg I id t p token n = (r, n') ->
  kept n n' /\ (n_asked n' = n_asked n \/ exists req, sr_spiffe_id req = id /\ n_asked n' = req :: n_asked n) /\
  ((n_host n' = n_host n /\ exists e, r = Err e) \/
   exists b i ri, freshly_issued I n id p token b i /\
     on_target (Err NotFound) t (publish_identity umask i (modes cfg)) (n_host n) = (ri, n_host n') /\
     match ri with Ok _ => r = Ok b | Err _ => r = Err Io end).
Proof.
  unfold issue. intros (rg & n1 & Eg & H)%nm_bind_run. unfold generate in Eg. injection Eg as Eg <-.
  destruct rg as [g|e]; [|destruct H as [-> ->]; split; [done|split; [by left|left; split; [done|by eexists]]]].
  apply nm_bind_run in H as (rb & n2 & Eb & H). unfold ask in Eb. injection Eb as Eb <-.
  assert (Hq : n_asked (asked (sign_request cfg id (kc_csr_pem g) p token) (bump_keys n)) =
    n_asked n \/ exists req, sr_spiffe_id req = id /\
    n_asked (asked (sign_request cfg id (kc_csr_pem g) p token) (bump_keys n)) = req :: n_asked n).
  { right. by eexists; split; [|reflexivity]. }
  destruct rb as [b|e]; [|destruct H as [-> ->]; split; [done|split; [done|left; split; [done|by eexists]]]].
  apply nm_bind_run in H as (rk & n3 & [-> ->]%nres_run & H).
  destruct (leaf_public_key _) as [key|e] eqn:Ek; [|destruct H as [-> ->]; split; [done|split; [done|left; split; [done|by eexists]]]].
  apply nm_bind_run in H as (rc & n3 & [-> ->]%nres_run & H). unfold guard_err in H.
  destruct (String.eqb_spec key (kc_public_key g)) as [->|]; cbn [negb] in H;
    [|destruct H as [-> ->]; split; [done|split; [done|left; split; [done|by eexists]]]].
  apply nm_bind_run in H as (rn & n3 & [= <- <-] & H). cbn zeta in H.
  apply nm_bind_run in H as (rp & n4 & (ri & h' & E & -> & ->)%nhost_run & H). cbn [n_host asked bump_keys n_ca] in *.
  assert (Hn : n' = set_host h' (asked (sign_request cfg id (kc_csr_pem g) p token) (bump_keys n)) /\
               match ri with Ok _ => r = Ok b | Err _ => r = Err Io end).
  { destruct ri as [u|e']; cbn in H; [injection H as <- <-; done|by destruct H as [-> ->]]. }
  destruct Hn as [-> Hr]. split; [done|]. split; [done|]. right. eexists b, _, ri.
  split; [|split; [exact E|exact Hr]]. by exists g.
Qed.

Lemma refresh_tokens_run t n r n' :
  all_volumes_ok (n_host n) -> refresh_tokens umask fetch_tokens cfg t n = (r, n') ->
  kept n n' /\ n_keys n' = n_keys n /\ n_asked n' = n_asked n /\ moves nothing_new (n_host n) (n_host n').
Proof.
  intros Ho. unfold refresh_tokens. assert (Hd : forall (r0 : result Error bool) n0, (r0, n) = (r, n0) ->
    kept n n0 /\ n_keys n0 = n_keys n /\ n_asked n0 = n_asked n /\ moves nothing_new (n_host n) (n_host n0)).
  { intros r0 n0 [= _ <-]. split; [done|]. split; [done|]. split; [done|by apply moves_refl]. }
  destruct fetch_tokens as [fetch|]; [|apply Hd]. destruct (negb (jwt_on cfg)); [apply Hd|]. clear Hd.
  intros (ri & n1 & (r1 & h1 & E1 & -> & ->)%nhost_run & H)%nm_bind_run.
  apply looks_on_target in E1; [|auto with reads]. apply (moves_same nothing_new _ _ Ho) in E1.
  destruct r1 as [i|]; cbn [map_err] in H; [|destruct H as [-> ->]; done].
  apply nm_bind_run in H as (rg & n2 & [-> ->]%nres_run & H).
  destruct (fetch _ _) as [grants|]; [|destruct H as [-> ->]; done]. cbn zeta in H.
  apply nm_bind_run in H as (rt & n2 & (r2 & h2 & E2 & -> & ->)%nhost_run & H). cbn [n_host set_host] in *.
  apply looks_target_exists, (moves_same nothing_new _ _ (mv_ok _ _ _ E1)) in E2.
  pose proof (moves_trans _ _ _ _ E1 E2) as E12.
  destruct r2 as [there|]; cbn [map_err] in H; [|destruct H as [-> ->]; done].
  destruct (negb there); [by injection H as <- <-|].
  apply nm_bind_run in H as (rh & n3 & (r3 & h3 & E3 & -> & ->)%nhost_run & H). cbn [n_host set_host] in *.
  apply looks_on_target in E3; [|auto with reads]. apply (moves_same nothing_new _ _ (mv_ok _ _ _ E12)) in E3.
  pose proof (moves_trans _ _ _ _ E12 E3) as E13.
  destruct r3 as [held|]; cbn [map_err] in H; [|destruct H as [-> ->]; done].
  case_bool_decide; [by injection H as <- <-|].
  apply nm_bind_run in H as (rp & n4 & (r4 & h4 & E4 & -> & ->)%nhost_run & H). cbn [n_host set_host] in *.
  apply (publish_tokens_moves _ _ _ _ _ _ _ nothing_new (mv_ok _ _ _ E13)) in E4.
  pose proof (moves_trans _ _ _ _ E13 E4) as E14.
  destruct r4; cbn [map_err] in H; [by injection H as <- <-|by destruct H as [-> ->]].
Qed.

(** ** Renewal *)

(** What may newly be seen in the tree behind [t]: an identity freshly issued
    for [id], whose certificate carries that ID and is for the key beside it. *)
Definition issued_here (I : Issuer) (n : node) (t : PathBuf) (id : SpiffeId) (p : PodRef) (token : option string)
    (k : nat) (v : seen) : Prop :=
  (exists d, dirs (n_host n) !! t = Some d /\ k = visible d) /\
  exists b i, freshly_issued I n id p token b i /\ v = all_of i /\
    inspect (Certs.cert_chain_pem b) = Ok (mkFacts id (b_not_before b) (b_not_after b)).

Lemma issue_moves I `{!IssuerSound I} id t p token n r n' :
  all_volumes_ok (n_host n) -> issue umask keygen cfg I id t p token n = (r, n') ->
  kept n n' /\ moves (issued_here I n t id p token) (n_host n) (n_host n') /\
  match r with
  | Ok b => exists i d, freshly_issued I n id p token b i /\ dirs (n_host n) !! t = Some d /\
              seen_identity (tree (n_host n') (visible d)) = all_of i
  | Err _ => True
  end.
Proof.
  intros Ho (Hk & _ & H)%issue_run. split; [done|].
  destruct H as [[-> [e ->]]|(b & i & ri & Hf & E & Hr)]; [split; [by apply moves_refl|done]|].
  destruct (publish_identity_moves _ _ _ _ _ _ _ Ho E) as [Hm Hok]. split.
  - eapply moves_mono; [|exact Hm]. intros k v [Hd ->]. split; [done|]. exists b, i. split; [done|]. split; [done|].
    destruct Hf as (g & _ & Hs & _). by apply issuer_sign_identity in Hs.
  - destruct ri as [[]|e]; subst r; [|done]. destruct (Hok eq_refl) as (d & Hd & Hs). by exists i, d.
Qed.

(** The certificate window on record for a target: the one it had, or that of
    a certificate the backend just signed. *)
Definition window_after (I : Issuer) (n : node) (e e0 e' : Entry) (now : Z) : Prop :=
  (volume_id e', target_path e', spiffe_id e', pod e', pod_token e') =
    (volume_id e0, target_path e0, spiffe_id e0, pod e0, pod_token e0) /\
  (((not_before e', not_after e') = (not_before e0, not_after e0) /\
    failures e' = Z.min u32_max (failures e0 + 1) /\ 45 <= renew_at e' - now <= 750) \/
   (exists b i, freshly_issued I n (spiffe_id e) (pod e) (pod_token e) b i /\
      (not_before e', not_after e') = (b_not_before b, b_not_after b) /\ failures e' = 0)).

Lemma failed_window I n e e0 now k b :
  0 <= failures e0 <= u32_max -> k = Z.min u32_max (failures e0 + 1) -> around (nominal_backoff k) b ->
  window_after I n e e0 (Store.failed k (now + b) e0) now.
Proof.
  intros Hf -> Ha. split; [done|]. left. split; [done|]. split; [done|]. cbn [renew_at Store.failed].
  replace (now + b - now) with b by lia. eapply around_bounds; [|exact Ha]. unfold u32_max in *. lia.
Qed.

(** A look at the target does not find it: it is gone, or the look failed. *)
Definition out_of_sight (t : PathBuf) (h : host) : Prop :=
  dirs h !! t = None \/ exists ft rest, hfaults h = Some ft :: rest.
Lemma target_exists_seen t h r h' : target_exists t h = (r, h') -> (r = Ok false /\ out_of_sight t h) \/ r = Ok true.
Proof.
  unfold target_exists, hattempt, target_metadata, hcall, out_of_sight, mbind, hio_bind.
  destruct (hfaults h) as [|[ft|] rest]; [|intros [= <- _]; left; eauto|];
    (destruct (dirs h !! t); intros [= <- _]; eauto).
Qed.

Lemma renew_one_run I `{!IssuerSound I} now e e0 n :
  all_volumes_ok (n_host n) -> n_store n !! target_path e = Some e0 ->
  0 <= failures e0 <= u32_max -> 0 <= now < 2 ^ 62 ->
  exists n', renew_one umask keygen fetch_tokens cfg I now e n = Some n' /\
    moves (issued_here I n (target_path e) (spiffe_id e) (pod e) (pod_token e)) (n_host n) (n_host n') /\
    (forall t', t' <> target_path e -> n_store n' !! t' = n_store n !! t') /\
    match n_store n' !! target_path e with
    | Some e' => window_after I n e e0 e' now
    | None => out_of_sight (target_path e) (n_host n)
    end.
Proof.
  intros Ho He Hf Hnow. unfold renew_one.
  destruct (nhost (target_exists (target_path e)) n) as [there n1] eqn:E1.
  apply nhost_run in E1 as (r1 & h1 & Eh & Hth & ->).
  pose proof (looks_target_exists _ _ _ _ Eh) as Hl.
  pose proof (moves_same (issued_here I n (target_path e) (spiffe_id e) (pod e) (pod_token e)) _ _ Ho Hl) as Hm1.
  assert (Hdrop : out_of_sight (target_path e) (n_host n) -> exists n', Some (set_store (Store.remove (target_path e) (n_store (set_host h1 n))).2 (set_host h1 n)) = Some n' /\
    moves (issued_here I n (target_path e) (spiffe_id e) (pod e) (pod_token e)) (n_host n) (n_host n') /\
    (forall t', t' <> target_path e -> n_store n' !! t' = n_store n !! t') /\
    match n_store n' !! target_path e with Some e' => window_after I n e e0 e' now | None => out_of_sight (target_path e) (n_host n) end).
  { intros Hno. eexists. split; [reflexivity|]. cbn. split; [exact Hm1|].
    split; [intros t' Ht; by rewrite lookup_delete_ne|by rewrite lookup_delete_eq]. }
  destruct (target_exists_seen _ _ _ _ Eh) as [[-> Hno]| ->]; cbn in Hth; subst there; [by apply Hdrop|]. clear Hdrop.
  destruct (issue umask keygen cfg I _ _ _ _ (set_host h1 n)) as [r n2] eqn:E2.
  apply issue_moves in E2 as ((Es & Er & Ec & Em) & Hm2 & Hres); [|done|apply (mv_ok _ _ _ Hm1)].
  cbn [n_host set_host n_store n_rng] in *.
  assert (Hm2' : moves (issued_here I n (target_path e) (spiffe_id e) (pod e) (pod_token e)) h1 (n_host n2)).
  { eapply moves_mono; [|exact Hm2]. intros k v [Hd Hb]. split; [by rewrite <- (ev_dirs _ _ _ Hl)|exact Hb]. }
  pose proof (moves_trans _ _ _ _ Hm1 Hm2') as Hm. clear Hm1 Hm2 Hm2'.
  destruct r as [b|err].
  - destruct (jittered_renew_at _ _ _ _) as [ra rng].
    destruct (refresh_tokens umask fetch_tokens cfg _ _) as [rt n3] eqn:E3.
    apply refresh_tokens_run in E3 as ((Es' & _) & _ & _ & Hm3); [|apply (mv_ok _ _ _ Hm)].
    cbn [n_host set_metrics set_store set_rng n_store] in *.
    exists n3. split; [done|]. split; [eapply moves_trans; [exact Hm|]; eapply moves_mono; [|exact Hm3]; by intros|].
    rewrite Es', Es. unfold Store.record_renewal. split; [intros t' Ht; by rewrite lookup_alter_ne|].
    rewrite lookup_alter_eq, He. cbn. destruct Hres as (i & d & Hi & _). split; [done|]. right. by exists b, i.
  - destruct (record_failure_some (target_path e) now (n_store n) (n_rng n2) e0 He Hf Hnow) as (k & bo & st & Hk & Ha & Hr).
    cbn [n_store set_metrics n_rng]. rewrite Es, Hr. cbn.
    eexists. split; [reflexivity|]. cbn. split; [exact Hm|].
    split; [intros t' Ht; by rewrite lookup_insert_ne|]. rewrite lookup_insert_eq. by apply failed_window.
Qed.

(** C12: A renewal, however it ends, leaves a working identity in place.  It never
    panics.  Volumes other than the one renewed are untouched; that one shows,
    as a whole, either the identity it showed or a new one whose certificate is
    for the entry's own SPIFFE ID and for the private key beside it.  On the
    renewal list only that entry changes: its certificate window is the old one
    with the next attempt 45 s to 750 s away, or the window of a certificate
    the backend just signed, with no failures.  It leaves the list only when the
    volume's directory is gone or could not be looked at. *)
Theorem renewal_fails_stale (I : Issuer) (now : Z) (e e0 : Entry) (n : node) :
  IssuerSound I -> all_volumes_ok (n_host n) -> n_store n !! target_path e = Some e0 ->
  0 <= failures e0 <= u32_max -> 0 <= now < 2 ^ 62 ->
  exists n', renew_one umask keygen fetch_tokens cfg I now e n = Some n' /\
    moves (issued_here I n (target_path e) (spiffe_id e) (pod e) (pod_token e)) (n_host n) (n_host n') /\
    (forall t', t' <> target_path e -> n_store n' !! t' = n_store n !! t') /\
    match n_store n' !! target_path e with
    | Some e' => window_after I n e e0 e' now
    | None => out_of_sight (target_path e) (n_host n)
    end.
Proof. intros HI. by apply renew_one_run. Qed.

(** ** Publishing *)

Context (json_value : string -> option Json).

(** What others may do to the host while a publish waits for policy: the policy
    daemon writes its own chain and nothing else. *)
Definition polite (act : host -> host) : Prop := forall h, all_volumes_ok h ->
  all_volumes_ok (act h) /\ dirs (act h) = dirs h /\ forall k, seen_identity (tree (act h) k) = seen_identity (tree h k).

Record undisturbed (h h' : host) : Prop := {
  cm_ok : all_volumes_ok h';
  cm_dirs : dirs h' = dirs h;
  cm_seen : forall k, seen_identity (tree h' k) = seen_identity (tree h k);
}.
Lemma undisturbed_trans h h1 h2 : undisturbed h h1 -> undisturbed h1 h2 -> undisturbed h h2.
Proof. intros [O1 D1 S1] [O2 D2 S2]. split; [done|congruence|]. intros k. by rewrite S2, S1. Qed.
Lemma undisturbed_refl h : all_volumes_ok h -> undisturbed h h.
Proof. by split. Qed.
Lemma undisturbed_spared h h' : all_volumes_ok h -> spared h h' -> undisturbed h h'.
Proof. intros Ho [D T]. split; [intros k; rewrite T; apply Ho|done|intros k; by rewrite T]. Qed.
Lemma calm_moves h h' : moves nothing_new h h' -> undisturbed h h'.
Proof. intros [F D O S]. split; [done|done|]. intros k. by destruct (S k). Qed.

Lemma wait_loop_calm t acts h ok h' :
  all_volumes_ok h -> Forall polite acts -> wait_loop t acts h = (ok, h') -> undisturbed h h'.
Proof.
  revert h. induction acts as [|act acts IH]; intros h Ho Hp; cbn [wait_loop];
    destruct (on_target (Ok false) t (path_exists [REVISION_FILE]) h) as [r h1] eqn:E;
    apply looks_on_target in E; try auto with reads;
    pose proof (calm_moves _ _ (moves_same nothing_new _ _ Ho E)) as Hc.
  - destruct r as [[]|]; by intros [= <- <-].
  - inversion Hp as [|? ? Ha Hp']; subst. destruct r as [[]|]; [by intros [= <- <-]| |].
    all: destruct (Ha h1 (cm_ok _ _ Hc)) as (O2 & D2 & S2); intros E2%IH; [|done..];
      eapply undisturbed_trans; [exact Hc|]; eapply undisturbed_trans; [|exact E2]; by split.
Qed.

Lemma ignore_store {A : Type} (m : hio A) n : n_store (ignore m n) = n_store n.
Proof. done. Qed.
Lemma exposed_store v m n : n_store (exposed cfg v m n) = n_store n.
Proof. unfold exposed. by destruct (policy_gid cfg). Qed.
Lemma expose_step_store v t n r n' : expose_step cfg v t n = (r, n') -> n_store n' = n_store n.
Proof.
  unfold expose_step. destruct (policy_gid cfg); [|by intros [= <- <-]].
  destruct (nhost _ n) as [[]] eqn:E; apply nhost_run in E as (? & ? & _ & _ & ->); by intros [= <- <-].
Qed.
(** What the gate comes to: no gate, or a wait that found policy or did not. *)
Lemma gate_step_run mono v t acts n r n' :
  gate_step cfg mono v t acts n = Some (r, n') ->
  (r = Ok tt /\ n' = n) \/
  exists ok h, wait_loop t acts (n_host n) = (ok, h) /\
    (r, n') = if ok : bool then (Ok tt, set_host h n) else roll_back t GUnavailable (exposed cfg v unexpose (set_host h n)).
Proof.
  unfold gate_step. destruct (negb _); [intros [= <- <-]; by left|]. unfold wait_for_policy.
  intros ([ok h] & (u & _ & [= E])%bind_Some & [= E'])%bind_Some. right. by exists ok, h.
Qed.
Lemma gate_step_some mono v t acts n :
  mono + initial_timeout (NodeConfig.policy cfg) <= i64_max -> is_Some (gate_step cfg mono v t acts n).
Proof.
  intros H. unfold gate_step, wait_for_policy, instant_add. destruct (negb _); [by eexists|].
  destruct (Z.leb_spec (mono + initial_timeout (NodeConfig.policy cfg)) i64_max); [|lia]. cbn. by destruct (wait_loop _ _ _).
Qed.
Lemma gate_step_store mono v t acts n r n' : gate_step cfg mono v t acts n = Some (r, n') -> n_store n' = n_store n.
Proof.
  intros [[_ ->]|([] & h & _ & [= _ ->])]%gate_step_run; [done..|]. by rewrite ignore_store, exposed_store.
Qed.
Lemma mount_and_issue_kept I id t p token n r n' :
  mount_and_issue umask keygen cfg I id t p token n = (r, n') -> kept n n'.
Proof.
  unfold mount_and_issue. intros (r1 & n1 & (r0 & h1 & _ & -> & ->)%nhost_run & H)%nm_bind_run.
  destruct r0; cbn in H; [|by destruct H as [_ ->]]. by apply issue_run in H as (Hk & _).
Qed.

(** A publish that is refused or fails leaves the renewal list exactly as it
    was, on every path: a malformed request, an identity the policy rejects, a
    target that holds another identity, a backend or file-system error, a
    volume that could not be exposed, policy that did not arrive. *)
Theorem failed_publish_keeps_store (I : Issuer) (mono : Z) (acts : list (host -> host)) (req : PublishRequest) (n n' : node) (s : Grpc) :
  node_publish_volume umask keygen fetch_tokens cfg policy json_value I mono acts req n = Some (Err s, n') ->
  n_store n' = n_store n.
Proof.
  unfold node_publish_volume. destruct (admit_request _ _ _ _) as [[[id p] token]|]; [|by intros [= <- <-]].
  destruct (Store.get _ _); [case_bool_decide; by intros [= <- <-]|].
  destruct (mount_and_issue _ _ _ _ _ _ _ _ n) as [[b|e] n1] eqn:E1; apply mount_and_issue_kept in E1 as (Hs & _).
  2: { intros [= _ <-]. by rewrite ignore_store. }
  destruct (expose_step _ _ _ n1) as [[[]|s'] n2] eqn:E2; apply expose_step_store in E2; [|intros [= _ <-]; congruence].
  intros ([[[]|s'] n3] & E3%gate_step_store & [= _ <-])%bind_Some. congruence.
Qed.

(** C31: A republish mints nothing.  When the target is already on the renewal list
    the call generates no key, asks the backend for nothing and touches no file:
    it is answered [OK] exactly when the request is well formed and for the same
    identity, and then all that changes is that entry's pod token - replaced
    when the kubelet sent one. *)
Theorem republish_mints_nothing (I : Issuer) (mono : Z) (acts : list (host -> host)) (req : PublishRequest) (n n' : node)
    (r : result Grpc unit) (e : Entry) :
  n_store n !! PathBuf_from (pr_target_path req) = Some e ->
  node_publish_volume umask keygen fetch_tokens cfg policy json_value I mono acts req n = Some (r, n') ->
  n_host n' = n_host n /\ n_keys n' = n_keys n /\ n_asked n' = n_asked n /\ n_rng n' = n_rng n /\
  (r = Ok tt <-> exists p token, admit_request cfg policy json_value req = Ok (spiffe_id e, p, token)) /\
  (forall t, t <> PathBuf_from (pr_target_path req) -> n_store n' !! t = n_store n !! t) /\
  exists token, n_store n' !! PathBuf_from (pr_target_path req) = Some (Store.with_token token e) /\
    (r <> Ok tt -> token = None).
Proof.
  intros He. unfold node_publish_volume, Store.get. destruct (admit_request _ _ _ _) as [[[id p] token]|s] eqn:Ea.
  2: { intros [= <- <-]. do 4 (split; [done|]). split; [naive_solver|]. split; [done|]. by exists None. }
  rewrite He. case_bool_decide as Hid.
  - intros [= <- <-]. subst id. do 4 (split; [done|]). split; [naive_solver|]. cbn [n_store set_store].
    unfold Store.set_pod_token. split; [intros t Ht; by rewrite lookup_alter_ne|].
    exists token. rewrite lookup_alter_eq, He. done.
  - intros [= <- <-]. do 4 (split; [done|]). split; [naive_solver|]. split; [done|]. by exists None.
Qed.

(** The pod token the kubelet sent for the broker, if there is a broker. *)
Definition kubelet_token (ctx : gmap string string) : option string :=
  b ← broker cfg; pod_token_from json_value ctx (pod_token_audience b).

Lemma admit_request_Ok req id p token :
  admit_request cfg policy json_value req = Ok (id, p, token) ->
  IdPolicy_render policy (attributes_from cfg (pr_context req)) = Ok id /\
  p = pod_of (attributes_from cfg (pr_context req)) /\
  token = kubelet_token (pr_context req).
Proof.
  unfold admit_request. intros (? & _ & H)%bind_Ok. apply bind_Ok in H as (? & _ & H).
  apply bind_Ok in H as (? & _ & H). apply bind_Ok in H as ([id' p'] & Hi & H).
  apply bind_Ok in H as (? & _ & [= -> -> <-]). unfold identity_from in Hi. cbn zeta in Hi.
  apply bind_Ok in Hi as (? & _ & Hi). apply bind_Ok in Hi as (i & Hr%map_err_Ok & [= -> ->]). done.
Qed.

Lemma mount_and_issue_run I `{!IssuerSound I} id t p token n b n' :
  all_volumes_ok (n_host n) -> mount_and_issue umask keygen cfg I id t p token n = (Ok b, n') ->
  kept n n' /\ all_volumes_ok (n_host n') /\
  exists i d, freshly_issued I n id p token b i /\ dirs (n_host n') !! t = Some d /\
    seen_identity (tree (n_host n') (visible d)) = all_of i.
Proof.
  intros Ho H. pose proof (mount_and_issue_kept _ _ _ _ _ _ _ _ H) as Hk. split; [done|].
  unfold mount_and_issue in H. apply nm_bind_run in H as (r1 & n1 & (r0 & h1 & E1 & -> & ->)%nhost_run & H).
  destruct r0 as [[]|]; cbn in H; [|by destruct H].
  apply ensure_tmpfs_run in E1 as [O1 _]; [|done].
  apply issue_moves in H as (_ & Hm & (i & d & Hf & Hd & Hs)); [|done|done].
  split; [apply (mv_ok _ _ _ Hm)|]. exists i, d. split; [exact Hf|]. split; [|done].
  by rewrite (mv_dirs _ _ _ Hm).
Qed.

Lemma nhost_spared {A : Type} (m : hio A) n r n' : spares m -> nhost m n = (r, n') -> spared (n_host n) (n_host n').
Proof. intros Hm (r1 & h & E & _ & ->)%nhost_run. by eapply Hm. Qed.

Lemma expose_step_calm v t n n' :
  all_volumes_ok (n_host n) -> expose_step cfg v t n = (Ok tt, n') -> undisturbed (n_host n) (n_host n').
Proof.
  intros Ho. unfold expose_step. destruct (policy_gid cfg); [|intros [= <-]; by apply undisturbed_refl].
  destruct (nhost _ n) as [[]] eqn:E; apply nhost_spared in E; try apply spares_expose; [|done].
  intros [= <-]. by apply undisturbed_spared.
Qed.

Lemma gate_step_calm mono v t acts n n' :
  all_volumes_ok (n_host n) -> Forall polite acts -> gate_step cfg mono v t acts n = Some (Ok tt, n') ->
  undisturbed (n_host n) (n_host n').
Proof.
  intros Ho Hp [[_ ->]|([] & h & E & [= ->])]%gate_step_run; [by apply undisturbed_refl|]. by eapply wait_loop_calm.
Qed.

Lemma record_step_run v t id p token b n :
  all_volumes_ok (n_host n) ->
  let n' := record_step umask fetch_tokens cfg v t id p token b n in
  undisturbed (n_host n) (n_host n') /\
  exists ra, n_store n' = Store.insert (mkEntry v t id p (b_not_before b) (b_not_after b) ra 0 token) (n_store n).
Proof.
  intros Ho. unfold record_step. destruct (jittered_renew_at _ _ _ _) as [ra rng]. cbn zeta.
  set (n1 := set_metrics _ _).
  assert (H : forall n2, kept n1 n2 -> undisturbed (n_host n1) (n_host n2) -> undisturbed (n_host n) (n_host n2) /\
    exists ra, n_store n2 = Store.insert (mkEntry v t id p (b_not_before b) (b_not_after b) ra 0 token) (n_store n)).
  { intros n2 (Hs & _) Hc. split; [exact Hc|]. exists ra. exact Hs. }
  assert (Hr : all_volumes_ok (n_host n1)) by exact Ho.
  destruct fetch_tokens as [f|] eqn:Ef; [|apply H; [done|by apply undisturbed_refl]].
  rewrite <- Ef. destruct (refresh_tokens umask fetch_tokens cfg t n1) as [r n2] eqn:E.
  apply refresh_tokens_run in E as (Hk & _ & _ & Hm); [|done]. cbn. apply H; [done|by apply calm_moves].
Qed.

(** A publish that succeeds. *)
Lemma publish_run (I : Issuer) (mono : Z) (acts : list (host -> host)) (req : PublishRequest) (n n' : node) :
  IssuerSound I -> Forall polite acts -> all_volumes_ok (n_host n) ->
  n_store n !! PathBuf_from (pr_target_path req) = None ->
  node_publish_volume umask keygen fetch_tokens cfg policy json_value I mono acts req n = Some (Ok tt, n') ->
  let t := PathBuf_from (pr_target_path req) in
  let attrs := attributes_from cfg (pr_context req) in
  exists id token b i d ra,
    IdPolicy_render policy attrs = Ok id /\
    freshly_issued I n id (pod_of attrs) token b i /\
    inspect (Certs.cert_chain_pem b) = Ok (mkFacts id (b_not_before b) (b_not_after b)) /\
    dirs (n_host n') !! t = Some d /\ seen_identity (tree (n_host n') (visible d)) = all_of i /\
    token = kubelet_token (pr_context req) /\
    n_store n' = <[t := mkEntry (pr_volume_id req) t id (pod_of attrs) (b_not_before b) (b_not_after b) ra 0 token]>
                   (n_store n).
Proof.
  intros HI Hp Ho Hnone. cbn zeta. unfold node_publish_volume, Store.get.
  destruct (admit_request _ _ _ _) as [[[id p] token]|] eqn:Ea; [|done].
  apply admit_request_Ok in Ea as (Hr & -> & Htok). rewrite Hnone.
  destruct (mount_and_issue _ _ _ _ _ _ _ _ n) as [[b|e] n1] eqn:E1; [|done].
  apply mount_and_issue_run in E1 as ((Hs & _) & O1 & i & d & Hf & Hd & Hseen); [|done|done].
  destruct (expose_step _ _ _ n1) as [[[]|] n2] eqn:E2; [|done].
  pose proof (expose_step_store _ _ _ _ _ E2) as S2. apply expose_step_calm in E2 as C2; [|done].
  intros ([[[]|] n3] & E3 & [= <-])%bind_Some.
  pose proof (gate_step_store _ _ _ _ _ _ _ E3) as S3. apply gate_step_calm in E3 as C3; [|apply (cm_ok _ _ C2)|done].
  destruct (record_step_run (pr_volume_id req) (PathBuf_from (pr_target_path req)) id
    (pod_of (attributes_from cfg (pr_context req))) token b n3 (cm_ok _ _ C3)) as [C4 [ra S4]].
  pose proof (undisturbed_trans _ _ _ (undisturbed_trans _ _ _ C2 C3) C4) as [_ D S].
  exists id, token, b, i, d, ra. split; [done|]. split; [done|].
  split; [destruct Hf as (g & _ & Hsig & _); by apply issuer_sign_identity in Hsig|].
  split; [by rewrite D|]. split; [by rewrite S|]. split; [done|]. by rewrite S4, S3, S2, Hs.
Qed.


(** ** The trust bundle *)

(** In every volume the key and certificate seen are those from before, and
    [ca.crt] is the old one or the fetched bundle. *)
Record ca_only (fetched : string) (h h' : host) : Prop := {
  ca_farm : farm h' = farm h;
  ca_dirs : dirs h' = dirs h;
  ca_ok : all_volumes_ok h';
  ca_seen : forall k, seen_identity (tree h' k) = seen_identity (tree h k) \/
    exists key cert ca, seen_identity (tree h k) = (Some key, Some cert, Some ca) /\
      seen_identity (tree h' k) = (Some key, Some cert, Some fetched);
}.

Lemma ca_only_refl c h : all_volumes_ok h -> ca_only c h h.
Proof. intros Ho. split; [done|done|done|by left]. Qed.
Lemma ca_only_trans c h h1 h2 : ca_only c h h1 -> ca_only c h1 h2 -> ca_only c h h2.
Proof.
  intros [F1 D1 O1 S1] [F2 D2 O2 S2]. split; [congruence|congruence|done|]. intros k.
  destruct (S2 k) as [->|(key & cert & ca & E & E')]; [apply S1|]. right.
  destruct (S1 k) as [E1|(key1 & cert1 & ca1 & E1 & E1')].
  - exists key, cert, ca. by rewrite <- E1.
  - rewrite E1' in E. injection E as -> -> ->. by exists key, cert, ca1.
Qed.

Lemma refresh_ca_of_only fetched e h b h' :
  all_volumes_ok h -> refresh_ca_of umask cfg fetched e h = (b, h') -> ca_only fetched h h'.
Proof.
  intros Ho. unfold refresh_ca_of.
  destruct (on_target _ _ read_identity h) as [r h1] eqn:E1.
  pose proof (looks_on_target _ _ _ reads_read_identity _ _ _ E1) as [F1 D1 T1].
  assert (O1 : all_volumes_ok h1) by (intros k; rewrite (T1 k); apply Ho).
  assert (C1 : ca_only fetched h h1) by (split; [done|done|done|left; by rewrite (T1 k)]).
  destruct r as [current|]; [|by intros [= <- <-]].
  destruct (String.eqb _ _); [by intros [= <- <-]|].
  destruct (on_target _ _ (publish_identity _ _ _) h1) as [r2 h2] eqn:E2.
  assert (h' = h2 -> ca_only fetched h h').
  { intros ->. eapply ca_only_trans; [exact C1|].
    unfold on_target in E1. destruct (dirs h !! target_path e) as [d|] eqn:Ed; [|done].
    apply in_tree_run in E1 as (w & Ew & _).
    apply read_identity_seen in Ew; [|apply Ho].
    apply publish_identity_moves in E2 as [[F2 D2 O2 S2] _]; [|done].
    split; [done|done|done|]. intros k. destruct (S2 k) as [?|[(d' & Hd' & ->) Hs]]; [by left|right].
    rewrite D1, Ed in Hd'. injection Hd' as <-. rewrite (T1 (visible d)), Ew, Hs. by eexists _, _, _. }
  destruct r2; intros [= _ <-]; auto.
Qed.

Lemma refresh_ca_all_only fetched es h u h' :
  all_volumes_ok h -> refresh_ca_all umask cfg fetched es h = (u, h') -> ca_only fetched h h'.
Proof.
  revert h u h'. induction es as [|e es IH]; intros h u h' Ho; cbn [refresh_ca_all].
  { intros [= <- <-]. by apply ca_only_refl. }
  destruct (refresh_ca_of umask cfg fetched e h) as [b h1] eqn:E1. apply refresh_ca_of_only in E1; [|done].
  destruct (refresh_ca_all umask cfg fetched es h1) as [k h2] eqn:E2. apply IH in E2; [|apply (ca_ok _ _ _ E1)].
  intros [= <- <-]. by eapply ca_only_trans.
Qed.

Lemma refresh_ca_run (I : Issuer) (n : node) (r : result Error Z) (n' : node) :
  all_volumes_ok (n_host n) -> refresh_ca umask cfg I n = (r, n') ->
  n_store n' = n_store n /\ n_keys n' = n_keys n /\ n_asked n' = n_asked n /\
  match issuer_ca_chain with
  | Ok fetched => ca_only fetched (n_host n) (n_host n') /\ n_ca n' = fetched
  | Err _ => n' = n
  end.
Proof.
  intros Ho. unfold refresh_ca. intros (r1 & n1 & [-> ->]%nres_run & H)%nm_bind_run.
  destruct issuer_ca_chain as [fetched|]; [|by destruct H as [_ ->]].
  apply nm_bind_run in H as (r2 & n2 & [= <- <-] & H).
  destruct (String.eqb (n_ca n) fetched) eqn:Eq.
  { apply String.eqb_eq in Eq. injection H as <- <-. do 3 (split; [done|]). split; [by apply ca_only_refl|done]. }
  apply nm_bind_run in H as (r3 & n3 & [= <- <-] & H). unfold rewrite_ca in H. cbn [n_store n_host set_ca] in H.
  destruct (refresh_ca_all umask cfg fetched _ _) as [u h] eqn:E. apply refresh_ca_all_only in E; [|done].
  injection H as <- <-. done.
Qed.

(** A trust-bundle refresh re-issues nothing.  Whatever faults it meets and
    however many volumes there are, it asks for no certificate, generates no
    key, and leaves the renewal list alone; every volume keeps its key and
    certificate chain, and its [ca.crt] is the old one or the one just fetched.
    When the fetch fails nothing changes at all. *)
Theorem refresh_ca_keeps_keys (I : Issuer) (n : node) (r : result Error Z) (n' : node) :
  all_volumes_ok (n_host n) -> refresh_ca umask cfg I n = (r, n') ->
  n_store n' = n_store n /\ n_keys n' = n_keys n /\ n_asked n' = n_asked n /\
  match issuer_ca_chain with
  | Ok fetched => ca_only fetched (n_host n) (n_host n') /\ n_ca n' = fetched
  | Err _ => n' = n
  end.
Proof. apply refresh_ca_run. Qed.

(** ** Restart recovery *)

(** What an adopted entry is: read from a certificate in a discovered volume
    that belongs to this node, and due at or after [now]. *)
Definition adopted_from (now : Z) (found : list Discovered) (h : host) (t : PathBuf) (e : Entry) : Prop :=
  exists d facts ra dir faults chain w, d ∈ found /\ d_target_path d = t /\ dirs h !! t = Some dir /\
    read_cert_chain (mkWorld (tree h (visible dir)) faults []) = (Ok chain, w) /\ inspect chain = Ok facts /\
    identity_belongs_here policy (SpiffeId_as_str (f_spiffe_id facts)) (trust_domain cfg) (cluster cfg)
      (node_name cfg) = Ok tt /\
    e = adopted_entry policy d facts ra /\ now <= ra.

Record adoption_ok (now : Z) (found : list Discovered) (n n' : node) : Prop := {
  ad_known : forall t e, n_store n !! t = Some e -> n_store n' !! t = Some e;
  ad_new : forall t e, n_store n' !! t = Some e -> n_store n !! t = Some e \/ adopted_from now found (n_host n) t e;
  ad_host : spared (n_host n) (n_host n');
  ad_keys : n_keys n' = n_keys n;
  ad_asked : n_asked n' = n_asked n;
}.

Lemma adopted_from_mono now found found' h h' t e :
  (forall d, d ∈ found' -> d ∈ found) -> spared h h' -> adopted_from now found' h' t e -> adopted_from now found h t e.
Proof.
  intros Hf [D T] (d & facts & ra & dir & fl & chain & w & Hd & Ht & Hdir & Hr & H).
  exists d, facts, ra, dir, fl, chain, w. rewrite <- D, <- T. auto.
Qed.

Lemma adoption_trans now found d n n1 n' :
  adoption_ok now [d] n n1 -> adoption_ok now found n1 n' -> adoption_ok now (d :: found) n n'.
Proof.
  intros [K1 N1 H1 G1 A1] [K2 N2 H2 G2 A2]. split; [auto| |by eapply spared_trans|congruence|congruence].
  intros t e [He|He]%N2.
  - apply N1 in He as [?|He]; [by left|right]. eapply adopted_from_mono; [|apply spared_refl|exact He]. set_solver.
  - right. eapply adopted_from_mono; [|exact H1|exact He]. set_solver.
Qed.

Lemma spread_renewal_run ra now rng :
  0 <= now < 2 ^ 62 -> 0 <= startup_spread cfg < 2 ^ 62 ->
  exists ra' rng', spread_renewal cfg ra now rng = Some (ra', rng') /\ now <= ra'.
Proof.
  intros Hn Hs. unfold spread_renewal. destruct (Z.leb_spec ra now); [|exists ra, rng; split; [done|lia]].
  rewrite wrap_i64_id by (unfold in_i64, i64_min, i64_max; lia).
  destruct (range_i64_in 0 (startup_spread cfg) rng) as (x & Hx & Hr); [unfold in_i64, i64_min, i64_max, u64_max; lia..|].
  destruct (Rand.range_i64 _ _ _) as [o rng']. cbn in Hx. subst o. cbn. eexists _, _. split; [done|].
  rewrite wrap_i64_id; [lia|]. unfold in_i64, i64_min, i64_max. lia.
Qed.

Lemma adopt_one_run now d n :
  0 <= now < 2 ^ 62 -> 0 <= startup_spread cfg < 2 ^ 62 ->
  exists a n', adopt_one cfg policy now d n = Some (a, n') /\ adoption_ok now [d] n n'.
Proof.
  intros Hn Hs. unfold adopt_one, Store.get. destruct (n_store n !! d_target_path d) eqn:Ee.
  { eexists _, _. split; [done|]. split; [done|auto|apply spared_refl|done|done]. }
  destruct (on_target _ _ read_cert_chain (n_host n)) as [r h] eqn:E.
  pose proof (looks_on_target _ _ _ reads_read_cert_chain _ _ _ E) as [F D T].
  assert (Hskip : adoption_ok now [d] n (set_host h n)).
  { split; [done|by left|by split|done|done]. }
  destruct r as [chain|]; [|by eexists _, _].
  destruct (inspect chain) as [facts|] eqn:Ei; [|by eexists _, _].
  destruct (identity_belongs_here _ _ _ _ _) as [[]|] eqn:Eb; [|by eexists _, _].
  destruct (jittered_renew_at _ _ _ _) as [ra rng].
  destruct (spread_renewal_run ra now rng Hn Hs) as (ra' & rng' & -> & Hra). cbn.
  set (n1 := set_store _ _).
  assert (Hex : spared (n_host n1) (n_host (exposed cfg (d_volume_id d) (fun name => expose name (d_target_path d)) n1)) /\
    n_store (exposed cfg (d_volume_id d) (fun name => expose name (d_target_path d)) n1) = n_store n1 /\
    n_keys (exposed cfg (d_volume_id d) (fun name => expose name (d_target_path d)) n1) = n_keys n /\
    n_asked (exposed cfg (d_volume_id d) (fun name => expose name (d_target_path d)) n1) = n_asked n).
  { unfold exposed. destruct (policy_gid cfg); [|split; [apply spared_refl|done]].
    split; [|done]. eapply spares_expose, surjective_pairing. }
  destruct Hex as (Hsp & Hst & Hk & Ha). eexists _, _. split; [reflexivity|].
  split; [| |eapply spared_trans; [|exact Hsp]; by split|exact Hk|exact Ha].
  - intros t e He. rewrite Hst. cbn. rewrite lookup_insert_ne; [done|]. intros <-. cbn in He. congruence.
  - intros t e. rewrite Hst. cbn. intros [[<- <-]|[_ He]]%lookup_insert_Some; [right|by left].
    unfold on_target in E. destruct (dirs (n_host n) !! d_target_path d) as [dir|] eqn:Ed; [|done].
    apply in_tree_run in E as (w & Ew & _).
    exists d, facts, ra', dir, (hfaults (n_host n)), chain, w.
    split; [left|]. split; [done|]. split; [exact Ed|]. done.
Qed.

Lemma adopt_all_run now found n :
  0 <= now < 2 ^ 62 -> 0 <= startup_spread cfg < 2 ^ 62 ->
  exists a s n', adopt_all cfg policy now found n = Some (a, s, n') /\ adoption_ok now found n n'.
Proof.
  intros Hn Hs. revert n. induction found as [|d found IH]; intros n; cbn [adopt_all].
  { eexists _, _, _. split; [done|]. split; [done|auto|apply spared_refl|done|done]. }
  destruct (adopt_one_run now d n Hn Hs) as (a & n1 & -> & H1). cbn.
  destruct (IH n1) as (k & s & n2 & -> & H2). cbn.
  destruct a; eexists _, _, _; (split; [reflexivity|by eapply adoption_trans]).
Qed.

(** C22: Restart recovery re-issues nothing and forgets nothing.  A pass never
    panics, asks the backend for nothing, generates no key and writes no file;
    an entry already on the renewal list keeps all of its state, its backoff
    included; and every new entry was read from the certificate in a volume the
    kubelet's records name, carries an identity that belongs to this node, and
    is not overdue, so an upgrade does not become a signing storm. *)
Theorem adoption_safe (now : Z) (found : list Discovered) (n : node) :
  0 <= now < 2 ^ 62 -> 0 <= startup_spread cfg < 2 ^ 62 ->
  exists k n', adopt cfg policy now found n = Some (k, n') /\ adoption_ok now found n n'.
Proof.
  intros Hn Hs. unfold adopt. destruct (adopt_all_run now found n Hn Hs) as (a & s & n' & -> & [K N H G A]). cbn.
  eexists _, _. split; [reflexivity|]. by split.
Qed.

(** ** Unpublishing *)

(** Unpublishing removes everything the publish left, and can be repeated.
    When no call fails, the volume leaves the renewal list, its mount and
    directory are gone and so is its entry in the farm, whatever of these was
    there; nothing else is unpublished. *)
Theorem unpublish_complete (volume_id target : string) (n : node) :
  hfaults (n_host n) = [] -> target <> "" -> existsb (has_char "000") (components target) = false ->
  exists n', node_unpublish_volume cfg volume_id target n = (Ok tt, n') /\
    n_store n' = delete (PathBuf_from target) (n_store n) /\
    dirs (n_host n') = delete (PathBuf_from target) (dirs (n_host n)) /\
    farm (n_host n') = (match policy_gid cfg with
                        | Some _ => delete (farm_name volume_id) (farm (n_host n))
                        | None => farm (n_host n)
                        end) /\
    n_asked n' = n_asked n.
Proof.
  intros Hf Ht Hc. unfold node_unpublish_volume. rewrite (proj2 (is_empty_false target) Ht).
  set (n1 := set_store _ n).
  assert (Hx : exists h1, exposed cfg volume_id unexpose n1 = set_host h1 n1 /\ hfaults h1 = [] /\
    dirs h1 = dirs (n_host n) /\ farm h1 = (match policy_gid cfg with
      | Some _ => delete (farm_name volume_id) (farm (n_host n)) | None => farm (n_host n) end)).
  { unfold exposed, ignore. destruct (policy_gid cfg).
    - destruct (unexpose_clean (farm_name volume_id) (n_host n) Hf) as (h1 & E & F1 & D1 & M1).
      exists h1. cbn [n_host n1 set_store]. rewrite E. done.
    - exists (n_host n). by destruct n. }
  destruct Hx as (h1 & -> & F1 & D1 & M1). cbn zeta. unfold nhost. cbn [n_host set_host].
  destruct (unpublish_clean (PathBuf_from target) h1 F1 Hc) as (h2 & -> & F2 & D2 & M2). cbn.
  eexists. split; [reflexivity|]. cbn. rewrite D2, D1, M2, M1. done.
Qed.
End node_properties.

(** ** Witnesses *)

Module NodeWitness.
#[local] Existing Instance MiniRegex.engine.
#[local] Existing Instance MiniRegex.engine_spec.

Definition id : SpiffeId := TemplateWitness.id.

(** A parser that knows one certificate, and a backend that signs it. *)
#[local] Instance parser : X509Parser := {|
  parse_x509_pem := fun pem => if String.eqb pem "chain" then Some ("CERTIFICATE", "chain") else None;
  cert_from_der := fun der =>
    if String.eqb der "chain"
    then Some (mkX509 false 100 200 (Ok (Some [URI (SpiffeId_as_str id)])) "01" "k") else None;
  csr_from_der := fun _ => None |}.

Definition issuer : Issuer := {|
  issuer_sign := fun req => checked_bundle req "chain" "ca";
  issuer_ca_chain := Ok "ca2" |}.
#[local] Instance issuer_sound : IssuerSound issuer.
Proof. split. intros req b. apply checked_bundle_sound. Defined.

Definition keygen : nat -> SpiffeId -> result Error KeyAndCsr := fun _ _ => Ok (mkKeyAndCsr "KEY" "csr" "k").

Definition config : NodeConfig.Config :=
  {| NodeConfig.driver_name := "svidlet"; NodeConfig.node_name := "node-1"; NodeConfig.trust_domain := "example.org"; NodeConfig.cluster := "a";
     NodeConfig.csi_socket := ""; NodeConfig.registration_socket := ""; NodeConfig.advertised_endpoint := ""; NodeConfig.kubelet_root := "";
     NodeConfig.volumes_dir := "/var/lib/svidlet/volumes"; NodeConfig.spiffe_id_template := DEFAULT_TEMPLATE;
     NodeConfig.spiffe_id_pattern := None; NodeConfig.vault := VaultSettings_unused; NodeConfig.broker := None;
     NodeConfig.policy := mkGate false 0; NodeConfig.policy_gid := Some 1000; NodeConfig.cert_ttl := 3600;
     NodeConfig.renew_fraction := (half, half); NodeConfig.renew_check_interval := 10; NodeConfig.startup_spread := 60;
     NodeConfig.ca_refresh_interval := 0; NodeConfig.readopt_interval := 0; NodeConfig.tmpfs_size := "1m"; NodeConfig.key_mode := 416;
     NodeConfig.cfg_key_gid := None; NodeConfig.cert_mode := 420; NodeConfig.metrics_addr := ""; NodeConfig.log_level := LInfo |}.
Definition policy : IdPolicy := mkPolicy TemplateWitness.default None None.

Definition ctx : gmap string string :=
  {[ vc.EPHEMERAL := "true"; vc.POD_NAMESPACE := "payments"; vc.SERVICE_ACCOUNT := "api";
     vc.POD_NAME := "api-7d9f"; vc.POD_UID := "u-pod" ]}.
Definition req : PublishRequest := mkPublish "csi-1" "/pods/u/mount" ctx.
Definition t : PathBuf := PathBuf_from "/pods/u/mount".
Definition json : string -> option Json := fun _ => None.

Definition no_metrics : Metrics := mkMetrics 0 0 ∅ ∅ 0 0 0 0 0.
Definition start : node := mkNode ∅ (mkHost ∅ 0 ∅ ∅ []) 7 "" no_metrics 0 [].
Definition publish (req : PublishRequest) (n : node) : option (result Grpc unit * node) :=
  node_publish_volume 18 keygen None config policy json issuer 0 [] req n.
(** After the first publish. *)
Definition published : node := from_option snd start (publish req start).

Lemma start_ok : all_volumes_ok (n_host start).
Proof. intros k. unfold tree. cbn. rewrite lookup_empty. exact empty_volume. Qed.

Definition entry : Entry :=
  mkEntry "csi-1" t id (mkPodRef "api-7d9f" "payments" "u-pod" "api") 100 200 150 0 None.

Example publishes : publish req start = Some (Ok tt, published).
Proof. vm_compute. reflexivity. Qed.
Example is_listed : n_store published !! t = Some entry.
Proof. vm_compute. reflexivity. Qed.


(** Another identity for the same target. *)
Definition other : PublishRequest :=
  mkPublish "csi-1" "/pods/u/mount" (<[vc.SERVICE_ACCOUNT := "web"]> ctx).

Lemma failed_publish_keeps_store_witness :
  exists n', publish other published = Some (Err Errors.AlreadyExists, n') /\ n_store n' = n_store published.
Proof.
  assert (E : publish other published = Some (Err Errors.AlreadyExists, published)) by (vm_compute; reflexivity).
  exists published. split; [exact E|].
  apply (failed_publish_keeps_store 18 keygen None config policy json issuer 0 [] other published
           published Errors.AlreadyExists). unfold publish in E. exact E.
Defined.

Lemma republish_mints_nothing_witness :
  exists n', publish req published = Some (Ok tt, n') /\ n_keys n' = 1%nat /\ n_asked n' = n_asked published.
Proof.
  assert (Hsome : is_Some (publish req published)) by (vm_compute; eauto).
  destruct (publish req published) as [[r n']|] eqn:E; [clear Hsome|by destruct Hsome]. unfold publish in E.
  destruct (republish_mints_nothing 18 keygen None config policy json issuer 0 [] req published
    n' r entry is_listed E) as (_ & Hk & Ha & _ & Hr & _).
  assert (r = Ok tt) as ->.
  { apply (proj2 Hr). exists (pod entry), None. vm_compute. reflexivity. }
  exists n'. split; [reflexivity|]. split; [exact Hk|exact Ha].
Defined.

(** A node with that volume mounted and listed. *)
Definition written : result IoKind unit * world :=
  publish_identity 18 (mkIdentity "KEY" "chain" "ca") (modes config) (mkWorld ∅ [] []).
Definition running : node :=
  mkNode {[ t := entry ]} (mkHost {[ 1%nat := wfs written.2 ]} 2 {[ t := mkDir 0 (Some 1%nat) ]} {[ "csi-1" := Some 1%nat ]} [])
    7 "ca" no_metrics 1 [].

Lemma running_ok : all_volumes_ok (n_host running).
Proof.
  intros k. unfold tree. cbn [n_host running trees]. destruct (decide (k = 1%nat)) as [->|Hne].
  2: { rewrite lookup_singleton_ne by done. exact empty_volume. }
  rewrite lookup_singleton_eq. cbn [default from_option].
  destruct (publish_identity_run 18 (mkIdentity "KEY" "chain" "ca") (modes config) ∅ [] written.1 written.2 empty_volume)
    as [H _]; [apply surjective_pairing|]. apply Forall_cons_iff in H as [[H _] _]. exact H.
Qed.

Lemma renewal_fails_stale_witness :
  exists n', renew_one 18 keygen None config issuer 160 entry running = Some n' /\
    seen_identity (tree (n_host n') 1) <> (None, None, None).
Proof.
  destruct (renewal_fails_stale 18 keygen None config issuer 160 entry entry running issuer_sound running_ok)
    as (n' & E & M & _).
  - reflexivity.
  - cbn. unfold u32_max. lia.
  - lia.
  - exists n'. split; [exact E|]. destruct (mv_seen _ _ _ M 1%nat) as [->|H]; [vm_compute; discriminate|].
    intros Hn. rewrite Hn in H. destruct H as (_ & b & i & _ & Hi & _). discriminate Hi.
Defined.

Lemma refresh_ca_keeps_keys_witness :
  (refresh_ca 18 config issuer running).1 = Ok 1 /\
  n_store (refresh_ca 18 config issuer running).2 = n_store running /\
  ca_only "ca2" (n_host running) (n_host (refresh_ca 18 config issuer running).2).
Proof.
  split; [vm_compute; reflexivity|].
  destruct (refresh_ca_keeps_keys 18 config issuer running (refresh_ca 18 config issuer running).1
    (refresh_ca 18 config issuer running).2 running_ok) as (Hs & _ & _ & Hc & _); [apply surjective_pairing|].
  split; [exact Hs|exact Hc].
Defined.

(** After a restart: the volume is there, the list is empty. *)
Definition restarted : node := set_store ∅ running.
Definition found : list Discovered := [mkDiscovered "csi-1" t "u-pod"].

Example adopts : fst <$> adopt config policy 300 found restarted = Some 1.
Proof. vm_compute. reflexivity. Qed.

Lemma adoption_safe_witness :
  exists k n', adopt config policy 300 found restarted = Some (k, n') /\ n_asked n' = [].
Proof.
  destruct (adoption_safe config policy 300 found restarted) as (k & n' & E & [_ _ _ _ A]).
  - lia.
  - cbn. lia.
  - exists k, n'. split; [exact E|exact A].
Defined.

Lemma unpublish_complete_witness :
  exists n', node_unpublish_volume config "csi-1" "/pods/u/mount" running = (Ok tt, n') /\
    n_store n' = delete t (n_store running).
Proof.
  destruct (unpublish_complete config "csi-1" "/pods/u/mount" running) as (n' & E & Hs & _).
  - reflexivity.
  - discriminate.
  - reflexivity.
  - exists n'. split; [exact E|exact Hs].
Defined.
End NodeWitness.
