(* ===== verification/Process.v ===== *)
(** * The node process  (svidlet/src/server.rs, renew.rs, csi/node.rs)

    Everything [Node] models, as one process: the kubelet's calls and the passes
    of the background loops in any order, over the shared state, with the other
    processes of the node acting in between.  Each call or pass is one step;
    [server::run] starts with the adoption of what is on disk.

    The invariant that survives every step is stated against the host the
    process found when it started. *)

From S2P Require Import Prelude RustStr Errors Template Certs Keys Issuer Fs Volume NodeStore Rounding NodeConfig Jitter Host Recover Node.
Open Scope list_scope.
Open Scope Z_scope.

(** ** System calls use up the faults in store for them: the programs of [Volume] *)

Lemma spends_read_files d names : spends (read_files d names).
Proof. induction names as [|x names IH]; cbn [read_files]; spending; exact IH. Qed.
Lemma spends_read_tokens : spends read_tokens.
Proof. unfold read_tokens. spending. apply spends_read_files. Qed.
Lemma spends_read_cert_chain : spends read_cert_chain.
Proof. unfold read_cert_chain. spending. Qed.
Lemma spends_read_identity : spends read_identity.
Proof.
  unfold read_identity. generalize NotFound. generalize 4%nat. intros tries. induction tries as [|k IH]; intros last; cbn [read_identity_go]; [apply spends_fail|].
  unfold read_generation. spending. apply IH.
Qed.
Lemma spends_path_exists p : spends (path_exists p).
Proof. unfold path_exists. spending. Qed.
Lemma spends_publish_chain c build : (forall d, spends (build d)) -> spends (publish_chain c build).
Proof.
  intros Hb. unfold publish_chain, finish, swap, link, remove_stale_versions, next_version.
  spending; apply Hb.
Qed.
Lemma spends_publish_identity umask i md : spends (publish_identity umask i md).
Proof.
  rewrite publish_identity_chain. apply spends_publish_chain. intros d. unfold write_identity, write_file, chgrp_to. spending.
Qed.
Lemma spends_publish_tokens umask ts md : spends (publish_tokens umask ts md).
Proof.
  unfold publish_tokens. case_match; [apply spends_fail|]. rewrite publish_tokens_chain.
  apply spends_publish_chain. intros d. unfold write_tokens, write_token, write_file, chgrp_to. spending.
Qed.

(** The same of the host's calls. *)
Definition hspends {A : Type} (m : hio A) : Prop :=
  forall h r h', m h = (r, h') -> hfaults h' `suffix_of` hfaults h.

Lemma hspends_ret {A : Type} (a : A) : hspends (mret a).
Proof. by intros h r h' [= <- <-]. Qed.
Lemma hspends_fail {A : Type} (e : IoKind) : hspends (hfail e : hio A).
Proof. by intros h r h' [= <- <-]. Qed.
Lemma hspends_bind {A B : Type} (m : hio A) (k : A -> hio B) : hspends m -> (forall a, hspends (k a)) -> hspends (m ≫= k).
Proof.
  intros Hm Hk h r h' E. unfold mbind, hio_bind in E. destruct (m h) as [[a|e] h1] eqn:Em.
  - etrans; [by eapply Hk|by eapply Hm].
  - injection E as <- <-. by eapply Hm.
Qed.
Lemma hspends_attempt {A : Type} (m : hio A) : hspends m -> hspends (hattempt m).
Proof. intros Hm h r h' E. unfold hattempt in E. destruct (m h) as [r1 h1] eqn:Em. injection E as <- <-. by eapply Hm. Qed.
Lemma hspends_call {A : Type} partial (ok : host -> result IoKind (A * host)) : hspends (hcall partial ok).
Proof.
  intros h r h' E. unfold hcall in E.
  destruct (hfaults h) as [|[ft|] rest] eqn:Ef; [|injection E as <- <-; cbn; by exists [Some ft]|];
    (destruct (ok h) as [[a h1]|e]; injection E as <- <-; cbn; first [done|by exists [None]]).
Qed.
Lemma hspends_on_target {A : Type} (absent : result IoKind A) t m : spends m -> hspends (on_target absent t m).
Proof.
  intros Hm h r h' E. unfold on_target in E. destruct (dirs h !! t) as [d|]; [|by injection E as <- <-].
  apply in_tree_run in E as (w' & Ew & ->). apply Hm in Ew. exact Ew.
Qed.
Ltac hspending :=
  repeat first
    [ apply hspends_ret | apply hspends_fail | apply hspends_call | apply hspends_attempt
    | apply hspends_bind; [|intros ?] | case_match ].
Lemma hspends_target_exists t : hspends (target_exists t).
Proof. unfold target_exists. hspending. Qed.
Lemma hspends_ensure_tmpfs t size gid : hspends (ensure_tmpfs t size gid).
Proof. unfold ensure_tmpfs, is_mount_point, mount_tmpfs, cstring. hspending. Qed.
Lemma hspends_unpublish t : hspends (unpublish t).
Proof. unfold unpublish, target_exists, is_mount_point, unmount, cstring, remove_dir_all. hspending. Qed.
Lemma hspends_expose name t : hspends (expose name t).
Proof. unfold expose, expose_at, point_is_mount, cstring. hspending. Qed.
Lemma hspends_unexpose name : hspends (unexpose name).
Proof. unfold unexpose, unexpose_at, point_is_mount. hspending. Qed.

Section process.
Context {R : RegexLite} {X : X509Parser}.
Context (umask : Z).
Context (keygen : nat -> SpiffeId -> result Error KeyAndCsr).
Context (fetch_tokens : option (string -> string -> result Error (list (string * string)))).
Context (cfg : NodeConfig.Config) (policy : IdPolicy) (json_value : string -> option Json).
(** The backends this process may talk to, and the pod tokens the kubelet may
    hand it. *)
Context (Backend : Issuer -> Prop) (Told : string -> Prop).

(** ** The steps *)

(** The backend a step talks to is part of it: it may answer anything a sound
    backend answers, differently each time. *)
Inductive event :=
| Publish (V : Issuer) (mono : Z) (acts : list (host -> host)) (req : PublishRequest)
| Unpublish (volume_id target_path : string)
| RenewDue (V : Issuer) (now : Z) (clock : list Z)
| RefreshTokens
| RefreshCa (V : Issuer)
| ReapOrphans
| Adopt (now : Z) (found : list Discovered)
| Others (act : host -> host).

(** One time round [token_loop]: the pause, then a pass; without a broker that
    has tokens the loop does not run. *)
Definition token_turn (n : node) : option node :=
  match token_interval cfg (bool_decide (is_Some fetch_tokens)) with
  | None => Some n
  | Some interval =>
      let '(pause, rng) := token_pause interval (n_rng n) in
      _ ← pause;
      Some (refresh_tokens_once umask fetch_tokens cfg (set_rng rng n)).2
  end.

(** [None] is a panic, which ends the process. *)
Definition step (n : node) (e : event) : option node :=
  match e with
  | Publish V mono acts req => snd <$> node_publish_volume umask keygen fetch_tokens cfg policy json_value V mono acts req n
  | Unpublish v t => Some (node_unpublish_volume cfg v t n).2
  | RenewDue V now clock => snd <$> renew_due umask keygen fetch_tokens cfg V now clock n
  | RefreshTokens => token_turn n
  | RefreshCa V => Some (refresh_ca_once umask cfg V n)
  | ReapOrphans => Some (reap_orphans cfg n).2
  | Adopt now found => snd <$> adopt cfg policy now found n
  | Others act => Some (set_host (act (n_host n)) n)
  end.

Fixpoint run (n : node) (es : list event) : option node :=
  match es with
  | [] => Some n
  | e :: es => n ← step n e; run n es
  end.

(** A process as [server::run] starts it: nothing on the renewal list, no
    counter, no trust bundle yet; the host is as it is. *)
Definition fresh_process (h : host) (seed : Z) : node :=
  mkNode ∅ h seed "" (mkMetrics 0 0 ∅ ∅ 0 0 0 0 0) 0 [].
(** [prime_ca], whose failure is not fatal, then the first adoption. *)
Definition start_up (V : Issuer) (now : Z) (found : list Discovered) (h : host) (seed : Z) : option node :=
  snd <$> adopt cfg policy now found (prime_ca V (fresh_process h seed)).2.

(** ** The invariant *)

(** An identity this node may serve: one the template makes of its settings and
    a volume context, or one found on disk that belongs to this node. *)
Definition ours (id : SpiffeId) : Prop :=
  (exists ctx, IdPolicy_render policy (attributes_from cfg ctx) = Ok id) \/
  identity_belongs_here policy (SpiffeId_as_str id) (trust_domain cfg) (cluster cfg) (node_name cfg) = Ok tt.

(** No token, or one the kubelet sent. *)
Definition told (token : option string) : Prop := forall s, token = Some s -> Told s.

(** A certificate one of the backends signed for this ID and this CSR, on a
    request with no pod token but one the kubelet sent. *)
Definition signed_by_backend (id : SpiffeId) (csr cert : string) : Prop :=
  exists V req b, Backend V /\ issuer_sign (Issuer := V) req = Ok b /\
    sr_spiffe_id req = id /\ sr_csr_pem req = csr /\ Certs.cert_chain_pem b = cert /\
    told (p ← sr_pod req; pc_token p).

(** An identity of which this process generated the key, one of its first
    [keys], with a certificate for that key and for an ID of ours, that a
    backend signed when it was shown the CSR of that very key. *)
Definition minted (keys : nat) (v : seen) : Prop :=
  exists j id g cert ca nb na, (j < keys)%nat /\ keygen j id = Ok g /\ ours id /\
    v = (Some (kc_key_pem g), Some cert, Some ca) /\
    leaf_public_key cert = Ok (kc_public_key g) /\ inspect cert = Ok (mkFacts id nb na) /\
    signed_by_backend id (kc_csr_pem g) cert.

(** What may be seen in a tree: nothing, the key and certificate the process
    found there when it started, or an identity it made. *)
Definition accounted (h0 : host) (keys : nat) (k : nat) (v : seen) : Prop :=
  v = (None, None, None) \/
  (exists key cert ca ca', seen_identity (tree h0 k) = (key, cert, ca) /\ v = (key, cert, ca')) \/
  minted keys v.

(** A removal that fails has removed nothing. *)
Definition whole (o : option fault) : Prop := match o with Some ft => forall p, survives ft p = true | None => True end.

Definition entry_ok (t : PathBuf) (e : Entry) : Prop :=
  target_path e = t /\ 0 <= failures e <= u32_max /\ ours (spiffe_id e) /\ told (pod_token e).

(** The trees alone, and with the faults to come. *)
Definition trees_ok (Q : nat -> seen -> Prop) (h : host) : Prop :=
  all_volumes_ok h /\ forall k, Q k (seen_identity (tree h k)).
Definition host_ok (Q : nat -> seen -> Prop) (h : host) : Prop := trees_ok Q h /\ Forall whole (hfaults h).

Record process_ok (h0 : host) (n : node) : Prop := {
  po_host : host_ok (accounted h0 (n_keys n)) (n_host n);
  po_store : map_Forall entry_ok (n_store n);
  po_asked : Forall (fun req => ours (sr_spiffe_id req)) (n_asked n);
}.

(** What the outside may do: [polite] actors who leave the environment's faults
    as they are, backends that sign what they are asked, clocks in range. *)
Definition considerate (act : host -> host) : Prop :=
  polite act /\ forall h, Forall whole (hfaults h) -> Forall whole (hfaults (act h)).
Definition in_range (now : Z) : Prop := 0 <= now < 2 ^ 62.
Definition permitted (e : event) : Prop :=
  match e with
  | Publish V mono acts req => Backend V /\ IssuerSound V /\ in_range mono /\ Forall considerate acts /\
      told (kubelet_token cfg json_value (pr_context req))
  | RenewDue V now clock => Backend V /\ IssuerSound V /\ Forall in_range clock
  | Adopt now _ => in_range now
  | Others act => considerate act
  | _ => True
  end.

(** The configured durations the process computes deadlines with: the
    configuration accepts more, up to 2^64 seconds, and then panics. *)
Record durations_ok : Prop := {
  du_spread : 0 <= startup_spread cfg < 2 ^ 62;
  du_gate : 0 <= initial_timeout (NodeConfig.policy cfg) < 2 ^ 62;
  du_tokens : forall b, broker cfg = Some b -> 0 <= jwt_refresh_interval b <= 2 ^ 52;
}.

Lemma accounted_mono h0 m m' k v : (m <= m')%nat -> accounted h0 m k v -> accounted h0 m' k v.
Proof.
  intros Hle [H|[H|(j & id & g & cert & ca & nb & na & Hj & H)]]; [by left|by right; left|].
  right; right. exists j, id, g, cert, ca, nb, na. split; [lia|done].
Qed.
Lemma accounted_ca h0 m k key cert ca ca' :
  accounted h0 m k (Some key, Some cert, Some ca) -> accounted h0 m k (Some key, Some cert, Some ca').
Proof.
  intros [[=]|[(key0 & cert0 & ca0 & ca1 & E & [= <- <- <-])|(j & id & g & cert0 & ca0 & nb & na & Hj & Hg & Ho & [= -> -> ->] & H)]].
  - right; left. by exists (Some key), (Some cert), ca0, (Some ca').
  - right; right. by exists j, id, g, cert0, ca', nb, na.
Qed.

Lemma host_ok_mono (Q Q' : nat -> seen -> Prop) h : (forall k v, Q k v -> Q' k v) -> host_ok Q h -> host_ok Q' h.
Proof. intros H [[Ho Hs] Hf]. split; [split; [done|auto]|done]. Qed.

Lemma whole_suffix l l' : l `suffix_of` l' -> Forall whole l' -> Forall whole l.
Proof. intros [used ->] H. by apply Forall_app in H as [_ ?]. Qed.

(** *** Calls that keep the trees in order *)

Section steady.
Context (Q : nat -> seen -> Prop) (Q_none : forall k, Q k (None, None, None)).

Definition steady {A : Type} (m : hio A) : Prop := forall h r h', host_ok Q h -> m h = (r, h') -> host_ok Q h'.

Lemma trees_ok_same h h' : (forall k, tree h' k = tree h k) -> trees_ok Q h -> trees_ok Q h'.
Proof. intros E [Ho Hs]. split; intros k; rewrite E; auto. Qed.

Lemma steady_ret {A : Type} (a : A) : steady (mret a).
Proof. by intros h r h' H [= <- <-]. Qed.
Lemma steady_fail {A : Type} (e : IoKind) : steady (hfail e : hio A).
Proof. by intros h r h' H [= <- <-]. Qed.
Lemma steady_bind {A B : Type} (m : hio A) (k : A -> hio B) : steady m -> (forall a, steady (k a)) -> steady (m ≫= k).
Proof.
  intros Hm Hk h r h' H E. unfold mbind, hio_bind in E. destruct (m h) as [[a|e] h1] eqn:Em.
  - eapply Hk; [by eapply Hm|done].
  - injection E as <- <-. by eapply Hm.
Qed.
Lemma steady_attempt {A : Type} (m : hio A) : steady m -> steady (hattempt m).
Proof.
  intros Hm h r h' H E. unfold hattempt in E. destruct (m h) as [r1 h1] eqn:Em. injection E as <- <-. by eapply Hm.
Qed.
Lemma steady_call {A : Type} partial (ok : host -> result IoKind (A * host)) :
  (forall ft h, whole (Some ft) -> trees_ok Q h -> trees_ok Q (partial ft h)) ->
  (forall h a h', trees_ok Q h -> ok h = Ok (a, h') -> trees_ok Q h') -> steady (hcall partial ok).
Proof.
  intros Hp Ho h r h' [Ht Hf] E. split; [|eapply whole_suffix; [by eapply hspends_call|done]].
  unfold hcall in E. assert (Hw : forall fl h1, trees_ok Q h1 -> trees_ok Q (with_faults fl h1)).
  { intros fl h1. by apply trees_ok_same. }
  destruct (hfaults h) as [|[ft|] rest].
  - destruct (ok h) as [[a h1]|e] eqn:Eo; injection E as <- <-; eauto.
  - injection E as <- <-. apply Hw, Hp; [by apply Forall_cons_iff in Hf as [? _]|done].
  - destruct (ok h) as [[a h1]|e] eqn:Eo; injection E as <- <-; eauto.
Qed.
(** A call that leaves the trees alone. *)
Lemma steady_spares {A : Type} (m : hio A) : spares m -> hspends m -> steady m.
Proof.
  intros Hm Hs h r h' [Ht Hf] E. split; [|by eapply whole_suffix; [eapply Hs|]].
  destruct (Hm _ _ _ E) as [_ T]. by eapply trees_ok_same.
Qed.

Lemma tree_fresh h n ds k : tree (with_dirs ds (with_trees (<[n := ∅]> (trees h)) (S n) h)) k = if decide (k = n) then ∅ else tree h k.
Proof. unfold tree. cbn. destruct (decide (k = n)) as [->|]; [by rewrite lookup_insert_eq|by rewrite lookup_insert_ne]. Qed.
Lemma trees_ok_fresh h n ds : trees_ok Q h -> trees_ok Q (with_dirs ds (with_trees (<[n := ∅]> (trees h)) (S n) h)).
Proof.
  intros [Ho Hs]. split; intros k; rewrite tree_fresh; destruct (decide (k = n)); auto using empty_volume.
Qed.

Lemma left_behind_whole ft p q : whole (Some ft) -> left_behind ft p q = true.
Proof. intros H. unfold left_behind. apply orb_true_iff. right. apply forallb_forall. intros n _. apply H. Qed.
Lemma tree_emptied ft n h k :
  whole ft -> tree (empty_tree ft n h) k = tree h k \/ tree (empty_tree ft n h) k = ∅.
Proof.
  intros H. unfold empty_tree, tree. cbn. rewrite lookup_alter. destruct (decide (n = k)) as [->|]; [|by left].
  destruct (trees h !! k) as [f|]; [|by left]. cbn. destruct ft as [ft|]; cbn.
  - left. apply map_filter_id. intros p x _. by apply left_behind_whole.
  - right. apply map_empty. intros p. by apply map_lookup_filter_None; right; intros x _.
Qed.
Lemma trees_ok_emptied ft n h : whole ft -> trees_ok Q h -> trees_ok Q (empty_tree ft n h).
Proof.
  intros Hw [Ho Hs]. split; intros k; destruct (tree_emptied ft n h k Hw) as [->| ->]; auto using empty_volume.
Qed.

Lemma steady_target_exists t : steady (target_exists t).
Proof. apply steady_spares; [apply spares_looks, looks_target_exists|apply hspends_target_exists]. Qed.
Lemma steady_is_mount_point t : steady (is_mount_point t).
Proof.
  apply steady_bind; [|intros b; apply steady_bind; [|intros; apply steady_ret]]; apply steady_call; try done;
    intros h a h' H; repeat case_match; intros; simplify_eq; done.
Qed.
Lemma steady_cstring t : steady (cstring t).
Proof. unfold cstring. case_match; [apply steady_fail|apply steady_ret]. Qed.
Lemma steady_ensure_tmpfs t size gid : steady (ensure_tmpfs t size gid).
Proof.
  apply steady_bind; [|intros []; apply steady_bind; [apply steady_is_mount_point|intros []; [apply steady_ret|]]].
  - apply steady_call; [done|]. intros h a h' H. unfold new_tree. case_match; intros; simplify_eq; [done|by apply trees_ok_fresh].
  - apply steady_bind; [apply steady_cstring|]. intros [].
    apply steady_bind; [case_match; [apply steady_fail|apply steady_ret]|]. intros []. apply steady_call; [done|].
    intros h a h' H. unfold new_tree. case_match; intros; simplify_eq. by apply trees_ok_fresh.
Qed.
Lemma steady_unpublish t : steady (unpublish t).
Proof.
  apply steady_bind; [apply steady_target_exists|]. intros []; [|apply steady_ret].
  apply steady_bind; [apply steady_attempt, steady_is_mount_point|]. intros m.
  apply steady_bind.
  { destruct m as [[]|]; [|apply steady_ret..]. apply steady_bind; [apply steady_cstring|]. intros [].
    apply steady_call; [done|]. intros h a h' H. case_match; intros; simplify_eq. by eapply trees_ok_same; [|exact H]. }
  intros []. apply steady_bind; [|intros [|[]]; first [apply steady_ret|apply steady_fail]].
  apply steady_attempt, steady_bind; [|intros []; apply steady_call; [done|]].
  - apply steady_call.
    + intros ft h Hw H. case_match; [by apply trees_ok_emptied|done].
    + intros h a h' H. case_match; intros; simplify_eq. by apply trees_ok_emptied.
  - intros h a h' H. repeat case_match; intros; simplify_eq. by eapply trees_ok_same; [|exact H].
Qed.
Lemma steady_expose name t : steady (expose name t).
Proof. apply steady_spares; [apply spares_expose|apply hspends_expose]. Qed.
Lemma steady_unexpose name : steady (unexpose name).
Proof. apply steady_spares; [apply spares_unexpose|apply hspends_unexpose]. Qed.
Lemma steady_reads {A : Type} (absent : result IoKind A) t m : reads m -> spends m -> steady (on_target absent t m).
Proof. intros Hr Hs. apply steady_spares; [by apply spares_looks, looks_on_target|by apply hspends_on_target]. Qed.

(** What a step of [moves] may newly show. *)
Lemma moves_ok (P : nat -> seen -> Prop) h h' :
  (forall k v, P k v -> Q k v) -> trees_ok Q h -> moves P h h' -> trees_ok Q h'.
Proof. intros HP [_ Hs] [_ _ Ho Hm]. split; [done|]. intros k. destruct (Hm k) as [->|]; auto. Qed.
End steady.
(** *** The parts of the steps *)

Section parts.
Context (h0 : host).
Local Notation acc := (accounted h0).

Lemma acc_none m k : acc m k (None, None, None).
Proof. by left. Qed.

(** The host is in order after a call on it that is steady. *)
Lemma steady_node {A : Type} m (call : hio A) n :
  (forall Q, (forall k, Q k (None, None, None)) -> steady Q call) ->
  host_ok (acc m) (n_host n) -> host_ok (acc m) (n_host (ignore call n)).
Proof.
  intros Hc H. unfold ignore. cbn. eapply (Hc (acc m)); [apply acc_none|exact H|apply surjective_pairing].
Qed.
Lemma steady_nhost {A : Type} m (call : hio A) n r n' :
  (forall Q, (forall k, Q k (None, None, None)) -> steady Q call) ->
  host_ok (acc m) (n_host n) -> nhost call n = (r, n') ->
  host_ok (acc m) (n_host n') /\ n_store n' = n_store n /\ n_keys n' = n_keys n /\ n_asked n' = n_asked n.
Proof.
  intros Hc H (r1 & h' & E & _ & ->)%nhost_run. cbn. split; [|done]. eapply (Hc (acc m)); [apply acc_none|exact H|exact E].
Qed.
Lemma exposed_ok m v n (call : string -> hio unit) :
  (forall name Q, (forall k, Q k (None, None, None)) -> steady Q (call name)) ->
  host_ok (acc m) (n_host n) -> host_ok (acc m) (n_host (exposed cfg v call n)) /\
  n_store (exposed cfg v call n) = n_store n /\ n_keys (exposed cfg v call n) = n_keys n /\
  n_asked (exposed cfg v call n) = n_asked n.
Proof.
  intros Hc H. unfold exposed. destruct (policy_gid cfg); [|done]. split; [|done]. apply steady_node; auto.
Qed.

Lemma issue_keys V id t p token n r n' :
  issue umask keygen cfg V id t p token n = (r, n') -> n_keys n' = S (n_keys n).
Proof.
  unfold issue. intros (rg & n1 & Eg & H)%nm_bind_run. unfold generate in Eg. injection Eg as Eg <-.
  destruct rg as [g|]; [|by destruct H as [_ ->]].
  apply nm_bind_run in H as (rb & n2 & Eb & H). unfold ask in Eb. injection Eb as Eb <-.
  destruct rb as [b|]; [|by destruct H as [_ ->]].
  apply nm_bind_run in H as (rk & n3 & [-> ->]%nres_run & H). destruct (leaf_public_key _); [|by destruct H as [_ ->]].
  apply nm_bind_run in H as (rc & n3 & [-> ->]%nres_run & H). destruct (guard_err _ _); [|by destruct H as [_ ->]].
  apply nm_bind_run in H as (rn & n3 & [= <- <-] & H). cbn zeta in H.
  apply nm_bind_run in H as (rp & n4 & (ri & h' & E & -> & ->)%nhost_run & H).
  destruct ri; cbn in H; [by injection H as _ <-|by destruct H as [_ ->]].
Qed.

Lemma issue_process V `{!IssuerSound V} (HB : Backend V) id t p token n r n' :
  ours id -> told token -> host_ok (acc (n_keys n)) (n_host n) -> issue umask keygen cfg V id t p token n = (r, n') ->
  n_store n' = n_store n /\ host_ok (acc (n_keys n')) (n_host n') /\
  (n_asked n' = n_asked n \/ exists q, ours (sr_spiffe_id q) /\ n_asked n' = q :: n_asked n).
Proof.
  intros Ho Htok [Ht Hf] E. pose proof (issue_keys _ _ _ _ _ _ _ _ E) as Hk.
  pose proof (issue_run _ _ _ _ _ _ _ _ _ _ _ E) as ((Hs & _) & Hq & Hrun).
  split; [done|]. split; [|destruct Hq as [?|(q & <- & ?)]; [by left|right; by exists q]]. clear Hq. rewrite Hk. destruct Hrun as [[-> _]|(b & i & ri & Hi & Ei & _)].
  { apply (host_ok_mono (acc (n_keys n))); [|by split]. intros k v. apply accounted_mono. lia. }
  split; [|eapply whole_suffix; [|exact Hf]; eapply hspends_on_target; [apply spends_publish_identity|exact Ei]].
  destruct (publish_identity_moves _ _ _ _ _ _ _ (proj1 Ht) Ei) as [Hm _].
  assert (Ht' : trees_ok (acc (S (n_keys n))) (n_host n)).
  { destruct Ht as [Hv Hq]. split; [done|]. intros k. eapply accounted_mono; [|apply Hq]. lia. }
  eapply moves_ok; [|exact Ht'|exact Hm]. intros k v [_ ->]. destruct Hi as (g & Hg & Hsign & Hleaf & ->).
  right; right. pose proof (issuer_sign_identity _ _ Hsign) as Hfacts. exists (n_keys n), id, g. eexists _, _, _, _.
  split; [lia|]. do 5 (split; [done|]). by eexists V, _, b.
Qed.

Lemma refresh_tokens_spends t n r n' :
  refresh_tokens umask fetch_tokens cfg t n = (r, n') -> hfaults (n_host n') `suffix_of` hfaults (n_host n).
Proof.
  unfold refresh_tokens. destruct fetch_tokens as [fetch|]; [|by intros [= _ <-]].
  destruct (negb (jwt_on cfg)); [by intros [= _ <-]|].
  intros (ri & n1 & (r1 & h1 & E1%(hspends_on_target _ _ _ spends_read_identity) & -> & ->)%nhost_run & H)%nm_bind_run.
  destruct r1; [|by destruct H as [_ ->]]. apply nm_bind_run in H as (rg & n2 & [-> ->]%nres_run & H).
  destruct (fetch _ _); [|by destruct H as [_ ->]]. cbn zeta in H.
  apply nm_bind_run in H as (rt & n2 & (r2 & h2 & E2%hspends_target_exists & -> & ->)%nhost_run & H). cbn [n_host set_host] in *.
  assert (E12 : hfaults h2 `suffix_of` hfaults (n_host n)) by (by etrans).
  destruct r2 as [there|]; [|by destruct H as [_ ->]]. cbn in H. destruct (negb there); [by injection H as _ <-|].
  apply nm_bind_run in H as (rh & n3 & (r3 & h3 & E3%(hspends_on_target _ _ _ spends_read_tokens) & -> & ->)%nhost_run & H).
  cbn [n_host set_host] in *. assert (E13 : hfaults h3 `suffix_of` hfaults (n_host n)) by (by etrans).
  destruct r3; [|by destruct H as [_ ->]]. cbn in H. case_bool_decide; [by injection H as _ <-|].
  apply nm_bind_run in H as (rp & n4 & (r4 & h4 & E4%(hspends_on_target _ _ _ (spends_publish_tokens _ _ _)) & -> & ->)%nhost_run & H).
  cbn [n_host set_host] in *. assert (E14 : hfaults h4 `suffix_of` hfaults (n_host n)) by (by etrans).
  destruct r4; cbn in H; [by injection H as _ <-|by destruct H as [_ ->]].
Qed.
Lemma refresh_tokens_process t n r n' :
  host_ok (acc (n_keys n)) (n_host n) -> refresh_tokens umask fetch_tokens cfg t n = (r, n') ->
  n_store n' = n_store n /\ n_keys n' = n_keys n /\ n_asked n' = n_asked n /\ host_ok (acc (n_keys n')) (n_host n').
Proof.
  intros [Ht Hf] E. pose proof (refresh_tokens_spends _ _ _ _ E) as Hs.
  apply refresh_tokens_run in E as ((Es & _) & Ek & Ea & Hm); [|apply Ht]. do 3 (split; [done|]).
  rewrite Ek. split; [|by eapply whole_suffix]. eapply moves_ok; [|exact Ht|exact Hm]. by intros.
Qed.

Lemma refresh_ca_spends fetched es h u h' :
  refresh_ca_all umask cfg fetched es h = (u, h') -> hfaults h' `suffix_of` hfaults h.
Proof.
  revert h u h'. induction es as [|e es IH]; intros h u h'; cbn [refresh_ca_all]; [by intros [= _ <-]|].
  destruct (refresh_ca_of umask cfg fetched e h) as [b h1] eqn:E1.
  destruct (refresh_ca_all umask cfg fetched es h1) as [k h2] eqn:E2. intros [= _ <-]. etrans; [by eapply IH|].
  unfold refresh_ca_of in E1. destruct (on_target _ _ read_identity h) as [[i|] h3] eqn:E3;
    apply (hspends_on_target _ _ _ spends_read_identity) in E3; [|by injection E1 as _ <-].
  destruct (String.eqb _ _); [by injection E1 as _ <-|].
  destruct (on_target _ _ _ h3) as [r4 h4] eqn:E4. apply (hspends_on_target _ _ _ (spends_publish_identity _ _ _)) in E4.
  destruct r4; injection E1 as _ <-; by etrans.
Qed.

(** *** Renewal *)

(** What a renewal needs of an entry. *)
Definition renewable (e : Entry) : Prop := ours (spiffe_id e) /\ told (pod_token e).

Lemma renew_one_process V `{!IssuerSound V} (HB : Backend V) now e n :
  process_ok h0 n -> ours (spiffe_id e) -> told (pod_token e) -> in_range now ->
  exists n', renew_one umask keygen fetch_tokens cfg V now e n = Some n' /\ process_ok h0 n'.
Proof.
  intros [Hh Hs Ha] Ho Htok Hnow. unfold renew_one.
  destruct (nhost (target_exists (target_path e)) n) as [there n1] eqn:E1.
  apply (steady_nhost (n_keys n)) in E1 as (H1 & S1 & K1 & A1); [|intros; apply steady_target_exists|done].
  rewrite <- K1 in H1.
  assert (Hdrop : exists n', Some (set_store (Store.remove (target_path e) (n_store n1)).2 n1) = Some n' /\ process_ok h0 n').
  { eexists. split; [done|]. split; [exact H1| |cbn; by rewrite A1]. cbn. rewrite S1. by apply map_Forall_delete. }
  destruct there as [[]|]; [|exact Hdrop..]. clear Hdrop.
  destruct (issue umask keygen cfg V _ _ _ _ n1) as [r n2] eqn:E2.
  apply issue_process in E2 as (S2 & H2 & A2); [|done..]. rewrite S1 in S2. rewrite A1 in A2.
  assert (Ha2 : Forall (fun req => ours (sr_spiffe_id req)) (n_asked n2)).
  { destruct A2 as [->|(q & Hq & ->)]; [done|by constructor]. }
  destruct r as [b|err].
  - destruct (jittered_renew_at _ _ _ _) as [ra rng]. destruct (refresh_tokens _ _ _ _ _) as [rt n3] eqn:E3.
    apply refresh_tokens_process in E3 as (S3 & _ & A3 & H3); [|exact H2]. exists n3. split; [done|]. split; [done| |by rewrite A3].
    rewrite S3. cbn. rewrite S2. unfold Store.record_renewal. intros t e'. rewrite lookup_alter.
    case_decide as Ht; [|apply Hs]. subst t. intros (e0 & (T & _ & Hid & Htk)%Hs & ->)%fmap_Some.
    split; [done|]. split; [cbn; unfold u32_max; lia|done].
  - cbn [n_store set_metrics n_rng]. rewrite S2. destruct (n_store n !! target_path e) as [e0|] eqn:He.
    + pose proof (Hs _ _ He) as (T & Hf & Hid & Htk).
      destruct (record_failure_some (target_path e) now (n_store n) (n_rng n2) e0 He Hf Hnow) as (k & b & st & -> & _ & ->).
      eexists. split; [reflexivity|]. split; [exact H2| |exact Ha2]. cbn. apply map_Forall_insert_2; [|done].
      split; [done|]. split; [cbn; unfold u32_max in *; lia|done].
    + unfold Store.record_failure. rewrite He. eexists. split; [reflexivity|]. by split.
Qed.

Lemma renew_all_process V `{!IssuerSound V} (HB : Backend V) clock es n :
  process_ok h0 n -> Forall renewable es -> Forall in_range clock ->
  exists n', renew_all umask keygen fetch_tokens cfg V clock es n = Some n' /\ process_ok h0 n'.
Proof.
  intros Hn Hes. revert clock n Hn. induction Hes as [|e es He _ IH]; intros clock n Hn Hc; [exists n; split; [by destruct clock|done]|].
  destruct clock as [|now clock]; [exists n; by split|]. apply Forall_cons_iff in Hc as [Hnow Hc]. cbn [renew_all].
  destruct (renew_one_process V HB now e n Hn (proj1 He) (proj2 He) Hnow) as (n1 & -> & H1). by apply IH.
Qed.

Lemma store_entries n : map_Forall entry_ok (n_store n) -> Forall renewable (Store.all (n_store n)).
Proof. intros H. apply Forall_forall. intros e (k & He)%elem_all. by apply H in He as (_ & _ & ?). Qed.

Lemma renew_due_process V `{!IssuerSound V} (HB : Backend V) now clock n :
  process_ok h0 n -> Forall in_range clock ->
  exists k n', renew_due umask keygen fetch_tokens cfg V now clock n = Some (k, n') /\ process_ok h0 n'.
Proof.
  intros Hn Hc. unfold renew_due.
  assert (Hd : Forall renewable (Store.due now (n_store n))).
  { unfold Store.due. rewrite sort_by_deadline_perm. pose proof (store_entries n (po_store _ _ Hn)) as H.
    apply Forall_forall. intros e [He _]%list_elem_of_In%filter_In. by eapply Forall_forall in H; [|apply list_elem_of_In]. }
  destruct (renew_all_process V HB clock _ n Hn Hd Hc) as (n' & -> & H). by eexists _, _.
Qed.

(** *** The other passes *)

Lemma refresh_tokens_all_process es n k n' :
  process_ok h0 n -> refresh_tokens_all umask fetch_tokens cfg es n = (k, n') -> process_ok h0 n'.
Proof.
  revert n k n'. induction es as [|e es IH]; intros n k n' Hn; cbn [refresh_tokens_all]; [by intros [= _ <-]|].
  destruct (nhost (target_exists (target_path e)) n) as [there n1] eqn:E1. destruct Hn as [Hh Hs Ha].
  apply (steady_nhost (n_keys n)) in E1 as (H1 & S1 & K1 & A1); [|intros; apply steady_target_exists|done].
  rewrite <- K1 in H1. rewrite <- S1 in Hs. rewrite <- A1 in Ha. assert (P1 : process_ok h0 n1) by by split.
  destruct there as [[]|]; [|by apply IH..]. destruct (refresh_tokens _ _ _ _ n1) as [r n2] eqn:E2.
  apply refresh_tokens_process in E2 as (S2 & K2 & A2 & H2); [|done]. rewrite <- S2 in Hs. rewrite <- A2 in Ha.
  assert (P2 : process_ok h0 n2) by by split. destruct r as [c|err].
  - destruct (refresh_tokens_all _ _ _ es n2) as [k2 n3] eqn:E3. intros [= _ <-]. by eapply IH.
  - case_bool_decide; [by intros [= _ <-]|by apply IH].
Qed.

Lemma token_turn_process n : process_ok h0 n -> durations_ok -> exists n', token_turn n = Some n' /\ process_ok h0 n'.
Proof.
  intros Hn Hd. unfold token_turn. destruct (token_interval cfg _) as [i|] eqn:Ei; [|by exists n].
  assert (Hi : 0 <= i <= 2 ^ 52).
  { unfold token_interval in Ei. apply bind_Some in Ei as (b & Hb & Ei). apply (du_tokens Hd) in Hb.
    destruct (_ && _); [by injection Ei as <-|done]. }
  destruct (token_pause_some i (n_rng n) Hi) as (d & Ep & _). destruct (token_pause i (n_rng n)) as [pause rng]. cbn in Ep. subst pause.
  eexists. split; [reflexivity|]. eapply refresh_tokens_all_process; [|apply surjective_pairing]. by destruct Hn; split.
Qed.

Lemma refresh_ca_process V n : process_ok h0 n -> process_ok h0 (refresh_ca_once umask cfg V n).
Proof.
  intros [[[Hv Hq] Hf] Hs Ha]. destruct (refresh_ca umask cfg V n) as [r n'] eqn:E.
  enough (Hn : process_ok h0 n').
  { unfold refresh_ca_once. rewrite E. destruct Hn as [Hh' Hs' Ha']. destruct r as [[]|]; by split. }
  assert (Hfl : hfaults (n_host n') `suffix_of` hfaults (n_host n)).
  { unfold refresh_ca in E. apply nm_bind_run in E as (r1 & n1 & [-> ->]%nres_run & H).
    destruct issuer_ca_chain as [fetched|]; [|by destruct H as [_ ->]].
    apply nm_bind_run in H as (r2 & n2 & [= <- <-] & H). destruct (String.eqb _ _); [by injection H as _ <-|].
    apply nm_bind_run in H as (r3 & n3 & [= <- <-] & H). unfold rewrite_ca in H. cbn [n_store n_host set_ca] in H.
    destruct (refresh_ca_all _ _ _ _ _) as [u h] eqn:Ea. injection H as _ <-. by apply refresh_ca_spends in Ea. }
  apply refresh_ca_run in E as (Es & Ek & Ea & E); [|exact Hv]. destruct issuer_ca_chain as [fetched|]; [|subst n'; exact (Build_process_ok _ _ (conj (conj Hv Hq) Hf) Hs Ha)].
  destruct E as [[_ _ Ho Hsn] _]. split; [|by rewrite Es|by rewrite Ea]. rewrite Ek. split; [split; [done|]|by eapply whole_suffix].
  intros k. destruct (Hsn k) as [->|(key & cert & ca & E1 & ->)]; [done|].
  specialize (Hq k). rewrite E1 in Hq. by eapply accounted_ca.
Qed.

Lemma reap_process es n k n' : process_ok h0 n -> reap cfg es n = (k, n') -> process_ok h0 n'.
Proof.
  revert n k n'. induction es as [|e es IH]; intros n k n' Hn; cbn [reap]; [by intros [= _ <-]|].
  destruct (nhost (target_exists (target_path e)) n) as [there n1] eqn:E1. destruct Hn as [Hh Hs Ha].
  apply (steady_nhost (n_keys n)) in E1 as (H1 & S1 & K1 & A1); [|intros; apply steady_target_exists|done].
  rewrite <- K1 in H1. rewrite <- S1 in Hs. rewrite <- A1 in Ha. assert (P1 : process_ok h0 n1) by by split.
  set (n2 := set_store (Store.remove (target_path e) (n_store n1)).2 n1).
  destruct (exposed_ok (n_keys n2) (NodeStore.volume_id e) n2 unexpose) as (H3 & S3 & K3 & A3);
    [intros; apply steady_unexpose|done|].
  set (n3 := exposed _ _ _ _) in *. rewrite <- K3 in H3.
  assert (P4 : process_ok h0 (ignore (unpublish (target_path e)) n3)).
  { split; [apply steady_node; [intros; by apply steady_unpublish|done]| |cbn; by rewrite A3].
    cbn. rewrite S3. by apply map_Forall_delete. }
  destruct there as [[]|]; [by apply IH|..];
    (destruct (reap cfg es (ignore (unpublish (target_path e)) n3)) as [k2 n5] eqn:E5; intros [= _ <-]; by eapply IH).
Qed.

Lemma adopt_one_spends now d n x n1 :
  adopt_one cfg policy now d n = Some (x, n1) -> hfaults (n_host n1) `suffix_of` hfaults (n_host n).
Proof.
  unfold adopt_one. intros E1. destruct (Store.get _ _); [by injection E1 as _ <-|].
  destruct (on_target _ _ read_cert_chain (n_host n)) as [r h] eqn:E.
  apply (hspends_on_target _ _ _ spends_read_cert_chain) in E.
  destruct r as [chain|]; [|by injection E1 as _ <-]. destruct (inspect chain) as [facts|]; [|by injection E1 as _ <-].
  destruct (identity_belongs_here _ _ _ _ _); [|by injection E1 as _ <-].
  destruct (jittered_renew_at _ _ _ _) as [ra rng]. apply bind_Some in E1 as ([ra' rng'] & _ & [= _ <-]).
  unfold exposed. destruct (policy_gid cfg); [|exact E]. cbn. etrans; [|exact E].
  eapply hspends_expose, surjective_pairing.
Qed.
Lemma adopt_all_spends now found n a s n' :
  adopt_all cfg policy now found n = Some (a, s, n') -> hfaults (n_host n') `suffix_of` hfaults (n_host n).
Proof.
  revert n a s n'. induction found as [|d found IH]; intros n a s n'; cbn [adopt_all]; [by intros [= _ _ <-]|].
  intros ([x n1] & E1%adopt_one_spends & ([[a2 s2] n2] & E2%IH & E)%bind_Some)%bind_Some.
  assert (n' = n2) as -> by (destruct x; by injection E). by etrans.
Qed.

(** A volume that recovery can take over: its certificate can be read, and is
    for an identity that belongs to this node. *)
Definition adoptable (h : host) (d : Discovered) (facts : CertFacts) : Prop :=
  exists dir chain w, dirs h !! d_target_path d = Some dir /\
    read_cert_chain (mkWorld (tree h (visible dir)) [] []) = (Ok chain, w) /\ inspect chain = Ok facts /\
    identity_belongs_here policy (SpiffeId_as_str (f_spiffe_id facts)) (trust_domain cfg) (cluster cfg) (node_name cfg) = Ok tt.
(** On the renewal list with the identity and the window of its certificate. *)
Definition looked_after (n : node) (d : Discovered) (facts : CertFacts) : Prop :=
  exists e, n_store n !! d_target_path d = Some e /\ spiffe_id e = f_spiffe_id facts /\
    (not_before e, not_after e) = (f_not_before facts, f_not_after facts).

Lemma adoptable_spared h h' d facts : spared h h' -> adoptable h d facts -> adoptable h' d facts.
Proof. intros [D T] (dir & chain & w & H). exists dir, chain, w. by rewrite D, T. Qed.

Lemma adopt_one_takes now d facts n x n1 :
  hfaults (n_host n) = [] -> n_store n !! d_target_path d = None -> adoptable (n_host n) d facts ->
  adopt_one cfg policy now d n = Some (x, n1) -> looked_after n1 d facts.
Proof.
  intros Hf Hn (dir & chain & w & Hd & Hr & Hi & Hb). unfold adopt_one, Store.get, on_target, in_tree. rewrite Hn, Hd, Hf, Hr, Hi, Hb.
  destruct (jittered_renew_at _ _ _ _) as [ra rng]. intros ([ra' rng'] & _ & [= _ <-])%bind_Some.
  exists (adopted_entry policy d facts ra'). rewrite exposed_store. cbn. by rewrite lookup_insert_eq.
Qed.
Lemma adopt_one_elsewhere now d n x n1 t :
  t <> d_target_path d -> adopt_one cfg policy now d n = Some (x, n1) -> n_store n1 !! t = n_store n !! t.
Proof.
  intros Ht. unfold adopt_one. destruct (Store.get _ _); [by intros [= _ <-]|]. destruct (on_target _ _ _ _) as [[chain|] h]; [|by intros [= _ <-]].
  destruct (inspect chain); [|by intros [= _ <-]]. destruct (identity_belongs_here _ _ _ _ _); [|by intros [= _ <-]].
  destruct (jittered_renew_at _ _ _ _). intros ([ra rng] & _ & [= _ <-])%bind_Some. rewrite exposed_store. cbn. by rewrite lookup_insert_ne.
Qed.

Lemma adopt_all_takes now found n a s n' :
  in_range now -> durations_ok -> hfaults (n_host n) = [] -> adopt_all cfg policy now found n = Some (a, s, n') ->
  forall d facts, d ∈ found -> n_store n !! d_target_path d = None -> adoptable (n_host n) d facts -> looked_after n' d facts.
Proof.
  intros Hn Hd. revert n a s n'. induction found as [|d0 found IH]; intros n a s n' Hf E d facts Hin Hnone Ha; [by apply elem_of_nil in Hin|].
  cbn [adopt_all] in E. destruct (adopt_one_run cfg policy now d0 n Hn (du_spread Hd)) as (x & n1 & E1 & [_ _ Hsp _ _]).
  rewrite E1 in E. cbn [mbind option_bind] in E. apply bind_Some in E as ([[a2 s2] n2] & E2 & E). assert (n' = n2) as -> by (destruct x; by injection E). clear E.
  destruct (adopt_all_run cfg policy now found n1 Hn (du_spread Hd)) as (a3 & s3 & n3 & E3 & [Hk _ _ _ _]).
  rewrite E3 in E2. injection E2 as -> -> ->.
  destruct (decide (d_target_path d = d_target_path d0)) as [Et|Hne].
  - assert (Ha0 : adoptable (n_host n) d0 facts) by (unfold adoptable in *; by rewrite <- Et). rewrite Et in Hnone.
    destruct (adopt_one_takes now d0 facts n x n1 Hf Hnone Ha0 E1) as (e & He & H). exists e. rewrite Et. split; [by apply Hk|done].
  - apply elem_of_cons in Hin as [->|Hin]; [done|]. eapply IH; [|exact E3|exact Hin| |by eapply adoptable_spared].
    + apply adopt_one_spends in E1. rewrite Hf in E1. by apply suffix_nil_inv in E1.
    + by rewrite (adopt_one_elsewhere now d0 n x n1 _ Hne E1).
Qed.

(** *** The kubelet's calls *)

Lemma wait_loop_ok m t acts h ok h' :
  host_ok (acc m) h -> Forall considerate acts -> wait_loop t acts h = (ok, h') -> host_ok (acc m) h'.
Proof.
  intros Hh Ha. revert h Hh. induction Ha as [|act acts [Hp Hw] _ IH]; intros h Hh; cbn [wait_loop];
    (destruct (on_target _ _ _ h) as [r h1] eqn:E;
     apply (steady_reads (acc m)) in E; [|apply reads_exists|apply spends_path_exists|done]).
  - destruct r as [[]|]; by intros [= _ <-].
  - assert (H1 : host_ok (acc m) (act h1)).
    { destruct E as [[Hv Hq] Hf]. destruct (Hp h1 Hv) as (Hv' & _ & Hs). split; [split; [done|]|auto].
      intros k. rewrite Hs. apply Hq. }
    destruct r as [[]|]; [by intros [= _ <-]|by apply IH..].
Qed.

Lemma roll_back_ok {A : Type} m t s n (r : result Grpc A) n' :
  host_ok (acc m) (n_host n) -> roll_back t s n = (r, n') ->
  host_ok (acc m) (n_host n') /\ n_store n' = n_store n /\ n_keys n' = n_keys n /\ n_asked n' = n_asked n.
Proof. intros H [= _ <-]. split; [|done]. apply steady_node; [intros; by apply steady_unpublish|done]. Qed.

Lemma expose_step_ok m v t n r n' :
  host_ok (acc m) (n_host n) -> expose_step cfg v t n = (r, n') ->
  host_ok (acc m) (n_host n') /\ n_store n' = n_store n /\ n_keys n' = n_keys n /\ n_asked n' = n_asked n.
Proof.
  intros H. unfold expose_step. destruct (policy_gid cfg); [|by intros [= _ <-]].
  destruct (nhost (expose (farm_name v) t) n) as [re n1] eqn:E.
  apply (steady_nhost m) in E as (H1 & S1 & K1 & A1); [|intros; apply steady_expose|done].
  destruct re; [by intros [= _ <-]|]. intros (H2 & S2 & K2 & A2)%(roll_back_ok m); [|done]. split; [done|]. split_and!; congruence.
Qed.

Lemma gate_step_ok m mono v t acts n r n' :
  host_ok (acc m) (n_host n) -> Forall considerate acts -> gate_step cfg mono v t acts n = Some (r, n') ->
  host_ok (acc m) (n_host n') /\ n_store n' = n_store n /\ n_keys n' = n_keys n /\ n_asked n' = n_asked n.
Proof.
  intros H Ha [[_ ->]|(ok & h & E & H')]%gate_step_run; [done|]. apply (wait_loop_ok m) in E; [|done..].
  destruct ok; [by injection H' as _ ->|]. symmetry in H'.
  destruct (exposed_ok m v (set_host h n) unexpose) as (H1 & S1 & K1 & A1); [intros; apply steady_unexpose|done|].
  apply (roll_back_ok m) in H' as (H2 & S2 & K2 & A2); [|done]. split; [done|]. by rewrite S2, K2, A2.
Qed.

Lemma admit_request_ours req id p token : admit_request cfg policy json_value req = Ok (id, p, token) -> ours id.
Proof. intros (Hr & _)%admit_request_Ok. left. by exists (pr_context req). Qed.

Lemma publish_answers V mono acts req n :
  durations_ok -> in_range mono ->
  is_Some (node_publish_volume umask keygen fetch_tokens cfg policy json_value V mono acts req n).
Proof.
  intros [_ Hg _] Hm. unfold node_publish_volume. destruct (admit_request _ _ _ _) as [[[id p] token]|]; [|by eexists].
  destruct (Store.get _ _); [by eexists|]. destruct (mount_and_issue _ _ _ _ _ _ _ _ n) as [[b|e] n1]; [|by eexists].
  destruct (expose_step _ _ _ n1) as [[[]|] n2]; [|by eexists].
  destruct (gate_step_some cfg mono (pr_volume_id req) (PathBuf_from (pr_target_path req)) acts n2) as [[rg n3] ->];
    [unfold in_range, i64_max in *; lia|]. by eexists.
Qed.

Lemma publish_process V `{!IssuerSound V} (HB : Backend V) mono acts req n r n' :
  process_ok h0 n -> Forall considerate acts -> told (kubelet_token cfg json_value (pr_context req)) ->
  node_publish_volume umask keygen fetch_tokens cfg policy json_value V mono acts req n = Some (r, n') -> process_ok h0 n'.
Proof.
  intros [Hh Hs Hq] Ha Htk. unfold node_publish_volume.
  destruct (admit_request _ _ _ _) as [[[id p] token]|] eqn:Er; [|by intros [= _ <-]].
  apply admit_request_ours in Er as Ho. apply admit_request_Ok in Er as (_ & _ & Etk). rewrite <- Etk in Htk. clear Etk. set (t := PathBuf_from (pr_target_path req)). unfold Store.get.
  destruct (n_store n !! t) as [e0|] eqn:He.
  { case_bool_decide; intros [= _ <-]; [|by split]. split; [exact Hh| |exact Hq]. cbn. unfold Store.set_pod_token.
    intros t' e'. rewrite lookup_alter. case_decide; [|apply Hs]. subst t'. intros (e1 & (T1 & F1 & O1 & K1)%Hs & ->)%fmap_Some. by destruct token. }
  destruct (mount_and_issue _ _ _ _ _ _ _ _ n) as [rb n1] eqn:E1. unfold mount_and_issue in E1.
  apply nm_bind_run in E1 as (r0 & n0 & E0 & E1).
  apply (steady_nhost (n_keys n)) in E0 as (H0 & S0 & K0 & A0); [|intros; by apply steady_ensure_tmpfs|done].
  rewrite <- K0 in H0.
  assert (H1 : host_ok (acc (n_keys n1)) (n_host n1) /\ n_store n1 = n_store n /\
    Forall (fun req => ours (sr_spiffe_id req)) (n_asked n1)).
  { destruct r0 as [[]|]; [|destruct E1 as [_ ->]; by rewrite A0]. apply issue_process in E1 as (S1 & H1 & A1); [|done..].
    rewrite S1. rewrite A0 in A1. split; [done|]. split; [done|]. destruct A1 as [->|(q & Hid & ->)]; [done|by constructor]. }
  destruct H1 as (H1 & S1 & Hq1). destruct rb as [b|err].
  2: { intros E4%(inj Some). apply (roll_back_ok (n_keys n1)) in E4 as (H2 & S2 & K2 & A2); [|exact H1]. cbn in S2, K2, A2. split; [by rewrite K2|by rewrite S2, S1|by rewrite A2]. }
  destruct (expose_step cfg _ t n1) as [re n2] eqn:E2. apply (expose_step_ok (n_keys n1)) in E2 as (H2 & S2 & K2 & A2); [|done].
  destruct re; [|intros [= _ <-]; split; [by rewrite K2|by rewrite S2, S1|by rewrite A2]].
  intros ([rg n3] & E3 & E)%bind_Some. apply (gate_step_ok (n_keys n1)) in E3 as (H3 & S3 & K3 & A3); [|done..].
  destruct rg; [|injection E as _ <-; split; [by rewrite K3, K2|by rewrite S3, S2, S1|by rewrite A3, A2]].
  injection E as _ <-. unfold record_step. destruct (jittered_renew_at _ _ _ _) as [ra rng]. set (n4 := set_metrics _ _).
  assert (P4 : process_ok h0 n4).
  { split; [cbn; by rewrite K3, K2| |cbn; by rewrite A3, A2]. cbn. rewrite S3, S2, S1. apply map_Forall_insert_2; [|done].
    split; [done|]. split; [cbn; unfold u32_max; lia|]. split; [exact Ho|exact Htk]. }
  destruct (refresh_tokens umask fetch_tokens cfg t n4) as [rt n5] eqn:E5.
  pose proof E5 as (S5 & K5 & A5 & H5)%refresh_tokens_process; [|apply P4].
  assert (P5 : process_ok h0 n5) by (split; [done|rewrite S5; apply P4|rewrite A5; apply P4]). by destruct fetch_tokens.
Qed.

Lemma unpublish_process v t n r n' :
  process_ok h0 n -> node_unpublish_volume cfg v t n = (r, n') -> process_ok h0 n'.
Proof.
  intros [Hh Hs Hq]. unfold node_unpublish_volume. destruct (is_empty t); [by intros [= _ <-]|].
  set (n1 := set_store _ n). destruct (exposed_ok (n_keys n1) v n1 unexpose) as (H2 & S2 & K2 & A2); [intros; apply steady_unexpose|done|].
  destruct (nhost _ (exposed cfg v unexpose n1)) as [ru n3] eqn:E3.
  apply (steady_nhost (n_keys n1)) in E3 as (H3 & S3 & K3 & A3); [|intros; by apply steady_unpublish|done].
  assert (P3 : process_ok h0 n3).
  { split; [by rewrite K3, K2| |by rewrite A3, A2]. rewrite S3, S2. by apply map_Forall_delete. }
  destruct P3 as [Hh3 Hs3 Hq3]. destruct ru; intros [= _ <-]; by split.
Qed.

Lemma adopt_process now found n :
  process_ok h0 n -> in_range now -> durations_ok ->
  exists k n', adopt cfg policy now found n = Some (k, n') /\ process_ok h0 n'.
Proof.
  intros [[Ht Hf] Hs Hq] Hn Hsp. unfold adopt.
  destruct (adopt_all_run cfg policy now found n Hn (du_spread Hsp)) as (a & s & n' & E & [Hk Hnew [_ Htr] Hkeys Hasked]).
  pose proof (adopt_all_spends now found n a s n' E) as Hfl. rewrite E. cbn. eexists _, _. split; [reflexivity|].
  split; cbn.
  - rewrite Hkeys. split; [by eapply trees_ok_same|by eapply whole_suffix].
  - intros t e [He|(d & facts & ra & dir & fl & chain & w & _ & <- & _ & _ & _ & Hb & -> & _)]%Hnew; [by apply Hs|].
    split; [done|]. split; [cbn; unfold u32_max; lia|]. split; [by right|done].
  - by rewrite Hasked.
Qed.
End parts.

(** ** Every reachable state *)

Lemma step_process h0 n e :
  process_ok h0 n -> durations_ok -> permitted e ->
  exists n', step n e = Some n' /\ process_ok h0 n'.
Proof.
  intros Hn Hsp He. destruct e as [V mono acts req|v t|V now clock| |V| |now found|act]; cbn [step permitted] in *.
  - destruct He as (HB & HV & Hm & Ha & Ht). destruct (publish_answers V mono acts req n Hsp Hm) as [[r n'] E].
    exists n'. rewrite E. split; [done|]. eapply publish_process; [exact HV|exact HB|exact Hn|exact Ha|exact Ht|exact E].
  - eexists. split; [done|]. eapply unpublish_process; [done|apply surjective_pairing].
  - destruct He as (HB & HV & Hc). destruct (renew_due_process h0 V HB now clock n Hn Hc) as (k & n' & -> & H). by eexists.
  - by apply token_turn_process.
  - eexists. split; [done|]. by apply refresh_ca_process.
  - eexists. split; [done|]. eapply reap_process; [done|apply surjective_pairing].
  - destruct (adopt_process h0 now found n Hn He Hsp) as (k & n' & -> & H). by eexists.
  - eexists. split; [done|]. destruct Hn as [[[Hv Hq] Hf] Hs Ha], He as [Hp Hw].
    destruct (Hp _ Hv) as (Hv' & _ & Hsn). split; [|done|done]. split; [split; [done|]|by apply Hw].
    intros k. cbn. rewrite Hsn. apply Hq.
Qed.

Lemma run_process h0 n es :
  process_ok h0 n -> durations_ok -> Forall permitted es ->
  exists n', run n es = Some n' /\ process_ok h0 n'.
Proof.
  intros Hn Hsp Hes. revert n Hn. induction Hes as [|e es He _ IH]; intros n Hn; [by exists n|].
  destruct (step_process h0 n e Hn Hsp He) as (n1 & E1 & H1). cbn [run]. rewrite E1. by apply IH.
Qed.

Lemma prime_ca_books V n : n_store (prime_ca V n).2 = n_store n /\ n_host (prime_ca V n).2 = n_host n /\
  n_keys (prime_ca V n).2 = n_keys n /\ n_asked (prime_ca V n).2 = n_asked n.
Proof.
  destruct (prime_ca V n) as [r n'] eqn:E. unfold prime_ca in E.
  apply nm_bind_run in E as (r1 & n1 & [-> ->]%nres_run & H). destruct issuer_ca_chain; [|by destruct H as [_ ->]].
  apply nm_bind_run in H as (r2 & n2 & [-> ->]%nres_run & H). destruct (guard_err _ _); [|by destruct H as [_ ->]].
  by injection H as _ <-.
Qed.

Lemma start_process V now found h seed :
  all_volumes_ok h -> Forall whole (hfaults h) -> in_range now -> durations_ok ->
  exists n, start_up V now found h seed = Some n /\ process_ok h n.
Proof.
  intros Hv Hf Hnow Hsp. destruct (prime_ca_books V (fresh_process h seed)) as (S & H & K & A).
  destruct (adopt_process h now found (prime_ca V (fresh_process h seed)).2) as (k & n & E & Hn); [|done|done|].
  - split; [rewrite H, K|by rewrite S|by rewrite A]. split; [split; [done|]|done].
    intros i. right; left. destruct (seen_identity (tree h i)) as [[key cert] ca] eqn:Es. by exists key, cert, ca, ca.
  - unfold start_up. rewrite E. by eexists.
Qed.

(** What a start makes of the volumes it finds: every one that can be taken over
    is looked after - if no call fails; each entry stands for one of them; no
    key is made, nothing is asked for, and no file is touched. *)
Record resumed (now : Z) (found : list Discovered) (h : host) (n : node) : Prop := {
  rs_all : hfaults h = [] -> forall d facts, d ∈ found -> adoptable h d facts -> looked_after n d facts;
  rs_only : forall t e, n_store n !! t = Some e -> adopted_from cfg policy now found h t e;
  rs_quiet : n_keys n = 0%nat /\ n_asked n = [];
  rs_host : spared h (n_host n);
}.

Lemma start_resumes V now found h seed n :
  in_range now -> durations_ok -> start_up V now found h seed = Some n -> resumed now found h n.
Proof.
  intros Hn Hd E. destruct (prime_ca_books V (fresh_process h seed)) as (S & H & K & A).
  unfold start_up, adopt in E. set (n0 := (prime_ca V (fresh_process h seed)).2) in *.
  destruct (adopt_all_run cfg policy now found n0 Hn (du_spread Hd)) as (a & s & n1 & E1 & [_ Hnew Hsp Hk Ha]).
  pose proof (adopt_all_takes now found n0 a s n1 Hn Hd) as Ht. rewrite E1 in E, Ht. injection E as <-.
  rewrite H in Ht, Hnew, Hsp. rewrite S in Ht, Hnew. cbn in Ht, Hnew. split; cbn.
  - intros Hf d facts Hin Had. destruct (Ht Hf eq_refl d facts Hin (lookup_empty _) Had) as (e & He & ?). by exists e.
  - intros t e [He|He]%Hnew; [by rewrite lookup_empty in He|exact He].
  - by rewrite Hk, Ha, K, A.
  - exact Hsp.
Qed.

(** C3: The node process, from start-up through any sequence of kubelet calls and
    background passes, in any order, with any host calls failing on the way and
    the policy daemon writing in between, never panics, and at every point:
    every volume on the host is whole; whatever identity a volume shows is the
    key and certificate the process found there when it started, or a key it
    generated itself with a certificate for that key and for an ID of its own,
    signed by one of its backends when shown that key's CSR;
    every entry of the renewal list is filed under its own target and is for
    such an ID; and it has never asked a backend to sign anything else.  The
    configured spread, policy timeout and check-in interval must be such that
    the deadlines made of them can be represented ([durations_ok]; beyond that
    the process does panic, [huge_gate_panics]); and a removal that fails is
    taken to have removed nothing ([whole]). *)
Theorem node_process_invariant (V : Issuer) (now : Z) (found : list Discovered) (h : host) (seed : Z) (es : list event) :
  all_volumes_ok h -> Forall whole (hfaults h) -> in_range now -> durations_ok ->
  Forall permitted es ->
  exists n0 n, start_up V now found h seed = Some n0 /\ run n0 es = Some n /\
    all_volumes_ok (n_host n) /\
    (forall k, accounted h (n_keys n) k (seen_identity (tree (n_host n) k))) /\
    (forall t e, n_store n !! t = Some e -> target_path e = t /\ ours (spiffe_id e)) /\
    Forall (fun req => ours (sr_spiffe_id req)) (n_asked n).
Proof.
  intros Hv Hf Hnow Hsp Hes. destruct (start_process V now found h seed Hv Hf Hnow Hsp) as (n0 & E0 & H0).
  destruct (run_process h n0 es H0 Hsp Hes) as (n & E & [[[Hv' Hq] _] Hs Ha]).
  exists n0, n. do 4 (split; [done|]). split; [|done]. by intros t e (T & _ & Ho & _)%Hs.
Qed.
End process.

(** ** Witness: a day in the life of a node *)

Module ProcessWitness.
Import NodeWitness.
#[local] Existing Instance MiniRegex.engine.
#[local] Existing Instance NodeWitness.parser.
#[local] Existing Instance NodeWitness.issuer_sound.

Definition empty_host : host := n_host NodeWitness.start.
Definition day : list event :=
  [Publish issuer 0 [] req; RenewDue issuer 200 [200]; RefreshCa issuer; RefreshTokens; ReapOrphans;
   Adopt 300 []; Unpublish "csi-1" "/pods/u/mount"; Others Datatypes.id].

Definition go (es : list event) : option node :=
  n ← start_up config policy issuer 100 [] empty_host 7; run 18 keygen None config policy json n es.

(** The certificate is published and renewed, and gone after the pod is. *)
Example published_then_gone :
  (fun n => (n_keys n, size (n_store n))) <$> go (take 1 day) = Some (1%nat, 1%nat) /\
  (fun n => (n_keys n, size (n_store n))) <$> go day = Some (2%nat, 0%nat).
Proof. vm_compute. done. Qed.

Lemma id_considerate : considerate Datatypes.id.
Proof. by split. Qed.

Lemma config_durations : durations_ok config.
Proof. split; cbn; [lia..|done]. Qed.

(** What the theorem's bound keeps out: with policy required and a timeout the
    configuration accepts, a publish panics. *)
Definition huge_gate : NodeConfig.Config :=
  mkConfig "svidlet" "node-1" "example.org" "a" "" "" "" "" "/var/lib/svidlet/volumes" DEFAULT_TEMPLATE None
    VaultSettings_unused None (mkGate true (2 ^ 64 - 1)) None 3600 (half, half) 10 60 0 0 "1m" 416 None 420 "" LInfo.
Example huge_gate_panics :
  parse_duration "18446744073709551615s" = Some (2 ^ 64 - 1) /\
  step 18 keygen None huge_gate policy json NodeWitness.start (Publish issuer 0 [] req) = None.
Proof. vm_compute. done. Qed.

Lemma day_permitted : Forall (permitted config json (eq issuer) (fun _ => True)) day.
Proof.
  unfold day. rewrite !Forall_cons. cbn. unfold in_range.
  split_and!; try done; try apply issuer_sound; try apply id_considerate; try lia.
  apply Forall_cons. by split; [lia|constructor].
Qed.

Lemma node_process_invariant_witness :
  exists n0 n, start_up config policy issuer 100 [] empty_host 7 = Some n0 /\
    run 18 keygen None config policy json n0 day = Some n /\ all_volumes_ok (n_host n) /\
    (forall k, accounted keygen config policy (eq issuer) (fun _ => True) empty_host (n_keys n) k (seen_identity (tree (n_host n) k))) /\
    (forall t e, n_store n !! t = Some e -> target_path e = t /\ ours config policy (spiffe_id e)) /\
    Forall (fun req => ours config policy (sr_spiffe_id req)) (n_asked n).
Proof.
  apply (node_process_invariant 18 keygen None config policy json (eq issuer) (fun _ => True) issuer 100 [] empty_host 7 day).
  - exact start_ok.
  - constructor.
  - unfold in_range. lia.
  - exact config_durations.
  - exact day_permitted.
Defined.
End ProcessWitness.
