(* ===== verification/Exposition.v ===== *)
(** * The metrics pages  (svidlet/src/metrics.rs, policy/daemon.rs)

    The Prometheus text of the node plugin and of the policy daemon, the latency
    histogram, and the answer to a scrape.  A page is built line by line as the
    code writes it; [page] is its text.  The sockets they are served on are not
    modelled. *)

From S2P Require Import Prelude RustStr Errors Template Certs Jwt Fs Volume NodeStore FloatText NodeConfig Rollout Oci Policy Host Recover Daemon Node.
From Stdlib Require Import Floats.SpecFloat.
Open Scope list_scope.
Open Scope Z_scope.

(** ** Lines *)

Definition quote : string := bytes [34%N].
Definition label (kv : string * string) : string := kv.1 +:+ "=" +:+ quote +:+ kv.2 +:+ quote.
Definition labels (kvs : list (string * string)) : string := "{" +:+ join "," (label <$> kvs) +:+ "}".

Inductive line :=
| HELP (name help : string)
| TYPE (name kind : string)
| Sample (series value : string).

Definition print_line (l : line) : string :=
  match l with
  | HELP name help => "# HELP " +:+ name +:+ " " +:+ help +:+ newline
  | TYPE name kind => "# TYPE " +:+ name +:+ " " +:+ kind +:+ newline
  | Sample series value => series +:+ " " +:+ value +:+ newline
  end.
Definition page (ls : list line) : string := String.concat "" (print_line <$> ls).

(** The value is printed as [NaN] or with [Display]; so is [show_f64]'s. *)
Definition simple (name help kind lbls : string) (value : f64) : list line :=
  [HELP name help; TYPE name kind; Sample (name +:+ lbls) (show_f64 value)].

Definition counter_by_reason (name help : string) (by_reason : list (string * Z)) : list line :=
  [HELP name help; TYPE name "counter"] ++
  ((fun rv => Sample (name +:+ labels [("reason", rv.1)]) (show_u64 rv.2)) <$> by_reason).

(** ** The latency histogram *)

Definition LATENCY_BUCKETS : list f64 :=
  [of_decimal 5 (-3); of_decimal 1 (-2); of_decimal 25 (-3); of_decimal 5 (-2); of_decimal 1 (-1);
   of_decimal 25 (-2); of_decimal 5 (-1); of_decimal 1 0; of_decimal 5 0].

Record Histogram := mkHistogram { buckets : list Z; h_count : Z; sum_micros : Z }.
Definition Histogram_default : Histogram := mkHistogram (repeat 0 9) 0 0.

Definition observe (elapsed : Duration) (h : Histogram) : Histogram :=
  let seconds := as_secs_f64 elapsed in
  mkHistogram
    (zip_with (fun bound n => if SFleb seconds bound then inc n else n) LATENCY_BUCKETS (buckets h))
    (inc (h_count h))
    (wrap 64 (sum_micros h + as_micros elapsed)).

Definition Histogram_render (name help reason : string) (h : Histogram) : list line :=
  [HELP name help; TYPE name "histogram"] ++
  zip_with (fun bound n => Sample (name +:+ "_bucket" +:+ labels [("reason", reason); ("le", show_f64 bound)]) (show_u64 n))
    LATENCY_BUCKETS (buckets h) ++
  [Sample (name +:+ "_bucket" +:+ labels [("reason", reason); ("le", "+Inf")]) (show_u64 (h_count h));
   Sample (name +:+ "_sum" +:+ labels [("reason", reason)])
     (show_f64 (Rand.f_div (Rand.f_of_int (sum_micros h)) (Rand.f_of_int 1000000)));
   Sample (name +:+ "_count" +:+ labels [("reason", reason)]) (show_u64 (h_count h))].

(** ** The node's page *)

(** [Metrics]: the counters of [Node], the histograms and the backend's name,
    which is set once. *)
Record NodeMetrics := mkNodeMetrics {
  counters : Metrics;
  latency_publish : Histogram;
  latency_renew : Histogram;
  backend : option (string * string);
}.
Definition Metrics_default : NodeMetrics :=
  mkNodeMetrics (mkMetrics 0 0 ∅ ∅ 0 0 0 0 0) Histogram_default Histogram_default None.
Definition set_backend (issuer auth : string) (m : NodeMetrics) : NodeMetrics :=
  mkNodeMetrics (counters m) (latency_publish m) (latency_renew m)
    (match backend m with Some b => Some b | None => Some (issuer, auth) end).
Definition observe_publish (d : Duration) (m : NodeMetrics) : NodeMetrics :=
  mkNodeMetrics (counters m) (observe d (latency_publish m)) (latency_renew m) (backend m).
Definition observe_renew (d : Duration) (m : NodeMetrics) : NodeMetrics :=
  mkNodeMetrics (counters m) (latency_publish m) (observe d (latency_renew m)) (backend m).

(** [FailureCounter::get]. *)
Definition code_count (c : ErrorCode) (m : gmap nat Z) : Z := default 0 (m !! ErrorCode_index c).

Definition FAILURES : string := "svidlet_issue_failures_total".
Definition DURATION : string := "svidlet_issue_duration_seconds".
Definition DURATION_HELP : string := "Time from starting a certificate request to having it on disk.".

Definition failure_lines (m : Metrics) : list line :=
  [HELP FAILURES "Failed signing attempts, by stable error code."; TYPE FAILURES "counter"] ++
  flat_map (fun rc : string * gmap nat Z =>
    (fun code => Sample (FAILURES +:+ labels [("reason", rc.1); ("code", ErrorCode_as_str code)])
                   (show_u64 (code_count code rc.2))) <$> ErrorCode_ALL)
    [("publish", failed_publish m); ("renew", failed_renew m)].

(** Seconds until [at_], or NaN. *)
Definition until (now : Z) (at_ : option Z) : f64 :=
  match at_ with Some a => Rand.f_of_int (wrap_i64 (a - now)) | None => S754_nan end.

Section node_page.
(** [CARGO_PKG_VERSION]. *)
Context (version : string).

Definition render (m : NodeMetrics) (store : Store.Store) (jwt_expiry : option Z) (now : Z) : list line :=
  let '(bk, auth) := default ("unknown", "unknown") (backend m) in
  let c := counters m in
  simple "svidlet_build_info" "Always 1. Carries the version and the backend in its labels." "gauge"
    (labels [("version", version); ("backend", bk); ("auth", auth)]) (Rand.f_of_int 1) ++
  counter_by_reason "svidlet_certificates_issued_total" "Certificates signed by the PKI backend."
    [("publish", issued_publish c); ("renew", issued_renew c)] ++
  failure_lines c ++
  Histogram_render DURATION DURATION_HELP "publish" (latency_publish m) ++
  Histogram_render DURATION DURATION_HELP "renew" (latency_renew m) ++
  flat_map (fun nhv : string * string * Z => simple nhv.1.1 nhv.1.2 "counter" "" (Rand.f_of_int nhv.2))
    [("svidlet_volumes_recovered_total",
      "Volumes adopted from the kubelet's records after a restart, without re-issuing.", recovered c);
     ("svidlet_volumes_adoption_skipped_total",
      "Volumes found on disk that could not be adopted, and so will be re-issued.", adoption_skipped c);
     ("svidlet_volumes_unpublished_total", "Volumes torn down on NodeUnpublishVolume.", unpublished c);
     ("svidlet_ca_refresh_total", "Trust bundle refreshes that changed ca.crt.", ca_refreshes c);
     ("svidlet_ca_refresh_failures_total", "Failed trust bundle refreshes.", ca_refresh_failures c)] ++
  simple "svidlet_certificates_active" "Certificates this node is currently renewing." "gauge" ""
    (Rand.f_of_int (Z.of_nat (size store))) ++
  simple "svidlet_earliest_certificate_expiry_seconds"
    "Seconds until the soonest-expiring certificate on this node expires. Alert on this: renewal starts at half the lifetime, so it only approaches zero after renewal has been failing for a very long time."
    "gauge" "" (until now (Store.earliest_expiry store)) ++
  simple "svidlet_jwt_earliest_expiry_seconds"
    "Seconds until the soonest-expiring JWT-SVID under any published jwt/ expires (broker mode). Tokens are re-minted at half their lifetime, so this falling towards zero means check-ins with the broker are failing. NaN when no volume holds a token."
    "gauge" "" (until now jwt_expiry) ++
  simple "svidlet_renewals_due"
    "Certificates whose renewal deadline has passed and which have not yet been renewed." "gauge" ""
    (Rand.f_of_int (Z.of_nat (length (Store.due now store)))).

(** [earliest_token_expiry]: the tokens are read from every volume. *)
Context {C : JwtCodec}.
Definition token_exps (tokens : gmap string string) : list Z :=
  omap (fun t => match decode_unverified t with Ok u => Some (exp (claims u)) | Err _ => None end) (map_to_list tokens).*2.
Fixpoint all_token_exps (es : list Entry) : hio (list Z) :=
  match es with
  | [] => mret []
  | e :: es =>
      tokens ← hattempt (on_target (Ok ∅) (target_path e) read_tokens);
      rest ← all_token_exps es;
      mret (match tokens with Ok ts => token_exps ts ++ rest | Err _ => rest end)
  end.
Definition earliest_token_expiry (store : Store.Store) : hio (option Z) :=
  exps ← all_token_exps (Store.all store);
  mret (foldl Store.min_option None exps).

(** A scrape: the page, from the counters, the list and the volumes. *)
Definition scrape (m : NodeMetrics) (store : Store.Store) (now : Z) : hio string :=
  jwt ← earliest_token_expiry store;
  mret (page (render m store jwt now)).

(** ** The answer *)

Definition crlf : string := bytes [13%N; 10%N].
Definition http (status : Z) (content_type body : string) : string :=
  let reason := if status =? 200 then "OK" else if status =? 404 then "Not Found" else "Error" in
  "HTTP/1.1 " +:+ show_u64 status +:+ " " +:+ reason +:+ crlf +:+
  "Content-Type: " +:+ content_type +:+ crlf +:+
  "Content-Length: " +:+ show_u64 (Z.of_nat (String.length body)) +:+ crlf +:+
  "Connection: close" +:+ crlf +:+ crlf +:+ body.

(** [split_whitespace]: [length s] rounds are enough, each takes a byte. *)
Fixpoint words_go (fuel : nat) (word s : string) : list string :=
  let flush := if is_empty word then [] else [str_rev word] in
  match fuel, s with
  | S fuel, String c r =>
      match strip_any white_space s with
      | Some rest => flush ++ words_go fuel "" rest
      | None => words_go fuel (String c word) r
      end
  | _, _ => flush
  end.
Definition split_whitespace (s : string) : list string := words_go (String.length s) "" s.
Definition request_path (request_line : string) : string := default "/" (split_whitespace request_line !! 1%nat).

Definition respond (request_line : string) (m : NodeMetrics) (store : Store.Store) (now : Z) : hio string :=
  let path := request_path request_line in
  if String.eqb path "/metrics" then
    body ← scrape m store now;
    mret (http 200 "text/plain; version=0.0.4; charset=utf-8" body)
  else if String.eqb path "/healthz" then mret (http 200 "text/plain" ("ok" +:+ newline))
  else mret (http 404 "text/plain" ("not found" +:+ newline)).
End node_page.

(** ** The policy daemon's page *)

Section daemon_page.
Context (version : string).
Context {R : RegexLite} {OC : OciCrypto}.

(** [BundleError::REASONS]. *)
Definition REASONS : list string := ["config"; "fetch"; "signature"; "malformed"; "rejected"; "stale"; "io"].

Definition age_seconds (s : State) (now : Z) : option Z :=
  if 0 <? last_success s then Some (Z.max (wrap_i64 (now - last_success s)) 0) else None.

Definition or_none (s : string) : string := if is_empty s then "none" else s.
Definition or_nan (x : option Z) : f64 := match x with Some n => Rand.f_of_int n | None => S754_nan end.

(** The daemon, its stream's reconnects and, where bundles are pulled, the
    source with its state and counters. *)
Definition daemon_render (d : Daemon) (reconnects : Z) (bundle : option (BundleSource * State * BundleMetrics)) (now : Z)
    : list line :=
  let p := PolicyManager.metrics (d_manager d) in
  let current := match bundle with Some (_, s, _) => s | None => default_state end in
  let count (f : BundleMetrics -> Z) := match bundle with Some (_, _, m) => f m | None => 0 end in
  simple "svidlet_policy_build_info" "Always 1. Carries the version in its labels." "gauge"
    (labels [("version", version)]) (Rand.f_of_int 1) ++
  simple "svidlet_policy_volumes" "Volumes on this node that hold an identity this fleet issues." "gauge" ""
    (Rand.f_of_int (Z.of_nat (size (d_volumes d)))) ++
  simple "svidlet_policy_volumes_unreadable"
    "Volumes found without a readable certificate. Transient during a publish; persistent means svidlet and this daemon disagree about the layout."
    "gauge" "" (Rand.f_of_int (d_unreadable d)) ++
  flat_map (fun nhv : string * string * Z => simple nhv.1.1 nhv.1.2 "counter" "" (Rand.f_of_int nhv.2))
    [("svidlet_policy_scans_total", "Passes over the kubelet's volume directory.", d_scans d);
     ("svidlet_policy_volumes_written_total", "Policy bundles written into a pod's volume.", d_volumes_written d);
     ("svidlet_policy_write_failures_total", "Failed attempts to write policy into a volume.", d_write_failures d);
     ("svidlet_policy_updates_received_total",
      "Policy updates received from a source, including ones that changed nothing.", PolicyManager.updates_received p);
     ("svidlet_policy_updates_rejected_total",
      "Updates refused as malformed. Non-zero means a backend is sending something svidlet will not publish.",
      PolicyManager.rejected_updates p);
     ("svidlet_policy_stream_reconnects_total", "Times the policy stream dropped and was re-established.", reconnects)] ++
  simple "svidlet_policy_stream_connected"
    "1 when the policy stream is up. Policy already on disk keeps working when it is 0, but changes stop arriving."
    "gauge" "" (if stream_enabled (PolicyManager.settings (d_manager d))
                then Rand.f_of_int (Z.b2z (PolicyManager.connected p)) else S754_nan) ++
  [HELP "svidlet_bundle_version" "Always 1. The digest and ring this node is running are its labels.";
   TYPE "svidlet_bundle_version" "gauge";
   Sample ("svidlet_bundle_version" +:+ labels [("digest", or_none (s_digest current)); ("ring", or_none (s_ring current))]) "1"] ++
  simple "svidlet_bundle_age_seconds"
    "Seconds since this node last verified a rollout manifest. Alert on this: a node that cannot reach the registry keeps serving the bundle it has, so age is the only signal that policy has stopped moving."
    "gauge" "" (or_nan (match bundle with Some (_, s, _) => age_seconds s now | None => None end)) ++
  [HELP "svidlet_bundle_rejected_total" "Polls that did not end with a bundle applied, by reason.";
   TYPE "svidlet_bundle_rejected_total" "counter"] ++
  ((fun reason => Sample ("svidlet_bundle_rejected_total" +:+ labels [("reason", reason)])
                    (show_u64 (count (fun m => default 0 (rejected m !! reason))))) <$> REASONS) ++
  flat_map (fun nhv : string * string * Z => simple nhv.1.1 nhv.1.2 "counter" "" (Rand.f_of_int nhv.2))
    [("svidlet_bundle_swap_total", "Times this node swapped to a different bundle.", count swaps);
     ("svidlet_bundle_poll_total", "Rollout manifest polls attempted.", count polls);
     ("svidlet_rollout_manifest_invalid_total",
      "Rollout manifests refused as unsigned, mis-signed or unparsable.", count manifest_invalid);
     ("svidlet_registry_fetch_errors_total", "Failed registry requests.", count fetch_errors)] ++
  simple "svidlet_bundle_node_bucket" "This node's stable position in 0..100, which decides its rollout ring." "gauge" ""
    (or_nan (match bundle with Some (src, _, _) => Some (node_bucket (b_cluster src) (b_node src)) | None => None end)).

Definition daemon_respond (request_line : string) (d : Daemon) (reconnects : Z)
    (bundle : option (BundleSource * State * BundleMetrics)) (now : Z) : string :=
  let path := request_path request_line in
  let answer := (if String.eqb path "/metrics" then (200, page (daemon_render d reconnects bundle now))
             else if String.eqb path "/healthz" then (200, "ok" +:+ newline)
             else (404, "not found" +:+ newline)) in
  http answer.1 "text/plain; version=0.0.4; charset=utf-8" answer.2.
End daemon_page.

(** ** What the pages promise *)

(** The histogram: each bucket counts the observations at or below its bound. *)
Definition at_most (bound : f64) (ds : list Duration) : Z :=
  Z.of_nat (length (List.filter (fun d => SFleb (as_secs_f64 d) bound) ds)).
Definition observed (ds : list Duration) : Histogram := foldl (fun h d => observe d h) Histogram_default ds.

Lemma inc_small n : 0 <= n -> n + 1 < 2 ^ 64 -> inc n = n + 1.
Proof. intros. unfold inc. apply wrap_small. lia. Qed.

Lemma observed_snoc ds d : observed (ds ++ [d]) = observe d (observed ds).
Proof. unfold observed. by rewrite foldl_app. Qed.

Lemma filter_length_le {A : Type} (f : A -> bool) l : (length (List.filter f l) <= length l)%nat.
Proof. induction l as [|x l IH]; cbn; [lia|]. destruct (f x); cbn; lia. Qed.

Lemma zip_with_same {A B : Type} (f : A -> B -> B) (g h : A -> B) l :
  (forall a, a ∈ l -> f a (g a) = h a) -> zip_with f l (g <$> l) = h <$> l.
Proof.
  induction l as [|a l IH]; intros H; cbn; [done|]. rewrite H by left. f_equal. apply IH. intros b Hb. apply H. by right.
Qed.

Lemma observed_run ds :
  Z.of_nat (length ds) < 2 ^ 64 ->
  observed ds = mkHistogram ((fun b => at_most b ds) <$> LATENCY_BUCKETS) (Z.of_nat (length ds))
                  (foldl (fun s d => wrap 64 (s + as_micros d)) 0 ds).
Proof.
  induction ds as [|d ds IH] using rev_ind; intros Hl; [reflexivity|]. rewrite length_app in Hl. cbn [length] in Hl.
  rewrite observed_snoc, IH by lia. unfold observe. cbn [buckets h_count sum_micros]. f_equal.
  - apply zip_with_same. intros b _. unfold at_most. rewrite List.filter_app, length_app. cbn.
    pose proof (filter_length_le (fun d0 => SFleb (as_secs_f64 d0) b) ds). destruct (SFleb _ _); cbn; [|lia].
    rewrite inc_small; lia.
  - rewrite length_app, inc_small; cbn; lia.
  - by rewrite foldl_app.
Qed.

(** The bounds are positive and in order. *)
Definition positive_f64 (x : f64) : bool := match x with S754_finite false _ _ => true | _ => false end.
Definition ordered (l : list f64) : bool :=
  forallb (fun i => forallb (fun j => match l !! i, l !! j with
    | Some a, Some b => positive_f64 a && positive_f64 b && (negb (Nat.leb i j) || SFleb a b)
    | _, _ => true end) (seq 0 9)) (seq 0 9).
Lemma buckets_ordered i j a b :
  (i <= j)%nat -> LATENCY_BUCKETS !! i = Some a -> LATENCY_BUCKETS !! j = Some b ->
  positive_f64 a = true /\ positive_f64 b = true /\ SFleb a b = true.
Proof.
  intros Hij Ha Hb. assert (H : ordered LATENCY_BUCKETS = true) by (vm_compute; reflexivity).
  assert (Hlen : forall k x, LATENCY_BUCKETS !! k = Some x -> (k < 9)%nat) by (intros k x Hk%lookup_lt_Some; exact Hk).
  unfold ordered in H. rewrite forallb_forall in H.
  specialize (H i ltac:(apply in_seq; pose proof (Hlen _ _ Ha); lia)). rewrite forallb_forall in H.
  specialize (H j ltac:(apply in_seq; pose proof (Hlen _ _ Hb); lia)). rewrite Ha, Hb in H.
  apply andb_true_iff in H as [[Hpa Hpb]%andb_true_iff H]. by rewrite (proj2 (Nat.leb_le i j) Hij) in H.
Qed.

Lemma at_most_mono a b ds :
  positive_f64 a = true -> positive_f64 b = true -> SFleb a b = true -> at_most a ds <= at_most b ds.
Proof.
  intros Ha Hb Hab. destruct a as [| | |[] ma ea]; try done. destruct b as [| | |[] mb eb]; try done.
  unfold at_most. induction ds as [|d ds IH]; cbn; [lia|].
  destruct (SFleb (as_secs_f64 d) (S754_finite false ma ea)) eqn:E; [rewrite (leb_trans _ _ _ _ _ Hab E)|];
    destruct (SFleb (as_secs_f64 d) (S754_finite false mb eb)); cbn [length]; lia.
Qed.

(** The latency histogram is cumulative.  After any observations, fewer than
    2^64, each bucket holds exactly how many took at most its bound, in the
    [f64] arithmetic of the code; a later bucket never holds less than an
    earlier one nor more than the total, which counts every observation. *)
Theorem histogram_cumulative (ds : list Duration) (i j : nat) (a b : f64) :
  Z.of_nat (length ds) < 2 ^ 64 -> (i <= j)%nat ->
  LATENCY_BUCKETS !! i = Some a -> LATENCY_BUCKETS !! j = Some b ->
  buckets (observed ds) !! i = Some (at_most a ds) /\ buckets (observed ds) !! j = Some (at_most b ds) /\
  at_most a ds <= at_most b ds <= h_count (observed ds) /\ h_count (observed ds) = Z.of_nat (length ds).
Proof.
  intros Hl Hij Ha Hb. destruct (buckets_ordered i j a b Hij Ha Hb) as (Hpa & Hpb & Hab).
  rewrite observed_run by done. cbn [buckets h_count]. rewrite !list_lookup_fmap, Ha, Hb.
  split; [done|]. split; [done|]. split; [|done]. split; [by apply at_most_mono|].
  unfold at_most. pose proof (filter_length_le (fun d => SFleb (as_secs_f64 d) b) ds). lia.
Qed.

(** *** Every series, from the start *)

Definition series (ls : list line) : list string :=
  omap (fun l => match l with Sample s _ => Some s | _ => None end) ls.

(** What the code may do to its metrics. *)
Inductive metric_event :=
| Count (f : Metrics -> Metrics)
| ObservePublish (d : Duration)
| ObserveRenew (d : Duration)
| SetBackend (issuer auth : string).
Definition record (m : NodeMetrics) (e : metric_event) : NodeMetrics :=
  match e with
  | Count f => mkNodeMetrics (f (counters m)) (latency_publish m) (latency_renew m) (backend m)
  | ObservePublish d => observe_publish d m
  | ObserveRenew d => observe_renew d m
  | SetBackend issuer auth => set_backend issuer auth m
  end.
Definition recorded (es : list metric_event) : NodeMetrics := foldl record Metrics_default es.

Lemma observe_length d h : length (buckets h) = 9%nat -> length (buckets (observe d h)) = 9%nat.
Proof. intros H. unfold observe. cbn [buckets]. by rewrite length_zip_with, H. Qed.
Lemma recorded_lengths es :
  length (buckets (latency_publish (recorded es))) = 9%nat /\ length (buckets (latency_renew (recorded es))) = 9%nat.
Proof.
  induction es as [|e es [H1 H2]] using rev_ind; [done|]. unfold recorded in *. rewrite foldl_app. cbn [foldl].
  destruct e; cbn [record counters latency_publish latency_renew observe_publish observe_renew set_backend];
    auto using observe_length.
Qed.

Lemma series_app l1 l2 : series (l1 ++ l2) = series l1 ++ series l2.
Proof. apply omap_app. Qed.
(** The histogram's series do not depend on what was observed. *)
Lemma histogram_series name help reason h :
  length (buckets h) = 9%nat -> series (Histogram_render name help reason h) = series (Histogram_render name help reason Histogram_default).
Proof.
  intros H. destruct h as [bs c s]. cbn in H. do 9 (destruct bs as [|? bs]; [done|]). by destruct bs.
Qed.

Section series.
Context (version : string).

Lemma render_series m store jwt now :
  length (buckets (latency_publish m)) = 9%nat -> length (buckets (latency_renew m)) = 9%nat ->
  series (render version m store jwt now) =
  series (render version (mkNodeMetrics (counters Metrics_default) Histogram_default Histogram_default (backend m)) ∅ None 0).
Proof.
  intros H1 H2. unfold render. cbn [backend counters latency_publish latency_renew].
  destruct (default _ (backend m)) as [bk auth]. rewrite !series_app.
  by rewrite (histogram_series _ _ _ (latency_publish m) H1), (histogram_series _ _ _ (latency_renew m) H2).
Qed.

Definition failure_series (reason : string) (c : ErrorCode) : string :=
  FAILURES +:+ labels [("reason", reason); ("code", ErrorCode_as_str c)].

Lemma failure_sample m c :
  Sample (failure_series "publish" c) (show_u64 (code_count c (failed_publish m))) ∈ failure_lines m /\
  Sample (failure_series "renew" c) (show_u64 (code_count c (failed_renew m))) ∈ failure_lines m.
Proof.
  assert (Hc : c ∈ ErrorCode_ALL) by (eapply list_elem_of_lookup_2, ErrorCode_ALL_complete).
  unfold failure_lines. cbn [flat_map]. split; apply elem_of_app; right; apply elem_of_app;
    [left|right; apply elem_of_app; left]; apply list_elem_of_fmap; exists c; done.
Qed.

Lemma failure_lines_in m store jwt now l : l ∈ failure_lines (counters m) -> l ∈ render version m store jwt now.
Proof. intros H. unfold render. destruct (default _ (backend m)) as [bk auth]. rewrite !elem_of_app. auto. Qed.

(** Every series is there from the start.  Whatever the node has done, its page
    has exactly the series, in the same order, that a process just started has -
    counters that are still zero included - so a rate over any of them is
    defined; and the failure series of every error code shows that code's count. *)
Theorem every_series_exported (es : list metric_event) (store : Store.Store) (jwt : option Z) (now : Z) :
  let m := recorded es in
  series (render version m store jwt now) =
    series (render version (match backend m with Some (i, a) => set_backend i a Metrics_default | None => Metrics_default end) ∅ None 0) /\
  forall c, Sample (failure_series "publish" c) (show_u64 (code_count c (failed_publish (counters m)))) ∈ render version m store jwt now /\
            Sample (failure_series "renew" c) (show_u64 (code_count c (failed_renew (counters m)))) ∈ render version m store jwt now.
Proof.
  intros m. destruct (recorded_lengths es) as [H1 H2]. fold m in H1, H2. split.
  - rewrite render_series by done. by destruct (backend m) as [[i a]|].
  - intros c. destruct (failure_sample (counters m) c). split; by apply failure_lines_in.
Qed.
End series.


(** The names declared on a page. *)
Definition declared (ls : list line) : list string :=
  omap (fun l => match l with TYPE n _ => Some n | _ => None end) ls.
Lemma declared_app l1 l2 : declared (l1 ++ l2) = declared l1 ++ declared l2.
Proof. apply omap_app. Qed.
Lemma declared_histogram name help reason h : declared (Histogram_render name help reason h) = [name].
Proof.
  unfold Histogram_render. rewrite !declared_app. cbn [declared omap list_omap app].
  replace (declared (zip_with _ _ _)) with (@nil string); [done|]. generalize LATENCY_BUCKETS, (buckets h).
  intros l. induction l as [|x l IH]; intros [|y k]; cbn; auto.
Qed.

(** The page declares the latency metric twice, once for each reason, where the
    text format has one [TYPE] line for a name. *)
Lemma duration_declared_twice version m store jwt now :
  count_occ String.string_dec (declared (render version m store jwt now)) DURATION = 2%nat.
Proof.
  unfold render. destruct (default _ (backend m)) as [bk auth]. rewrite !declared_app, !declared_histogram. vm_compute. reflexivity.
Qed.

(** ** Witnesses *)

Module ExpositionWitness.
Definition ms (n : Z) : Duration := mkDuration (n / 1000) (n mod 1000 * 1000000).
Definition seen : list Duration := [ms 20; ms 200; ms 9000].

Lemma histogram_cumulative_witness :
  at_most (of_decimal 25 (-3)) seen <= at_most (of_decimal 25 (-2)) seen <= h_count (observed seen) /\ h_count (observed seen) = 3.
Proof.
  apply (histogram_cumulative seen 2 5); [cbn; lia|lia|reflexivity|reflexivity].
Defined.
Example histogram_counts : buckets (observed seen) = [0; 0; 1; 1; 1; 2; 2; 2; 2] /\ sum_micros (observed seen) = 9220000.
Proof. vm_compute. done. Qed.

Definition q : string := quote.
Example histogram_text :
  (print_line <$> take 3 (drop 4 (Histogram_render DURATION DURATION_HELP "publish" (observed seen))))
  = ["svidlet_issue_duration_seconds_bucket{reason=" +:+ q +:+ "publish" +:+ q +:+ ",le=" +:+ q +:+ "0.025" +:+ q +:+ "} 1" +:+ newline;
     "svidlet_issue_duration_seconds_bucket{reason=" +:+ q +:+ "publish" +:+ q +:+ ",le=" +:+ q +:+ "0.05" +:+ q +:+ "} 1" +:+ newline;
     "svidlet_issue_duration_seconds_bucket{reason=" +:+ q +:+ "publish" +:+ q +:+ ",le=" +:+ q +:+ "0.1" +:+ q +:+ "} 1" +:+ newline].
Proof. vm_compute. reflexivity. Qed.
Example request_lines :
  request_path "GET /metrics HTTP/1.1" = "/metrics" /\ request_path "GET" = "/" /\ request_path "" = "/".
Proof. vm_compute. done. Qed.
End ExpositionWitness.
