(* ===== verification/BrokerMetrics.v ===== *)
(** * The broker's metrics page  (svidlet-broker/src/metrics.rs, server.rs)

    The counters as the program keeps them, the time spent in Vault included,
    the page they make and the port it is served on.  [Server] keeps the counts
    alone; a run of the broker is followed here by the log of the calls it makes
    on the counters, with the durations it measured. *)

From S2P Require Import Prelude RustStr Errors Template Catalog Limit BrokerConfig BrokerCatalog.
From S2P Require Import NodeStore FloatText NodeConfig Policy Exposition.
From S2P Require Import Certs Kube Issuer Sign Jwt Tokens Server.
From Stdlib Require Import Floats.SpecFloat.
Open Scope list_scope.
Open Scope Z_scope.

(** ** The counters *)

Definition key : Type := string * string * string.

Record Counters := mkCounters {
  c_requests : gmap key Z;
  c_vault : gmap string (Z * f64);
  c_cache : gmap string Z;
}.
Definition Counters_default : Counters := mkCounters ∅ ∅ ∅.

Definition request (path outcome rule : string) (m : Counters) : Counters :=
  mkCounters (bump (path, outcome, rule) (c_requests m)) (c_vault m) (c_cache m).

Definition vault_entry (took : Duration) (e : Z * f64) : Z * f64 :=
  (wrap 64 (e.1 + 1), Rand.f_add e.2 (as_secs_f64 took)).
Definition vault (op : string) (took : Duration) (m : Counters) : Counters :=
  mkCounters (c_requests m)
    (<[op := vault_entry took (default (0, S754_zero false) (c_vault m !! op))]> (c_vault m)) (c_cache m).

Definition cache (minted : bool) (m : Counters) : Counters :=
  mkCounters (c_requests m) (c_vault m) (bump (if minted then "mint" else "hit") (c_cache m)).

(** ** The page *)

(** The order of a [BTreeMap] over triples of strings. *)
Definition key_le (a b : key) : Prop :=
  let '(p, o, r) := a in let '(p', o', r') := b in
  (p <> p' /\ String.le p p') \/
  (p = p' /\ ((o <> o' /\ String.le o o') \/ (o = o' /\ String.le r r'))).
#[export] Instance key_le_dec : RelDecision key_le.
Proof. intros [[p o] r] [[p' o'] r']. unfold key_le. apply _. Defined.
Definition keys_in_order (s : gset key) : list key := merge_sort key_le (elements s).

Definition REQUESTS : string := "svidlet_broker_requests_total".
Definition VAULT : string := "svidlet_broker_vault_seconds".
Definition CACHE : string := "svidlet_broker_token_cache_total".
Definition ENTRIES : string := "svidlet_broker_token_cache_entries".

Definition request_line (m : Counters) (k : key) : line :=
  let '(path, outcome, rule) := k in
  Sample (REQUESTS +:+ labels [("path", path); ("outcome", outcome); ("rule", rule)])
    (show_u64 (default 0 (c_requests m !! k))).
Definition vault_lines (m : Counters) (op : string) : list line :=
  let '(n, sum) := default (0, S754_zero false) (c_vault m !! op) in
  [Sample (VAULT +:+ "_count" +:+ labels [("op", op)]) (show_u64 n);
   Sample (VAULT +:+ "_sum" +:+ labels [("op", op)]) (show_f64 sum)].
Definition cache_line (m : Counters) (result : string) : line :=
  Sample (CACHE +:+ labels [("result", result)]) (show_u64 (default 0 (c_cache m !! result))).

Definition render (cached_tokens : nat) (m : Counters) : list line :=
  [TYPE REQUESTS "counter"] ++ (request_line m <$> keys_in_order (dom (c_requests m))) ++
  [TYPE VAULT "summary"] ++ flat_map (vault_lines m) (PolicyManager.in_order (dom (c_vault m))) ++
  [TYPE CACHE "counter"] ++ (cache_line m <$> PolicyManager.in_order (dom (c_cache m))) ++
  [TYPE ENTRIES "gauge"; Sample ENTRIES (show_u64 (Z.of_nat cached_tokens))].

(** The answer of [serve_metrics], to any method. *)
Definition handle_metrics (path : string) (m : Counters) (b : Broker) : HttpResponse :=
  if String.eqb path "/metrics" then text 200 (page (render (Tokens_cached (tokens b)) m))
  else if String.eqb path "/healthz" then healthy
  else not_found.

(** ** The calls a run makes on them *)

Inductive call :=
| Request (k : key)
| VaultCall (op : string) (took : Duration)
| CacheCall (minted : bool).

Definition apply_call (m : Counters) (c : call) : Counters :=
  match c with
  | Request k => request k.1.1 k.1.2 k.2 m
  | VaultCall op took => vault op took m
  | CacheCall minted => cache minted m
  end.
Definition after_calls (cs : list call) : Counters := foldl apply_call Counters_default cs.

Definition count_call (m : Metrics) (c : call) : Metrics :=
  match c with
  | Request k => count_request k.1.1 k.1.2 k.2 m
  | VaultCall op _ => count_vault op m
  | CacheCall minted => count_cache minted m
  end.
(** What [Server] keeps of the counters. *)
Definition counts (m : Counters) : Metrics := mkMetrics (c_requests m) (fst <$> c_vault m) (c_cache m).

Lemma counts_call m c : counts (apply_call m c) = count_call (counts m) c.
Proof.
  destruct c as [[[p o] r]|op took|minted]; [done| |done]. cbn. unfold vault, counts, count_vault, bump. cbn.
  rewrite fmap_insert, lookup_fmap. by destruct (c_vault m !! op) as [[]|].
Qed.
Lemma counts_calls cs m : counts (foldl apply_call m cs) = foldl count_call (counts m) cs.
Proof. revert m. induction cs as [|c cs IH]; intros m; [done|]. cbn. by rewrite IH, counts_call. Qed.

Section log.
Context {R : RegexLite} {X : X509Parser} {C : JwtCodec} {W : Wire}.
Context (cfg : BrokerConfig.Config) (policy : IdPolicy) (toml : string -> option Catalog).
(** How long the calls of a step to Vault took. *)
Context (took : broker_event -> nat -> Duration).

Fixpoint grant_log (times : nat -> Duration) (gs : list Grant) : list call :=
  match gs with
  | [] => []
  | g :: gs =>
      CacheCall (g_minted g) ::
      (if g_minted g then VaultCall "mintjwt" (times 0%nat) :: grant_log (fun i => times (S i)) gs else grant_log times gs)
  end.

Definition refusal_key (label : string) (r : Refusal) : key := (label, Refusal_outcome r, Refusal_rule r).

(** The calls of one step. *)
Definition step_log (b : Broker) (e : broker_event) : list call :=
  match e with
  | ESign Kn Kp V now req =>
      match h_method req with
      | POST =>
          if String.eqb (h_path req) "/v1/sign" then
            match (sign_outcome cfg policy Kn Kp V now req b).1 with
            | Ok _ => [Request ("sign", "ok", ""); VaultCall "pki_sign" (took e 0%nat)]
            | Err r => [Request (refusal_key "sign" r)]
            end
          else []
      | _ => []
      end
  | ETokens mint fetch leaf now req =>
      match token_route req with
      | None => []
      | Some single_mode =>
          let label := if single_mode then "token" else "tokens" in
          match (token_outcome cfg policy mint fetch leaf now single_mode req b).1 with
          | Ok (_, grants) => Request (label, "ok", "") :: grant_log (took e) grants
          | Err r => [Request (refusal_key label r)]
          end
      end
  | EKeep _ _ _ _ _ => []
  end.
Fixpoint run_log (b : Broker) (es : list broker_event) : list call :=
  match es with
  | [] => []
  | e :: es => step_log b e ++ run_log (broker_step cfg policy toml b e) es
  end.

Lemma grant_log_counts times gs m : foldl count_call m (grant_log times gs) = count_grants gs m.
Proof.
  revert times m. induction gs as [|g gs IH]; intros times m; [done|]. cbn. destruct (g_minted g); cbn; apply IH.
Qed.

Lemma step_log_counts b e : b_metrics (broker_step cfg policy toml b e) = foldl count_call (b_metrics b) (step_log b e).
Proof.
  destruct e as [Kn Kp V now req|mint fetch leaf now req|due read file sweep now]; cbn [broker_step step_log].
  - unfold handle_sign. destruct (h_method req); [by repeat case_match| |done]. destruct (String.eqb _ _); [|done].
    assert (Hm : b_metrics (sign_outcome cfg policy Kn Kp V now req b).2 = b_metrics b).
    { unfold sign_outcome. destruct (_ ≫= _); [|done]. by destruct (sign _ _ _ _ _ _ _ _ _ _). }
    destruct (sign_outcome _ _ _ _ _ _ _ _) as [[s|r] b']; cbn in *; by rewrite Hm.
  - unfold handle_tokens. destruct (match h_method req with GET => _ | _ => _ end) eqn:Eh.
    { unfold token_route. by destruct (h_method req). }
    destruct (token_route req) as [m|]; [|done].
    assert (Hm : b_metrics (token_outcome cfg policy mint fetch leaf now m req b).2 = b_metrics b).
    { unfold token_outcome. destruct (_ ≫= _) as [[caller a]|]; [|done].
      destruct a as [a|]; [by destruct (single _ _ _ _ _ _ _ _)|by destruct (all _ _ _ _ _ _ _)]. }
    destruct (token_outcome _ _ _ _ _ _ _ _ _) as [[[caller gs]|r] b']; cbn in *; rewrite Hm; [by rewrite grant_log_counts|done].
  - unfold housekeeping. by repeat case_match.
Qed.
Lemma run_log_counts b es :
  b_metrics (foldl (broker_step cfg policy toml) b es) = foldl count_call (b_metrics b) (run_log b es).
Proof.
  revert b. induction es as [|e es IH]; intros b; [done|]. cbn [foldl run_log]. by rewrite foldl_app, IH, step_log_counts.
Qed.

(** A request to one of the API's routes. *)
Definition is_api (e : broker_event) : bool :=
  match e with
  | ESign _ _ _ _ req => match h_method req with POST => String.eqb (h_path req) "/v1/sign" | _ => false end
  | ETokens _ _ _ _ req => bool_decide (is_Some (token_route req))
  | EKeep _ _ _ _ _ => false
  end.
Definition is_request (c : call) : bool := match c with Request _ => true | _ => false end.

Lemma grant_log_requests times gs : List.filter is_request (grant_log times gs) = [].
Proof. revert times. induction gs as [|g gs IH]; intros times; [done|]. cbn. destruct (g_minted g); cbn; apply IH. Qed.
Lemma step_log_requests b e : length (List.filter is_request (step_log b e)) = Nat.b2n (is_api e).
Proof.
  destruct e as [Kn Kp V now req|mint fetch leaf now req|due read file sweep now]; cbn [step_log is_api]; [| |done].
  - destruct (h_method req); [done| |done]. destruct (String.eqb _ _); [|done].
    by destruct (sign_outcome _ _ _ _ _ _ _ _) as [[s|r] b'].
  - destruct (token_route req) as [m|]; [|done].
    destruct (token_outcome _ _ _ _ _ _ _ _ _) as [[[caller gs]|r] b']; cbn; [by rewrite grant_log_requests|done].
Qed.
Lemma run_log_requests b es : length (List.filter is_request (run_log b es)) = length (List.filter is_api es).
Proof.
  revert b. induction es as [|e es IH]; intros b; [done|]. cbn [run_log List.filter].
  rewrite List.filter_app, length_app, step_log_requests, IH. by destruct (is_api e).
Qed.
End log.

(** ** What the page shows *)

#[export] Instance key_le_trans : Transitive key_le.
Proof.
  intros [[p o] r] [[p' o'] r'] [[p'' o''] r'']. unfold key_le.
  intros [[H1 L1]|[-> [[H1 L1]|[-> L1]]]] [[H2 L2]|[-> [[H2 L2]|[-> L2]]]].
  - left. split; [|by etrans]. intros ->. apply H2. by apply (anti_symm String.le).
  - by left.
  - by left.
  - by left.
  - right. split; [done|]. left. split; [|by etrans]. intros ->. apply H2. by apply (anti_symm String.le).
  - right. split; [done|]. by left.
  - by left.
  - right. split; [done|]. by left.
  - right. split; [done|]. right. split; [done|by etrans].
Qed.
#[export] Instance key_le_total : Total key_le.
Proof.
  intros [[p o] r] [[p' o'] r']. unfold key_le.
  destruct (decide (p = p')) as [->|Hp]; [|destruct (total String.le p p'); [left|right]; left; split; congruence].
  destruct (decide (o = o')) as [->|Ho]; [|destruct (total String.le o o'); [left|right]; right; (split; [done|]); left; split; congruence].
  destruct (total String.le r r'); [left|right]; right; (split; [done|]); by right.
Qed.

(** How often a key was counted. *)
Definition counted (k : key) (cs : list call) : nat :=
  length (List.filter (fun c => match c with Request k' => bool_decide (k' = k) | _ => false end) cs).

Lemma requests_after cs m k :
  c_requests (foldl apply_call m cs) !! k =
    match counted k cs with
    | O => c_requests m !! k
    | S n => Some (wrap 64 (default 0 (c_requests m !! k) + Z.of_nat (S n)))
    end.
Proof.
  revert m. unfold counted. induction cs as [|c cs IH]; intros m; [done|]. cbn [foldl List.filter]. rewrite IH. clear IH.
  destruct c as [k'|op took|minted]; [|by destruct (length _)..]. cbn [apply_call request c_requests]. unfold bump.
  rewrite <- !surjective_pairing. destruct (bool_decide_reflect (k' = k)) as [->|Hne].
  - rewrite lookup_insert_eq. cbn [length]. destruct (length _) as [|n]; [done|].
    cbn -[Z.of_nat wrap]. unfold wrap. rewrite Zplus_mod_idemp_l.
    replace (Z.of_nat (S (S n))) with (1 + Z.of_nat (S n)) by lia. by rewrite Z.add_assoc.
  - by rewrite lookup_insert_ne.
Qed.

(** ** Reading the page *)

(** One sample of the requests' counter: its labels and its value. *)
Definition read_sample (l : string) : option (key * Z) :=
  r ← strip_prefix (REQUESTS +:+ "{path=" +:+ quote) l;
  '(path, r) ← split_once "034" r;
  r ← strip_prefix (",outcome=" +:+ quote) r;
  '(outcome, r) ← split_once "034" r;
  r ← strip_prefix (",rule=" +:+ quote) r;
  '(rule, r) ← split_once "034" r;
  r ← strip_prefix "} " r;
  n ← parse_u64 r;
  Some ((path, outcome, rule), n).
Fixpoint read_samples (ls : list string) : list (key * Z) :=
  match ls with
  | [] => []
  | l :: ls => if starts_with "#" l then [] else option_list (read_sample l) ++ read_samples ls
  end.
(** The samples below the line that names the counter, up to the next one. *)
Definition read_page (body : string) : list (key * Z) :=
  match split_char "010" body with
  | l :: ls => if String.eqb l ("# TYPE " +:+ REQUESTS +:+ " counter") then read_samples ls else []
  | [] => []
  end.

(** A label's value that needs no escape. *)
Definition plain_value (s : string) : Prop := has_char "034" s = false /\ has_char "010" s = false.
Definition plain_key (k : key) : Prop := plain_value k.1.1 /\ plain_value k.1.2 /\ plain_value k.2.

Definition sample_text (k : key) (n : Z) : string :=
  REQUESTS +:+ labels [("path", k.1.1); ("outcome", k.1.2); ("rule", k.2)] +:+ " " +:+ show_u64 n.

Lemma sample_shape k n :
  sample_text k n = (REQUESTS +:+ "{path=" +:+ quote) +:+ (k.1.1 +:+ String "034" ((",outcome=" +:+ quote) +:+
    (k.1.2 +:+ String "034" ((",rule=" +:+ quote) +:+ (k.2 +:+ String "034" ("} " +:+ show_u64 n)))))).
Proof. destruct k as [[p o] r]. unfold sample_text, labels, label. cbn [fst snd fmap list_fmap join]. by rewrite !sapp_assoc. Qed.
Lemma split_quote a b : has_char "034" a = false -> split_once "034" (a +:+ String "034" b) = Some (a, b).
Proof. intros H. by apply split_once_Some. Qed.
Lemma read_sample_text k n : plain_key k -> 0 <= n <= u64_max -> read_sample (sample_text k n) = Some (k, n).
Proof.
  intros ([H1 _] & [H2 _] & [H3 _]) Hn. rewrite sample_shape. unfold read_sample. rewrite strip_prefix_app. cbn [mbind option_bind].
  rewrite split_quote by done. cbn [mbind option_bind]. rewrite strip_prefix_app. cbn [mbind option_bind].
  rewrite split_quote by done. cbn [mbind option_bind]. rewrite strip_prefix_app. cbn [mbind option_bind].
  rewrite split_quote by done. cbn [mbind option_bind]. rewrite strip_prefix_app. cbn [mbind option_bind].
  rewrite parse_show_u64 by done. by destruct k as [[]].
Qed.
Lemma sample_one_line k n : plain_key k -> has_char "010" (sample_text k n) = false.
Proof.
  intros ([_ H1] & [_ H2] & [_ H3]). rewrite sample_shape. repeat rewrite ?has_char_app, ?has_char_cons. rewrite H1, H2, H3.
  unfold show_u64. destruct (pretty_N_digits (Z.to_N n)) as (Hc & _). by rewrite (all_chars_no_char dec_ok "010" _ eq_refl Hc).
Qed.

Lemma page_cons l ls : page (l :: ls) = print_line l +:+ page ls.
Proof. unfold page. cbn [fmap list_fmap]. destruct ls as [|l' ls]; [by rewrite sapp_nil_r|done]. Qed.
Lemma print_request m k : print_line (request_line m k) = sample_text k (default 0 (c_requests m !! k)) +:+ String "010" "".
Proof. destruct k as [[p o] r]. cbn [request_line print_line]. unfold sample_text. cbn [fst snd]. by rewrite !sapp_assoc. Qed.

(** The page, read back. *)
Lemma read_rendered m n :
  (forall k, is_Some (c_requests m !! k) -> plain_key k) -> (forall k x, c_requests m !! k = Some x -> 0 <= x <= u64_max) ->
  read_page (page (render n m)) = (fun k => (k, default 0 (c_requests m !! k))) <$> keys_in_order (dom (c_requests m)).
Proof.
  intros Hk Hn. unfold render. set (rest := flat_map _ _ ++ _). cbn [app]. rewrite page_cons. unfold read_page.
  change (print_line (TYPE REQUESTS "counter") +:+ ?r) with (("# TYPE " +:+ REQUESTS +:+ " counter") +:+ String "010" r).
  rewrite split_char_app by done. rewrite String.eqb_refl.
  assert (Hks : Forall (fun k => is_Some (c_requests m !! k)) (keys_in_order (dom (c_requests m)))).
  { apply Forall_forall. intros k. unfold keys_in_order. rewrite merge_sort_Permutation, elem_of_elements. apply elem_of_dom. }
  cbn [app]. induction Hks as [|k ks [x Hx] _ IH].
  - cbn [fmap list_fmap app]. rewrite page_cons.
    change (print_line (TYPE VAULT "summary") +:+ ?r) with (("# TYPE " +:+ VAULT +:+ " summary") +:+ String "010" r).
    rewrite split_char_app by done. reflexivity.
  - cbn [fmap list_fmap app]. rewrite page_cons, print_request, sapp_assoc.
    change (String "010" "" +:+ ?r) with (String "010" r). assert (Hp : plain_key k) by (apply Hk; by eexists).
    rewrite split_char_app by (by apply sample_one_line). cbn [read_samples].
    assert (starts_with "#" (sample_text k (default 0 (c_requests m !! k))) = false) as -> by reflexivity.
    rewrite Hx. cbn [default]. rewrite read_sample_text by (done || by eapply Hn). cbn [option_list app]. f_equal. exact IH.
Qed.

(** ** The rules a request can be refused under *)

Definition RULES : list string :=
  ["I1"; "I3"; "I4"; "I5"; "I6"; "I7"; "I8"; "I9"; "I10"; "T1"; "T2"; "T3"; "T7"; "vault"; ""].
Definition ruled (r : Refusal) : Prop := Refusal_rule r ∈ RULES.
Definition tame {A : Type} (m : result Refusal A) : Prop := forall r, m = Err r -> ruled r.

Ltac a_rule := unfold ruled; cbn [Refusal_rule]; apply (bool_decide_unpack _); vm_compute; exact Logic.I.

Lemma tame_Ok {A : Type} (a : A) : tame (Ok a).
Proof. by intros r. Qed.
Lemma tame_Err {A : Type} (r : Refusal) : ruled r -> tame (Err r : result Refusal A).
Proof. by intros H r' [= <-]. Qed.
Lemma tame_bind {A B : Type} (m : result Refusal A) (k : A -> result Refusal B) : tame m -> (forall a, tame (k a)) -> tame (m ≫= k).
Proof. intros Hm Hk. destruct m as [a|e]; [apply Hk|]. intros r [= <-]. by apply Hm. Qed.
Lemma tame_guard b r : ruled r -> tame (guard_err b r).
Proof. intros H. destruct b; [by apply tame_Err|apply tame_Ok]. Qed.
Lemma tame_map {A E : Type} (f : E -> Refusal) (m : result E A) : (forall e, ruled (f e)) -> tame (map_err f m).
Proof. intros H. destruct m; [apply tame_Ok|by apply tame_Err]. Qed.
Lemma tame_ok_or {A : Type} r (o : option A) : ruled r -> tame (ok_or r o).
Proof. intros H. destruct o; [apply tame_Ok|by apply tame_Err]. Qed.
Lemma tame_for_each {A : Type} (f : A -> result Refusal unit) xs : (forall x, tame (f x)) -> tame (for_each f xs).
Proof. intros H. induction xs as [|x xs IH]; cbn; [apply tame_Ok|]. apply tame_bind; [apply H|intros []; exact IH]. Qed.
Lemma ruled_kube e : ruled (from_kube e).
Proof. destruct e; a_rule. Qed.
Lemma ruled_vault e : ruled (from_vault e).
Proof. unfold from_vault. repeat case_match; a_rule. Qed.

Ltac taming :=
  repeat match goal with
    | |- tame (mbind _ _) => apply tame_bind; [|intros ?]
    | |- tame (guard_err _ _) => apply tame_guard; a_rule
    | |- tame (map_err from_kube _) => apply tame_map, ruled_kube
    | |- tame (map_err _ _) => apply tame_map; intros ?; a_rule
    | |- tame (ok_or _ _) => apply tame_ok_or; a_rule
    | |- tame (Ok _) => apply tame_Ok
    | |- tame (Err _) => apply tame_Err; a_rule
    | |- tame (for_each _ _) => apply tame_for_each; intros ?
    | |- tame (match ?x with _ => _ end) => destruct x
    end.

Section rules.
Context {R : RegexLite} {X : X509Parser} {C : JwtCodec} {W : Wire}.
Context (cfg : BrokerConfig.Config) (policy : IdPolicy).

Lemma tame_authorize catalog Kn Kp token body : tame (authorize cfg policy catalog Kn Kp token body).
Proof.
  unfold authorize, attest_node, attest_pod, check_node_claim, check_hint, admit_pod, check_image. cbv zeta. taming.
Qed.
Lemma tame_sign catalog Kn Kp I token body now st : tame (sign cfg policy catalog Kn Kp I token body now st).1.
Proof.
  unfold sign. pose proof (tame_authorize catalog Kn Kp token body) as Ha. destruct (authorize _ _ _ _ _ _ _) as [[[node pod] id]|r].
  - destruct (Window_check _ _ _) as [fits rate]. destruct fits; cbn [negb]; [|apply tame_Err; a_rule].
    destruct (Distinct_allow _ _ _ _) as [allowed ids]. destruct allowed; cbn [negb]; [|apply tame_Err; a_rule].
    destruct (issuer_sign _) as [bundle|e]; [apply tame_Ok|apply tame_Err, ruled_vault].
  - cbn. apply tame_Err. by apply Ha.
Qed.
Lemma tame_body req : tame (read_body req).
Proof. unfold read_body. taming. Qed.
Lemma tame_sign_outcome Kn Kp I now req b : tame (sign_outcome cfg policy Kn Kp I now req b).1.
Proof.
  unfold sign_outcome.
  assert (Hb : tame (raw ← read_body req; ok_or (BadRequest "I1") (dec_sign_body raw))) by (apply tame_bind; [apply tame_body|intros raw; taming]).
  destruct (_ ≫= _) as [body|r]; [|apply tame_Err; by apply Hb].
  pose proof (tame_sign (Handle_current (b_catalog b)) Kn Kp I (bearer req) body now (signer b)) as Hs. by destruct (sign _ _ _ _ _ _ _ _ _ _).
Qed.

Lemma tame_one mint fetch caller entry aud now st : tame (one cfg mint fetch caller entry aud now st).1.
Proof.
  assert (Hm : forall alias aud st, tame (mint_one cfg mint fetch caller alias aud now st).1).
  { intros alias aud' st'. unfold mint_one, vet. destruct (Window_allow _ _ _) as [allowed rate]. destruct allowed; cbn [negb]; [|apply tame_Err; a_rule].
    destruct (mint _ _) as [token|e]; [|apply tame_Err, ruled_vault].
    destruct (decode_unverified token) as [parsed|e]; [|apply tame_Err; a_rule].
    repeat case_match; simplify_eq; cbn; first [apply tame_Ok|apply tame_Err; a_rule]. }
  unfold one. destruct (find_audience _ _) as [a|]; [|apply tame_Err; a_rule]. destruct (_ !! _) as [c|]; [|apply Hm].
  unfold servable. repeat case_match; simplify_eq; cbn; first [apply Hm|apply tame_Ok|apply tame_Err; a_rule].
Qed.
Lemma tame_all_go mint fetch caller entry now auds st : tame (all_go cfg mint fetch caller entry now auds st).1.
Proof.
  revert st. induction auds as [|aud auds IH]; intros st; cbn [all_go]; [apply tame_Ok|].
  pose proof (tame_one mint fetch caller entry (audience aud) now st) as H1. destruct (one _ _ _ _ _ _ _ _) as [[g|r] st1].
  - pose proof (IH st1) as H2. destruct (all_go _ _ _ _ _ _ _ _) as [[gs|r] st2]; [apply tame_Ok|apply tame_Err; by apply H2].
  - case_bool_decide; [apply IH|apply tame_Err; by apply H1].
Qed.
Lemma tame_token_outcome mint fetch leaf now single_mode req b : tame (token_outcome cfg policy mint fetch leaf now single_mode req b).1.
Proof.
  unfold token_outcome. set (pre := ok_or _ leaf ≫= _).
  assert (Hp : tame pre).
  { unfold pre, wanted_audience, caller_of. apply tame_bind; [taming|]. intros l. apply tame_bind; [apply tame_body|]. intros raw. taming. }
  destruct pre as [[caller aud]|r]; [|apply tame_Err; by apply Hp]. unfold single, all, entry_of.
  destruct (ok_or (Forbidden "T3") _) as [entry|r] eqn:Ee.
  - destruct aud as [a|].
    + pose proof (tame_one mint fetch caller entry a now (tokens b)) as H. destruct (one _ _ _ _ _ _ _ _) as [[g|r] st]; [apply tame_Ok|apply tame_Err; by apply H].
    + pose proof (tame_all_go mint fetch caller entry now (i_audiences entry) (tokens b)) as H.
      destruct (all_go _ _ _ _ _ _ _ _) as [[g|r] st]; [apply tame_Ok|apply tame_Err; by apply H].
  - assert (ruled r) by (by eapply (tame_ok_or (Forbidden "T3")); [a_rule|exact Ee]). destruct aud; cbn; by apply tame_Err.
Qed.

(** Every request is counted under a route, an outcome and a rule of the code. *)
Definition listed_key (k : key) : Prop :=
  k.1.1 ∈ ["sign"; "token"; "tokens"] /\
  k.1.2 ∈ ["ok"; "bad_request"; "unauthenticated"; "forbidden"; "rate_limited"; "unavailable"; "internal"] /\ k.2 ∈ RULES.

Lemma listed_plain k : listed_key k -> plain_key k.
Proof.
  assert (H : forall l : list string, forallb (fun s => negb (has_char "034" s) && negb (has_char "010" s)) l = true -> forall s, s ∈ l -> plain_value s).
  { intros l Hl s Hs%list_elem_of_In. rewrite forallb_forall in Hl. by apply Hl, andb_true_iff in Hs as [?%negb_true_iff ?%negb_true_iff]. }
  intros (H1 & H2 & H3). split; [|split]; (eapply H; [|done]); reflexivity.
Qed.
Lemma refusal_listed l r : l ∈ ["sign"; "token"; "tokens"] -> ruled r -> listed_key (refusal_key l r).
Proof. intros Hl Hr. split; [done|]. split; [|exact Hr]. destruct r; cbn; set_solver. Qed.
Lemma ok_listed l : l ∈ ["sign"; "token"; "tokens"] -> listed_key (l, "ok", "").
Proof. intros Hl. split; [done|]. split; [left|]. cbn [snd]. unfold RULES. set_solver. Qed.

Lemma grant_log_no_request times gs k : Request k ∉ grant_log times gs.
Proof.
  revert times. induction gs as [|g gs IH]; intros times; cbn; [by intros ?%elem_of_nil|].
  rewrite elem_of_cons. intros [[=]|H]. destruct (g_minted g); [apply elem_of_cons in H as [[=]|H]|]; by eapply IH.
Qed.
Lemma run_log_listed toml took b es k : Request k ∈ run_log cfg policy toml took b es -> listed_key k.
Proof.
  revert b. induction es as [|e es IH]; intros b; cbn [run_log]; [by intros ?%elem_of_nil|].
  intros [H|H]%elem_of_app; [|by eapply IH]. clear IH. destruct e as [Kn Kp V now req|mint fetch leaf now req|due read file sweep now]; cbn [step_log] in H.
  - destruct (h_method req); [by apply elem_of_nil in H| |by apply elem_of_nil in H].
    destruct (String.eqb _ _); [|by apply elem_of_nil in H].
    pose proof (tame_sign_outcome Kn Kp V now req b) as Ht. destruct (sign_outcome _ _ _ _ _ _ _ _).1 as [s|r].
    + apply elem_of_cons in H as [[= ->]|[[=]|?%elem_of_nil]%elem_of_cons]; [|done]. apply ok_listed. left.
    + apply list_elem_of_singleton in H as [= ->]. apply refusal_listed; [left|by apply Ht].
  - destruct (token_route req) as [m|]; [|by apply elem_of_nil in H].
    assert (Hl : (if m then "token" else "tokens") ∈ ["sign"; "token"; "tokens"]) by (destruct m; set_solver).
    pose proof (tame_token_outcome mint fetch leaf now m req b) as Ht. destruct (token_outcome _ _ _ _ _ _ _ _ _).1 as [[caller gs]|r].
    + apply elem_of_cons in H as [[= ->]|H]; [by apply ok_listed|by apply grant_log_no_request in H].
    + apply list_elem_of_singleton in H as [= ->]. apply refusal_listed; [done|by apply Ht].
  - by apply elem_of_nil in H.
Qed.
End rules.

Lemma counted_in k log : counted k log <> 0%nat -> Request k ∈ log.
Proof.
  unfold counted. induction log as [|c log IH]; [done|]. cbn [List.filter]. destruct c as [k'|op took|minted].
  - destruct (bool_decide_reflect (k' = k)) as [->|Hne]; [intros _; left|intros H; right; by apply IH].
  - intros H. right. by apply IH.
  - intros H. right. by apply IH.
Qed.

(** C40: The broker's page counts what the broker did.  Through any sequence of
    requests and housekeeping, whatever time Vault took: the counts are those of
    the broker's own state; every request to one of its routes - granted,
    refused or malformed - was counted once, and no other was; and the page that
    is served under [/metrics], read back from its text, lists each combination
    of route, outcome and rule that occurred, once and in order, with the number
    of times it occurred (as a [u64]), and nothing else. *)
Theorem broker_page_counts {R : RegexLite} {X : X509Parser} {C : JwtCodec} {W : Wire} (cfg : BrokerConfig.Config) (policy : IdPolicy)
    (toml : string -> option Catalog) (took : broker_event -> nat -> Duration) (c : CatalogHandle) (file : option string)
    (es : list broker_event) :
  let b := foldl (broker_step cfg policy toml) (Broker_new cfg c file) es in
  let log := run_log cfg policy toml took (Broker_new cfg c file) es in
  let m := after_calls log in
  let answer := handle_metrics "/metrics" m b in
  counts m = b_metrics b /\
  length (List.filter is_request log) = length (List.filter is_api es) /\
  status answer = 200 /\
  exists ks,
    read_page (response_body answer) = (fun k => (k, wrap 64 (Z.of_nat (counted k log)))) <$> ks /\
    NoDup ks /\ StronglySorted key_le ks /\ (forall k, k ∈ ks <-> counted k log <> 0%nat).
Proof.
  cbn zeta. set (log := run_log _ _ _ _ _ _). split; [|split; [|split; [done|]]].
  - unfold after_calls. rewrite counts_calls. symmetry. apply run_log_counts.
  - apply run_log_requests.
  - pose proof (fun k => requests_after log Counters_default k) as Hr.
    assert (Hd : forall k, default 0 (c_requests (after_calls log) !! k) = wrap 64 (Z.of_nat (counted k log))).
    { intros k. unfold after_calls. rewrite Hr. cbn. rewrite lookup_empty. by destruct (counted k log). }
    assert (Hc : forall k, is_Some (c_requests (after_calls log) !! k) <-> counted k log <> 0%nat).
    { intros k. unfold after_calls. rewrite Hr. cbn. rewrite lookup_empty. destruct (counted k log) as [|n]; [by split; [intros [? [=]]|]|by split]. }
    exists (keys_in_order (dom (c_requests (after_calls log)))). split; [|split; [|split]].
    + cbn [handle_metrics String.eqb Ascii.eqb Bool.eqb response_body text]. rewrite read_rendered.
      * apply list_fmap_ext. intros _ k _. by rewrite Hd.
      * intros k Hk%Hc. eapply listed_plain, run_log_listed, counted_in, Hk.
      * intros k x Hx. specialize (Hd k). rewrite Hx in Hd. cbn in Hd. subst x. unfold wrap, u64_max. pose proof (Z.mod_pos_bound (Z.of_nat (counted k log)) (2 ^ 64) ltac:(lia)). lia.
    + unfold keys_in_order. rewrite merge_sort_Permutation. apply NoDup_elements.
    + apply (StronglySorted_merge_sort key_le).
    + intros k. unfold keys_in_order. rewrite merge_sort_Permutation, elem_of_elements, elem_of_dom. apply Hc.
Qed.

(** ** A broker that signed once and refused once *)

Module BrokerMetricsWitness.
Definition calls : list call :=
  [Request ("sign", "ok", ""); VaultCall "pki_sign" (mkDuration 0 250000000); Request ("sign", "refused", "I5");
   Request ("sign", "ok", ""); VaultCall "pki_sign" (mkDuration 1 0)].

Example the_page : page (render 3 (after_calls calls)) =
  join newline
    ["# TYPE svidlet_broker_requests_total counter";
     "svidlet_broker_requests_total" +:+ labels [("path", "sign"); ("outcome", "ok"); ("rule", "")] +:+ " 2";
     "svidlet_broker_requests_total" +:+ labels [("path", "sign"); ("outcome", "refused"); ("rule", "I5")] +:+ " 1";
     "# TYPE svidlet_broker_vault_seconds summary";
     "svidlet_broker_vault_seconds_count" +:+ labels [("op", "pki_sign")] +:+ " 2";
     "svidlet_broker_vault_seconds_sum" +:+ labels [("op", "pki_sign")] +:+ " 1.25";
     "# TYPE svidlet_broker_token_cache_total counter";
     "# TYPE svidlet_broker_token_cache_entries gauge";
     "svidlet_broker_token_cache_entries 3"; ""].
Proof. vm_compute. reflexivity. Qed.
End BrokerMetricsWitness.
