(* ===== verification/Startup.v ===== *)
(** * Starting the node plugin
    (svidlet/src/main.rs, server.rs, csi/identity.rs, csi/registration.rs)

    [main] reads the configuration, [run] builds the backend, primes the trust
    bundle, adopts what is on disk and only then binds the two sockets.  What
    the sockets answer besides publishing is here too.  [Process] has what
    happens from then on.

    Timeouts are handed to the transport and are not kept; a PEM reader that the
    TLS set-up uses is [Net]'s, or a parameter for Vault's. *)

From S2P Require Import Prelude RustStr Errors Template Certs Keys Issuer Jwt Tokens Server Client Vault.
From S2P Require Import Fs Volume NodeStore NodeConfig Host Recover Node Process Exposition.
Open Scope list_scope.
Open Scope Z_scope.

(** ** Sockets *)

(** Bytes in a [sockaddr_un]'s path, its final NUL included. *)
Definition SUN_PATH : nat := 108.

(** The entry of a socket in its directory: to the calls made here, a file with
    nothing in it. *)
Definition socket : Fs.node := File "" 493 None.

(** [UnixListener::bind] itself. *)
Definition listen (p : string) : io unit := syscall nothing (fun f =>
  if bool_decide (SUN_PATH <= String.length p)%nat then Err InvalidInput
  else match f !! components p with
       | Some _ => Err OtherIo
       | None => if bool_decide (components p = []) then Err OtherIo
                 else if is_dir f (parent (components p)) then Ok (tt, <[components p := socket]> f)
                 else Err NotFound
       end).

(** The directory, a stale socket, then the new one. *)
Definition bind (p : string) : io unit :=
  _ ← match components p with [] => mret tt | q => fs_create_dir_all (parent q) end;
  r ← attempt (fs_remove_file (components p));
  _ ← match r with
      | Ok _ => mret tt
      | Err NotFound => mret tt
      | Err e => io_fail e
      end;
  listen p.

(** ** What the kubelet asks of the sockets *)

Record PluginInfoResponse := mkPluginInfo { pi_name : string; pi_vendor_version : string; pi_manifest : gmap string string }.
Definition get_plugin_info (driver_name version : string) : PluginInfoResponse := mkPluginInfo driver_name version ∅.
Definition get_plugin_capabilities : list string := [].
(** [probe]: [ready] left unset. *)
Definition probe : result Grpc unit := Ok tt.

Record RegistrationInfo := mkRegistration {
  rg_type : string; rg_name : string; rg_endpoint : string; rg_versions : list string }.
Definition get_info (driver_name endpoint : string) : RegistrationInfo :=
  mkRegistration "CSIPlugin" driver_name endpoint ["1.0.0"].
(** [notify_registration_status]: only logged, whichever it is. *)
Definition notify_registration_status (registered : bool) (error : string) : result Grpc unit := Ok tt.

Definition node_get_capabilities : list string := [].
Definition node_get_info (cfg : NodeConfig.Config) : string * Z := (node_name cfg, 0).

(** ** The backend *)

Inductive StartError := BadConfig | NoCaFile | BadBackend | TaskPanicked | CannotBind (e : IoKind).

Inductive Backend :=
| ViaBroker (endpoint : BrokerEndpoint)
| ViaVault (endpoint : VaultEndpoint) (pki : VaultPkiConfig) (src : source).

Definition source_name (s : source) : string :=
  match s with
  | AppRoleAuth _ _ _ => "approle"
  | KubernetesAuth _ _ _ => "kubernetes"
  | JwtAuth _ _ _ => "jwt"
  | StaticTokenAuth _ => "token"
  end.
Definition backend_name (b : Backend) : string := match b with ViaBroker _ => "broker" | ViaVault _ _ _ => "vault" end.
Definition backend_auth_name (b : Backend) : string :=
  match b with ViaBroker _ => "node-token" | ViaVault _ _ src => source_name src end.

(** The machine the process starts on. *)
Record Machine := mkMachine {
  mc_files : string -> option string;
  mc_sockets : world;
  mc_host : host;
  mc_now : Z;
  mc_found : list Discovered;
  mc_seed : Z;
}.

Section startup.
Context {R : RegexLite} {X : X509Parser} {W : Wire} {N : Net} {VW : VaultWire}.
(** [Certificate::from_pem] of the HTTP client Vault is called with. *)
Context (vault_pem_ok : string -> bool).

Definition build_broker (cfg : NodeConfig.Config) (files : string -> option string) : result StartError (option BrokerEndpoint) :=
  match broker cfg with
  | None => Ok None
  | Some b =>
      ca_cert_pem ← ok_or NoCaFile (files (broker_ca_cert_path b));
      let endpoint := mkEndpoint (NodeConfig.sign_url b) (NodeConfig.token_url b) ca_cert_pem (NodeConfig.node_token_path b) in
      _ ← map_err (fun _ => BadBackend) (BrokerClient_new endpoint);
      Ok (Some endpoint)
  end.

(** [VaultHttp::new], as far as it can fail. *)
Definition VaultHttp_new (ca_cert_pem : option string) : result StartError unit :=
  guard_err (match ca_cert_pem with Some pem => negb (vault_pem_ok pem) | None => false end) BadBackend.

Definition source_of (a : AuthSettings) : source :=
  match a with
  | AppRole mount role_id secret_id_path => AppRoleAuth mount role_id secret_id_path
  | Kubernetes mount role token_path => KubernetesAuth mount role token_path
  | NodeConfig.Token path => StaticTokenAuth path
  end.

Definition build_issuer (cfg : NodeConfig.Config) (files : string -> option string) : result StartError Backend :=
  let v := vault cfg in
  ca_cert_pem ← match v_ca_cert_path v with
                | Some path => Some <$> ok_or NoCaFile (files path)
                | None => Ok None
                end;
  _ ← VaultHttp_new ca_cert_pem;
  Ok (ViaVault (mkVaultEndpoint (v_address v) (NodeConfig.v_namespace v)) (mkPki (v_pki_mount v) (v_pki_role v))
        (source_of (v_auth v))).

Definition choose_backend (cfg : NodeConfig.Config) (files : string -> option string) : result StartError Backend :=
  b ← build_broker cfg files;
  match b with Some endpoint => Ok (ViaBroker endpoint) | None => build_issuer cfg files end.

(** The backend at work, with what the files, the network and Vault's client
    hold at that moment. *)
Definition issuer_of {Nt : Net} (read : string -> option string) (env : Env) (st : vstate) (b : Backend) : Issuer :=
  match b with
  | ViaBroker endpoint => BrokerIssuer (N := Nt) endpoint read
  | ViaVault endpoint pki src => VaultIssuer env endpoint pki src st
  end.
#[export] Instance issuer_of_sound {Nt : Net} read env st b : IssuerSound (issuer_of (Nt := Nt) read env st b).
Proof. destruct b; apply _. Qed.

(** The same backend at any moment of the process's life, whatever the network
    is like then. *)
Definition at_work (b : Backend) (V : Issuer) : Prop :=
  exists Nt read env st, V = issuer_of (Nt := Nt) read env st b.

(** [Publisher::with_broker]: tokens come from the broker only. *)
Definition tokens_of (b : Backend) : option (string -> string -> result Error (list (string * string))) :=
  match b with
  | ViaBroker endpoint =>
      Some (fun cert_chain_pem key_pem =>
        grants ← Client.fetch_tokens endpoint cert_chain_pem key_pem;
        Ok (List.map (fun g => (tg_alias g, tg_token g)) grants))
  | ViaVault _ _ _ => None
  end.

(** ** run *)

Record Serving := mkServing {
  sv_cfg : NodeConfig.Config;
  sv_policy : IdPolicy;
  sv_backend : Backend;
  sv_node : Node.node;
  sv_metrics : NodeMetrics;
}.

Definition prepare (cfg : NodeConfig.Config) (files : string -> option string) : result StartError (IdPolicy * Backend) :=
  policy ← map_err (fun _ => BadConfig) (Config_id_policy cfg);
  backend ← choose_backend cfg files;
  Ok (policy, backend).

Definition serve (cfg : NodeConfig.Config) : io unit :=
  _ ← bind (csi_socket cfg);
  bind (registration_socket cfg).

(** What a start leaves on the machine: the socket directories, and the host,
    whose farm the adoption adds to; of a pass that panics the host is not kept. *)
Record Left := mkLeft { lf_sockets : world; lf_host : option host }.

Definition run (cfg : NodeConfig.Config) (env : Env) (mc : Machine) : result StartError Serving * Left :=
  match prepare cfg (mc_files mc) with
  | Err e => (Err e, mkLeft (mc_sockets mc) (Some (mc_host mc)))
  | Ok (policy, backend) =>
      let metrics := set_backend (backend_name backend) (backend_auth_name backend) Metrics_default in
      let V := issuer_of (mc_files mc) env (mkV [] 0 None) backend in
      match start_up cfg policy V (mc_now mc) (mc_found mc) (mc_host mc) (mc_seed mc) with
      | None => (Err TaskPanicked, mkLeft (mc_sockets mc) None)
      | Some n =>
          let '(r, w) := serve cfg (mc_sockets mc) in
          (match r with
           | Err e => Err (CannotBind e)
           | Ok _ => Ok (mkServing cfg policy backend n metrics)
           end, mkLeft w (Some (n_host n)))
      end
  end.

Definition main (get : string -> option string) (env : Env) (mc : Machine) : result StartError Serving * Left :=
  match Config_from_source get with
  | Err _ => (Err BadConfig, mkLeft (mc_sockets mc) (Some (mc_host mc)))
  | Ok cfg => run cfg env mc
  end.

(** ** What binding a socket does *)

Lemma io_bind_run {A B : Type} (m : io A) (k : A -> io B) w r w' :
  (m ≫= k) w = (r, w') ->
  exists r1 w1, m w = (r1, w1) /\ match r1 with Ok a => k a w1 = (r, w') | Err e => r = Err e /\ w' = w1 end.
Proof.
  unfold mbind, io_bind. destruct (m w) as [[a|e] w1]; intros E; eexists _, _; (split; [reflexivity|]); [done|].
  by injection E as <- <-.
Qed.

Lemma listen_Ok p w u w' : listen p w = (Ok u, w') -> wfs w' !! components p = Some socket.
Proof.
  unfold listen, syscall. intros E.
  destruct (wfaults w) as [|[ft|] rest]; [|by injection E|];
    (case_bool_decide; [by injection E|]; destruct (wfs w !! components p); [by injection E|];
     case_bool_decide; [by injection E|]; destruct (is_dir _ _); [|by injection E];
     injection E as _ <-; cbn; apply lookup_insert_eq).
Qed.

Lemma bind_Ok_socket p w u w' : bind p w = (Ok u, w') -> wfs w' !! components p = Some socket.
Proof.
  unfold bind. intros (r1 & w1 & _ & H)%io_bind_run. destruct r1; [|by destruct H].
  apply io_bind_run in H as (r2 & w2 & _ & H). destruct r2 as [r2|]; [|by destruct H].
  apply io_bind_run in H as (r3 & w3 & _ & H). destruct r3; [|by destruct H]. by apply listen_Ok in H.
Qed.

(** Its footprint: the path and the directories on the way to it. *)
Definition on_the_way (p q : path) : Prop := q `prefix_of` p.

Lemma only_listen p : only (on_the_way (components p)) (listen p).
Proof.
  apply only_syscall; [done|]. intros f a f' H. repeat case_match; simplify_eq. apply agree_insert. by red.
Qed.
Lemma prefix_of_parent (p q : path) : q `prefix_of` parent p -> q `prefix_of` p.
Proof.
  intros H. destruct p as [|x p] using rev_ind; [done|]. rewrite parent_snoc in H. etrans; [exact H|by eexists].
Qed.
Lemma only_bind p : only (on_the_way (components p)) (bind p).
Proof.
  intros f0. apply keeps_bind.
  { destruct (components p) as [|x q] eqn:E; [apply keeps_ret|].
    apply only_create_dir_all_go. intros a b Hab _. apply prefix_of_parent. cbn [app]. rewrite Hab. by exists b. }
  intros _. apply keeps_bind; [apply keeps_attempt, only_remove_file; by red|]. intros r.
  apply keeps_bind; [destruct r as [[]|[]]; cbn iota; auto with fs|]. intros _. apply only_listen.
Qed.

Lemma serve_run cfg w r w' :
  serve cfg w = (r, w') ->
  (forall q, ~ on_the_way (components (csi_socket cfg)) q -> ~ on_the_way (components (registration_socket cfg)) q ->
     wfs w' !! q = wfs w !! q) /\
  (r = Ok tt -> wfs w' !! components (registration_socket cfg) = Some socket /\
     (~ on_the_way (components (registration_socket cfg)) (components (csi_socket cfg)) ->
      wfs w' !! components (csi_socket cfg) = Some socket)).
Proof.
  intros (r1 & w1 & E1 & H)%io_bind_run.
  destruct (only_bind (csi_socket cfg) (wfs w) w r1 w1 (agree_refl _ _) Logic.I E1) as (_ & A1 & _).
  destruct r1 as [u|e].
  - destruct (only_bind (registration_socket cfg) (wfs w1) w1 r w' (agree_refl _ _) Logic.I H) as (_ & A2 & _).
    split.
    + intros q H1 H2. by rewrite (A2 q H2), (A1 q H1).
    + intros ->. apply bind_Ok_socket in H as Hr, E1. split; [done|]. intros Hn. by rewrite (A2 _ Hn).
  - destruct H as [-> ->]. split; [|done]. intros q H1 _. by apply A1.
Qed.

(** ** What a process that serves is *)

Lemma run_cases cfg env mc r left :
  run cfg env mc = (r, left) ->
  (exists e, r = Err e /\ left = mkLeft (mc_sockets mc) (Some (mc_host mc))) \/
  exists policy backend, prepare cfg (mc_files mc) = Ok (policy, backend) /\
    match start_up cfg policy (issuer_of (mc_files mc) env (mkV [] 0 None) backend) (mc_now mc) (mc_found mc) (mc_host mc) (mc_seed mc) with
    | None => r = Err TaskPanicked /\ left = mkLeft (mc_sockets mc) None
    | Some n => exists rs w, serve cfg (mc_sockets mc) = (rs, w) /\ left = mkLeft w (Some (n_host n)) /\
        r = match rs with
            | Ok _ => Ok (mkServing cfg policy backend n (set_backend (backend_name backend) (backend_auth_name backend) Metrics_default))
            | Err e => Err (CannotBind e)
            end
    end.
Proof.
  unfold run. destruct (prepare cfg (mc_files mc)) as [[policy backend]|e]; [|intros [= <- <-]; left; by exists e].
  intros E. right. exists policy, backend. split; [done|]. destruct (start_up _ _ _ _ _ _ _) as [n|]; [|by injection E as <- <-].
  destruct (serve cfg (mc_sockets mc)) as [rs w]. injection E as <- <-. by exists rs, w.
Qed.

Lemma choose_backend_Ok cfg files b :
  choose_backend cfg files = Ok b ->
  match broker cfg with
  | Some s => exists endpoint, b = ViaBroker endpoint /\ Client.sign_url endpoint = NodeConfig.sign_url s /\
      files (broker_ca_cert_path s) = Some (be_ca_cert_pem endpoint) /\
      exists roots, BrokerClient_new endpoint = Ok roots
  | None => exists endpoint pki, b = ViaVault endpoint pki (source_of (v_auth (vault cfg))) /\ address endpoint = v_address (vault cfg)
  end.
Proof.
  unfold choose_backend, build_broker. destruct (broker cfg) as [s|].
  - intros (o & (pem & Hp%ok_or_Ok & (roots & Hr%map_err_Ok & [= <-])%bind_Ok)%bind_Ok & [= <-])%bind_Ok. eexists. split; [done|]. eauto.
  - intros (o & [= <-] & H)%bind_Ok. unfold build_issuer in H. apply bind_Ok in H as (pem & _ & (? & _ & [= <-])%bind_Ok).
    eexists _, _. by split.
Qed.

(** The state of a process over its whole life, as [Process] has it. *)
Definition healthy (umask : Z) (keygen : nat -> SpiffeId -> result Error KeyAndCsr) (json_value : string -> option Json)
    (mc : Machine) (s : Serving) : Prop :=
  forall es, Forall (permitted (sv_cfg s) json_value (at_work (sv_backend s)) (fun _ => True)) es ->
    exists n, Process.run umask keygen (tokens_of (sv_backend s)) (sv_cfg s) (sv_policy s) json_value (sv_node s) es = Some n /\
      process_ok keygen (sv_cfg s) (sv_policy s) (at_work (sv_backend s)) (fun _ => True) (mc_host mc) n.

(** C8: What a start comes to.  A process that serves has the identity policy and
    the backend its configuration names - the broker if and only if one is
    configured, with the certificate authority of the file, else Vault with the
    configured login - reports them, has both its sockets, fresh, has on its
    renewal list nothing but volumes it found, and, when no call on the host
    fails, every one of them whose certificate can be read and belongs to this
    node, with that certificate's identity and window, and stays in order through whatever is asked of it later.  One
    that does not serve left every socket and the host as they were, unless what
    failed was the binding itself: then no path but those of the two sockets and
    the directories above them was touched, and of the host, where the adoption
    had already run, every target and every file is as it was - only bind mounts
    in the farm may be new. *)
Theorem startup_sound (umask : Z) (keygen : nat -> SpiffeId -> result Error KeyAndCsr) (json_value : string -> option Json)
    (get : string -> option string) (env : Env) (mc : Machine) (r : result StartError Serving) (left : Left) :
  all_volumes_ok (mc_host mc) -> Forall whole (hfaults (mc_host mc)) -> in_range (mc_now mc) ->
  (forall cfg, Config_from_source get = Ok cfg -> durations_ok cfg) ->
  main get env mc = (r, left) ->
  match r with
  | Ok s =>
      Config_from_source get = Ok (sv_cfg s) /\ Config_id_policy (sv_cfg s) = Ok (sv_policy s) /\
      match broker (sv_cfg s) with
      | Some b => exists endpoint, sv_backend s = ViaBroker endpoint /\ Client.sign_url endpoint = NodeConfig.sign_url b /\
          mc_files mc (broker_ca_cert_path b) = Some (be_ca_cert_pem endpoint)
      | None => exists endpoint pki, sv_backend s = ViaVault endpoint pki (source_of (v_auth (vault (sv_cfg s)))) /\
          address endpoint = v_address (vault (sv_cfg s)) /\ tokens_of (sv_backend s) = None
      end /\
      Exposition.backend (sv_metrics s) = Some (backend_name (sv_backend s), backend_auth_name (sv_backend s)) /\
      wfs (lf_sockets left) !! components (registration_socket (sv_cfg s)) = Some socket /\
      (~ on_the_way (components (registration_socket (sv_cfg s))) (components (csi_socket (sv_cfg s))) ->
       wfs (lf_sockets left) !! components (csi_socket (sv_cfg s)) = Some socket) /\
      lf_host left = Some (n_host (sv_node s)) /\
      resumed (sv_cfg s) (sv_policy s) (mc_now mc) (mc_found mc) (mc_host mc) (sv_node s) /\
      healthy umask keygen json_value mc s
  | Err e => left = mkLeft (mc_sockets mc) (Some (mc_host mc)) \/
      exists cfg e' h, Config_from_source get = Ok cfg /\ e = CannotBind e' /\ lf_host left = Some h /\ spared (mc_host mc) h /\
        forall q, ~ on_the_way (components (csi_socket cfg)) q -> ~ on_the_way (components (registration_socket cfg)) q ->
          wfs (lf_sockets left) !! q = wfs (mc_sockets mc) !! q
  end.
Proof.
  intros Hv Hf Hn Hsp. unfold main. destruct (Config_from_source get) as [cfg|] eqn:Ec; [|intros [= <- <-]; by left].
  specialize (Hsp cfg eq_refl). intros [(e & -> & ->)|(policy & backend & Hp & Hs)]%run_cases; [by left|].
  unfold prepare in Hp. apply bind_Ok in Hp as (pol & Hpol%map_err_Ok & (b & Hb%choose_backend_Ok & [= <- <-])%bind_Ok).
  destruct (start_process keygen cfg pol (at_work b) (fun _ => True) (issuer_of (mc_files mc) env (mkV [] 0 None) b) (mc_now mc)
    (mc_found mc) (mc_host mc) (mc_seed mc) Hv Hf Hn Hsp) as (n & E & H0).
  rewrite E in Hs. pose proof (start_resumes _ _ _ _ _ _ _ _ Hn Hsp E) as Hr. destruct Hs as (rs & w & Hw & -> & ->).
  destruct (serve_run _ _ _ _ Hw) as [Hq Hok]. destruct rs as [[]|e].
  - destruct (Hok eq_refl) as [Hreg Hcsi]. cbn [sv_cfg sv_policy sv_backend sv_node sv_metrics lf_sockets lf_host].
    do 2 (split; [done|]). split; [|split_and!; try done].
    + destruct (broker cfg); [destruct Hb as (ep & -> & ? & ? & _); by exists ep|destruct Hb as (ep & pki & -> & ?); by exists ep, pki].
    + intros es Hes. eapply run_process; eauto.
  - right. exists cfg, e, (n_host n). do 3 (split; [done|]). split; [apply Hr|exact Hq].
Qed.

(** C27: A backend that is down never keeps the plugin from starting: whatever the
    network and Vault answer while it starts, a process whose settings are
    right and whose sockets can be bound serves, and, when no call on the host
    fails, every volume found on the node with a certificate that can be read
    and belongs there is on the renewal list of that process, nothing having
    been asked of the backend for it. *)
Theorem startup_survives_outage (get : string -> option string) (cfg : NodeConfig.Config) (policy : IdPolicy) (backend : Backend)
    (env : Env) (mc : Machine) (w : world) :
  all_volumes_ok (mc_host mc) -> Forall whole (hfaults (mc_host mc)) -> in_range (mc_now mc) ->
  Config_from_source get = Ok cfg -> durations_ok cfg ->
  prepare cfg (mc_files mc) = Ok (policy, backend) -> serve cfg (mc_sockets mc) = (Ok tt, w) ->
  exists s, main get env mc = (Ok s, mkLeft w (Some (n_host (sv_node s)))) /\ sv_backend s = backend /\
    resumed cfg policy (mc_now mc) (mc_found mc) (mc_host mc) (sv_node s).
Proof.
  intros Hv Hf Hn Hc Hsp Hp Hw. unfold main. rewrite Hc. unfold run. rewrite Hp.
  destruct (start_process (fun _ _ => Err Crypto) cfg policy (at_work backend) (fun _ => True) (issuer_of (mc_files mc) env (mkV [] 0 None) backend)
    (mc_now mc) (mc_found mc) (mc_host mc) (mc_seed mc) Hv Hf Hn Hsp) as (n & E & _).
  rewrite E, Hw. eexists (mkServing cfg policy backend n _). split; [reflexivity|]. split; [done|]. by eapply start_resumes.
Qed.
End startup.

(** ** Witnesses: a node that starts while its broker is down *)

Module StartupWitness.
#[local] Existing Instance MiniRegex.engine.
#[local] Existing Instance NodeWitness.parser.
#[local] Existing Instance BitWire.wire.

#[local] Instance down : Net := {|
  exchange := fun _ _ => None;
  pem_certificates := fun pem => Some [pem];
  pem_private_key := fun pem => Some pem |}.
#[local] Instance vault_wire : VaultWire := {|
  dec_auth := fun _ => None; dec_sign := fun _ => None; dec_mint := fun _ => None |}.
Definition env : Env := mkEnv (fun _ _ => None) (fun _ _ => None) (fun n => Z.of_nat n).

(** The node was restarted with one volume mounted. *)
Definition machine : Machine :=
  mkMachine (fun _ => Some "CA") (mkWorld ∅ [] []) (n_host NodeWitness.running) 100 NodeWitness.found 7.
Definition started : result StartError Serving * Left := main (fun _ => true) sample_env env machine.

Example it_serves :
  option_map (fun s => size (n_store (sv_node s))) (match started.1 with Ok s => Some s | Err _ => None end) = Some 1%nat /\
  option_map (fun s => (backend_name (sv_backend s), backend_auth_name (sv_backend s))) (match started.1 with Ok s => Some s | Err _ => None end)
    = Some ("broker", "node-token") /\
  wfs (lf_sockets started.2) !! components (csi_socket sample_config) = Some socket /\
  wfs (lf_sockets started.2) !! components (registration_socket sample_config) = Some socket.
Proof. vm_compute. done. Qed.

(** Without the file of the broker's authority it exits, and binds nothing. *)
Example it_exits :
  main (fun _ => true) sample_env env (mkMachine (fun _ => None) (mkWorld ∅ [] []) (n_host NodeWitness.start) 100 [] 7)
    = (Err NoCaFile, mkLeft (mkWorld ∅ [] []) (Some (n_host NodeWitness.start))).
Proof. vm_compute. reflexivity. Qed.

Lemma sample_read : Config_from_source sample_env = Ok sample_config.
Proof. vm_compute. reflexivity. Qed.
Lemma sample_durations cfg : Config_from_source sample_env = Ok cfg -> durations_ok cfg.
Proof.
  rewrite sample_read. intros [= <-]. split.
  - rewrite <- Z.leb_le, <- Z.ltb_lt. split; vm_compute; reflexivity.
  - rewrite <- Z.leb_le, <- Z.ltb_lt. split; vm_compute; reflexivity.
  - intros b Hb. rewrite <- !Z.leb_le.
    assert (E : (fun b => (0 <=? jwt_refresh_interval b) && (jwt_refresh_interval b <=? 2 ^ 52)) <$> broker sample_config = Some true)
      by (vm_compute; reflexivity).
    rewrite Hb in E. injection E as E. by apply andb_true_iff in E.
Qed.
Definition is_ok {E A : Type} (r : result E A) : bool := match r with Ok _ => true | Err _ => false end.
Definition prepared : result StartError (IdPolicy * Backend) := prepare (fun _ => true) sample_config (mc_files machine).
Lemma machine_starts :
  is_ok started.1 && is_ok (serve sample_config (mc_sockets machine)).1 &&
    match prepared with Ok (_, b) => String.eqb (backend_name b) "broker" | Err _ => false end = true.
Proof. vm_compute. reflexivity. Qed.

Lemma machine_clock : in_range (mc_now machine).
Proof. unfold in_range. cbn. lia. Qed.

(** The volume on that machine can be taken over. *)
Definition facts : CertFacts := mkFacts NodeWitness.id 100 200.
Lemma volume_belongs :
  match Config_id_policy sample_config with
  | Ok policy =>
      match identity_belongs_here policy (SpiffeId_as_str (f_spiffe_id facts)) (trust_domain sample_config)
              (cluster sample_config) (node_name sample_config) with
      | Ok _ => true
      | Err _ => false
      end
  | Err _ => false
  end = true.
Proof. vm_compute. reflexivity. Qed.
Lemma volume_adoptable policy : Config_id_policy sample_config = Ok policy -> adoptable sample_config policy (mc_host machine) (mkDiscovered "csi-1" NodeWitness.t "u-pod") facts.
Proof.
  intros E. exists (mkDir 0 (Some 1%nat)), "chain". eexists. split; [reflexivity|]. split; [vm_compute; reflexivity|].
  split; [reflexivity|]. pose proof volume_belongs as H. rewrite E in H.
  destruct (identity_belongs_here _ _ _ _ _) as [[]|]; [reflexivity|discriminate H].
Qed.

Lemma startup_sound_witness :
  match started.1 with
  | Ok s => looked_after (sv_node s) (mkDiscovered "csi-1" NodeWitness.t "u-pod") facts /\
      healthy 18 NodeWitness.keygen NodeWitness.json machine s
  | Err _ => False
  end.
Proof.
  pose proof machine_starts as H. destruct started as [[s|e] w] eqn:E; [clear H|discriminate H].
  destruct (startup_sound (fun _ => true) 18 NodeWitness.keygen NodeWitness.json sample_env env machine (Ok s) w
    NodeWitness.running_ok (List.Forall_nil _) machine_clock sample_durations E) as (Hc & Hp & _ & Hm & _ & _ & _ & [Hr _ _ _] & Hh).
  split; [|exact Hh]. rewrite sample_read in Hc. injection Hc as Hc. rewrite <- Hc in Hp, Hr.
  apply (Hr eq_refl); [left|exact (volume_adoptable _ Hp)].
Defined.

Lemma startup_survives_outage_witness :
  exists s w, started = (Ok s, w) /\ backend_name (sv_backend s) = "broker" /\
    looked_after (sv_node s) (mkDiscovered "csi-1" NodeWitness.t "u-pod") facts.
Proof.
  pose proof machine_starts as [[_ Hs]%andb_true_iff Hb]%andb_true_iff.
  destruct prepared as [[policy b]|] eqn:Ep; [|discriminate Hb].
  destruct (serve sample_config (mc_sockets machine)) as [[[]|] w] eqn:Es; [|discriminate Hs].
  destruct (startup_survives_outage (fun _ => true) sample_env sample_config policy b env machine w NodeWitness.running_ok
    (List.Forall_nil _) machine_clock sample_read (sample_durations _ sample_read) Ep Es) as (s & E & Hsb & [Hr _ _ _]).
  exists s, (mkLeft w (Some (n_host (sv_node s)))). split; [exact E|]. split; [rewrite Hsb; by apply String.eqb_eq|].
  apply (Hr eq_refl); [left|apply volume_adoptable]. unfold prepared, prepare in Ep.
  by apply bind_Ok in Ep as (pol & ?%map_err_Ok & (b' & _ & [= <- _])%bind_Ok).
Defined.
End StartupWitness.
