(* ===== verification/System.v ===== *)
(** * The system  (svidlet and svidlet-broker together)

    The node of [Node], whose PKI backend is the broker client of [Client],
    talking to the broker of [Server], whose backend is any sound [Issuer] -
    [Vault]'s, for one.  What a pod is given is followed from the kubelet's
    request to the files in its volume. *)

From S2P Require Import Prelude RustStr Errors Template Catalog Limit BrokerConfig BrokerCatalog.
From S2P Require Import Certs Keys Kube Issuer Sign Jwt Tokens Server Client.
From S2P Require Import Fs Volume NodeStore NodeConfig Host Recover Node Process.
Open Scope list_scope.
Open Scope Z_scope.

Section system.
Context {R : RegexLite} {X : X509Parser} {C : JwtCodec} {W : Wire} `{!WireSpec W}.

(** The broker, its backend, and the API server behind it. *)
Context (bcfg : BrokerConfig.Config) (bpolicy : IdPolicy) (Kn Kp : Kube) (V : Issuer) `{!IssuerSound V}.
Context (now : Z) (b : Server.Broker).
(** The node's client. *)
Context (endpoint : BrokerEndpoint) (read : string -> option string).
Context (pem : string -> option (list string)) (pem_key : string -> option string).
(** The node. *)
Context (umask : Z) (keygen : nat -> SpiffeId -> result Error KeyAndCsr).
Context (tokens_of : option (string -> string -> result Error (list (string * string)))).
Context (cfg : NodeConfig.Config) (policy : IdPolicy) (json_value : string -> option Json).

Definition backend : Issuer := BrokerIssuer (N := net bcfg bpolicy Kn Kp V now b endpoint pem pem_key) endpoint read.

(** Everything that must hold of the pod and the node behind a certificate. *)
Record vouched (nt token : string) (attrs : WorkloadAttributes) (id : SpiffeId) : Prop := {
  vo_facts : exists node pod,
    node_attested bcfg Kn nt node /\ pod_attested bcfg Kp token node pod /\
    admitted bcfg (Handle_current (b_catalog b)) pod /\
    IdPolicy_render bpolicy (attested_attrs bcfg node pod) = Ok id /\
    (get attrs Namespace = "" \/ get attrs Namespace = p_namespace pod) /\
    (get attrs ServiceAccount = "" \/ get attrs ServiceAccount = p_service_account pod) /\
    (get attrs PodName = "" \/ get attrs PodName = p_name pod) /\
    (get attrs PodUid = "" \/ get attrs PodUid = p_uid pod);
}.

End system.

(** ** A node process and its broker, over time *)

Section fleet.
Context {R : RegexLite} {X : X509Parser} {C : JwtCodec} {W : Wire} `{!WireSpec W}.
Context (bcfg : BrokerConfig.Config) (bpolicy : IdPolicy).
Context (endpoint : BrokerEndpoint).
Context (pem : string -> option (list string)) (pem_key : string -> option string).
Context {G : Rcgen} `{!RcgenSpec X} (umask : Z).
Context (tokens_of : option (string -> string -> result Error (list (string * string)))).
Context (cfg : NodeConfig.Config) (policy : IdPolicy) (json_value : string -> option Json).

(** A moment: the API server as the broker's two clients see it, Vault, the
    clock, the broker's own state and the node's token file, any of which may
    have changed since the last. *)
Record moment := mkMoment {
  mo_nodes : Kube;
  mo_pods : Kube;
  mo_vault : Issuer;
  mo_now : Z;
  mo_broker : Server.Broker;
  mo_read : string -> option string;
}.
Definition at_moment (m : moment) : Issuer :=
  backend bcfg bpolicy (mo_nodes m) (mo_pods m) (mo_vault m) (mo_now m) (mo_broker m) endpoint (mo_read m) pem pem_key.

(** The events of a node's life, with the moment at which the backend is asked. *)
Inductive fleet_event :=
| FPublish (m : moment) (mono : Z) (acts : list (host -> host)) (req : PublishRequest)
| FUnpublish (volume_id target_path : string)
| FRenewDue (m : moment) (now : Z) (clock : list Z)
| FRefreshTokens
| FRefreshCa (m : moment)
| FReapOrphans
| FAdopt (now : Z) (found : list Discovered)
| FOthers (act : host -> host).
Definition to_event (e : fleet_event) : event :=
  match e with
  | FPublish m mono acts req => Publish (at_moment m) mono acts req
  | FUnpublish v t => Unpublish v t
  | FRenewDue m now clock => RenewDue (at_moment m) now clock
  | FRefreshTokens => RefreshTokens
  | FRefreshCa m => RefreshCa (at_moment m)
  | FReapOrphans => ReapOrphans
  | FAdopt now found => Adopt now found
  | FOthers act => Others act
  end.
(** The moment of an event that may have something signed. *)
Definition signing_moment (e : fleet_event) : option moment :=
  match e with FPublish m _ _ _ | FRenewDue m _ _ => Some m | _ => None end.
Definition fleet_permitted (e : fleet_event) : Prop :=
  match e with
  | FPublish m mono acts req => IssuerSound (mo_vault m) /\ in_range mono /\ Forall considerate acts
  | FRenewDue m now clock => IssuerSound (mo_vault m) /\ Forall in_range clock
  | FAdopt now _ => in_range now
  | FOthers act => considerate act
  | _ => True
  end.

(** The kubelet sent this pod token in a call of the run. *)
Definition sent (es : list fleet_event) (token : string) : Prop :=
  exists m mono acts req, FPublish m mono acts req ∈ es /\ kubelet_token cfg json_value (pr_context req) = Some token.

(** A certificate of this run: at one of its events, with the node's own token
    as its file held it then and with a pod token the kubelet had sent, the
    broker of that moment authorised the ID for the CSR against the API server
    and the catalog of that moment, and the Vault of that moment signed it. *)
Definition attested (es : list fleet_event) (id : SpiffeId) (csr cert : string) : Prop :=
  exists e m nt token body node pod v, e ∈ es /\ signing_moment e = Some m /\
    node_token endpoint (mo_read m) = Ok nt /\ sent es token /\ Sign.pod_token body = token /\ Sign.csr body = csr /\
    authorized bcfg bpolicy (Handle_current (b_catalog (mo_broker m))) (mo_nodes m) (mo_pods m) nt body node pod id /\
    issuer_sign (Issuer := mo_vault m) (Sign.sign_request bcfg node id csr) = Ok v /\ Certs.cert_chain_pem v = cert.

(** The backend of one of the events. *)
Definition brokered (es : list fleet_event) (V : Issuer) : Prop :=
  exists e m, e ∈ es /\ signing_moment e = Some m /\ IssuerSound (mo_vault m) /\ V = at_moment m.

Lemma brokered_attested es id csr cert : signed_by_backend (brokered es) (sent es) id csr cert -> attested es id csr cert.
Proof.
  intros (V & req & b & (e & m & He & Hm & HV & ->) & Hs & <- & <- & <- & Ht).
  destruct (client_broker_run _ _ _ _ _ _ _ _ _ _ _ _ _ Hs)
    as (pc & token & nt & node & pod & Hpc & Htok & Hn & Ha & v & Hv & Hc & _).
  rewrite Hpc in Ht. cbn in Ht. rewrite Htok in Ht.
  exists e, m, nt, token, (sign_body req pc token), node, pod, v. rewrite Hc. split_and!; try done. by apply Ht.
Qed.

Lemma fleet_permitted_all es :
  Forall fleet_permitted es -> Forall (permitted cfg json_value (brokered es) (sent es)) (to_event <$> es).
Proof.
  intros H. apply Forall_fmap, Forall_forall. intros e He. pose proof (proj1 (Forall_forall _ _) H e He) as Hp.
  assert (HB : forall m, signing_moment e = Some m -> IssuerSound (mo_vault m) -> brokered es (at_moment m)).
  { intros m Hm HV. by exists e, m. }
  assert (HS : forall m, IssuerSound (mo_vault m) -> IssuerSound (at_moment m)) by (intros m HV; apply BrokerIssuer_sound).
  destruct e as [m mono acts req|v t|m now clock| |m| |now found|act]; cbn in *; try done.
  - destruct Hp as (HV & Hm & Ha). split_and!; try done; auto. intros s Hs. by exists m, mono, acts, req.
  - destruct Hp as (HV & Hc). split_and!; try done; auto.
Qed.

(** What a volume may show: nothing, what was there when the process started,
    or a key of this process with an attested certificate for it. *)
Definition vetted (es : list fleet_event) (h0 : host) (keys : nat) (k : nat) (v : seen) : Prop :=
  v = (None, None, None) \/
  (exists key cert ca ca', seen_identity (tree h0 k) = (key, cert, ca) /\ v = (key, cert, ca')) \/
  (exists j id g cert ca, (j < keys)%nat /\ Keys.generate j id = Ok g /\ ours cfg policy id /\
     v = (Some (kc_key_pem g), Some cert, Some ca) /\ leaf_public_key cert = Ok (kc_public_key g) /\
     asks_for (kc_csr_pem g) (kc_public_key g) [URI (SpiffeId_as_str id)] /\ attested es id (kc_csr_pem g) cert).

Lemma accounted_vetted es h0 keys k v :
  accounted Keys.generate cfg policy (brokered es) (sent es) h0 keys k v -> vetted es h0 keys k v.
Proof.
  intros [H|[H|(j & id & g & cert & ca & nb & na & Hj & Hg & Ho & Hv & Hl & _ & Hs)]]; [by left|by right; left|].
  right; right. exists j, id, g, cert, ca. do 5 (split; [done|]).
  split; [by eapply generated_asks|by apply brokered_attested].
Qed.

(** C4: A node behind a broker, over its whole life: from start-up through any
    sequence of kubelet calls and background passes, with faults of the host on
    the way (a removal that fails having removed nothing) and the API server,
    Vault and the broker changing between any two of them, every volume shows
    nothing, or the identity it held when the process started, or a key this
    process generated with a certificate for exactly that key.  Such a
    certificate was signed at one of the run's own publishes or renewals: the
    CSR, that key's, named one SPIFFE ID and nothing else; the pod token was one
    the kubelet had sent; and the broker as it was at that event had rendered
    that ID itself, having attested with the API server of that event the node
    by the token in its file and a pod on that node, alive and admitted by the
    catalog then in force, before the Vault of that event signed it. *)
Theorem node_serves_attested_only (V0 : Issuer) (now : Z) (found : list Discovered) (h : host) (seed : Z) (es : list fleet_event) :
  all_volumes_ok h -> Forall whole (hfaults h) -> in_range now -> durations_ok cfg -> Forall fleet_permitted es ->
  exists n0 n, start_up cfg policy V0 now found h seed = Some n0 /\
    Process.run umask Keys.generate tokens_of cfg policy json_value n0 (to_event <$> es) = Some n /\
    forall k, vetted es h (n_keys n) k (seen_identity (tree (n_host n) k)).
Proof.
  intros Hv Hf Hnow Hsp Hes.
  destruct (start_process Keys.generate cfg policy (brokered es) (sent es) V0 now found h seed Hv Hf Hnow Hsp) as (n0 & E0 & H0).
  destruct (run_process umask Keys.generate tokens_of cfg policy json_value (brokered es) (sent es) h n0 (to_event <$> es) H0 Hsp
    (fleet_permitted_all es Hes)) as (n & E & [[[_ Hq] _] _ _]).
  exists n0, n. do 2 (split; [done|]). intros k. apply accounted_vetted, Hq.
Qed.
End fleet.

Module SystemWitness.
#[local] Existing Instance MiniRegex.engine.
#[local] Existing Instance MiniRegex.engine_spec.
#[local] Existing Instance SignWitness.parser.
#[local] Existing Instance SignWitness.issuer_sound.
#[local] Existing Instance JwtWitness.codec.
#[local] Existing Instance BitWire.wire.
#[local] Existing Instance BitWire.wire_spec.

Definition settings : BrokerSettings :=
  NodeConfig.mkBroker "https://broker:8443/" "https://broker:8444" "ca" "/token" "svidlet-broker" 10 false 900.
Definition config : NodeConfig.Config :=
  mkConfig "svidlet" "node-1" "example.org" "a" "" "" "" "" "/var/lib/svidlet/volumes" DEFAULT_TEMPLATE None
    VaultSettings_unused (Some settings) (mkGate false 0) (Some 1000) 3600 (half, half) 10 60 0 0 "1m" 416 None 420 "" LInfo.

(** The kubelet's token map, holding the pod token for the broker's audience. *)
Definition json_value (text : string) : option Json :=
  if String.eqb text "tokens"
  then Some (JObject [("svidlet-broker", JObject [("token", JString "pt")])]) else None.
Definition req : PublishRequest :=
  mkPublish "csi-1" "/pods/u/mount" (<[vc.SERVICE_ACCOUNT_TOKENS := "tokens"]> NodeWitness.ctx).

Definition issuer : Issuer :=
  backend SignWitness.cfg SignWitness.policy SignWitness.kube SignWitness.kube SignWitness.issuer 150
    ClientWitness.broker ClientWitness.endpoint ClientWitness.files (fun _ => None) (fun _ => None).
Definition run : option (result Grpc unit * node) :=
  node_publish_volume 18 NodeWitness.keygen None config NodeWitness.policy json_value issuer 0 [] req NodeWitness.start.

Example publishes_through_broker : fst <$> run = Some (Ok tt).
Proof. vm_compute. reflexivity. Qed.


(** The same publish as one call of a process, followed by a renewal, with keys
    from a crate that knows how to ask for that one identity. *)
#[local] Instance crate : Rcgen := {|
  KeyPair := unit;
  generate_for := fun a _ => match a with PKCS_ECDSA_P256_SHA256 => Some tt | PKCS_ED25519 => None end;
  public_key_raw := fun _ => "k";
  serialize_pem := fun _ => "KEY";
  serialize_request := fun p _ =>
    match p with
    | mkParams [] [SanURI u] NoCa => if String.eqb u (SpiffeId_as_str SignWitness.id) then Some "csr" else None
    | _ => None
    end;
  request_pem := fun der => Some der |}.
#[local] Instance crate_spec : RcgenSpec SignWitness.parser.
Proof.
  split. intros a draw pair p der pem Hp Hd [= <-]. destruct a; [|done].
  cbn -[String.eqb SpiffeId_as_str SignWitness.id] in Hd. destruct p as [[|] [|[u|] [|]] []]; try done.
  destruct (String.eqb_spec u (SpiffeId_as_str SignWitness.id)) as [->|]; [|done]. injection Hd as <-.
  split; [done|]. eexists. split_and!; done.
Defined.
Definition then_ : moment :=
  mkMoment SignWitness.kube SignWitness.kube SignWitness.issuer 150 ClientWitness.broker ClientWitness.files.
Definition day : list fleet_event := [FPublish then_ 0 [] req; FRenewDue then_ 200 [200]; FReapOrphans].
Notation events := (fmap (to_event SignWitness.cfg SignWitness.policy ClientWitness.endpoint (fun _ => None) (fun _ => None))).
Definition whole_day : option node :=
  n ← start_up config NodeWitness.policy issuer 100 [] (n_host NodeWitness.start) 7;
  Process.run 18 Keys.generate None config NodeWitness.policy json_value n (events day).

Example day_mints : (fun n => (n_keys n, size (n_store n))) <$> whole_day = Some (2%nat, 1%nat).
Proof. vm_compute. reflexivity. Qed.

Lemma fleet_day_allowed : Forall fleet_permitted day.
Proof.
  unfold day. rewrite !Forall_cons. cbn -[then_]. unfold in_range.
  split_and!; try done; try lia; try exact SignWitness.issuer_sound. apply Forall_cons. split; [lia|done].
Qed.
Lemma fleet_durations : durations_ok config.
Proof. split; cbn; [lia..|]. intros b [= <-]. cbn. lia. Qed.

Lemma whole_day_run n0 n :
  start_up config NodeWitness.policy issuer 100 [] (n_host NodeWitness.start) 7 = Some n0 ->
  Process.run 18 Keys.generate None config NodeWitness.policy json_value n0 (events day) = Some n -> whole_day = Some n.
Proof. intros E0 E. apply bind_Some. exact (ex_intro _ n0 (conj E0 E)). Qed.

Lemma node_serves_attested_only_witness :
  exists n, whole_day = Some n /\ n_keys n = 2%nat /\
    forall k, vetted SignWitness.cfg SignWitness.policy ClientWitness.endpoint config NodeWitness.policy json_value day
      (n_host NodeWitness.start) 2 k (seen_identity (tree (n_host n) k)).
Proof.
  destruct (node_serves_attested_only SignWitness.cfg SignWitness.policy ClientWitness.endpoint (fun _ => None) (fun _ => None)
    18 None config NodeWitness.policy json_value issuer 100 [] (n_host NodeWitness.start) 7 day
    NodeWitness.start_ok (List.Forall_nil _)) as (n0 & n & E0 & E & Hv).
  - unfold in_range. lia.
  - exact fleet_durations.
  - exact fleet_day_allowed.
  - pose proof (whole_day_run _ _ E0 E) as Ed.
    pose proof day_mints as Hm. rewrite Ed in Hm. cbn in Hm. injection Hm as Hk _.
    exists n. rewrite Hk in Hv. exact (conj Ed (conj Hk Hv)).
Defined.
End SystemWitness.
